(* ===== verification/_CoqProject ===== *)
-Q . S2P
Prelude.v
Core.v
ErrorText.v
Diagnostics.v
DiagnosticsProps.v
TimerWheel.v
TimerInv.v
TimerSpec.v
TimerProps.v
Channel.v
SpinLock.v
Reactor.v
ReactorProps.v
Signal.v
SignalProps.v
World.v
Awaiters.v
AwaiterProps.v
EventLoop.v
LoopProps.v
WakeUp.v
Fs.v
FsProps.v
Address.v
Net.v
NetProps.v
Waits.v
Combinators.v
CombinatorProps.v
Races.v
RacesProps.v
ThreadPool.v
PoolProps.v
Task.v
TaskProps.v
Sched.v
SchedProps.v
Coroutines.v
CoBudget.v
CoTimers.v
CoInv.v
CoSteps.v
CoAwait.v
CoRun.v
CoLoop.v
CoProps.v
Pipes.v
Bridge.v
BridgeProps.v
Owners.v
Executor.v
ExecutorProps.v
Runtime.v
RuntimeProps.v
Construction.v
EchoServer.v
EchoProps.v
Supervisor.v
SupervisorProps.v
TourPool.v
