(* ===== verification/Prelude.v ===== *)
(** * Rain: a verification of the C++23 asynchronous runtime

    Rain (under [src/src/]) is a header-only runtime for coroutines: every core
    runs an event loop that owns an epoll reactor, a hierarchical timer wheel
    and the coroutine frames spawned on it; awaiters suspend coroutines into
    the reactor and the wheel; stop tokens cancel them; sockets, files and
    combinators are built on the awaiters; a mutex channel connects threads.
    This development translates those parts into Rocq functions and proves what
    each promises.

    ** Files, and the code they model

    - [Prelude.v]: machine integers at their width ([wrap], [swrap]), bit masks,
      tactics, the hint and rewrite database [rain].
    - [Core.v]: [core/result.hpp] ([SystemError], [Result]) and
      [async/concepts.hpp] ([WaitState], [IoEvent]); the memory [Mem] that
      components reach through raw pointers: wait states, result cells and
      coroutine frames.  Reading a dead pointer is [None], so a theorem that a
      call is [Some] is a memory-safety theorem.
    - [ErrorText.v]: the source location of an error and [SystemError::format].
    - [Diagnostics.v]: [core/diagnostics.hpp]: events, the installed sink, the
      counters of each core and their registry, the text of [StderrSink];
      [DiagnosticsProps.v].
    - [TimerWheel.v] (Module [Timer]): [HierarchicalTimerWheel] of
      [async/timer.hpp], one definition per member function.  [TimerInv.v]: the
      slot map and the shape of the levels; [TimerSpec.v]: the abstract agenda
      and the relation [Rel] between it and the wheel; [TimerProps.v]: theorems.
    - [SpinLock.v]: [sync/spinlock.hpp] for any number of threads.
    - [Reactor.v] (Module [Reactor]): [EpollReactor] of [async/io_reactor.hpp];
      [ReactorProps.v]: the laws of epoll it relies on ([EpollLaws]), the
      invariant [Armed], theorems, and two concrete kernels: [SimEpoll], and
      [TightEpoll], on which re-arming a descriptor can fail.
    - [Signal.v] (Module [Signal]): [async/signal.hpp] and the signal members of
      [EventLoop]; [SignalProps.v]: the laws of masks and signalfd
      ([SignalLaws]), theorems, a concrete kernel.
    - [World.v]: the state of one loop thread: [EventLoop]'s members, memory,
      stop states, kernel.  [Awaiters.v]: the readiness, timed and sleep
      awaiters of [net/io_awaiters.hpp] and [async/timer.hpp] with their stop
      callbacks, [std::stop_source::request_stop] and [std::stop_callback].
      [AwaiterProps.v]: one wake-up per suspension.
    - [EventLoop.v] (Module [EventLoop]): [async/event_loop.hpp];
      [LoopProps.v]: theorems about [run]; [WakeUp.v]: loop, reactor and wheel
      together: what one wait of the loop queues and the next iteration resumes.
    - [Channel.v] (Module [Channel]): [sync/channel.hpp] as critical sections
      and a step relation for the threads that use it.
    - [Fs.v] (Module [Fs]): [fs/metadata.hpp], [fs/detail.hpp], [fs/file.hpp],
      [fs/ops.hpp]; [FsProps.v]: the laws of the file system calls ([FileLaws]),
      theorems, a concrete file system ([SimFs]).
    - [Address.v] (Module [Address]): [net/address.hpp], byte for byte.
      [Net.v] (Module [Net]): [net/stream_io_ops.hpp], [net/socket_fd_ops.hpp],
      [net/listener_socket_ops.hpp], [net/tcp_stream.hpp],
      [net/tcp_listener.hpp], the connect and accept awaiters and the
      [ReadAwaiter]/[WriteAwaiter] of [async/io_reactor.hpp]; [NetProps.v]:
      the laws of sockets, theorems, a concrete kernel ([SimNet]).  [Waits.v]:
      the awaiters of [Awaiters.v] implement the waits [Net.v] is written over.
    - [Combinators.v] (Module [Combinators]): [async/combinators.hpp];
      [CombinatorProps.v]: theorems.  [Races.v], [RacesProps.v]: the racers
      spawned on a loop, and the winner's stop requests.
    - [ThreadPool.v] (Module [ThreadPool]): [runtime/thread_pool.hpp] as clients,
      workers and shutdown interleaving over [Channel.v]; [PoolProps.v].
    - [Task.v] (Module [Task]): [async/task.hpp]: promises, frames, symmetric
      transfer, token propagation, join handles, and a machine that runs
      coroutine bodies on frames; [TaskProps.v]: its agreement with the direct
      style in which [Net.v], [Fs.v] and [Combinators.v] write coroutines.
      [Sched.v] (Module [Sched]): the frames of several tasks on one
      [EventLoop], spawned, resumed and cleaned up; [SchedProps.v].  [Pipes.v]:
      the pipe operators and [retry] as coroutines on frames.
    - [Coroutines.v] (Module [Coroutines]): [Task.v], [Awaiters.v] and
      [EventLoop.v] as one machine: a frame that reaches a readiness, timed or
      sleep awaiter suspends into the reactor and the wheel, and the loop resumes
      the handle they queue.  [CoBudget.v]: bounded bodies; [CoTimers.v]: the
      wheel's slot identifiers; [CoInv.v]: the invariant [Good]; [CoSteps.v],
      [CoAwait.v], [CoRun.v], [CoLoop.v]: that events, awaiting, running frames
      and whole iterations keep it; [CoProps.v]: traces and theorems.
    - [Bridge.v] (Module [Bridge]): [runtime/bridge.hpp]: the eventfd notifier and
      [BlockingAwaiter], worker and loop interleaving; [BridgeProps.v].
    - [Executor.v] (Module [Executor]): [runtime/executor.hpp]: workers with a loop
      each, fault policy, stop, graceful stop and its watchdog, join;
      [ExecutorProps.v].
    - [Runtime.v] (Module [Runtime]): [runtime/runtime.hpp]: builder, thread-locals
      and [block_on] on the machine of [Task.v]; [RuntimeProps.v].
      [Construction.v]: building loops, executors and runtimes.
    - [Owners.v]: the interface ([Owner], [OwnerLaws]) of the objects that own a
      descriptor or a frame, its seven implementations, and programs over them.
    - The programs of [rain_tour/examples]: [EchoServer.v], [EchoProps.v]: the
      coroutine echo server; [Supervisor.v], [SupervisorProps.v]: the crash
      supervisor and its processes; [TourPool.v]: the job pool with futures.

    ** What the theorems show

    - Timers: the wheel refines an agenda of (identifier, tick, entry) under
      every sequence of operations; a timer is live exactly until the tick of
      its deadline, with the two exceptions stated as theorems of their own
      (timers that cascade into the slot being processed fire 255 ms early,
      overdue deadlines wait a revolution); ticking is memory safe, completes
      what is due, and identifiers are never confused after reuse.
    - The wheel's data stay within their types under every operation.
    - Reactor: waiters stay armed in the kernel although events are one-shot and
      one registration serves two directions, except on the descriptors whose
      re-arming [epoll_ctl] refused (the set [lost]; the reactor drops that error,
      and a theorem shows the wait it silences); a poll queues exactly the
      selected waiters whose wait is not settled and touches no other wait;
      registration is all or nothing, and a refused one names its error.
    - Awaiters: under every interleaving of reactor, timer, foreign activity and
      cancellation by a thread that runs the loop a suspended coroutine is queued
      exactly once, and resuming leaves no waiter, timer or stop callback pointing
      into its frame; a cancellation from a thread without a loop settles a read
      or write wait and queues nobody.
    - Event loop: no task is dropped by an iteration; [run] returns only when
      idle or stopped; what the exit check does and does not guarantee; a
      coroutine whose descriptor was reported or whose timer's tick has passed is
      queued by the wait and resumed by the next iteration, the others wait on.
    - Channel: conservation and order of values, bounded capacity, no lost
      wake-up, for any number of threads.
    - Files and sockets: round trips, byte streams in order and without loss,
      termination of the loops under interruption, no leaked descriptor on any
      path, offset and length arithmetic without overflow; the awaiter objects
      implement the waits these operations are written over.
    - Owners: whatever is moved, assigned, closed or destroyed, each descriptor and
      each task's frame is released exactly once; a runtime that cannot be built
      leaves no descriptor behind.
    - Combinators: results and wake-ups of [when_all], [when_any], [timeout] and
      [retry]; laws of the pipes; and that the races hand out a moved-from
      result; on a loop, that the winner of a race cancels every pending wait of
      the losers, queues each of their coroutines once and then the waiter.
    - Thread pool: every accepted closure runs exactly once before [shutdown]
      returns, and [shutdown] returns.
    - Tasks: running frames with symmetric transfer is calling: same leaf
      awaits, same result, the cancellation token at every leaf, no frame left;
      many tasks on one loop do not interfere, whatever the order of their events;
      the pipes and [retry], as coroutines, compute the functions of
      [Combinators.v], and [retry] on frames runs its factory until the first
      success or the last attempt.
    - Coroutines on a loop: every trace of the composed machine - spawning,
      iterations of the loop, with whatever the kernel reports - is one of an
      abstract system in which tasks in direct style take answers; each task the
      loop owns is where direct style is, each suspended coroutine is pending and
      unqueued or settled and queued once, and every waiter, timer and callback
      belongs to one; no coroutine sleeps past a deadline the loop has seen pass;
      iterations return; a [run] that ends idle holds nothing.
      And that a timed wait with timeout zero strands another coroutine's wait.
    - Bridge: the awaiting coroutine is resumed once, with the result of its own
      closure, and the eventfd is closed after the last write.
    - Executor: join reports the first fault exactly when there is one; a stop
      ends every worker; under fail-fast one fault stops all; start is all or
      nothing; and a graceful stop requested from outside strands the services
      that wait for I/O.
    - Runtime: [block_on] returns what its task returns in direct style, captured
      before [run] destroys the finished frame, and leaves no frame behind.
    - Signals: destruction restores the mask, a wait delivers a pending signal, and
      adding signals twice unblocks them.
    - Diagnostics and spin lock: exact counters, printed fields, mutual exclusion.
    - Tour: the echo server sends back what it is sent, in order, never resumes a
      dead coroutine, and keeps every suspended one armed unless the kernel
      refused to add its socket, which the server does not check; the supervisor owns exactly its children and
      leaves none, but its alarm can be lost; the job pool drains.

    ** Conventions and bounds

    Time is [Z] nanoseconds of [steady_clock] and is not bounded; tick counts,
    generations, counters and offsets keep their width, with wrap-around written
    out, and theorems state the ranges they need ([time_ok], [schedule_room]).
    Coroutine handles and pointers are numbers; a null handle or pointer is
    [None].  Loops that are not structural take fuel and give [None] when it
    runs out: [advance_to] computes its own fuel from the distance to the target
    ([advance_to_reaches] shows it suffices); the loops over system calls need
    the length of the data plus the [patience] of the kernel, the number of
    times it can still interrupt or refuse a call, which is a hypothesis about
    the environment; [run_loop] may run for ever in the program, and its
    theorems speak of the runs that return.  In [Coroutines.v] the fuel bounds
    what a coroutine does between two suspensions, and [iterations_return] shows
    that enough exists.  The theorems on traces let the spawned coroutines make
    fewer than 2{^24} awaits in all, so that the indices (24 bits) and generations of
    timer identifiers are not used up, and take the clock to stay within 2{^61}
    nanoseconds, 73 years, of the construction of the loop.

    Code outside the repository is a parameter: system calls are the classes
    [EpollKernel], [LoopKernel], [FileKernel], [IoEnv], [SocketKernel],
    [EventfdKernel], [SignalKernel], [ProcKernel], [EchoKernel], text
    conversion of addresses is [Inet], resuming a coroutine is a function on the
    world, and the blocking pool runs the function it is given.  Every law
    assumed of them is a class with a concrete instance, on which the witnesses
    evaluate.  No law says that an [epoll_ctl] succeeds.

    ** Not modelled

    Type aliases, concepts and deleted members; memory orders (each atomic access is
    one step of an interleaving); accessors that only return a member; the tests and
    the benchmark, which are client programs; what the programs of the tour print,
    and the [main] of the job pool.  The text of system error messages is a
    parameter.  The installed thread-local globals ([g_reactor], [g_timer],
    [g_event_loop]) are those of the one loop that is running.  The direct style of
    [Combinators.v] takes the order in which racers complete as given.  Coroutine
    bodies are trees of awaits over one type of values, and [inspect] and
    [inspect_err] are modelled in direct style only; in [EventLoop.v] resuming a
    coroutine is a parameter, [Sched.v] has the frames with the completion of leaf
    awaiters as the parameter, and [Coroutines.v] has both for the awaiters of
    [Awaiters.v]; there a coroutine does not spawn others, and no other thread
    submits tasks. *)

From Stdlib Require Export ZArith Lia Bool.
From stdpp Require Export base gmap list strings option numbers sorting.

(** ** Machine integers

    A [w]-bit unsigned integer is a [Z] in [0, 2^w); arithmetic that can
    leave the range is written with an explicit [wrap]. *)

Declare Scope rain_scope.
Delimit Scope rain_scope with rain.
#[global] Open Scope Z_scope.

Definition wrap (w z : Z) : Z := z mod 2 ^ w.

Abbreviation u8 := (wrap 8).
Abbreviation u16 := (wrap 16).
Abbreviation u32 := (wrap 32).
Abbreviation u64 := (wrap 64).

(** Unsigned arithmetic at a width. *)
Notation "a +u[ w ] b" := (wrap w (a + b)) (at level 50, left associativity, format "a  +u[ w ]  b") : rain_scope.
Notation "a -u[ w ] b" := (wrap w (a - b)) (at level 50, left associativity, format "a  -u[ w ]  b") : rain_scope.

(** Conversion to a signed [w]-bit integer (two's complement). *)
Definition swrap (w z : Z) : Z := (z + 2 ^ (w - 1)) mod 2 ^ w - 2 ^ (w - 1).

Abbreviation i32 := (swrap 32).
Abbreviation i64 := (swrap 64).

Lemma wrap_small w z : 0 <= z < 2 ^ w -> wrap w z = z.
Proof. intros. by apply Z.mod_small. Qed.

Lemma wrap_range w z : 0 <= w -> 0 <= wrap w z < 2 ^ w.
Proof. intros. apply Z.mod_pos_bound. by apply Z.pow_pos_nonneg. Qed.

Lemma swrap_small w z : 0 < w -> - 2 ^ (w - 1) <= z < 2 ^ (w - 1) -> swrap w z = z.
Proof.
  intros Hw Hz. unfold swrap.
  assert (2 ^ w = 2 * 2 ^ (w - 1)) as E.
  { rewrite <- Z.pow_succ_r by lia. f_equal. lia. }
  rewrite Z.mod_small; lia.
Qed.

(** ** Tactics *)

(** Evaluates the constant powers of two. *)
Ltac zpow :=
  repeat match goal with
  | |- context [2 ^ Zpos ?k] =>
    let v := eval vm_compute in (2 ^ Zpos k) in change (2 ^ Zpos k) with v in *
  | _ : context [2 ^ Zpos ?k] |- _ =>
    let v := eval vm_compute in (2 ^ Zpos k) in change (2 ^ Zpos k) with v in *
  end.

(** Linear arithmetic with division and modulo by constants. *)
Ltac zdiv := zpow; Z.div_mod_to_equations; lia.

(** Case analysis on every boolean integer comparison of the goal. *)
Ltac case_cmp :=
  repeat match goal with
  | |- context [?a <? ?b] => destruct (Z.ltb_spec a b)
  | |- context [?a <=? ?b] => destruct (Z.leb_spec a b)
  | |- context [?a =? ?b] => destruct (Z.eqb_spec a b)
  end.

(** ** Automation *)

Create HintDb rain discriminated.
Create Rewrite HintDb rain.
#[export] Hint Resolve wrap_range : rain.
#[export] Hint Rewrite wrap_small using (zpow; lia) : rain.
#[export] Hint Rewrite swrap_small using (zpow; lia) : rain.

(** ** Bits *)

Lemma testbit_high a k n : 0 <= a < 2 ^ n -> n <= k -> Z.testbit a k = false.
Proof.
  intros Ha Hk. destruct (Z.eq_dec a 0) as [->|]; [apply Z.bits_0|].
  apply Z.bits_above_log2; [lia|]. apply Z.log2_lt_pow2; [lia|].
  eapply Z.lt_le_trans; [apply Ha|]. apply Z.pow_le_mono_r; lia.
Qed.

(** Or-ing a number below [2^n] into a multiple of [2^n] adds it. *)
Lemma lor_low_bits a n low : 0 <= n -> 0 <= low < 2 ^ n -> Z.lor (a * 2 ^ n) low = a * 2 ^ n + low.
Proof.
  intros Hn Hl.
  assert (Z.land (a * 2 ^ n) low = 0) as E.
  { apply Z.bits_inj'. intros k Hk. rewrite Z.land_spec, Z.bits_0.
    destruct (Z.ltb_spec k n); [by rewrite Z.mul_pow2_bits_low|].
    rewrite (testbit_high low k n), andb_false_r; [done|lia|lia]. }
  by rewrite Z.add_nocarry_lxor, Z.lxor_lor.
Qed.

(** Testing a mask of one bit. *)
Lemma land_single a k : 0 <= k -> negb (Z.land a (2 ^ k) =? 0) = Z.testbit a k.
Proof.
  intros Hk. assert (Z.land a (2 ^ k) = if Z.testbit a k then 2 ^ k else 0) as ->.
  { apply Z.bits_inj'. intros n Hn. rewrite Z.land_spec, Z.pow2_bits_eqb by lia.
    destruct (Z.eqb_spec k n) as [->|]; [|by destruct (Z.testbit a k); rewrite ?Z.pow2_bits_false, ?Z.bits_0, ?andb_false_r by done].
    rewrite andb_true_r. destruct (Z.testbit a n) eqn:E; [by rewrite Z.pow2_bits_true|by rewrite Z.bits_0]. }
  pose proof (Z.pow_pos_nonneg 2 k). destruct (Z.testbit a k); [destruct (Z.eqb_spec (2 ^ k) 0); [lia|done]|done].
Qed.

(** Testing a mask of two parts. *)
Lemma land_either a m n : negb (Z.land a (Z.lor m n) =? 0) = negb (Z.land a m =? 0) || negb (Z.land a n =? 0).
Proof.
  rewrite Z.land_lor_distr_r. destruct (Z.eqb_spec (Z.lor (Z.land a m) (Z.land a n)) 0) as [E|E].
  - apply Z.lor_eq_0_iff in E as [-> ->]. done.
  - destruct (Z.eqb_spec (Z.land a m) 0) as [E1|]; [|done]. destruct (Z.eqb_spec (Z.land a n) 0) as [E2|]; [|done].
    rewrite E1, E2 in E. done.
Qed.
