(* ===== verification/Core.v ===== *)
(** * Core: [core/result.hpp], [core/types.hpp] and [async/concepts.hpp]

    Results and errors, the wait states shared by the reactor, the timer
    wheel and the awaiters, the backend-independent I/O event flags, and the
    memory those components reach through pointers. *)

From S2P Require Import Prelude.

(** ** Errors and results *)

(** [std::system_category().message(err)] is kept symbolic. *)
Inductive Message :=
| Lit (s : string)
| SysMessage (err : Z).

(** [SystemError]; its [source_location] only serves printing: see [ErrorText.v]. *)
Record SystemError := mkError { code : Z; message : Message }.

Inductive Result (T : Type) :=
| Ok (v : T)
| Err (e : SystemError).
Arguments Ok {T} _.
Arguments Err {T} _.

#[global] Instance Message_eq_dec : EqDecision Message.
Proof. solve_decision. Defined.
#[global] Instance SystemError_eq_dec : EqDecision SystemError.
Proof. solve_decision. Defined.
#[global] Instance Result_eq_dec `{EqDecision T} : EqDecision (Result T).
Proof. solve_decision. Defined.

(** The [errc] enumerators and [errno] values of Linux that the sources name. *)
Definition EPERM : Z := 1.
Definition ENOENT : Z := 2.
Definition EINTR : Z := 4.
Definition EIO : Z := 5.
Definition EBADF : Z := 9.
Definition EAGAIN : Z := 11.
Definition EBUSY : Z := 16.
Definition EINVAL : Z := 22.
Definition EPIPE : Z := 32.
Definition EMSGSIZE : Z := 90.
Definition ETIMEDOUT : Z := 110.
Definition EINPROGRESS : Z := 115.
Definition ECANCELED : Z := 125.

Definition from_errno (err : Z) : SystemError :=
  {| code := err; message := SysMessage err |}.

Definition make_error (c : Z) (msg : string) : SystemError :=
  {| code := c; message := Lit msg |}.

Definition is_ok {T} (r : Result T) : bool :=
  match r with Ok _ => true | Err _ => false end.

(** [std::optional::has_value] *)
Definition has_value {A} (o : option A) : bool := match o with Some _ => true | None => false end.

(** A system call returns a value or fails with an [errno]. *)
Inductive SysRet (A : Type) :=
| SOk (a : A)
| SErr (errno : Z).
Arguments SOk {A} _.
Arguments SErr {A} _.

(** ** Wait states *)

Inductive WaitState := Pending | Ready | TimedOut | Cancelled.

#[global] Instance WaitState_eq_dec : EqDecision WaitState.
Proof. solve_decision. Defined.

(** ** I/O event flags *)

Module IoEvent.

Definition None_ : Z := 0.
Definition Read : Z := Z.shiftl 1 0.
Definition Write : Z := Z.shiftl 1 1.
Definition Error : Z := Z.shiftl 1 2.
Definition HangUp : Z := Z.shiftl 1 3.
Definition EdgeTrig : Z := Z.shiftl 1 4.
Definition OneShot : Z := Z.shiftl 1 5.

Definition or (lhs rhs : Z) : Z := Z.lor lhs rhs.
Definition and (lhs rhs : Z) : Z := Z.land lhs rhs.
Definition not (val : Z) : Z := u32 (Z.lnot val).
Definition has_flag (set flag : Z) : bool := and set flag =? flag.

End IoEvent.

(** ** Memory reached through pointers

    [WaitState*] and [Result<usize>*] point into awaiters that live in
    coroutine frames; [std::coroutine_handle<>] names a frame.  A handle or a
    pointer is an [option nat], [None] being the null value.  [frames] maps a
    live frame to whether it is at its final suspend point. *)

Abbreviation handle := (option nat).
Abbreviation ptr := (option nat).

Record Mem := mkMem {
  ws_cells : gmap nat WaitState;
  res_cells : gmap nat (Result Z);
  frames : gmap nat bool;
}.

Definition empty_mem : Mem := mkMem ∅ ∅ ∅.

Definition set_ws (p : nat) (v : WaitState) (m : Mem) : Mem :=
  mkMem (<[p := v]> (ws_cells m)) (res_cells m) (frames m).

Definition set_res (p : nat) (v : Result Z) (m : Mem) : Mem :=
  mkMem (ws_cells m) (<[p := v]> (res_cells m)) (frames m).

(** The race shared by the reactor and the timer wheel:
    [if (state) { if ( *state != Pending) return; *state = completion; }].
    The boolean says whether the caller goes on; [None] is the undefined
    behaviour of a dangling state pointer. *)
Definition claim (state : ptr) (completion : WaitState) (m : Mem) : option (bool * Mem) :=
  match state with
  | None => Some (true, m)
  | Some p =>
    v ← ws_cells m !! p;
    if decide (v = Pending) then Some (true, set_ws p completion m) else Some (false, m)
  end.

(** [handle && !handle.done()]; asking a destroyed frame is undefined. *)
Definition resumable (h : handle) (m : Mem) : option bool :=
  match h with
  | None => Some false
  | Some f => d ← frames m !! f; Some (negb d)
  end.

(** [if (result) *result = v;] with the same reading of a dangling pointer. *)
Definition store_res (result : ptr) (v : Result Z) (m : Mem) : option Mem :=
  match result with
  | None => Some m
  | Some p => _ ← res_cells m !! p; Some (set_res p v m)
  end.
