(* ===== verification/ErrorText.v ===== *)
(** * ErrorText: the text of an error

    [SystemError::format] and [to_string] of [core/result.hpp], with the source
    location an error carries for it. *)

From S2P Require Import Prelude Core.
From stdpp Require Import pretty.
From Stdlib Require Import Ascii.

Module ErrorText.

(** [std::source_location] *)
Record Location := mkLocation { file_name : string; line : Z }.

Section Format.
(** [std::system_category().message] *)
Variable sys_message : Z -> string.

Definition message_text (m : Message) : string := match m with Lit s => s | SysMessage err => sys_message err end.

Definition format (loc : Location) (e : SystemError) : string :=
  file_name loc +:+ ":" +:+ pretty (line loc) +:+ " [" +:+ pretty (code e) +:+ "] " +:+ message_text (message e).

Definition to_string : Location -> SystemError -> string := format.

(** ** The code can be read back *)

Fixpoint free_of (c : ascii) (s : string) : Prop :=
  match s with EmptyString => True | String a s => a <> c /\ free_of c s end.

Lemma digit_not_bracket n : pretty_N_char n <> "]"%char.
Proof. unfold pretty_N_char. by repeat case_match. Qed.

Lemma pretty_N_go_free n : forall s, free_of "]" s -> free_of "]" (pretty_N_go n s).
Proof.
  induction (N.lt_wf_0 n) as [n _ IH]. intros s Hs. destruct (decide (n = 0%N)) as [->|Hn]; [by rewrite pretty_N_go_0|].
  rewrite pretty_N_go_step by lia. apply IH; [apply N.div_lt; lia|]. split; [apply digit_not_bracket|done].
Qed.

Lemma pretty_N_free (n : N) : free_of "]" (pretty n).
Proof. unfold pretty, pretty_N. destruct (decide (n = 0%N)); [by cbn|by apply pretty_N_go_free]. Qed.

Lemma pretty_Z_free (z : Z) : free_of "]" (pretty z).
Proof. destruct z as [|p|p]; [by cbn|apply (pretty_N_free (Npos p))|split; [done|apply (pretty_N_free (Npos p))]]. Qed.

Lemma cut_at c s1 s2 t1 t2 :
  free_of c s1 -> free_of c s2 -> s1 +:+ String c t1 = s2 +:+ String c t2 -> s1 = s2 /\ t1 = t2.
Proof.
  revert s2. induction s1 as [|a s1 IH]; intros [|b s2] H1 H2 E; cbn in *; simplify_eq; [done|tauto|tauto|].
  destruct (IH s2) as [-> ->]; tauto.
Qed.

(** Two errors of one place are printed alike only if they are the same error:
    the code and the message text can be read off the line. *)
Theorem format_injective loc e1 e2 :
  format loc e1 = format loc e2 -> code e1 = code e2 /\ message_text (message e1) = message_text (message e2).
Proof.
  unfold format. intros E. do 4 apply (inj (String.append _)) in E.
  apply (cut_at "]") in E as [Ec Et]; [|apply pretty_Z_free..]. apply (inj pretty) in Ec. split; [done|].
  by apply (inj (String.append " ")) in Et.
Qed.

End Format.

Example format_example :
  format (fun _ => "Bad file descriptor") (mkLocation "loop.hpp" 199) (from_errno EBADF) = "loop.hpp:199 [9] Bad file descriptor".
Proof. reflexivity. Qed.

End ErrorText.
