(* ===== verification/Diagnostics.v ===== *)
(** * Diagnostics: [core/diagnostics.hpp]

    Structured events sent to an installed sink, per-core counters reached
    through a thread-local pointer, the registry of counters that a scraper
    walks, and the sink that prints to stderr. *)

From stdpp Require Import pretty.
From S2P Require Import Prelude Core.

Module Diag.

(** ** Events *)

Inductive Severity := Trace | Debug | Info | Warn | Error.

Inductive Kind := I64 | U64 | Str.

(** Both integer kinds share the signed [ival]. *)
Record Field := mkField { key : string; kind : Kind; ival : Z; sval : string }.

Definition field_i (k : string) (v : Z) : Field := mkField k I64 v "".
Definition field_u (k : string) (v : Z) : Field := mkField k U64 (i64 v) "".
Definition field_s (k v : string) : Field := mkField k Str 0 v.

Record Event := mkEvent { ecode : string; severity : Severity; error : option SystemError; fields : list Field }.

(** ** The installed sink

    [O]: what sinks write to.  A [SinkRef] is the function it calls; the global
    holds one or none. *)

Section Sinks.
Context {O : Type}.

#[local] Abbreviation SinkRef := (Event -> O -> O).

Definition install_sink (s : SinkRef) (g : option SinkRef) : option SinkRef := Some s.
Definition reset_sink (g : option SinkRef) : option SinkRef := None.
Definition enabled (g : option SinkRef) : bool := has_value g.
Definition emit (g : option SinkRef) (e : Event) (o : O) : O := match g with Some s => s e o | None => o end.

(** [ScopedSink]: its constructor, its destructor, and a scope that holds one. *)
Definition scoped_enter (s : SinkRef) (g : option SinkRef) : option SinkRef := install_sink s g.
Definition scoped_leave (g : option SinkRef) : option SinkRef := reset_sink g.

End Sinks.

(** ** Counters *)

Record CoreMetrics := mkMetrics {
  accept_failed : Z; inflight_connections : Z; coroutine_exceptions : Z;
  blocking_exceptions : Z; reactor_rearm_failed : Z; loop_run_errors : Z
}.

Definition fresh_metrics : CoreMetrics := mkMetrics 0 0 0 0 0 0.

Inductive Counter :=
| AcceptFailed | InflightConnections | CoroutineExceptions | BlockingExceptions | ReactorRearmFailed | LoopRunErrors.

#[global] Instance Counter_eq_dec : EqDecision Counter.
Proof. solve_decision. Defined.

Definition read_counter (f : Counter) (m : CoreMetrics) : Z :=
  match f with
  | AcceptFailed => accept_failed m
  | InflightConnections => inflight_connections m
  | CoroutineExceptions => coroutine_exceptions m
  | BlockingExceptions => blocking_exceptions m
  | ReactorRearmFailed => reactor_rearm_failed m
  | LoopRunErrors => loop_run_errors m
  end.

Definition write_counter (f : Counter) (v : Z) (m : CoreMetrics) : CoreMetrics :=
  let '(mkMetrics a b c d e g) := m in
  match f with
  | AcceptFailed => mkMetrics v b c d e g
  | InflightConnections => mkMetrics a v c d e g
  | CoroutineExceptions => mkMetrics a b v d e g
  | BlockingExceptions => mkMetrics a b c v e g
  | ReactorRearmFailed => mkMetrics a b c d v g
  | LoopRunErrors => mkMetrics a b c d e v
  end.

(** [fetch_add] and [fetch_sub] on [atomic<u64>]. *)
Definition fetch_add (f : Counter) (n : Z) (m : CoreMetrics) : CoreMetrics := write_counter f (u64 (read_counter f m + n)) m.
Definition fetch_sub (f : Counter) (n : Z) (m : CoreMetrics) : CoreMetrics := write_counter f (u64 (read_counter f m - n)) m.

(** The counters of all cores, by address; [g]: the thread's [g_metrics].
    [None]: the pointer dangles. *)
#[local] Abbreviation Store := (gmap nat CoreMetrics).

Definition count (g : ptr) (f : Counter) (n : Z) (st : Store) : option Store :=
  match g with
  | None => Some st
  | Some p => m ← st !! p; Some (<[p := fetch_add f n m]> st)
  end.

Definition inflight_enter (g : ptr) (st : Store) : option Store := count g InflightConnections 1 st.

Definition inflight_leave (g : ptr) (st : Store) : option Store :=
  match g with
  | None => Some st
  | Some p => m ← st !! p; Some (<[p := fetch_sub InflightConnections 1 m]> st)
  end.

(** ** The registry; each operation runs under its mutex *)

Definition registry_add (m : nat) (cores : list nat) : list nat := cores ++ [m].
Definition registry_remove (m : nat) (cores : list nat) : list nat := filter (fun x => x <> m) cores.

(** [for_each]: what the callback sees, in order. *)
Fixpoint for_each (cores : list nat) (st : Store) : option (list CoreMetrics) :=
  match cores with
  | [] => Some []
  | p :: cores => m ← st !! p; ms ← for_each cores st; Some (m :: ms)
  end.

(** ** [StderrSink]

    [strerror]: the text of [std::system_category().message]. *)

Section Stderr.
Variable strerror : Z -> string.

(** A ["%s"] conversion stops at a null byte. *)
Fixpoint until_nul (s : string) : string :=
  match s with
  | EmptyString => EmptyString
  | String c s => if Ascii.eqb c Ascii.zero then EmptyString else String c (until_nul s)
  end.

Definition severity_name (s : Severity) : string :=
  match s with Trace => "TRACE" | Debug => "DEBUG" | Info => "INFO" | Warn => "WARN" | Error => "ERROR" end.

Definition message_text (m : Message) : string := match m with Lit s => s | SysMessage e => strerror e end.

Definition field_text (f : Field) : string :=
  " " +:+ until_nul (key f) +:+ "=" +:+
  match kind f with Str => until_nul (sval f) | I64 | U64 => pretty (ival f) end.

Definition event_text (e : Event) : string :=
  "[" +:+ severity_name (severity e) +:+ "] " +:+ until_nul (ecode e) +:+
  match error e with
  | Some err => " errno=" +:+ pretty (code err) +:+ " msg=" +:+ until_nul (message_text (message err))
  | None => ""
  end +:+ foldr (fun f rest => field_text f +:+ rest) "" (fields e) +:+ String (Ascii.ascii_of_nat 10) "".

(** The sink appends to what was printed. *)
Definition stderr_emit (e : Event) (out : string) : string := out +:+ event_text e.

End Stderr.
End Diag.
