(* ===== verification/DiagnosticsProps.v ===== *)
(** * DiagnosticsProps: counters, guards, the registry and what is printed *)

From stdpp Require Import pretty.
From S2P Require Import Prelude Core Diagnostics.

Module DiagProps.
Import Diag.

(** ** Counters *)

Lemma read_write f g v m : read_counter g (write_counter f v m) = if decide (g = f) then v else read_counter g m.
Proof. destruct m, f, g; reflexivity. Qed.

(** What a thread does to its own counters between installing and removing
    them: count, or open and close an in-flight guard. *)
Inductive Op := OpCount (f : Counter) (n : Z) | OpEnter | OpLeave.

Definition run_op (g : ptr) (op : Op) (st : gmap nat CoreMetrics) : option (gmap nat CoreMetrics) :=
  match op with
  | OpCount f n => count g f n st
  | OpEnter => inflight_enter g st
  | OpLeave => inflight_leave g st
  end.

(** The threads' operations in the order they take effect. *)
Fixpoint run_ops (ops : list (ptr * Op)) (st : gmap nat CoreMetrics) : option (gmap nat CoreMetrics) :=
  match ops with
  | [] => Some st
  | (g, op) :: ops => st ← run_op g op st; run_ops ops st
  end.

(** What an operation adds to counter [f] of [p]. *)
Definition op_delta (p : nat) (f : Counter) (x : ptr * Op) : Z :=
  if decide (x.1 = Some p) then
    match x.2 with
    | OpCount f' n => if decide (f = f') then n else 0
    | OpEnter => if decide (f = InflightConnections) then 1 else 0
    | OpLeave => if decide (f = InflightConnections) then -1 else 0
    end
  else 0.

Definition total (p : nat) (f : Counter) (ops : list (ptr * Op)) : Z :=
  foldr (fun x acc => op_delta p f x + acc) 0 ops.

Definition counter_at (st : gmap nat CoreMetrics) (p : nat) (f : Counter) : option Z := read_counter f <$> st !! p.

(** One operation through a live pointer. *)
Lemma run_op_spec g op st :
  (forall p, g = Some p -> is_Some (st !! p)) ->
  exists st', run_op g op st = Some st' /\ dom st' = dom st /\
    forall p f v, counter_at st p f = Some v -> 0 <= v < 2 ^ 64 ->
      counter_at st' p f = Some (u64 (v + op_delta p f (g, op))).
Proof.
  intros Hg. assert (forall v : Z, 0 <= v < 2 ^ 64 -> Some v = Some (u64 (v + 0))) as Hsame.
  { intros v Hv. by rewrite Z.add_0_r, wrap_small. }
  destruct g as [q|]; [|by exists st; split_and!; [destruct op| |intros p f v Hc Hv; rewrite Hc; destruct op; apply Hsame]].
  destruct (Hg q eq_refl) as [m Hm].
  assert (forall m', dom (<[q := m']> st) = dom st) as Hdom by (intros m'; apply dom_insert_lookup_L; eauto).
  destruct op as [f' n| |]; cbn; rewrite Hm; cbn; eexists; (split; [reflexivity|]); (split; [apply Hdom|]);
    intros p f v Hc Hv; unfold counter_at in *; unfold op_delta; cbn [fst snd];
    (destruct (decide (Some q = Some p)) as [[= ->]|Hne];
      [|rewrite lookup_insert_ne by congruence; rewrite Hc; by apply Hsame]);
    rewrite Hm in Hc; injection Hc as <-; rewrite lookup_insert_eq; cbn; unfold fetch_add, fetch_sub; rewrite read_write;
    (destruct (decide _); [by subst|by apply Hsame]).
Qed.

(** Per-core counters are exact.  Any interleaving of threads that count
    and open and close in-flight guards through live pointers (or through none,
    when nothing is installed) is memory safe, and leaves in every counter of
    every core the value it had plus what was counted on that core alone,
    modulo [2^64]; in particular balanced guards leave the number of in-flight
    connections as it was. *)
Theorem counters_exact ops st :
  Forall (fun x => forall p, x.1 = Some p -> is_Some (st !! p)) ops ->
  exists st', run_ops ops st = Some st' /\ dom st' = dom st /\
    forall p f v, counter_at st p f = Some v -> 0 <= v < 2 ^ 64 ->
      counter_at st' p f = Some (u64 (v + total p f ops)).
Proof.
  revert st. induction ops as [|[g op] ops IH]; intros st Hops; cbn [run_ops total foldr].
  - exists st. split_and!; [done..|]. intros p f v -> Hv. by rewrite Z.add_0_r, wrap_small.
  - inversion_clear Hops as [|?? Hg Hrest]. destruct (run_op_spec g op st Hg) as (st1 & -> & D1 & C1). cbn [mbind option_bind].
    destruct (IH st1) as (st2 & E2 & D2 & C2).
    { eapply Forall_impl; [exact Hrest|]. intros x Hx p Hp. apply elem_of_dom. rewrite D1. apply elem_of_dom. by apply Hx. }
    exists st2. split_and!; [done|congruence|]. intros p f v Hc Hv. erewrite C2; [|by apply C1|by apply wrap_range].
    f_equal. unfold wrap. rewrite Zplus_mod_idemp_l. f_equal. change (foldr _ 0 ops) with (total p f ops). lia.
Qed.

(** ** The registry *)

Lemma remove_add m cores : m ∉ cores -> registry_remove m (registry_add m cores) = cores.
Proof.
  intros Hm. unfold registry_remove, registry_add. rewrite filter_app.
  rewrite (filter_cons_False _ m []), filter_nil, app_nil_r by naive_solver.
  induction cores as [|x cores IH]; [done|]. rewrite not_elem_of_cons in Hm. rewrite filter_cons_True by naive_solver.
  f_equal. apply IH. tauto.
Qed.

Lemma registry_remove_elem m x cores : x ∈ registry_remove m cores <-> x ∈ cores /\ x <> m.
Proof. unfold registry_remove. rewrite list_elem_of_filter. naive_solver. Qed.

Lemma for_each_safe cores st : (forall p, p ∈ cores -> is_Some (st !! p)) -> is_Some (for_each cores st).
Proof.
  induction cores as [|p cores IH]; intros Hl; cbn; [eauto|]. destruct (Hl p) as [m ->]; [constructor|]. cbn.
  destruct IH as [ms ->]; [set_solver|]. cbn. eauto.
Qed.

(** ** Printing *)

(** What [StderrSink] prints for an integer field: the value of an [I64]
    field and of a [U64] field below [2^63]; a [U64] field from [2^63] on is
    printed as the negative number with the same bits. *)
Theorem stderr_integer_fields (k : string) v :
  (- 2 ^ 63 <= v < 2 ^ 63 -> field_text (field_i k v) = " " +:+ until_nul k +:+ "=" +:+ pretty v) /\
  (0 <= v < 2 ^ 63 -> field_text (field_u k v) = " " +:+ until_nul k +:+ "=" +:+ pretty v) /\
  (2 ^ 63 <= v < 2 ^ 64 -> field_text (field_u k v) = " " +:+ until_nul k +:+ "=" +:+ pretty (v - 2 ^ 64)).
Proof.
  split_and!; intros Hv; [done|..]; unfold field_text, field_u; cbn [kind ival key].
  - by rewrite swrap_small by (zpow; lia).
  - do 3 f_equal. f_equal. unfold swrap. change (64 - 1) with 63. zdiv.
Qed.

(** A sink is active from its [ScopedSink] on until the first [ScopedSink]
    that ends, its own or an inner one: after a nested scope the outer sink no
    longer receives events. *)
Theorem nested_scope_disables {O} (outer inner : Event -> O -> O) g e o :
  emit (scoped_enter outer g) e o = outer e o /\
  emit (scoped_enter inner (scoped_enter outer g)) e o = inner e o /\
  emit (scoped_leave (scoped_enter inner (scoped_enter outer g))) e o = o /\
  enabled (scoped_leave (scoped_enter inner (scoped_enter outer g))) = false.
Proof. done. Qed.

Example stderr_line :
  event_text (fun _ => "Too many open files") (mkEvent "accept.failed" Warn (Some (from_errno 24)) [field_u "core" 3])
  = "[WARN] accept.failed errno=24 msg=Too many open files core=3" +:+ String (Ascii.ascii_of_nat 10) "".
Proof. vm_compute. reflexivity. Qed.

Lemma counters_exact_witness :
  exists st', run_ops [(Some 0%nat, OpEnter); (Some 1%nat, OpCount LoopRunErrors 1); (None, OpEnter); (Some 0%nat, OpLeave)]
      {[ 0%nat := fresh_metrics; 1%nat := fresh_metrics ]} = Some st' /\
    counter_at st' 0 InflightConnections = Some 0 /\ counter_at st' 1 LoopRunErrors = Some 1.
Proof.
  destruct (counters_exact
    [(Some 0%nat, OpEnter); (Some 1%nat, OpCount LoopRunErrors 1); (None, OpEnter); (Some 0%nat, OpLeave)]
    {[ 0%nat := fresh_metrics; 1%nat := fresh_metrics ]}) as (st' & E & _ & C).
  { repeat constructor; intros p [= <-]; vm_compute; eauto. }
  exists st'. split; [done|]. split; [apply (C 0%nat InflightConnections 0)|apply (C 1%nat LoopRunErrors 0)]; done.
Defined.

End DiagProps.
