(* ===== verification/TimerWheel.v ===== *)
(** * TimerWheel: the operations of [async/timer.hpp]

    The hierarchical timer wheel: a dense slot map of entries addressed by
    [(index, generation)] identifiers, and four levels of slots holding
    identifiers.  Times are [steady_clock] counts of nanoseconds in [Z]. *)

From S2P Require Import Prelude Core.

Module Timer.

Definition kLevel0Bits : Z := 8.
Definition kLevel0Size : Z := Z.shiftl 1 kLevel0Bits.
Definition kLevelNBits : Z := 6.
Definition kLevelNSize : Z := Z.shiftl 1 kLevelNBits.
Definition kNumLevels : nat := 4.
Definition kMillisecond : Z := 1000000.
Definition kTickDuration : Z := kMillisecond.
Definition kLevel1Threshold : Z := kLevel0Size.
Definition kLevel2Threshold : Z := kLevel0Size * kLevelNSize.
Definition kLevel3Threshold : Z := kLevel0Size * kLevelNSize * kLevelNSize.

(** ** Data *)

Record TimerEntry := mkEntry {
  te_id : Z;
  te_deadline : Z;
  te_handle : handle;
  te_state : ptr;
  te_completion : WaitState;
}.

Record Slot := mkSlot { entry : TimerEntry; generation : Z; active : bool }.

Record Level := mkLevel { slots : list (list Z); current_slot : Z }.

(** [free_indices] is the LIFO stack, its head being the vector's back. *)
Record Wheel := mkWheel {
  levels : list Level;
  start_time : Z;
  current_time : Z;
  slotmap : list Slot;
  free_indices : list Z;
  active_count : Z;
  ready : list handle;
}.

Definition set_levels (x : list Level) (w : Wheel) : Wheel :=
  mkWheel x (start_time w) (current_time w) (slotmap w) (free_indices w) (active_count w) (ready w).
Definition set_time (x : Z) (w : Wheel) : Wheel :=
  mkWheel (levels w) (start_time w) x (slotmap w) (free_indices w) (active_count w) (ready w).
Definition set_slotmap (x : list Slot) (w : Wheel) : Wheel :=
  mkWheel (levels w) (start_time w) (current_time w) x (free_indices w) (active_count w) (ready w).
Definition set_free (x : list Z) (w : Wheel) : Wheel :=
  mkWheel (levels w) (start_time w) (current_time w) (slotmap w) x (active_count w) (ready w).
Definition set_count (x : Z) (w : Wheel) : Wheel :=
  mkWheel (levels w) (start_time w) (current_time w) (slotmap w) (free_indices w) x (ready w).
Definition set_ready (x : list handle) (w : Wheel) : Wheel :=
  mkWheel (levels w) (start_time w) (current_time w) (slotmap w) (free_indices w) (active_count w) x.

(** [TimerEntry{}]/[Slot{}] as value-initialised by [push_back({})]. *)
Definition empty_entry : TimerEntry := mkEntry 0 0 None None TimedOut.
Definition empty_slot : Slot := mkSlot empty_entry 0 false.

Definition make_level (num_slots : Z) : Level := mkLevel (replicate (Z.to_nat num_slots) []) 0.
Definition slot_count (L : Level) : Z := Z.of_nat (length (slots L)).

(** The constructor; [now] is [Clock::now()]. *)
Definition make_wheel (now : Z) : Wheel :=
  mkWheel [make_level kLevel0Size; make_level kLevelNSize; make_level kLevelNSize; make_level kLevelNSize]
          now now [] [] 0 [].

(** ** Access to [levels_[l].slots[s]] and [levels_[l].current_slot] *)

Definition get_slot (w : Wheel) (l : nat) (s : Z) : list Z :=
  match levels w !! l with
  | Some L => default [] (slots L !! Z.to_nat s)
  | None => []
  end.

Definition upd_slot (l : nat) (s : Z) (f : list Z -> list Z) (w : Wheel) : Wheel :=
  set_levels (alter (fun L => mkLevel (alter f (Z.to_nat s) (slots L)) (current_slot L)) l (levels w)) w.

Definition push_slot (l : nat) (s : Z) (id : Z) (w : Wheel) : Wheel :=
  upd_slot l s (fun ids => ids ++ [id]) w.

Definition cur_slot (w : Wheel) (l : nat) : Z :=
  match levels w !! l with Some L => current_slot L | None => 0 end.

Definition level_slot_count (w : Wheel) (l : nat) : Z :=
  match levels w !! l with Some L => slot_count L | None => 0 end.

Definition set_cur (l : nat) (c : Z) (w : Wheel) : Wheel :=
  set_levels (alter (fun L => mkLevel (slots L) c) l (levels w)) w.

(** ** Identifiers *)

Definition kIndexBits : Z := 24.
Definition kIndexMask : Z := Z.shiftl 1 kIndexBits - 1.
Definition encode_id (index gen : Z) : Z := Z.lor (u64 (Z.shiftl gen kIndexBits)) index.
Definition id_index (id : Z) : Z := u32 (Z.land id kIndexMask).
Definition id_gen (id : Z) : Z := Z.shiftr id kIndexBits.

(** ** Routing an identifier to a slot *)

(** [duration_cast<milliseconds>(d).count()] truncates toward zero. *)
Definition to_ms (d : Z) : Z := Z.quot d kMillisecond.

Definition place (id deadline : Z) (w : Wheel) : Wheel :=
  let delay := to_ms (deadline - current_time w) in
  let delay := if delay <? 0 then 0 else delay in
  let diff := u64 delay in
  let abs := to_ms (deadline - start_time w) in
  let abs := if abs <? 0 then 0 else abs in
  let dticks := u64 abs in
  if diff <? kLevel1Threshold then
    push_slot 0 (Z.land dticks (kLevel0Size - 1)) id w
  else if diff <? kLevel2Threshold then
    push_slot 1 (Z.land (Z.shiftr dticks kLevel0Bits) (kLevelNSize - 1)) id w
  else if diff <? kLevel3Threshold then
    push_slot 2 (Z.land (Z.shiftr dticks (kLevel0Bits + kLevelNBits)) (kLevelNSize - 1)) id w
  else
    push_slot 3 (Z.land (Z.shiftr dticks (kLevel0Bits + 2 * kLevelNBits)) (kLevelNSize - 1)) id w.

(** ** The slot map *)

Definition lookup (w : Wheel) (id : Z) : option TimerEntry :=
  match slotmap w !! Z.to_nat (id_index id) with
  | None => None
  | Some s => if negb (active s) || negb (generation s =? id_gen id) then None else Some (entry s)
  end.

(** Marks the slot free and pushes its index: the common tail of [cancel]
    and [release]. *)
Definition free_slot (idx : Z) (s : Slot) (w : Wheel) : Wheel :=
  set_count (active_count w -u[64] 1)%rain
    (set_free (idx :: free_indices w)
      (set_slotmap (<[Z.to_nat idx := mkSlot (entry s) (generation s) false]> (slotmap w)) w)).

Definition release (id : Z) (w : Wheel) : Wheel :=
  let idx := id_index id in
  match slotmap w !! Z.to_nat idx with
  | Some s => if active s && (generation s =? id_gen id) then free_slot idx s w else w
  | None => w
  end.

Definition cancel (id : Z) (w : Wheel) : bool * Wheel :=
  let idx := id_index id in
  match slotmap w !! Z.to_nat idx with
  | None => (false, w)
  | Some s =>
    if negb (active s) || negb (generation s =? id_gen id) then (false, w)
    else (true, free_slot idx s w)
  end.

(** Takes a dense index from the free stack, or appends a slot. *)
Definition alloc_index (w : Wheel) : Z * Wheel :=
  match free_indices w with
  | index :: rest => (index, set_free rest w)
  | [] => (u32 (Z.of_nat (length (slotmap w))), set_slotmap (slotmap w ++ [empty_slot]) w)
  end.

(** [None]: the free stack named an index outside the slot map. *)
Definition schedule_at (deadline : Z) (h : handle) (state : ptr) (completion : WaitState) (w : Wheel)
  : option (Z * Wheel) :=
  let '(index, w) := alloc_index w in
  s ← slotmap w !! Z.to_nat index;
  let gen := (generation s +u[64] 1)%rain in
  let id := encode_id index gen in
  let s' := mkSlot (mkEntry id deadline h state completion) gen true in
  let w := set_slotmap (<[Z.to_nat index := s']> (slotmap w)) w in
  let w := set_count (active_count w +u[64] 1)%rain w in
  Some (id, place id deadline w).

Definition schedule (delay : Z) (h : handle) (state : ptr) (completion : WaitState) (w : Wheel)
  : option (Z * Wheel) :=
  schedule_at (current_time w + delay) h state completion w.

(** ** Advancing *)

(** Re-places every identifier that still has an entry. *)
Definition replace_ids (ids : list Z) (w : Wheel) : Wheel :=
  foldl (fun w id =>
    match lookup w id with
    | None => w
    | Some e => place id (te_deadline e) w
    end) w ids.

(** The body of [cascade] below its recursive call: empties the current slot
    of [level], re-places its identifiers and moves the cursor on. *)
Definition drain_level (level : nat) (w : Wheel) : Wheel :=
  let cur := cur_slot w level in
  let ids := get_slot w level cur in
  let w := upd_slot level cur (fun _ => []) w in
  let w := replace_ids ids w in
  set_cur level ((cur_slot w level + 1) mod level_slot_count w level) w.

(** [fuel] is [kNumLevels - level], the number of levels left. *)
Fixpoint cascade_from (fuel level : nat) (w : Wheel) : Wheel :=
  match fuel with
  | O => w
  | S fuel =>
    let w := if (cur_slot w level =? 0) && bool_decide (level + 1 < kNumLevels)%nat
             then cascade_from fuel (level + 1) w else w in
    drain_level level w
  end.

Definition cascade (level : nat) (w : Wheel) : Wheel := cascade_from (kNumLevels - level) level w.

(** One entry of the slot being processed. *)
Definition process_id (id : Z) (st : Mem * Wheel * Z) : option (Mem * Wheel * Z) :=
  let '(m, w, fired) := st in
  match lookup w id with
  | None => Some (m, w, fired)
  | Some e =>
    r ← claim (te_state e) (te_completion e) m;
    let '(go, m) := r in
    if negb go then Some (m, release id w, fired)
    else
      push ← resumable (te_handle e) m;
      let '(w, fired) :=
        if (push : bool) then (set_ready (ready w ++ [te_handle e]) w, (fired +u[32] 1)%rain) else (w, fired) in
      Some (m, release id w, fired)
  end.

Fixpoint process_ids (ids : list Z) (st : Mem * Wheel * Z) : option (Mem * Wheel * Z) :=
  match ids with
  | [] => Some st
  | id :: ids => st ← process_id id st; process_ids ids st
  end.

Definition process_current_slot (m : Mem) (w : Wheel) : option (Mem * Wheel * Z) :=
  let w := if cur_slot w 0 =? 0 then cascade 1 w else w in
  let cur := cur_slot w 0 in
  let slot := get_slot w 0 cur in
  let w := upd_slot 0 cur (fun _ => []) w in
  r ← process_ids slot (m, w, 0);
  let '(m, w, fired) := r in
  Some (m, set_cur 0 ((cur_slot w 0 + 1) mod kLevel0Size) w, fired).

Definition tick (m : Mem) (w : Wheel) : option (Mem * Wheel * Z) :=
  process_current_slot m (set_time (current_time w + kTickDuration) w).

(** The [while] loop of [advance_to]; [None] also when [fuel] runs out. *)
Fixpoint advance_loop (fuel : nat) (target total : Z) (m : Mem) (w : Wheel) : option (Mem * Wheel * Z) :=
  if current_time w <? target then
    match fuel with
    | O => None
    | S fuel =>
      r ← tick m w;
      let '(m, w, fired) := r in
      advance_loop fuel target (total +u[32] fired)%rain m w
    end
  else Some (m, w, total).

(** Iterations needed to bring [current_time] up to [target]. *)
Definition ticks_until (w : Wheel) (target : Z) : nat :=
  Z.to_nat ((target - current_time w + kTickDuration - 1) / kTickDuration).

Definition advance_to (target : Z) (m : Mem) (w : Wheel) : option (Mem * Wheel * Z) :=
  advance_loop (ticks_until w target) target 0 m w.

(** ** Queries and the ready queue *)

(** The first live entry's deadline among [ids]. *)
Fixpoint first_live (w : Wheel) (ids : list Z) : option Z :=
  match ids with
  | [] => None
  | id :: ids => match lookup w id with Some e => Some (te_deadline e) | None => first_live w ids end
  end.

(** The least live deadline among [ids]. *)
Definition earliest_live (w : Wheel) (ids : list Z) : option Z :=
  foldl (fun earliest id =>
    match lookup w id with
    | Some e =>
      match earliest with
      | None => Some (te_deadline e)
      | Some d => if te_deadline e <? d then Some (te_deadline e) else earliest
      end
    | None => earliest
    end) None ids.

(** [for (i = 0; i < count; ++i) if (auto r = f((current_slot + i) % count)) return r;] *)
Fixpoint scan_slots (f : list Z -> option Z) (w : Wheel) (l : nat) (count : Z) (i : Z) (todo : nat) : option Z :=
  match todo with
  | O => None
  | S todo =>
    match f (get_slot w l ((cur_slot w l + i) mod count)) with
    | Some d => Some d
    | None => scan_slots f w l count (i + 1) todo
    end
  end.

Definition scan_level (f : list Z -> option Z) (w : Wheel) (l : nat) : option Z :=
  scan_slots f w l (level_slot_count w l) 0 (Z.to_nat (level_slot_count w l)).

Definition next_deadline (w : Wheel) : option Z :=
  if active_count w =? 0 then None
  else
    match scan_level (first_live w) w 0 with
    | Some d => Some d
    | None =>
      match scan_level (earliest_live w) w 1 with
      | Some d => Some d
      | None =>
        match scan_level (earliest_live w) w 2 with
        | Some d => Some d
        | None => scan_level (earliest_live w) w 3
        end
      end
    end.

Definition drain_ready (w : Wheel) : list handle * Wheel := (ready w, set_ready [] w).

Definition drain_ready_into (out : list handle) (w : Wheel) : list handle * Wheel :=
  (out ++ ready w, set_ready [] w).

Definition wake (h : handle) (w : Wheel) : Wheel := set_ready (ready w ++ [h]) w.

End Timer.
