(* ===== verification/TimerInv.v ===== *)
(** * TimerInv: well-formedness of the timer wheel

    Laws of the accessors of [TimerWheel.v], the identifier encoding, the
    routing of [place] in units of ticks, and the slot-map invariant. *)

From S2P Require Import Prelude Core TimerWheel.

Module TimerInv.
Import Timer.

(** Reduces the projections of an updated wheel. *)
Ltac wsimpl :=
  cbn [levels start_time current_time slotmap free_indices active_count ready
       set_levels set_time set_slotmap set_free set_count set_ready free_slot
       entry generation active] in *.

(** ** Shape of the level array *)

Definition level_size (l : nat) : Z := match l with O => 256 | _ => 64 end.

Record shape (w : Wheel) : Prop := {
  shape_levels : length (levels w) = 4%nat;
  shape_slots : forall l L, levels w !! l = Some L -> length (slots L) = Z.to_nat (level_size l);
}.

(** A slot address of the wheel. *)
Definition addr_ok (l : nat) (s : Z) : Prop := (l < 4)%nat /\ 0 <= s < level_size l.

Definition at_slot (w : Wheel) (l : nat) (s id : Z) : Prop := addr_ok l s /\ id ∈ get_slot w l s.

Lemma level_size_pos l : 0 < level_size l.
Proof. by destruct l. Qed.

Lemma shape_lookup w l s :
  shape w -> addr_ok l s -> exists L ids, levels w !! l = Some L /\ slots L !! Z.to_nat s = Some ids.
Proof.
  intros [Hlen Hsl] [Hl Hs].
  destruct (lookup_lt_is_Some_2 (levels w) l) as [L HL]; [lia|].
  destruct (lookup_lt_is_Some_2 (slots L) (Z.to_nat s)) as [ids Hids]; [|eauto].
  rewrite (Hsl l L HL). lia.
Qed.

Lemma shape_upd_slot l s f w : shape w -> shape (upd_slot l s f w).
Proof.
  intros [Hlen Hsl]. split; cbn.
  - by rewrite length_alter.
  - intros l' L. destruct (decide (l = l')) as [->|Hne].
    + rewrite list_lookup_alter_eq. destruct (levels w !! l') as [L0|] eqn:E; cbn; [|done].
      intros [= <-]. cbn. rewrite length_alter. eauto.
    + rewrite list_lookup_alter_ne by done. eauto.
Qed.

Lemma shape_set_cur l c w : shape w -> shape (set_cur l c w).
Proof.
  intros [Hlen Hsl]. split; cbn.
  - by rewrite length_alter.
  - intros l' L. destruct (decide (l = l')) as [->|Hne].
    + rewrite list_lookup_alter_eq. destruct (levels w !! l') as [L0|] eqn:E; cbn; [|done].
      intros [= <-]. cbn. eauto.
    + rewrite list_lookup_alter_ne by done. eauto.
Qed.

Lemma shape_make_wheel now : shape (make_wheel now).
Proof. split; [done|]. intros l L. do 4 (destruct l as [|l]; [by intros [= <-]|]). done. Qed.

Lemma get_slot_upd_same l s f w :
  shape w -> addr_ok l s -> get_slot (upd_slot l s f w) l s = f (get_slot w l s).
Proof.
  intros Hw Ha. destruct (shape_lookup w l s Hw Ha) as (L & ids & HL & Hs).
  unfold get_slot, upd_slot; cbn. rewrite list_lookup_alter_eq, HL; cbn.
  by rewrite list_lookup_alter_eq, Hs.
Qed.

Lemma get_slot_upd_ne l s l' s' f w :
  0 <= s -> 0 <= s' -> (l, s) <> (l', s') -> get_slot (upd_slot l s f w) l' s' = get_slot w l' s'.
Proof.
  intros Hs Hs' Hne. unfold get_slot, upd_slot; cbn.
  destruct (decide (l = l')) as [->|Hl].
  - rewrite list_lookup_alter_eq. destruct (levels w !! l') as [L|]; cbn; [|done].
    rewrite list_lookup_alter_ne; [done|]. intros E. apply Hne. f_equal. lia.
  - by rewrite list_lookup_alter_ne.
Qed.

Lemma get_slot_set_cur l c l' s w : get_slot (set_cur l c w) l' s = get_slot w l' s.
Proof.
  unfold get_slot, set_cur; cbn. destruct (decide (l = l')) as [->|Hl].
  - rewrite list_lookup_alter_eq. by destruct (levels w !! l').
  - by rewrite list_lookup_alter_ne.
Qed.

Lemma cur_slot_upd_slot l s f l' w : cur_slot (upd_slot l s f w) l' = cur_slot w l'.
Proof.
  unfold cur_slot, upd_slot; cbn. destruct (decide (l = l')) as [->|Hl].
  - rewrite list_lookup_alter_eq. by destruct (levels w !! l').
  - by rewrite list_lookup_alter_ne.
Qed.

Lemma cur_slot_set_cur_eq l c w : shape w -> (l < 4)%nat -> cur_slot (set_cur l c w) l = c.
Proof.
  intros [Hlen _] Hl. unfold cur_slot, set_cur; cbn. rewrite list_lookup_alter_eq.
  destruct (lookup_lt_is_Some_2 (levels w) l) as [L ->]; [lia|]. done.
Qed.

Lemma cur_slot_set_cur_ne l c l' w : l <> l' -> cur_slot (set_cur l c w) l' = cur_slot w l'.
Proof. intros Hl. unfold cur_slot, set_cur; cbn. by rewrite list_lookup_alter_ne. Qed.

Lemma level_slot_count_shape w l : shape w -> (l < 4)%nat -> level_slot_count w l = level_size l.
Proof.
  intros [Hlen Hsl] Hl. unfold level_slot_count, slot_count.
  destruct (lookup_lt_is_Some_2 (levels w) l) as [L HL]; [lia|].
  rewrite HL, (Hsl l L HL). pose proof (level_size_pos l). lia.
Qed.

(** Membership after a push and after an exchange with the empty vector. *)
Lemma at_slot_push l s i w l' s' id :
  shape w -> addr_ok l s ->
  at_slot (push_slot l s i w) l' s' id <-> at_slot w l' s' id \/ (l' = l /\ s' = s /\ id = i).
Proof.
  intros Hw Ha. unfold at_slot, push_slot.
  destruct (decide ((l, s) = (l', s'))) as [[= <- <-]|Hne].
  - rewrite get_slot_upd_same, elem_of_app, list_elem_of_singleton by done. intuition congruence.
  - split.
    + intros [Ha' Hin]. rewrite get_slot_upd_ne in Hin by (done || apply Ha || apply Ha'). tauto.
    + intros [[Ha' Hin]|(-> & -> & _)]; [|done].
      rewrite get_slot_upd_ne by (done || apply Ha || apply Ha'). done.
Qed.

Lemma at_slot_clear l s w l' s' id :
  shape w -> addr_ok l s ->
  at_slot (upd_slot l s (fun _ => []) w) l' s' id <-> at_slot w l' s' id /\ (l', s') <> (l, s).
Proof.
  intros Hw Ha. unfold at_slot.
  destruct (decide ((l, s) = (l', s'))) as [[= <- <-]|Hne].
  - rewrite get_slot_upd_same by done. split; [|by intros [_ []]].
    intros [_ Hin]. by apply elem_of_nil in Hin.
  - split.
    + intros [Ha' Hin]. rewrite get_slot_upd_ne in Hin by (done || apply Ha || apply Ha').
      split; [done|]. congruence.
    + intros [[Ha' Hin] _].
      rewrite get_slot_upd_ne by (done || apply Ha || apply Ha'). done.
Qed.

Lemma at_slot_set_cur l c w l' s' id : at_slot (set_cur l c w) l' s' id <-> at_slot w l' s' id.
Proof. unfold at_slot. by rewrite get_slot_set_cur. Qed.

(** Two wheels with the same level array have the same slots. *)
Lemma at_slot_levels w w' l s id : levels w = levels w' -> at_slot w l s id <-> at_slot w' l s id.
Proof. intros E. unfold at_slot, get_slot. by rewrite E. Qed.

Lemma cur_slot_levels w w' l : levels w = levels w' -> cur_slot w l = cur_slot w' l.
Proof. intros E. unfold cur_slot. by rewrite E. Qed.

Lemma shape_same_levels w w' : levels w = levels w' -> shape w -> shape w'.
Proof. intros E [H1 H2]. split; rewrite <- E; eauto. Qed.

(** ** Identifiers *)

Lemma id_index_mod id : id_index id = id mod 2 ^ 24.
Proof.
  unfold id_index, kIndexMask. change (Z.shiftl 1 kIndexBits - 1) with (Z.ones 24).
  rewrite Z.land_ones by lia. apply wrap_small.
  pose proof (Z.mod_pos_bound id (2 ^ 24) eq_refl). lia.
Qed.

Lemma id_gen_div id : id_gen id = id / 2 ^ 24.
Proof. unfold id_gen. by rewrite Z.shiftr_div_pow2. Qed.

Lemma encode_id_add index gen :
  0 <= index < 2 ^ 24 -> 0 <= gen < 2 ^ 40 -> encode_id index gen = gen * 2 ^ 24 + index.
Proof.
  intros Hi Hg. unfold encode_id. rewrite Z.shiftl_mul_pow2 by done.
  change (2 ^ kIndexBits) with (2 ^ 24). rewrite wrap_small by (zpow; lia).
  by apply lor_low_bits.
Qed.

Lemma id_eq_iff a b : a = b <-> id_index a = id_index b /\ id_gen a = id_gen b.
Proof.
  rewrite !id_index_mod, !id_gen_div. split; [by intros ->|]. intros [E1 E2].
  rewrite (Z.div_mod a (2 ^ 24)), (Z.div_mod b (2 ^ 24)) by done. congruence.
Qed.

Lemma id_index_encode index gen :
  0 <= index < 2 ^ 24 -> 0 <= gen < 2 ^ 40 -> id_index (encode_id index gen) = index.
Proof. intros. rewrite id_index_mod, encode_id_add by done.  zdiv. Qed.

Lemma id_gen_encode index gen :
  0 <= index < 2 ^ 24 -> 0 <= gen < 2 ^ 40 -> id_gen (encode_id index gen) = gen.
Proof. intros. rewrite id_gen_div, encode_id_add by done.  zdiv. Qed.

(** ** [place] in ticks *)

(** [n] ticks have been made since construction. *)
Definition now_ticks (w : Wheel) (n : Z) : Prop :=
  0 <= n /\ current_time w = start_time w + n * kMillisecond.

(** The absolute tick of a deadline, as [place] computes it. *)
Definition dticks (start deadline : Z) : Z := Z.max 0 (to_ms (deadline - start)).

(** The deadline is representable: a 64-bit count of nanoseconds after the start. *)
Definition time_ok (start deadline : Z) : Prop := deadline - start < 2 ^ 63.

Definition place_pos (n D : Z) : nat * Z :=
  if D - n <? 256 then (0%nat, D mod 256)
  else if D - n <? 16384 then (1%nat, (D / 256) mod 64)
  else if D - n <? 1048576 then (2%nat, (D / 16384) mod 64)
  else (3%nat, (D / 1048576) mod 64).

Lemma addr_ok_place_pos n D : addr_ok (place_pos n D).1 (place_pos n D).2.
Proof. unfold place_pos, addr_ok. case_cmp; cbn; zdiv. Qed.

Lemma to_ms_nonneg d : 0 <= d -> to_ms d = d / kMillisecond.
Proof. intros. unfold to_ms. by rewrite Z.quot_div_nonneg. Qed.

Lemma to_ms_nonpos d : d <= 0 -> to_ms d <= 0.
Proof.
  intros. unfold to_ms. replace d with (- (- d)) by lia.
  rewrite Z.quot_opp_l by done. pose proof (Z.quot_pos (- d) kMillisecond ltac:(lia) eq_refl). lia.
Qed.

Lemma clamp_max z : (if z <? 0 then 0 else z) = Z.max 0 z.
Proof. case_cmp; lia. Qed.

(** The clamped delay of [place] in terms of the absolute ticks. *)
Lemma delay_ticks w n dl :
  now_ticks w n ->
  Z.max 0 (to_ms (dl - current_time w)) = Z.max 0 (dticks (start_time w) dl - n).
Proof.
  intros [Hn ->]. unfold dticks. unfold kMillisecond.
  destruct (Z.le_gt_cases 0 (dl - (start_time w + n * 1000000))).
  - rewrite !to_ms_nonneg by lia. unfold kMillisecond. zdiv.
  - pose proof (to_ms_nonpos (dl - (start_time w + n * 1000000)) ltac:(lia)).
    destruct (Z.le_gt_cases 0 (dl - start_time w)).
    + rewrite (to_ms_nonneg (dl - start_time w)) by lia. unfold kMillisecond. zdiv.
    + pose proof (to_ms_nonpos (dl - start_time w) ltac:(lia)). lia.
Qed.

Lemma dticks_range start dl : time_ok start dl -> 0 <= dticks start dl < 2 ^ 63.
Proof.
  unfold time_ok, dticks. intros H. split; [lia|].
  destruct (Z.le_gt_cases 0 (dl - start)).
  - rewrite to_ms_nonneg by lia. unfold kMillisecond. zdiv.
  - pose proof (to_ms_nonpos (dl - start) ltac:(lia)). zpow. lia.
Qed.

Lemma land_size_mod a k : 0 <= k -> Z.land a (Z.shiftl 1 k - 1) = a mod 2 ^ k.
Proof.
  intros. rewrite Z.shiftl_1_l. replace (2 ^ k - 1) with (Z.ones k) by (rewrite Z.ones_equiv; lia).
  by apply Z.land_ones.
Qed.

Lemma place_spec w n id dl :
  now_ticks w n -> time_ok (start_time w) dl ->
  place id dl w =
    let p := place_pos n (dticks (start_time w) dl) in push_slot p.1 p.2 id w.
Proof.
  intros Hn Ht. pose proof (dticks_range _ _ Ht) as HD. destruct Hn as [Hn0 Hcur].
  unfold place. rewrite !clamp_max, (delay_ticks w n) by done.
  fold (dticks (start_time w) dl). set (D := dticks (start_time w) dl) in *.
  rewrite (wrap_small 64 D) by (zpow; lia). rewrite (wrap_small 64) by (zpow; lia).
  unfold kLevel0Size, kLevelNSize. rewrite !land_size_mod, !Z.shiftr_div_pow2 by done.
  change kLevel1Threshold with 256. change kLevel2Threshold with 16384.
  change kLevel3Threshold with 1048576.
  unfold place_pos. case_cmp; try lia; done.
Qed.

Lemma place_levels_only id dl w :
  exists lv, place id dl w = set_levels lv w.
Proof. unfold place. repeat case_match; eexists; reflexivity. Qed.

(** ** The slot map *)

Definition active_slots (sm : list Slot) : nat := length (filter (fun s => active s = true) sm).

(** The slot-map invariant: the free stack lists the inactive indices once
    each, [active_count] counts the others, generations stay below the 40 bits
    an identifier has, and an occupant carries its own identifier. *)
Record sm_wf (w : Wheel) : Prop := {
  sm_len : Z.of_nat (length (slotmap w)) <= 2 ^ 24;
  sm_gen : forall i s, slotmap w !! i = Some s -> 0 <= generation s < 2 ^ 40;
  sm_id : forall i s, slotmap w !! i = Some s -> active s = true ->
    te_id (entry s) = encode_id (Z.of_nat i) (generation s);
  sm_free_nodup : NoDup (free_indices w);
  sm_free : forall i, i ∈ free_indices w <->
    0 <= i /\ exists s, slotmap w !! Z.to_nat i = Some s /\ active s = false;
  sm_count : active_count w = Z.of_nat (active_slots (slotmap w));
}.

(** [id] was handed out for its index at the current or an earlier generation. *)
Definition issued (w : Wheel) (id : Z) : Prop :=
  exists s, slotmap w !! Z.to_nat (id_index id) = Some s /\ id_gen id <= generation s.

Lemma active_slots_insert sm i s s' :
  sm !! i = Some s ->
  Z.of_nat (active_slots (<[i := s']> sm)) =
    Z.of_nat (active_slots sm) - Z.b2z (active s) + Z.b2z (active s').
Proof.
  intros H. rewrite insert_take_drop by eauto using lookup_lt_Some.
  replace (active_slots sm) with (active_slots (take i sm ++ s :: drop (S i) sm))
    by (by rewrite take_drop_middle).
  unfold active_slots.
  rewrite !filter_app, !filter_cons, !length_app.
  destruct (active s), (active s'); repeat case_decide; try done; cbn; rewrite ?length_app; cbn; lia.
Qed.

Lemma lookup_Some w id e :
  lookup w id = Some e <->
  exists s, slotmap w !! Z.to_nat (id_index id) = Some s /\ active s = true /\
            generation s = id_gen id /\ entry s = e.
Proof.
  unfold lookup. destruct (slotmap w !! _) as [s|]; [|split; [done|by intros (? & ? & _)]].
  destruct (active s) eqn:Ea, (Z.eqb_spec (generation s) (id_gen id)) as [Eg|Eg]; cbn;
    split; try done; try (intros (? & [= <-] & ? & ? & ?); congruence).
  intros [= <-]. by exists s.
Qed.

Lemma lookup_issued w id e : lookup w id = Some e -> issued w id.
Proof. intros (s & H & _ & Hg & _)%lookup_Some. exists s. split; [done|lia]. Qed.

(** The entry found carries the identifier it was found under. *)
Lemma lookup_te_id w id e : sm_wf w -> lookup w id = Some e -> te_id e = id.
Proof.
  intros Hwf (s & H & Ha & Hg & <-)%lookup_Some.
  pose proof (sm_gen w Hwf _ _ H). pose proof (sm_len w Hwf). pose proof (lookup_lt_Some _ _ _ H).
  pose proof (Z.mod_pos_bound id (2 ^ 24) eq_refl). rewrite <- id_index_mod in *.
  rewrite (sm_id w Hwf _ _ H Ha), Z2Nat.id by lia.
  apply id_eq_iff. rewrite id_index_encode, id_gen_encode by lia. done.
Qed.

Lemma lookup_same_slotmap w w' id : slotmap w = slotmap w' -> lookup w id = lookup w' id.
Proof. intros E. unfold lookup. by rewrite E. Qed.

Lemma issued_same_slotmap w w' id : slotmap w = slotmap w' -> issued w id -> issued w' id.
Proof. intros E. unfold issued. by rewrite E. Qed.

Lemma sm_wf_same w w' :
  slotmap w = slotmap w' -> free_indices w = free_indices w' -> active_count w = active_count w' ->
  sm_wf w -> sm_wf w'.
Proof. intros E1 E2 E3 []. split; rewrite <- ?E1, <- ?E2, <- ?E3; eauto. Qed.

(** *** Releasing *)

Lemma release_dead w id : lookup w id = None -> release id w = w.
Proof.
  unfold lookup, release. destruct (slotmap w !! _) as [s|]; [|done].
  by destruct (active s), (generation s =? id_gen id).
Qed.

Lemma release_live w id e :
  lookup w id = Some e ->
  exists s, slotmap w !! Z.to_nat (id_index id) = Some s /\ active s = true /\
            generation s = id_gen id /\ release id w = free_slot (id_index id) s w.
Proof.
  intros (s & H & Ha & Hg & _)%lookup_Some. exists s. unfold release.
  by rewrite H, Ha, Hg, Z.eqb_refl.
Qed.

Lemma cancel_release w id : cancel id w = (bool_decide (is_Some (lookup w id)), release id w).
Proof.
  unfold cancel, release, lookup. destruct (slotmap w !! _) as [s|]; [|done].
  by destruct (active s), (generation s =? id_gen id).
Qed.

Lemma id_index_nonneg id : 0 <= id_index id.
Proof. rewrite id_index_mod. by apply Z.mod_pos_bound. Qed.

Lemma release_lookup w id id' :
  lookup (release id w) id' = if decide (id' = id) then None else lookup w id'.
Proof.
  destruct (lookup w id) as [e|] eqn:E.
  2:{ rewrite release_dead by done. by case_decide; subst. }
  destruct (release_live w id e E) as (s & Hs & Ha & Hg & ->).
  unfold lookup, free_slot; cbn.
  destruct (decide (id_index id' = id_index id)) as [Ei|Ei].
  - rewrite Ei, list_lookup_insert_eq by eauto using lookup_lt_Some. cbn.
    case_decide as D; [done|]. rewrite Hs, Ha.
    destruct (Z.eqb_spec (generation s) (id_gen id')); [|done].
    exfalso. apply D, id_eq_iff. split; congruence.
  - rewrite list_lookup_insert_ne.
    + case_decide; [congruence|done].
    + pose proof (id_index_nonneg id). pose proof (id_index_nonneg id'). lia.
Qed.

Lemma release_issued w id id' : issued (release id w) id' <-> issued w id'.
Proof.
  destruct (lookup w id) as [e|] eqn:E.
  2:{ by rewrite release_dead. }
  destruct (release_live w id e E) as (s & Hs & Ha & Hg & ->).
  unfold issued, free_slot; cbn.
  destruct (decide (Z.to_nat (id_index id) = Z.to_nat (id_index id'))) as [Ei|Ei].
  - rewrite <- Ei, Hs, list_lookup_insert_eq by eauto using lookup_lt_Some.
    split; intros (s' & [= <-] & ?); eauto.
  - by rewrite list_lookup_insert_ne.
Qed.

Lemma sm_wf_free_slot w idx s :
  sm_wf w -> 0 <= idx -> slotmap w !! Z.to_nat idx = Some s -> active s = true ->
  sm_wf (free_slot idx s w).
Proof.
  intros [Hlen Hgen Hid Hnd Hfree Hcnt] Hidx Hs Ha.
  assert (forall i s', <[Z.to_nat idx := mkSlot (entry s) (generation s) false]> (slotmap w) !! i = Some s' ->
    i = Z.to_nat idx /\ s' = mkSlot (entry s) (generation s) false \/
    i <> Z.to_nat idx /\ slotmap w !! i = Some s') as Hins.
  { intros i s'. rewrite list_lookup_insert_Some. naive_solver. }
  split; wsimpl.
  - by rewrite length_insert.
  - intros i s' [[-> ->]|[_ H]]%Hins; cbn; eauto.
  - intros i s' [[-> ->]|[_ H]]%Hins; cbn; [done|eauto].
  - apply NoDup_cons. split; [|done]. rewrite Hfree. intros (_ & s' & Hs' & ?). congruence.
  - intros i. rewrite elem_of_cons, Hfree. split.
    + intros [->|(Hi & s' & Hs' & Ha')].
      * split; [done|]. eexists. by rewrite list_lookup_insert_eq by eauto using lookup_lt_Some.
      * split; [done|]. exists s'. rewrite list_lookup_insert_ne; [done|]. intros E. congruence.
    + intros (Hi & s' & [[E ->]|[_ H]]%Hins & Ha'); [left; lia|eauto].
  - rewrite (active_slots_insert _ _ s) by done. rewrite Ha, Hcnt. cbn [Z.b2z active].
    assert (1 <= Z.of_nat (active_slots (slotmap w))) as Hpos.
    { pose proof (active_slots_insert (slotmap w) (Z.to_nat idx) s
        (mkSlot (entry s) (generation s) false) Hs) as E. rewrite Ha in E. cbn [Z.b2z active] in E. lia. }
    assert (Z.of_nat (active_slots (slotmap w)) <= Z.of_nat (length (slotmap w))).
    { unfold active_slots. pose proof (length_filter (fun s => active s = true) (slotmap w)). lia. }
    autorewrite with rain. lia.
Qed.

Lemma sm_wf_release w id : sm_wf w -> sm_wf (release id w).
Proof.
  intros Hwf. destruct (lookup w id) as [e|] eqn:E; [|by rewrite release_dead].
  destruct (release_live w id e E) as (s & Hs & Ha & Hg & ->).
  eauto using sm_wf_free_slot, id_index_nonneg.
Qed.

Lemma release_frame w id :
  levels (release id w) = levels w /\ start_time (release id w) = start_time w /\
  current_time (release id w) = current_time w /\ ready (release id w) = ready w.
Proof. unfold release, free_slot. by repeat case_match. Qed.

(** *** Allocating *)

(** There is an index below [2^24] to hand out, with a generation to spare. *)
Definition schedule_room (w : Wheel) : Prop :=
  match free_indices w with
  | [] => Z.of_nat (length (slotmap w)) < 2 ^ 24
  | i :: _ => forall s, slotmap w !! Z.to_nat i = Some s -> generation s + 1 < 2 ^ 40
  end.

(** The slot [schedule_at] is about to occupy. *)
Record vacant (w : Wheel) (i : Z) (s : Slot) (w1 : Wheel) : Prop := {
  va_alloc : alloc_index w = (i, w1);
  va_slot : slotmap w1 !! Z.to_nat i = Some s;
  va_index : 0 <= i < 2 ^ 24;
  va_inactive : active s = false;
  va_gen : 0 <= generation s /\ generation s + 1 < 2 ^ 40;
  va_len : Z.of_nat (length (slotmap w1)) <= 2 ^ 24;
  va_frame : levels w1 = levels w /\ start_time w1 = start_time w /\
    current_time w1 = current_time w /\ ready w1 = ready w /\ active_count w1 = active_count w;
  va_count : active_slots (slotmap w1) = active_slots (slotmap w);
  va_old : forall j s', j <> Z.to_nat i -> slotmap w1 !! j = Some s' <-> slotmap w !! j = Some s';
  va_fresh : forall s', slotmap w !! Z.to_nat i = Some s' -> s' = s;
  va_nodup : NoDup (free_indices w1);
  va_free : forall j, j ∈ free_indices w1 <-> j ∈ free_indices w /\ j <> i;
}.

Lemma alloc_vacant w : sm_wf w -> schedule_room w -> exists i s w1, vacant w i s w1.
Proof.
  intros [Hlen Hgen Hid Hnd Hfree Hcnt] Hroom. unfold schedule_room in Hroom.
  destruct (free_indices w) as [|i rest] eqn:Ef.
  - set (k := length (slotmap w)) in *.
    exists (Z.of_nat k), empty_slot, (set_slotmap (slotmap w ++ [empty_slot]) w).
    assert (slotmap w !! k = None) as Hk by (by apply lookup_ge_None).
    split; wsimpl; rewrite ?Nat2Z.id; try done; try lia.
    + unfold alloc_index. rewrite Ef, wrap_small; [done|]. fold k. zpow. lia.
    + by apply list_lookup_middle.
    + rewrite length_app. cbn. fold k. lia.
    + unfold active_slots. rewrite filter_app. cbn. by rewrite app_nil_r.
    + intros j s' Hj. rewrite lookup_app.
      destruct (slotmap w !! j) as [s0|] eqn:E; [done|]. split; [|done].
      apply lookup_ge_None in E. fold k in E. rewrite lookup_ge_None_2; [done|]. cbn. fold k. lia.
    + rewrite Hk. done.
    + by rewrite Ef.
    + intros j. rewrite Ef. set_solver.
  - assert (i ∈ i :: rest) as Hin by (by left).
    apply Hfree in Hin as (Hi & s & Hs & Ha).
    exists i, s, (set_free rest w). pose proof (Hgen _ _ Hs). pose proof (lookup_lt_Some _ _ _ Hs).
    apply NoDup_cons in Hnd as [Hni Hnd].
    split; wsimpl; try done.
    + unfold alloc_index. by rewrite Ef.
    + lia.
    + specialize (Hroom s Hs). lia.
    + intros s' Hs'. congruence.
    + intros j. rewrite Ef. set_solver.
Qed.

(** The wheel with the vacant slot [i] given to a new timer. *)
Definition occupy (w1 : Wheel) (i gen : Z) (e : TimerEntry) : Wheel :=
  set_count (u64 (active_count w1 + 1))
    (set_slotmap (<[Z.to_nat i := mkSlot e gen true]> (slotmap w1)) w1).

Lemma sm_wf_occupy w i s w1 e :
  sm_wf w -> vacant w i s w1 -> te_id e = encode_id i (generation s + 1) ->
  sm_wf (occupy w1 i (generation s + 1) e).
Proof.
  intros [Hlen Hgen Hid Hnd Hfree Hcnt] V He. destruct V as [_ Vs Vi Va Vg Vl Vf Vc Vo Vfr Vn Vfree].
  destruct Vf as (_ & _ & _ & _ & Vcnt).
  assert (forall j s', <[Z.to_nat i := mkSlot e (generation s + 1) true]> (slotmap w1) !! j = Some s' ->
    j = Z.to_nat i /\ s' = mkSlot e (generation s + 1) true \/
    j <> Z.to_nat i /\ slotmap w !! j = Some s') as Hins.
  { intros j s'. rewrite list_lookup_insert_Some. intros [(<- & -> & _)|[Hj H]]; [by left|].
    right. split; [done|]. by apply Vo. }
  unfold occupy. split; wsimpl.
  - by rewrite length_insert.
  - intros j s' [[-> ->]|[_ H]]%Hins; wsimpl; [lia|eauto].
  - intros j s' [[-> ->]|[_ H]]%Hins; wsimpl; [by rewrite Z2Nat.id by lia|eauto].
  - done.
  - intros j. rewrite Vfree, Hfree. split.
    + intros [(Hj & s' & Hs' & Ha) Hne]. split; [done|]. exists s'.
      rewrite list_lookup_insert_ne by lia. split; [|done]. apply Vo; [lia|done].
    + intros (Hj & s' & [[E ->]|[E H]]%Hins & Ha); [done|]. split; [eauto|]. intros ->. done.
  - rewrite (active_slots_insert _ _ s) by done. rewrite Va, Vc, Vcnt, Hcnt. cbn [Z.b2z active].
    assert (Z.of_nat (active_slots (slotmap w)) <= Z.of_nat (length (slotmap w))).
    { unfold active_slots. pose proof (length_filter (fun s => active s = true) (slotmap w)). lia. }
    autorewrite with rain. lia.
Qed.

Lemma lookup_occupy w i s w1 e id' :
  vacant w i s w1 ->
  lookup (occupy w1 i (generation s + 1) e) id' =
    if decide (id' = encode_id i (generation s + 1)) then Some e else lookup w id'.
Proof.
  intros V. destruct V as [_ Vs Vi Va Vg _ _ _ Vo Vfr _ _].
  unfold lookup, occupy; wsimpl. pose proof (id_index_nonneg id').
  destruct (decide (id_index id' = i)) as [Ei|Ei].
  - rewrite Ei, list_lookup_insert_eq by eauto using lookup_lt_Some. wsimpl. cbn [negb orb].
    case_decide as D.
    + by rewrite D, id_gen_encode, Z.eqb_refl by lia.
    + destruct (Z.eqb_spec (generation s + 1) (id_gen id')) as [E|_]; cbn [negb].
      * exfalso. apply D, id_eq_iff. rewrite id_index_encode, id_gen_encode by lia. done.
      * destruct (slotmap w !! Z.to_nat i) as [s'|] eqn:E; [|done].
        rewrite (Vfr s' eq_refl), Va. done.
  - rewrite list_lookup_insert_ne by lia.
    rewrite decide_False by (intros ->; by rewrite id_index_encode in Ei by lia).
    replace (slotmap w1 !! Z.to_nat (id_index id')) with (slotmap w !! Z.to_nat (id_index id')); [done|].
    apply option_eq. intros s'. symmetry. apply Vo. lia.
Qed.

Lemma issued_occupy w i s w1 e id' :
  vacant w i s w1 -> issued w id' -> issued (occupy w1 i (generation s + 1) e) id'.
Proof.
  intros V (s' & Hs' & Hg). destruct V as [_ Vs Vi _ _ _ _ _ Vo Vfr _ _].
  unfold issued, occupy; wsimpl. pose proof (id_index_nonneg id').
  destruct (decide (id_index id' = i)) as [Ei|Ei].
  - rewrite Ei in *. rewrite list_lookup_insert_eq by eauto using lookup_lt_Some.
    eexists. split; [done|]. wsimpl. rewrite (Vfr s' Hs') in Hg. lia.
  - rewrite list_lookup_insert_ne by lia. exists s'. split; [|done]. apply Vo; [lia|done].
Qed.

(** What [schedule_at] does to the slot map, before [place] routes the
    identifier: a fresh identifier, all others as they were. *)
Lemma schedule_spec w dl h st c :
  sm_wf w -> schedule_room w ->
  exists id w2,
    schedule_at dl h st c w = Some (id, place id dl w2) /\
    (levels w2 = levels w /\ start_time w2 = start_time w /\
     current_time w2 = current_time w /\ ready w2 = ready w) /\
    sm_wf w2 /\ ~ issued w id /\ issued w2 id /\
    (forall id', issued w id' -> issued w2 id') /\
    (forall id', lookup w2 id' = if decide (id' = id) then Some (mkEntry id dl h st c) else lookup w id').
Proof.
  intros Hwf Hroom. destruct (alloc_vacant w Hwf Hroom) as (i & s & w1 & V).
  set (id := encode_id i (generation s + 1)). set (e := mkEntry id dl h st c).
  exists id, (occupy w1 i (generation s + 1) e).
  pose proof (lookup_occupy w i s w1 e) as Hlk.
  split_and!; try (apply (va_frame _ _ _ _ V)).
  - unfold schedule_at. rewrite (va_alloc _ _ _ _ V). rewrite (va_slot _ _ _ _ V). cbn [mbind option_bind].
    rewrite (wrap_small 64 (generation s + 1)); [done|].
    pose proof (va_gen _ _ _ _ V). zpow. lia.
  - by apply (sm_wf_occupy w i s w1 e Hwf V).
  - intros (s' & Hs' & Hg). pose proof (va_index _ _ _ _ V). pose proof (va_gen _ _ _ _ V).
    unfold id in *. rewrite id_index_encode in Hs' by lia. rewrite id_gen_encode in Hg by lia.
    rewrite (va_fresh _ _ _ _ V s' Hs') in Hg. lia.
  - eapply lookup_issued. rewrite Hlk by done. by rewrite decide_True.
  - intros id'. by apply issued_occupy.
  - intros id'. by apply Hlk.
Qed.

End TimerInv.
