(* ===== verification/TimerSpec.v ===== *)
(** * TimerSpec: when timers fire

    An abstract agenda maps every live timer to the tick slot in which it
    fires.  The wheel of [TimerWheel.v] refines it: scheduling, cancelling and
    ticking the wheel are the corresponding agenda operations. *)

From S2P Require Import Prelude Core TimerWheel TimerInv.

Module TimerSpec.
Import Timer TimerInv.

(** ** The abstract agenda *)

(** The slot in which a timer due at tick [D] fires once it has been routed
    to level 2 or 3. *)
Definition early (D : Z) : Z := if D mod 16384 =? 256 then D - 256 else D.

(** The slot in which a timer due at tick [D] and scheduled at tick [n] fires. *)
Definition fire_slot (n D : Z) : Z :=
  if D <? n then n + (D - n) mod 256
  else if 16384 <=? D - n then early D else D.

Record Agenda := mkAgenda { now : Z; due : gmap Z (Z * TimerEntry) }.

Definition a_schedule (start : Z) (id : Z) (e : TimerEntry) (a : Agenda) : Agenda :=
  mkAgenda (now a) (<[id := (fire_slot (now a) (dticks start (te_deadline e)), e)]> (due a)).

Definition a_cancel (id : Z) (a : Agenda) : Agenda := mkAgenda (now a) (delete id (due a)).

Definition a_tick (a : Agenda) : Agenda :=
  mkAgenda (now a + 1) (filter (fun p => p.2.1 <> now a) (due a)).

(** Completing one timer: its wait state, its handle, the count. *)
Definition fire_entry (e : TimerEntry) (st : Mem * list handle * Z) : option (Mem * list handle * Z) :=
  let '(m, rdy, fired) := st in
  r ← claim (te_state e) (te_completion e) m;
  let '(go, m) := r in
  if negb go then Some (m, rdy, fired)
  else
    push ← resumable (te_handle e) m;
    if (push : bool) then Some (m, rdy ++ [te_handle e], u32 (fired + 1)) else Some (m, rdy, fired).

Fixpoint fire_entries (es : list TimerEntry) (st : Mem * list handle * Z) : option (Mem * list handle * Z) :=
  match es with
  | [] => Some st
  | e :: es => st ← fire_entry e st; fire_entries es st
  end.

(** ** Where a live identifier may be *)

(** [c 0] is the next level-0 slot to process, [c l] the next block of level [l]. *)
Definition pos_ok (c : nat -> Z) (l : nat) (s D E : Z) : Prop :=
  match l with
  | 0%nat => s = E mod 256 /\ E mod 256 = D mod 256 /\ c 0%nat <= E < c 0%nat + 256
  | 1%nat => s = (D / 256) mod 64 /\ c 1%nat <= D / 256 /\ D <= 256 * (c 1%nat + 64) /\ E = D
  | 2%nat => s = (D / 16384) mod 64 /\ c 2%nat <= D / 16384 < c 2%nat + 64 /\ E = early D
  | 3%nat => s = (D / 1048576) mod 64 /\ c 3%nat <= D / 1048576 /\ E = early D
  | _ => False
  end.

Definition cursors (w : Wheel) (c : nat -> Z) : Prop :=
  forall l, (l < 4)%nat -> cur_slot w l = c l mod level_size l.

(** The invariant, also inside a tick: [t] is the tick count of
    [current_time], [flight] the identifiers taken out of a slot and not yet
    put back. *)
Record Mid (w : Wheel) (c : nat -> Z) (t : Z) (du : gmap Z (Z * TimerEntry)) (flight : list Z) : Prop := {
  mid_shape : shape w;
  mid_time : now_ticks w t;
  mid_sm : sm_wf w;
  mid_lookup : forall id, lookup w id = snd <$> du !! id;
  mid_time_ok : forall id E e, du !! id = Some (E, e) -> time_ok (start_time w) (te_deadline e);
  mid_cover : forall id p, du !! id = Some p -> id ∈ flight \/ exists l s, at_slot w l s id;
  mid_pos : forall l s id E e, at_slot w l s id -> du !! id = Some (E, e) ->
    pos_ok c l s (dticks (start_time w) (te_deadline e)) E;
  mid_issued : forall l s id, at_slot w l s id -> issued w id;
}.

(** The cursors between ticks, and inside a tick once the cascade is done. *)
Definition cstab (n : Z) (l : nat) : Z :=
  match l with
  | 0%nat => n
  | 1%nat => (n + 255) / 256
  | 2%nat => (n + 16383) / 16384
  | _ => (n + 1048575) / 1048576
  end.

Definition cmid (n : Z) (l : nat) : Z := match l with O => n | _ => cstab (n + 1) l end.

Definition bump (c : nat -> Z) (l : nat) : nat -> Z := fun k => if decide (k = l) then c k + 1 else c k.

(** What moving identifiers between slots leaves alone. *)
Definition frame (w w' : Wheel) : Prop :=
  start_time w' = start_time w /\ ready w' = ready w /\ slotmap w' = slotmap w.

(** The refinement relation. *)
Definition Rel (w : Wheel) (a : Agenda) : Prop :=
  Mid w (cstab (now a)) (now a) (due a) [] /\ cursors w (cstab (now a)).

Lemma pos_ok_ext c c' l s D E :
  (forall k, (k < 4)%nat -> c k = c' k) -> pos_ok c l s D E -> pos_ok c' l s D E.
Proof. intros H. do 4 (destruct l as [|l]; [cbn; rewrite (H _) by lia; done|]). done. Qed.

Lemma Mid_ext w c c' t du fl :
  (forall k, (k < 4)%nat -> c k = c' k) -> Mid w c t du fl -> Mid w c' t du fl.
Proof. intros H []. split; eauto using pos_ok_ext. Qed.

Lemma cursors_ext w c c' : (forall k, (k < 4)%nat -> c k = c' k) -> cursors w c -> cursors w c'.
Proof. intros H Hc l Hl. rewrite <- H by done. auto. Qed.

(** ** Scheduling and cancelling *)

Lemma fire_slot_pos n D :
  0 <= n -> 0 <= D -> let p := place_pos n D in pos_ok (cstab n) p.1 p.2 D (fire_slot n D).
Proof.
  intros Hn HD. unfold place_pos, fire_slot, early.
  case_cmp; cbn [fst snd pos_ok cstab]; unfold early; case_cmp; zdiv.
Qed.

(** Putting an identifier into the slot [place] chooses. *)
Lemma Mid_place w c t du fl id E e :
  Mid w c t du (id :: fl) -> du !! id = Some (E, e) ->
  (let p := place_pos t (dticks (start_time w) (te_deadline e)) in
   pos_ok c p.1 p.2 (dticks (start_time w) (te_deadline e)) E) ->
  Mid (place id (te_deadline e) w) c t du fl.
Proof.
  intros M Hdu Hpos. pose proof M as [Hsh Ht Hsm Hlk Hok Hcov Hp His].
  pose proof (place_spec w t id (te_deadline e) Ht (Hok _ _ _ Hdu)) as Epl.
  set (p := place_pos t (dticks (start_time w) (te_deadline e))) in *.
  pose proof (addr_ok_place_pos t (dticks (start_time w) (te_deadline e))) as Ha. fold p in Ha.
  rewrite Epl. cbn zeta.
  assert (forall l s i, at_slot (push_slot p.1 p.2 id w) l s i <->
    at_slot w l s i \/ (l = p.1 /\ s = p.2 /\ i = id)) as Hat by (intros; by apply at_slot_push).
  split; try done.
  - by apply shape_upd_slot.
  - by apply (sm_wf_same w).
  - intros i q Hq. destruct (Hcov i q Hq) as [Hin|(l & s & Hls)].
    + apply elem_of_cons in Hin as [->|Hin]; [|by left].
      right. exists p.1, p.2. apply Hat. by right.
    + right. exists l, s. apply Hat. by left.
  - intros l s i E' e' [Hls|(-> & -> & ->)]%Hat Hi; [by eapply Hp|].
    rewrite Hdu in Hi. injection Hi as <- <-. done.
  - intros l s i [Hls|(_ & _ & ->)]%Hat.
    + apply (issued_same_slotmap w); [done|]. by eapply His.
    + apply (issued_same_slotmap w); [done|]. eapply lookup_issued. rewrite Hlk, Hdu. done.
Qed.

Lemma cur_slot_place id dl w l : cur_slot (place id dl w) l = cur_slot w l.
Proof. unfold place, push_slot. repeat case_match; by rewrite cur_slot_upd_slot. Qed.

Lemma place_frame id dl w :
  start_time (place id dl w) = start_time w /\ current_time (place id dl w) = current_time w /\
  slotmap (place id dl w) = slotmap w /\ ready (place id dl w) = ready w.
Proof. destruct (place_levels_only id dl w) as [lv ->]. done. Qed.

(** Scheduling refines [a_schedule]. *)
Lemma Rel_schedule w a dl h st c :
  Rel w a -> schedule_room w -> time_ok (start_time w) dl ->
  exists id w', schedule_at dl h st c w = Some (id, w') /\ lookup w id = None /\
    ~ issued w id /\ (forall i, issued w i -> issued w' i) /\
    let e := mkEntry id dl h st c in
    lookup w' id = Some e /\ Rel w' (a_schedule (start_time w) id e a) /\
    start_time w' = start_time w /\ current_time w' = current_time w /\ ready w' = ready w.
Proof.
  intros [M Hcur] Hroom Hok. pose proof M as [Hsh Ht Hsm Hlk Hto Hcov Hp His].
  destruct (schedule_spec w dl h st c Hsm Hroom)
    as (id & w2 & Hsch & (Hlv & Hst & Hct & Hrdy) & Hsm2 & Hni & Hi2 & Hmono & Hlk2).
  assert (lookup w id = None) as Hnone.
  { destruct (lookup w id) eqn:E; [|done]. by apply lookup_issued in E. }
  exists id, (place id dl w2). destruct (place_frame id dl w2) as (F1 & F2 & F3 & F4).
  split; [done|]. split; [done|]. split; [done|].
  split; [intros i Hi; apply (issued_same_slotmap w2); [done|auto]|].
  cbn zeta. set (e := mkEntry id dl h st c).
  rewrite (lookup_same_slotmap _ w2) by done. rewrite Hlk2, decide_True by done.
  split; [done|]. split; [|split_and!; congruence].
  pose proof Ht as [Hn _].
  assert (Mid w2 (cstab (now a)) (now a) (due (a_schedule (start_time w) id e a)) [id]) as M2.
  { split; cbn [a_schedule due].
    - by apply (shape_same_levels w).
    - destruct Ht. split; congruence.
    - done.
    - intros i. rewrite Hlk2, lookup_insert. repeat case_decide; subst; done.
    - intros i E' e'. rewrite Hst, lookup_insert. case_decide; [|eauto]. by intros [= <- <-].
    - intros i p. rewrite lookup_insert. case_decide; [left; subst; by left|].
      intros Hi. destruct (Hcov i p Hi) as [[]%elem_of_nil|(l & s & Hls)].
      right. exists l, s. by apply (at_slot_levels w).
    - intros l s i E' e' Hat. apply (at_slot_levels w2 w) in Hat; [|done].
      rewrite Hst, lookup_insert. case_decide; [|by apply Hp].
      subst i. by apply His in Hat.
    - intros l s i Hat. apply (at_slot_levels w2 w) in Hat; [|done]. eauto. }
  split.
  - eapply (Mid_place w2 _ _ _ _ id _ e M2); cbn [a_schedule due].
    + by rewrite lookup_insert_eq.
    + rewrite Hst. apply fire_slot_pos; [done|]. by apply dticks_range.
  - intros l Hl. rewrite cur_slot_place, (cur_slot_levels _ w) by done. by apply Hcur.
Qed.

(** Releasing an identifier removes it from the agenda. *)
Lemma Mid_release w c t du fl id :
  Mid w c t du fl -> Mid (release id w) c t (delete id du) fl.
Proof.
  intros [Hsh Ht Hsm Hlk Hok Hcov Hp His].
  destruct (release_frame w id) as (F1 & F2 & F3 & F4).
  assert (forall i p, delete id du !! i = Some p -> i <> id /\ du !! i = Some p) as Hdel.
  { intros i p [? ?]%lookup_delete_Some. done. }
  split.
  - by apply (shape_same_levels w).
  - unfold now_ticks. by rewrite F2, F3.
  - by apply sm_wf_release.
  - intros i. rewrite release_lookup, lookup_delete. repeat case_decide; subst; done.
  - intros i E e [_ Hi]%Hdel. rewrite F2. eauto.
  - intros i p [_ Hi]%Hdel. destruct (Hcov i p Hi) as [|(l & s & Hls)]; [by left|].
    right. exists l, s. by apply (at_slot_levels w).
  - intros l s i E e Hat [_ Hi]%Hdel. rewrite F2. apply (Hp l s i E e); [|done].
    by apply (at_slot_levels _ w) in Hat.
  - intros l s i Hat. apply release_issued. apply (at_slot_levels _ w) in Hat; [|done]. eauto.
Qed.

Lemma Rel_cancel w a id :
  Rel w a ->
  exists w', cancel id w = (bool_decide (is_Some (due a !! id)), w') /\ Rel w' (a_cancel id a) /\
    lookup w' id = None.
Proof.
  intros [M Hcur]. exists (release id w). split; [|split].
  - rewrite cancel_release, (mid_lookup _ _ _ _ _ M). f_equal. apply bool_decide_ext. by rewrite fmap_is_Some.
  - split; [by apply Mid_release|]. intros l Hl.
    rewrite (cur_slot_levels _ w) by apply release_frame. by apply Hcur.
  - by rewrite release_lookup, decide_True.
Qed.

(** ** The cascade *)

Lemma replace_ids_cons id ids w :
  replace_ids (id :: ids) w =
    replace_ids ids (match lookup w id with None => w | Some e => place id (te_deadline e) w end).
Proof. done. Qed.

Lemma Mid_drop w c t du fl id : Mid w c t du (id :: fl) -> du !! id = None -> Mid w c t du fl.
Proof.
  intros [Hsh Ht Hsm Hlk Hok Hcov Hp His] Hid. split; try done.
  intros i p Hi. destruct (Hcov i p Hi) as [[->|Hin]%elem_of_cons|]; [congruence|by left|by right].
Qed.

(** Re-placing the identifiers in flight puts each where the cursors allow it. *)
Lemma Mid_replace_ids w c t du ids :
  Mid w c t du ids ->
  (forall id E e, id ∈ ids -> du !! id = Some (E, e) ->
     let D := dticks (start_time w) (te_deadline e) in
     pos_ok c (place_pos t D).1 (place_pos t D).2 D E) ->
  Mid (replace_ids ids w) c t du [] /\ (forall l, cur_slot (replace_ids ids w) l = cur_slot w l) /\
  frame w (replace_ids ids w).
Proof.
  revert w. induction ids as [|id ids IH]; intros w M Hpos; [done|].
  rewrite replace_ids_cons, (mid_lookup _ _ _ _ _ M).
  destruct (du !! id) as [[E e]|] eqn:Hdu; cbn [fmap option_fmap option_map snd].
  - destruct (place_frame id (te_deadline e) w) as (F1 & F2 & F3 & F4).
    destruct (IH (place id (te_deadline e) w)) as (M' & Hcur & (Hs & Hr & Hsl)).
    + eapply Mid_place; [done..|]. apply (Hpos id); [by left|done].
    + intros i E' e' Hi Hdu'. rewrite F1. apply (Hpos i); [by right|done].
    + split; [done|]. split; [|split_and!; congruence]. intros l. by rewrite Hcur, cur_slot_place.
  - apply IH; [by eapply Mid_drop|]. intros i E' e' Hi. apply Hpos. by right.
Qed.

Lemma cursor_addr w c l : cursors w c -> (l < 4)%nat -> addr_ok l (cur_slot w l).
Proof.
  intros Hc Hl. split; [done|]. rewrite Hc by done. apply Z.mod_pos_bound, level_size_pos.
Qed.

(** Taking the identifiers out of the current slot of level [l]: they are in
    flight, every other one is where the stepped cursor allows it. *)
Lemma Mid_take_slot w c t du l :
  (l < 4)%nat -> Mid w c t du [] -> cursors w c ->
  (forall l' s D E, (l', s) <> (l, c l mod level_size l) ->
     pos_ok c l' s D E -> pos_ok (bump c l) l' s D E) ->
  Mid (upd_slot l (cur_slot w l) (fun _ => []) w) (bump c l) t du (get_slot w l (cur_slot w l)).
Proof.
  intros Hl M Hcur Hkeep. pose proof M as [Hsh Ht Hsm Hlk Hok Hcov Hp His].
  pose proof (cursor_addr w c l Hcur Hl) as Ha. set (cur := cur_slot w l) in *.
  set (w1 := upd_slot l cur (fun _ => []) w).
  assert (cur = c l mod level_size l) as Ecur by (by apply Hcur).
  assert (forall l' s id, at_slot w1 l' s id <-> at_slot w l' s id /\ (l', s) <> (l, cur)) as Hat
    by (intros; by apply at_slot_clear).
  split; try done.
  - by apply shape_upd_slot.
  - by apply (sm_wf_same w).
  - intros i p Hi. destruct (Hcov i p Hi) as [[]%elem_of_nil|(l' & s & Hls)].
    destruct (decide ((l', s) = (l, cur))) as [[= -> ->]|Hne].
    + left. apply Hls.
    + right. exists l', s. by apply Hat.
  - intros l' s i E e [Hls Hne]%Hat Hi. apply Hkeep; [congruence|by eapply Hp].
  - intros l' s i [Hls _]%Hat. apply (issued_same_slotmap w); [done|eauto].
Qed.

(** What was in the slot. *)
Lemma Mid_taken w c t du l id E e :
  (l < 4)%nat -> Mid w c t du [] -> cursors w c -> id ∈ get_slot w l (cur_slot w l) ->
  du !! id = Some (E, e) ->
  pos_ok c l (c l mod level_size l) (dticks (start_time w) (te_deadline e)) E.
Proof.
  intros Hl M Hcur Hin Hdu. rewrite <- (Hcur l Hl). apply (mid_pos _ _ _ _ _ M l _ id); [|done].
  split; [by eapply cursor_addr|done].
Qed.

Lemma Mid_set_cur w c t du fl l k : Mid w c t du fl -> Mid (set_cur l k w) c t du fl.
Proof.
  intros [Hsh Ht Hsm Hlk Hok Hcov Hp His]. split; try done.
  - by apply shape_set_cur.
  - by apply (sm_wf_same w).
  - intros i p Hi. destruct (Hcov i p Hi) as [|(l' & s & Hls)]; [by left|].
    right. exists l', s. by apply at_slot_set_cur.
  - intros l' s i E e Hat Hi. rewrite at_slot_set_cur in Hat. by apply (Hp l' s i E e).
  - intros l' s i Hat. rewrite at_slot_set_cur in Hat. apply (issued_same_slotmap w); [done|eauto].
Qed.

(** Stepping the cursor of level [l] in the wheel. *)
Lemma cursors_step w w' c l :
  (l < 4)%nat -> shape w' -> cursors w c -> (forall k, cur_slot w' k = cur_slot w k) ->
  cursors (set_cur l ((cur_slot w' l + 1) mod level_size l) w') (bump c l).
Proof.
  intros Hl Hsh Hcur Hsame k Hk. unfold bump. case_decide as Ek.
  - subst k. rewrite (cur_slot_set_cur_eq l _ w' Hsh Hl), Hsame, Hcur by done.
    by rewrite Zplus_mod_idemp_l.
  - rewrite cur_slot_set_cur_ne, Hsame by congruence. by apply Hcur.
Qed.

(** Emptying the current slot of level [l], re-placing its identifiers and
    stepping its cursor: [c] before, [bump c l] after. *)
Lemma Mid_drain_level w c t du l :
  (l < 4)%nat -> Mid w c t du [] -> cursors w c ->
  (forall l' s D E, (l', s) <> (l, c l mod level_size l) ->
     pos_ok c l' s D E -> pos_ok (bump c l) l' s D E) ->
  (forall D E, pos_ok c l (c l mod level_size l) D E ->
     pos_ok (bump c l) (place_pos t D).1 (place_pos t D).2 D E) ->
  Mid (drain_level l w) (bump c l) t du [] /\ cursors (drain_level l w) (bump c l) /\
  frame w (drain_level l w).
Proof.
  intros Hl M Hcur Hkeep Hmove. pose proof (Mid_take_slot w c t du l Hl M Hcur Hkeep) as M1.
  destruct (Mid_replace_ids _ _ _ _ _ M1) as (M2 & Hcur2 & Hf2).
  { intros i E e Hi Hdu. apply Hmove. by apply (Mid_taken w c t du l i). }
  unfold drain_level. set (w2 := replace_ids _ _) in *.
  pose proof (mid_shape _ _ _ _ _ M2) as Hsh2. rewrite level_slot_count_shape by done.
  split; [|split].
  - by apply Mid_set_cur.
  - apply (cursors_step w); try done. intros k. by rewrite Hcur2, cur_slot_upd_slot.
  - done.
Qed.

(** Positions outside the slot being emptied stay valid when its cursor steps. *)
Lemma pos_ok_bump c l l' s D E :
  (l', s) <> (l, c l mod level_size l) -> pos_ok c l' s D E -> pos_ok (bump c l) l' s D E.
Proof.
  intros Hne. destruct (decide (l' = l)) as [->|Hl].
  - assert (s <> c l mod level_size l) as Hs by congruence. clear Hne.
    do 4 (destruct l as [|l]; [cbn [pos_ok level_size] in *; unfold bump;
      rewrite decide_True by done; intros; zdiv|]). done.
  - do 4 (destruct l' as [|l']; [cbn [pos_ok]; unfold bump; rewrite decide_False by done; done|]). done.
Qed.

Lemma bump_eq c l : bump c l l = c l + 1.
Proof. unfold bump. by rewrite decide_True. Qed.

Lemma bump_ne c l k : k <> l -> bump c l k = c k.
Proof. intros. unfold bump. by rewrite decide_False. Qed.

Section Moves.
Context (n : Z) (c : nat -> Z) (H0 : c 0%nat = n).

Lemma move1 D E :
  n mod 256 = 0 -> c 1%nat = n / 256 -> pos_ok c 1 (c 1%nat mod 64) D E ->
  pos_ok (bump c 1) (place_pos (n + 1) D).1 (place_pos (n + 1) D).2 D E.
Proof.
  intros Hm H1 (Hs & Hlo & Hhi & ->). unfold place_pos.
  case_cmp; cbn [fst snd pos_ok]; rewrite ?bump_eq, ?bump_ne, ?H0, ?H1 in * by done; zdiv.
Qed.

Lemma move2 D E :
  n mod 16384 = 0 -> c 1%nat = n / 256 -> c 2%nat = n / 16384 -> pos_ok c 2 (c 2%nat mod 64) D E ->
  pos_ok (bump c 2) (place_pos (n + 1) D).1 (place_pos (n + 1) D).2 D E.
Proof.
  intros Hm H1 H2 (Hs & Hr & ->). unfold place_pos, early.
  case_cmp; cbn [fst snd pos_ok]; unfold early; rewrite ?bump_eq, ?bump_ne, ?H0, ?H1, ?H2 in * by done; case_cmp; zdiv.
Qed.

Lemma move3 D E :
  n mod 1048576 = 0 -> c 1%nat = n / 256 -> c 2%nat = n / 16384 -> c 3%nat = n / 1048576 ->
  pos_ok c 3 (c 3%nat mod 64) D E ->
  pos_ok (bump c 3) (place_pos (n + 1) D).1 (place_pos (n + 1) D).2 D E.
Proof.
  intros Hm H1 H2 H3 (Hs & Hr & ->). unfold place_pos, early.
  case_cmp; cbn [fst snd pos_ok]; unfold early;
    rewrite ?bump_eq, ?bump_ne, ?H0, ?H1, ?H2, ?H3 in * by done; case_cmp; zdiv.
Qed.
End Moves.

Lemma cascade_unfold w :
  cascade 1 w = drain_level 1 (if cur_slot w 1 =? 0
    then drain_level 2 (if cur_slot w 2 =? 0 then drain_level 3 w else w) else w).
Proof.
  unfold cascade. cbn [cascade_from kNumLevels Nat.sub Nat.add].
  change kNumLevels with 4%nat.
  repeat case_bool_decide; try lia. by rewrite !andb_true_r, andb_false_r.
Qed.

Section Cascade.
Context (n : Z) (du : gmap Z (Z * TimerEntry)) (base : Wheel).
(** What every stage of the cascade maintains. *)
Definition stage (w : Wheel) (c : nat -> Z) : Prop :=
  Mid w c (n + 1) du [] /\ cursors w c /\ frame base w.

(** The cursors of the levels from [l] up have been stepped. *)
Definition cfrom (l k : nat) : Z := if decide (l <= k)%nat then cstab (n + 1) k else cstab n k.

(** Compares two cursor functions on the four levels. *)
Ltac solve_cursor := unfold bump, cfrom; repeat case_decide; cbn [cmid cstab] in *; (lia || zdiv).
Ltac solve_cursors :=
  let k := fresh "k" in let Hk := fresh "Hk" in
  intros k Hk; do 4 (destruct k as [|k]; [solve_cursor|]); lia.

Lemma stage_ext w c c' : (forall k, (k < 4)%nat -> c k = c' k) -> stage w c -> stage w c'.
Proof. intros H (? & ? & ?). split; [|split]; eauto using Mid_ext, cursors_ext. Qed.

Lemma stage_drain w c l :
  (l < 4)%nat -> stage w c ->
  (forall D E, pos_ok c l (c l mod level_size l) D E ->
     pos_ok (bump c l) (place_pos (n + 1) D).1 (place_pos (n + 1) D).2 D E) ->
  stage (drain_level l w) (bump c l).
Proof.
  intros Hl (M & Hc & (Hs & Hr & Hsl)) Hmove.
  destruct (Mid_drain_level w c (n + 1) du l Hl M Hc) as (M' & Hc' & (Hs' & Hr' & Hsl')); [|done|].
  - intros. by apply pos_ok_bump.
  - split; [done|]. split; [done|]. split_and!; congruence.
Qed.

Lemma stage3 w :
  n mod 16384 = 0 -> stage w (cstab n) ->
  stage (if cur_slot w 2 =? 0 then drain_level 3 w else w) (cfrom 3).
Proof.
  intros Hm S. pose proof S as (_ & Hc & _). rewrite (Hc 2%nat) by lia. cbn [cstab level_size].
  destruct (Z.eqb_spec (((n + 16383) / 16384) mod 64) 0).
  - eapply stage_ext; [|apply (stage_drain w (cstab n) 3); [lia|done|]].
    + solve_cursors.
    + intros D E. apply move3; solve_cursor.
  - eapply stage_ext; [|done].
    solve_cursors.
Qed.

Lemma stage2 w :
  n mod 256 = 0 -> stage w (cstab n) ->
  stage (if cur_slot w 1 =? 0 then drain_level 2 (if cur_slot w 2 =? 0 then drain_level 3 w else w) else w)
        (cfrom 2).
Proof.
  intros Hm S. pose proof S as (_ & Hc & _). rewrite (Hc 1%nat) by lia. cbn [cstab level_size].
  destruct (Z.eqb_spec (((n + 255) / 256) mod 64) 0).
  - eapply stage_ext; [|apply (stage_drain _ (cfrom 3) 2); [lia|apply stage3; [zdiv|done]|]].
    + solve_cursors.
    + intros D E. apply move2; solve_cursor.
  - eapply stage_ext; [|done].
    solve_cursors.
Qed.

Lemma stage1 w :
  stage w (cstab n) -> stage (if cur_slot w 0 =? 0 then cascade 1 w else w) (cmid n).
Proof.
  intros S. pose proof S as (_ & Hc & _). rewrite (Hc 0%nat) by lia. cbn [cstab level_size].
  destruct (Z.eqb_spec (n mod 256) 0).
  - rewrite cascade_unfold.
    eapply stage_ext; [|apply (stage_drain _ (cfrom 2) 1); [lia|by apply stage2|]].
    + solve_cursors.
    + intros D E. apply move1; solve_cursor.
  - eapply stage_ext; [|done].
    solve_cursors.
Qed.
End Cascade.

(** ** Processing a slot *)

(** The timers a slot fires, in order: its identifiers that are live when
    their turn comes. *)
Fixpoint fire_order (ids : list Z) (w : Wheel) : list (Z * TimerEntry) :=
  match ids with
  | [] => []
  | id :: ids =>
    match lookup w id with
    | None => fire_order ids w
    | Some e => (id, e) :: fire_order ids (release id w)
    end
  end.

Definition release_all (ids : list Z) (w : Wheel) : Wheel := foldl (fun w id => release id w) w ids.

Definition remove_all (ids : list Z) (du : gmap Z (Z * TimerEntry)) : gmap Z (Z * TimerEntry) :=
  foldl (fun d id => delete id d) du ids.

Lemma release_set_ready r id w : release id (set_ready r w) = set_ready r (release id w).
Proof. unfold release, free_slot; wsimpl. by repeat case_match. Qed.

Lemma release_all_cons id ids w : release_all (id :: ids) w = release_all ids (release id w).
Proof. done. Qed.

Lemma remove_all_cons id ids du : remove_all (id :: ids) du = remove_all ids (delete id du).
Proof. done. Qed.

Lemma release_all_set_ready r ids w : release_all ids (set_ready r w) = set_ready r (release_all ids w).
Proof.
  revert w. induction ids as [|id ids IH]; intros w; [done|].
  by rewrite !release_all_cons, release_set_ready, IH.
Qed.

Lemma fire_order_set_ready r ids w : fire_order ids (set_ready r w) = fire_order ids w.
Proof.
  revert w. induction ids as [|id ids IH]; intros w; [done|]. cbn [fire_order].
  change (lookup (set_ready r w) id) with (lookup w id).
  destruct (lookup w id); [|done]. by rewrite release_set_ready, IH.
Qed.

Lemma set_ready_id w : set_ready (ready w) w = w.
Proof. by destruct w. Qed.

Lemma set_ready_twice r r' w : set_ready r (set_ready r' w) = set_ready r w.
Proof. done. Qed.

Lemma process_id_fire id w m f e :
  lookup w id = Some e ->
  process_id id (m, w, f) =
    st ← fire_entry e (m, ready w, f);
    let '(m', r', f') := st in Some (m', set_ready r' (release id w), f').
Proof.
  intros H. assert (set_ready (ready w) (release id w) = release id w) as E.
  { rewrite <- (set_ready_id (release id w)) at 2. f_equal. symmetry. apply release_frame. }
  unfold process_id, fire_entry. rewrite H.
  destruct (claim _ _ m) as [[[] m']|]; cbn; [|by rewrite E|done].
  destruct (resumable _ m') as [[]|]; cbn; [by rewrite release_set_ready|by rewrite E|done].
Qed.

(** Processing identifiers is firing their live entries in order, and
    releasing them. *)
Lemma process_ids_fire ids w m f :
  process_ids ids (m, w, f) =
    st ← fire_entries (fire_order ids w).*2 (m, ready w, f);
    let '(m', r', f') := st in Some (m', set_ready r' (release_all (fire_order ids w).*1 w), f').
Proof.
  revert w m f. induction ids as [|id ids IH]; intros w m f.
  - cbn. by rewrite set_ready_id.
  - cbn [process_ids fire_order]. destruct (lookup w id) as [e|] eqn:E.
    + rewrite (process_id_fire id w m f e E). cbn [fmap list_fmap fire_entries fst snd].
      destruct (fire_entry e (m, ready w, f)) as [[[m' r'] f']|]; cbn [mbind option_bind]; [|done].
      rewrite IH, fire_order_set_ready. change (ready (set_ready r' (release id w))) with r'.
      cbn [fst snd]. by rewrite release_all_set_ready.
    + unfold process_id. rewrite E. cbn [mbind option_bind]. apply IH.
Qed.

Lemma elem_of_fire_order ids w id e :
  (id, e) ∈ fire_order ids w <-> id ∈ ids /\ lookup w id = Some e.
Proof.
  revert w. induction ids as [|i ids IH]; intros w; cbn [fire_order].
  - rewrite !elem_of_nil. tauto.
  - destruct (lookup w i) as [e'|] eqn:E; rewrite !elem_of_cons, IH, ?release_lookup.
    + case_decide; naive_solver congruence.
    + naive_solver congruence.
Qed.

Lemma NoDup_fire_order ids w : NoDup (fire_order ids w).*1.
Proof.
  revert w. induction ids as [|i ids IH]; intros w; cbn [fire_order]; [constructor|].
  destruct (lookup w i) as [e|] eqn:E; [|done]. cbn [fmap list_fmap fst].
  apply NoDup_cons. split; [|done]. rewrite list_elem_of_fmap.
  intros ([i' e'] & -> & Hin). apply elem_of_fire_order in Hin as [_ Hl].
  by rewrite release_lookup, decide_True in Hl.
Qed.

Lemma lookup_remove_all ids du i :
  remove_all ids du !! i = if decide (i ∈ ids) then None else du !! i.
Proof.
  revert du. induction ids as [|id ids IH]; intros du.
  - case_decide as H; [by apply elem_of_nil in H|done].
  - rewrite remove_all_cons, IH, lookup_delete.
    repeat case_decide; try done; set_solver.
Qed.

Lemma Mid_fire_order w c t du ids :
  Mid w c t du ids ->
  Mid (release_all (fire_order ids w).*1 w) c t (remove_all (fire_order ids w).*1 du) [].
Proof.
  revert w du. induction ids as [|id ids IH]; intros w du M; [done|].
  cbn [fire_order]. pose proof (mid_lookup _ _ _ _ _ M id) as Hlk.
  destruct (lookup w id) as [e|] eqn:E.
  - cbn [fmap list_fmap fst]. rewrite release_all_cons, remove_all_cons. apply IH.
    eapply Mid_drop; [by apply Mid_release|]. by rewrite lookup_delete_eq.
  - apply IH. eapply Mid_drop; [done|]. by destruct (du !! id).
Qed.

Lemma release_all_issued ids w i : issued (release_all ids w) i <-> issued w i.
Proof.
  revert w. induction ids as [|id ids IH]; intros w; [done|].
  by rewrite release_all_cons, IH, release_issued.
Qed.

Lemma release_all_frame ids w :
  levels (release_all ids w) = levels w /\ start_time (release_all ids w) = start_time w /\
  ready (release_all ids w) = ready w.
Proof.
  revert w. induction ids as [|id ids IH]; intros w; [done|].
  rewrite release_all_cons. destruct (IH (release id w)) as (-> & -> & ->). destruct (release_frame w id) as (-> & -> & _ & ->). done.
Qed.

(** ** The tick *)

(** Once the cascade is done, exactly the timers of the current level-0 slot
    are due in it. *)
Lemma pos_now n l s D : 0 <= n -> pos_ok (cmid n) l s D n -> l = 0%nat /\ s = n mod 256.
Proof.
  intros Hn. destruct l as [|l]; [by intros (-> & _)|].
  do 3 (destruct l as [|l]; [cbn [pos_ok cmid cstab]; unfold early; case_cmp; intros; exfalso; zdiv|]). done.
Qed.

Lemma pos_current n D E : pos_ok (cmid n) 0 (n mod 256) D E -> E = n.
Proof. cbn [pos_ok cmid]. intros. zdiv. Qed.

Lemma Mid_set_time w c t t' du fl :
  now_ticks (set_time (start_time w + t' * kMillisecond) w) t' ->
  Mid w c t du fl -> Mid (set_time (start_time w + t' * kMillisecond) w) c t' du fl.
Proof. intros Ht []. split; try done; [by apply (shape_same_levels w)|by apply (sm_wf_same w)]. Qed.

Lemma Mid_set_ready w c t du fl r : Mid w c t du fl -> Mid (set_ready r w) c t du fl.
Proof. intros []. split; try done; [by apply (shape_same_levels w)|by apply (sm_wf_same w)]. Qed.

Lemma Rel_set_ready r w a : Rel w a -> Rel (set_ready r w) a.
Proof. intros [M Hc]. split; [by apply Mid_set_ready|done]. Qed.

(** The order in which the current slot fires lists the timers due in it. *)
Lemma fire_order_due n w1 du base :
  0 <= n -> stage n du base w1 (cmid n) ->
  forall id e,
    (id, e) ∈ fire_order (get_slot w1 0 (cur_slot w1 0)) (upd_slot 0 (cur_slot w1 0) (fun _ => []) w1) <->
    du !! id = Some (n, e).
Proof.
  intros Hn (M & Hc & _) id e.
  pose proof (Hc 0%nat ltac:(lia)) as Ecur. cbn [cmid level_size] in Ecur.
  rewrite elem_of_fire_order.
  change (lookup (upd_slot _ _ _ w1) id) with (lookup w1 id). rewrite (mid_lookup _ _ _ _ _ M). split.
  - intros [Hin Hlk]. destruct (du !! id) as [[E e']|] eqn:Edu; [|done]. injection Hlk as ->.
    pose proof (Mid_taken w1 _ _ _ 0 id E e ltac:(lia) M Hc Hin Edu) as Hp.
    apply pos_current in Hp. by subst.
  - intros Edu. rewrite Edu. split; [|done].
    destruct (mid_cover _ _ _ _ _ M id _ Edu) as [[]%elem_of_nil|(l & s & Hat)].
    pose proof (mid_pos _ _ _ _ _ M l s id n e Hat Edu) as Hp.
    apply pos_now in Hp as [-> ->]; [|done]. rewrite <- Ecur in Hat. apply Hat.
Qed.

Lemma remove_all_tick a (order : list (Z * TimerEntry)) :
  (forall id e, (id, e) ∈ order <-> due a !! id = Some (now a, e)) ->
  remove_all order.*1 (due a) = due (a_tick a).
Proof.
  intros Hord. apply map_eq. intros i. rewrite lookup_remove_all. cbn [a_tick due].
  rewrite map_lookup_filter. destruct (due a !! i) as [[E e]|] eqn:Ei; cbn; [|by case_decide].
  destruct (decide (E = now a)) as [->|HE].
  - rewrite option_guard_False by (cbn; tauto). rewrite decide_True; [done|].
    apply list_elem_of_fmap. exists (i, e). split; [done|]. by apply Hord.
  - rewrite option_guard_True by done. rewrite decide_False; [done|].
    intros ([i' e'] & -> & Hin)%list_elem_of_fmap. apply Hord in Hin. cbn in Ei. congruence.
Qed.

(** The state reached by the cascade of a tick. *)
Lemma stage_tick w a :
  Rel w a ->
  let w0 := set_time (current_time w + kTickDuration) w in
  stage (now a) (due a) w
        (if cur_slot w0 0 =? 0 then cascade 1 w0 else w0) (cmid (now a)).
Proof.
  intros [M Hcur]. pose proof (mid_time _ _ _ _ _ M) as [Hn Htime].
  apply stage1. split; [|done]. rewrite Htime. unfold kTickDuration.
  replace (start_time w + now a * kMillisecond + kMillisecond)
    with (start_time w + (now a + 1) * kMillisecond) by lia.
  eapply Mid_set_time; [split; [lia|done]|done].
Qed.

(** A tick fires the timers due in the current slot, in some order, each
    once, and moves the agenda on. *)
Lemma Rel_tick m w a :
  Rel w a ->
  exists order w',
    NoDup order.*1 /\
    (forall id e, (id, e) ∈ order <-> due a !! id = Some (now a, e)) /\
    Rel w' (a_tick a) /\ start_time w' = start_time w /\ (forall id, issued w id -> issued w' id) /\
    tick m w =
      st ← fire_entries order.*2 (m, ready w, 0);
      let '(m', r', f') := st in Some (m', set_ready r' w', f').
Proof.
  intros R. pose proof (stage_tick w a R) as S. cbn zeta in S.
  destruct R as [M Hcur]. pose proof (mid_time _ _ _ _ _ M) as [Hn _].
  unfold tick, process_current_slot. set (w0 := set_time _ w) in *.
  set (w1 := if cur_slot w0 0 =? 0 then cascade 1 w0 else w0) in *.
  pose proof (fire_order_due _ w1 _ _ Hn S) as Hord. destruct S as (M1 & Hc1 & (Hs1 & Hr1 & Hsl1)).
  pose proof (Mid_take_slot w1 _ _ _ 0 ltac:(lia) M1 Hc1 ltac:(intros; by apply pos_ok_bump)) as M2.
  set (ids := get_slot w1 0 (cur_slot w1 0)) in *.
  set (w2 := upd_slot 0 (cur_slot w1 0) (fun _ => []) w1) in *.
  set (order := fire_order ids w2) in *. set (w3 := release_all order.*1 w2).
  destruct (release_all_frame order.*1 w2) as (F1 & F2 & F3). fold w3 in F1, F2, F3.
  exists order, (set_cur 0 ((cur_slot w3 0 + 1) mod 256) w3).
  split; [apply NoDup_fire_order|]. split; [done|].
  split; [|split; [change (start_time w3 = start_time w); by rewrite F2|split]].
  - assert (forall k, (k < 4)%nat -> bump (cmid (now a)) 0 k = cstab (now a + 1) k) as Ec.
    { intros k Hk. unfold bump. case_decide; [by subst|]. by destruct k. }
    split; cbn [a_tick now].
    + eapply Mid_ext; [exact Ec|]. apply Mid_set_cur.
      rewrite <- (remove_all_tick a order Hord). by apply Mid_fire_order.
    + eapply cursors_ext; [exact Ec|]. apply (cursors_step w1); [lia| |done|].
      * apply (mid_shape _ _ _ _ _ (Mid_fire_order _ _ _ _ _ M2)).
      * intros k. rewrite (cur_slot_levels w3 w2) by done. apply cur_slot_upd_slot.
  - intros i Hi. apply (issued_same_slotmap w3); [done|]. apply release_all_issued.
    by apply (issued_same_slotmap w).
  - rewrite process_ids_fire. fold order. rewrite <- Hr1. change (ready w2) with (ready w1).
    destruct (fire_entries order.*2 (m, ready w1, 0)) as [[[m' r'] f']|]; [|done].
    cbn [mbind option_bind]. fold w3. done.
Qed.

(** A new wheel refines the empty agenda. *)
Lemma Rel_make_wheel t : Rel (make_wheel t) (mkAgenda 0 ∅).
Proof.
  assert (forall l s id, ~ at_slot (make_wheel t) l s id) as Hemp.
  { intros l s id [[Hl Hs] Hin]. unfold get_slot in Hin.
    do 4 (destruct l as [|l]; [cbn -[replicate] in Hin;
      destruct (replicate _ [] !! Z.to_nat s) as [x|] eqn:E; cbn in Hin;
      [apply lookup_replicate in E as [-> _]|]; by apply elem_of_nil in Hin|]). lia. }
  split.
  - split; cbn [now due].
    + apply shape_make_wheel.
    + split; [lia|]. cbn. lia.
    + split; cbn; try done; [apply NoDup_nil_2|]. intros i. split; [by intros ?%elem_of_nil|].
      by intros (_ & s & Hs & _).
    + intros id. by rewrite lookup_empty.
    + intros id E e Hid. by rewrite lookup_empty in Hid.
    + intros id p Hid. by rewrite lookup_empty in Hid.
    + intros l s id E e Hat. by apply Hemp in Hat.
    + intros l s id Hat. by apply Hemp in Hat.
  - intros l Hl. do 4 (destruct l as [|l]; [done|]). lia.
Qed.

End TimerSpec.
