(* ===== verification/TimerProps.v ===== *)
(** * TimerProps: what the timer wheel guarantees

    The consequences of the refinement of [TimerSpec.v] for the callers of the
    wheel: punctuality, the two cases in which it fails, cancellation, memory
    safety of ticking, [advance_to] and [next_deadline]. *)

From S2P Require Import Prelude Core TimerWheel TimerInv TimerSpec.

Module TimerProps.
Import Timer TimerInv TimerSpec.

(** ** Definitions *)

(** The wheels reachable from a new one by its public operations, with the
    agenda each of them stands for. *)
Inductive reach (t0 : Z) : Wheel -> Agenda -> Prop :=
| reach_new : reach t0 (make_wheel t0) (mkAgenda 0 ∅)
| reach_schedule w a dl h st c id w' :
    reach t0 w a -> schedule_room w -> time_ok t0 dl ->
    schedule_at dl h st c w = Some (id, w') ->
    reach t0 w' (a_schedule t0 id (mkEntry id dl h st c) a)
| reach_cancel w a id b w' :
    reach t0 w a -> cancel id w = (b, w') -> reach t0 w' (a_cancel id a)
| reach_tick w a m m' w' f :
    reach t0 w a -> tick m w = Some (m', w', f) -> reach t0 w' (a_tick a)
| reach_wake w a h : reach t0 w a -> reach t0 (wake h w) a
| reach_drain w a out : reach t0 w a -> reach t0 (drain_ready_into out w).2 a.

(** What may happen to the wheel after timer [id] was scheduled: anything but
    its own cancellation.  The memory is arbitrary at each tick. *)
Inductive evolve (id : Z) : Wheel -> Wheel -> Prop :=
| evolve_refl w : evolve id w w
| evolve_schedule w w1 w2 dl h st c id' :
    evolve id w w1 -> schedule_room w1 -> time_ok (start_time w1) dl ->
    schedule_at dl h st c w1 = Some (id', w2) -> evolve id w w2
| evolve_cancel w w1 w2 id' b :
    evolve id w w1 -> id' <> id -> cancel id' w1 = (b, w2) -> evolve id w w2
| evolve_tick w w1 w2 m m' f :
    evolve id w w1 -> tick m w1 = Some (m', w2, f) -> evolve id w w2
| evolve_wake w w1 h : evolve id w w1 -> evolve id w (wake h w1)
| evolve_drain w w1 out : evolve id w w1 -> evolve id w (drain_ready_into out w1).2.

(** The pointers an entry holds are live. *)
Definition valid_entry (m : Mem) (e : TimerEntry) : Prop :=
  (forall p, te_state e = Some p -> is_Some (ws_cells m !! p)) /\
  (forall h, te_handle e = Some h -> is_Some (frames m !! h)).

(** The timer takes the path on which it fires ahead of its deadline. *)
Definition ahead (n D : Z) : Prop := 16384 <= D - n /\ D mod 16384 = 256.

(** ** Firing entries *)

Lemma claim_dom s c m b m' :
  claim s c m = Some (b, m') -> dom (ws_cells m') = dom (ws_cells m) /\ frames m' = frames m.
Proof.
  unfold claim. destruct s as [p|]; [|by intros [= <- <-]].
  destruct (ws_cells m !! p) as [v|] eqn:E; cbn; [|done].
  case_decide; intros [= <- <-]; [|done]. cbn. split; [|done].
  apply dom_insert_lookup_L. eauto.
Qed.

Lemma fire_entry_frame e m r f m' r' f' :
  fire_entry e (m, r, f) = Some (m', r', f') ->
  dom (ws_cells m') = dom (ws_cells m) /\ frames m' = frames m /\ r `prefix_of` r' /\
  (forall p, te_state e <> Some p -> ws_cells m' !! p = ws_cells m !! p).
Proof.
  unfold fire_entry. destruct (claim _ _ m) as [[go m1]|] eqn:E; cbn; [|done].
  pose proof (claim_dom _ _ _ _ _ E) as [Hd Hf].
  assert (forall p, te_state e <> Some p -> ws_cells m1 !! p = ws_cells m !! p) as Ho.
  { intros p Hp. unfold claim in E. destruct (te_state e) as [q|]; [|by injection E as <- <-].
    destruct (ws_cells m !! q); cbn in E; [|done]. case_decide; injection E as <- <-; [|done].
    cbn. rewrite lookup_insert_ne; congruence. }
  destruct go; cbn; [|by intros [= <- <- <-]; split_and!].
  destruct (resumable _ m1) as [[]|]; cbn; [| |done]; intros [= <- <- <-]; split_and!; try done.
  by apply prefix_app_r.
Qed.

Lemma fire_entries_frame es m r f m' r' f' :
  fire_entries es (m, r, f) = Some (m', r', f') ->
  dom (ws_cells m') = dom (ws_cells m) /\ frames m' = frames m /\ r `prefix_of` r' /\
  (forall p, (forall e, e ∈ es -> te_state e <> Some p) -> ws_cells m' !! p = ws_cells m !! p).
Proof.
  revert m r f. induction es as [|e es IH]; intros m r f; cbn [fire_entries]; [by intros [= <- <- <-]; split_and!|].
  destruct (fire_entry e (m, r, f)) as [[[m1 r1] f1]|] eqn:E; cbn; [|done]. intros H.
  apply fire_entry_frame in E as (E1 & E2 & E3 & E4). apply IH in H as (H1 & H2 & H3 & H4).
  split_and!; try congruence; [by etrans|].
  intros p Hp. rewrite H4, E4; [done| |].
  - apply Hp. by left.
  - intros e' He'. apply Hp. by right.
Qed.

Lemma valid_entry_frame m m' e :
  dom (ws_cells m') = dom (ws_cells m) -> frames m' = frames m -> valid_entry m e -> valid_entry m' e.
Proof.
  intros Hd Hf [H1 H2]. split; [|by rewrite Hf]. intros p Hp. apply elem_of_dom. rewrite Hd.
  apply elem_of_dom. auto.
Qed.

Lemma fire_entry_total e m r f : valid_entry m e -> is_Some (fire_entry e (m, r, f)).
Proof.
  intros [Hs Hh]. unfold fire_entry, claim.
  assert (forall m1, frames m1 = frames m -> is_Some (resumable (te_handle e) m1)) as Hres.
  { intros m1 Hf. unfold resumable. destruct (te_handle e) as [h|]; [|done].
    rewrite Hf. by destruct (Hh h eq_refl) as [d ->]. }
  destruct (te_state e) as [p|].
  - destruct (Hs p eq_refl) as [v ->]. cbn. case_decide; cbn; [|done].
    destruct (Hres (set_ws p (te_completion e) m) eq_refl) as [[] ->]; cbn; done.
  - cbn. destruct (Hres m eq_refl) as [[] ->]; cbn; done.
Qed.

Lemma fire_entries_total es m r f :
  (forall e, e ∈ es -> valid_entry m e) -> is_Some (fire_entries es (m, r, f)).
Proof.
  revert m r f. induction es as [|e es IH]; intros m r f Hv; cbn [fire_entries]; [done|].
  destruct (fire_entry_total e m r f) as [[[m1 r1] f1] E]; [apply Hv; by left|].
  rewrite E. cbn. apply IH. intros e' He'.
  apply fire_entry_frame in E as (E1 & E2 & _). apply (valid_entry_frame m); try done.
  apply Hv. by right.
Qed.

(** The one entry of a run that owns cell [p] completes it. *)
Lemma fire_entries_complete es1 e es2 p m r f m' r' f' :
  fire_entries (es1 ++ e :: es2) (m, r, f) = Some (m', r', f') ->
  te_state e = Some p -> ws_cells m !! p = Some Pending ->
  (forall e', e' ∈ es1 ++ es2 -> te_state e' <> Some p) ->
  ws_cells m' !! p = Some (te_completion e) /\
  (forall h, te_handle e = Some h -> frames m !! h = Some false -> Some h ∈ r').
Proof.
  revert m r f. induction es1 as [|e1 es1 IH]; intros m r f H Hp Hm Hown; cbn [fire_entries app] in H.
  - destruct (fire_entry e (m, r, f)) as [[[m1 r1] f1]|] eqn:E; cbn in H; [|done].
    apply fire_entries_frame in H as (_ & Hf & Hpre & Ho).
    unfold fire_entry, claim in E. rewrite Hp, Hm in E. cbn in E.
    rewrite decide_True in E by done. cbn in E.
    destruct (resumable _ _) as [b|] eqn:Er; cbn in E; [|done].
    assert (m1 = set_ws p (te_completion e) m) as -> by (by destruct b; injection E as <- _ _).
    split.
    + rewrite Ho; [by cbn; rewrite lookup_insert_eq|done].
    + intros h Hh Hfr. unfold resumable in Er. rewrite Hh in Er, E. cbn in Er. rewrite Hfr in Er.
      injection Er as <-. injection E as <- _. destruct Hpre as [tl ->]. set_solver.
  - destruct (fire_entry e1 (m, r, f)) as [[[m1 r1] f1]|] eqn:E; cbn in H; [|done].
    apply fire_entry_frame in E as (_ & Hf & _ & Ho). rewrite <- Hf.
    apply (IH m1 r1 f1 H Hp); [|intros e' He'; apply Hown; by right].
    rewrite Ho; [done|]. apply Hown. by left.
Qed.

(** ** Reachable wheels refine their agenda *)

Lemma Rel_tick_inv m w a m' w' f :
  Rel w a -> tick m w = Some (m', w', f) ->
  Rel w' (a_tick a) /\ start_time w' = start_time w /\ (forall id, issued w id -> issued w' id).
Proof.
  intros R H. destruct (Rel_tick m w a R) as (order & w1 & _ & _ & R1 & Hs & Hi & E). rewrite E in H.
  destruct (fire_entries _ _) as [[[m1 r1] f1]|]; [|done]. injection H as <- <- <-.
  split; [by apply Rel_set_ready|done].
Qed.

Lemma reach_Rel t0 w a : reach t0 w a -> Rel w a /\ start_time w = t0.
Proof.
  induction 1 as [|w a dl h st c id w' _ [R E] Hroom Hok Hs|w a id b w' _ [R E] Hc
    |w a m m' w' f _ [R E] Ht|w a h _ [R E]|w a out _ [R E]].
  - split; [apply Rel_make_wheel|done].
  - rewrite <- E in Hok. destruct (Rel_schedule w a dl h st c R Hroom Hok)
      as (id' & w1 & Hs' & _ & _ & _ & _ & R1 & Hst & _). rewrite Hs in Hs'. injection Hs' as <- <-.
    rewrite E in *. done.
  - destruct (Rel_cancel w a id R) as (w1 & Hc' & R1 & _). rewrite Hc in Hc'. injection Hc' as _ ->.
    split; [done|]. rewrite cancel_release in Hc. injection Hc as _ <-. rewrite <- E. apply release_frame.
  - destruct (Rel_tick_inv _ _ _ _ _ _ R Ht) as (R1 & Hs & _). split; [done|congruence].
  - split; [by apply Rel_set_ready|done].
  - split; [by apply Rel_set_ready|done].
Qed.

Lemma fire_slot_ge n D : n <= fire_slot n D.
Proof. unfold fire_slot, early. case_cmp; zdiv. Qed.

Lemma Rel_current w a : Rel w a -> current_time w = start_time w + now a * kMillisecond.
Proof. intros [M _]. apply (mid_time _ _ _ _ _ M). Qed.

Lemma Rel_lookup w a id : Rel w a -> lookup w id = snd <$> due a !! id.
Proof. intros [M _]. apply (mid_lookup _ _ _ _ _ M). Qed.

(** What becomes of one identifier along an evolution: [F n] is its place in
    the agenda at tick [n]. *)
Section Fate.
Context (id t0 : Z) (F : Z -> option (Z * TimerEntry)).
Hypothesis HF : forall n, F (n + 1) = p ← F n; guard (p.1 <> n);; Some p.

Definition fate (w : Wheel) (a : Agenda) : Prop :=
  Rel w a /\ start_time w = t0 /\ issued w id /\ due a !! id = F (now a).

Lemma fate_evolve w w' a : fate w a -> evolve id w w' -> exists a', fate w' a'.
Proof.
  intros Hf. induction 1 as [w|w w1 w2 dl h st c id' _ IH Hroom Hok Hs|w w1 w2 id' b _ IH Hne Hc
    |w w1 w2 m m' f _ IH Ht|w w1 h _ IH|w w1 out _ IH]; [by exists a|..];
    destruct (IH Hf) as (a1 & R & Es & Hi & Hd).
  - destruct (Rel_schedule w1 a1 dl h st c R Hroom Hok)
      as (id1 & w3 & Hs' & _ & Hni & Hmono & _ & R1 & Hst & _). rewrite Hs in Hs'. injection Hs' as <- <-.
    eexists. split; [exact R1|]. split; [congruence|]. split; [auto|].
    cbn [a_schedule now due]. rewrite lookup_insert_ne; [done|]. by intros ->.
  - destruct (Rel_cancel w1 a1 id' R) as (w3 & Hc' & R1 & _). rewrite Hc in Hc'. injection Hc' as _ <-.
    rewrite cancel_release in Hc. injection Hc as _ <-. destruct (release_frame w1 id') as (_ & Fs & _).
    eexists. split; [exact R1|]. split; [congruence|]. split; [by apply release_issued|].
    cbn [a_cancel now due]. by rewrite lookup_delete_ne.
  - destruct (Rel_tick_inv _ _ _ _ _ _ R Ht) as (R1 & Hs & Hmono).
    eexists. split; [exact R1|]. split; [congruence|]. split; [auto|].
    cbn [a_tick now due]. by rewrite map_lookup_filter, Hd, HF.
  - exists a1. split; [by apply Rel_set_ready|done].
  - exists a1. split; [by apply Rel_set_ready|done].
Qed.
End Fate.

Lemma fate_due E (e : TimerEntry) n :
  (if n + 1 <=? E then Some (E, e) else None) =
    p ← (if n <=? E then Some (E, e) else None); guard (p.1 <> n);; Some p.
Proof.
  case_cmp; cbn; try lia; try done.
  - by rewrite option_guard_True by (cbn; lia).
  - by rewrite option_guard_False by (cbn; lia).
Qed.

(** Scheduling starts the fate [fire_slot] predicts. *)
Lemma schedule_fate t0 w a dl h st c :
  reach t0 w a -> schedule_room w -> time_ok t0 dl ->
  exists id w1, schedule_at dl h st c w = Some (id, w1) /\
    forall w2, evolve id w1 w2 ->
      (exists k, 0 <= k /\ current_time w2 = t0 + k * kMillisecond) /\
      lookup w2 id =
        if current_time w2 <=? t0 + fire_slot (now a) (dticks t0 dl) * kMillisecond
        then Some (mkEntry id dl h st c) else None.
Proof.
  intros Hr Hroom Hok. destruct (reach_Rel t0 w a Hr) as [R Es]. rewrite <- Es in Hok.
  destruct (Rel_schedule w a dl h st c R Hroom Hok)
    as (id & w1 & Hs & _ & _ & _ & Hl & R1 & Hst & _).
  exists id, w1. split; [done|]. intros w2 Hev.
  set (E := fire_slot (now a) (dticks t0 dl)).
  assert (fate id t0 (fun n => if n <=? E then Some (E, mkEntry id dl h st c) else None) w1 (a_schedule (start_time w) id (mkEntry id dl h st c) a)) as F.
  { split; [exact R1|]. split; [congruence|]. split; [by eapply lookup_issued|].
    cbn [a_schedule now due]. rewrite lookup_insert_eq, Es. cbn [te_deadline]. fold E.
    pose proof (fire_slot_ge (now a) (dticks t0 dl)) as HE. fold E in HE. case_cmp; [done|lia]. }
  destruct (fate_evolve _ _ _ (fate_due E _) _ _ _ F Hev) as (a2 & R2 & Es2 & _ & Hd2).
  pose proof R2 as [M2 _]. pose proof (mid_time _ _ _ _ _ M2) as [Hn2 _].
  rewrite (Rel_lookup w2 a2 id R2), Hd2, (Rel_current w2 a2 R2), Es2. split; [eauto|].
  unfold kMillisecond. case_cmp; try lia; done.
Qed.

(** In nanoseconds: a time on the tick grid is at most the deadline iff it is
    at most the deadline's tick. *)
Lemma dticks_grid t0 dl k :
  0 <= k -> t0 <= dl -> t0 + k * kMillisecond <= t0 + dticks t0 dl * kMillisecond <-> t0 + k * kMillisecond <= dl.
Proof.
  intros Hk Hdl. unfold dticks. rewrite to_ms_nonneg by lia. unfold kMillisecond.
  rewrite Z.max_r by zdiv. split; intros; zdiv.
Qed.

(** ** Punctuality *)

(** C3: a timer scheduled on any reachable wheel for a deadline that has not
    passed, and whose route is not the early one of [ahead], is live exactly
    while the wheel's time has not passed its deadline, whatever else is
    scheduled, cancelled or fired meanwhile: it never fires early, and the
    first tick past the deadline fires it. *)
Theorem timer_fires_on_time t0 w a dl h st c :
  reach t0 w a -> schedule_room w -> time_ok t0 dl -> current_time w <= dl ->
  ~ ahead (now a) (dticks t0 dl) ->
  exists id w1, schedule_at dl h st c w = Some (id, w1) /\
    forall w2, evolve id w1 w2 ->
      lookup w2 id = if current_time w2 <=? dl then Some (mkEntry id dl h st c) else None.
Proof.
  intros Hr Hroom Hok Hdl Hna. destruct (schedule_fate t0 w a dl h st c Hr Hroom Hok) as (id & w1 & Hs & Hev).
  exists id, w1. split; [done|]. intros w2 H2. destruct (Hev w2 H2) as ((k & Hk & Ek) & ->).
  destruct (reach_Rel t0 w a Hr) as [R Es]. pose proof (Rel_current w a R) as Hc. rewrite Es in Hc.
  destruct R as [M _]. destruct (mid_time _ _ _ _ _ M) as [Hn _].
  assert (t0 <= dl) by (unfold kMillisecond in *; lia).
  assert (fire_slot (now a) (dticks t0 dl) = dticks t0 dl) as ->.
  { assert (now a <= dticks t0 dl) by (pose proof (dticks_grid t0 dl (now a) Hn); unfold kMillisecond in *; lia).
    unfold ahead in Hna. unfold fire_slot, early. case_cmp; lia. }
  pose proof (dticks_grid t0 dl k Hk ltac:(done)) as G. rewrite <- Ek in G.
  case_cmp; try done; lia.
Qed.

Lemma timer_fires_on_time_witness :
  exists id w1, schedule_at 300000000 (Some 1%nat) (Some 2%nat) TimedOut (make_wheel 0) = Some (id, w1) /\
    forall w2, evolve id w1 w2 ->
      lookup w2 id = if current_time w2 <=? 300000000
                     then Some (mkEntry id 300000000 (Some 1%nat) (Some 2%nat) TimedOut) else None.
Proof.
  apply (timer_fires_on_time 0 (make_wheel 0) (mkAgenda 0 ∅)); [constructor|reflexivity..|discriminate|].
  intros [H _]. by vm_compute in H.
Defined.

(** A timer whose deadline is at least 16384 ticks away and falls on
    tick 256 of a 16384-tick block is re-routed into the level-0 slot that is
    processed in the very tick of the cascade: it is gone as soon as the
    wheel's time passes the start of that block, 255 ms before its deadline. *)
Theorem timer_fires_ahead t0 w a dl h st c :
  reach t0 w a -> schedule_room w -> time_ok t0 dl -> ahead (now a) (dticks t0 dl) ->
  exists id w1, schedule_at dl h st c w = Some (id, w1) /\
    forall w2, evolve id w1 w2 ->
      lookup w2 id = if current_time w2 <=? t0 + (dticks t0 dl - 256) * kMillisecond
                     then Some (mkEntry id dl h st c) else None.
Proof.
  intros Hr Hroom Hok [Ha1 Ha2]. destruct (schedule_fate t0 w a dl h st c Hr Hroom Hok) as (id & w1 & Hs & Hev).
  exists id, w1. split; [done|]. intros w2 H2. destruct (Hev w2 H2) as (_ & ->).
  assert (fire_slot (now a) (dticks t0 dl) = dticks t0 dl - 256) as ->; [|done].
  unfold fire_slot, early. case_cmp; lia.
Qed.

Lemma timer_fires_ahead_witness :
  exists id w1, schedule_at 16640000000 None (Some 2%nat) TimedOut (make_wheel 0) = Some (id, w1) /\
    forall w2, evolve id w1 w2 ->
      lookup w2 id = if current_time w2 <=? 0 + (dticks 0 16640000000 - 256) * kMillisecond
                     then Some (mkEntry id 16640000000 None (Some 2%nat) TimedOut) else None.
Proof.
  apply (timer_fires_ahead 0 (make_wheel 0) (mkAgenda 0 ∅)); [constructor|reflexivity..|].
  split; [by vm_compute|reflexivity].
Defined.

(** [schedule_at] with a deadline before the current tick does not fire
    in the next tick: the timer waits for its level-0 slot to come round
    again, up to 255 ticks. *)
Theorem timer_past_deadline_waits t0 w a dl h st c :
  reach t0 w a -> schedule_room w -> time_ok t0 dl -> dticks t0 dl < now a ->
  exists id w1, schedule_at dl h st c w = Some (id, w1) /\
    forall w2, evolve id w1 w2 ->
      lookup w2 id = if current_time w2 <=? current_time w + (dticks t0 dl - now a) mod 256 * kMillisecond
                     then Some (mkEntry id dl h st c) else None.
Proof.
  intros Hr Hroom Hok Hp. destruct (schedule_fate t0 w a dl h st c Hr Hroom Hok) as (id & w1 & Hs & Hev).
  exists id, w1. split; [done|]. intros w2 H2. destruct (Hev w2 H2) as (_ & ->).
  destruct (reach_Rel t0 w a Hr) as [R Es]. rewrite (Rel_current w a R), Es.
  assert (fire_slot (now a) (dticks t0 dl) = now a + (dticks t0 dl - now a) mod 256) as ->.
  { unfold fire_slot. case_cmp; lia. }
  unfold kMillisecond. case_cmp; try done; lia.
Qed.

(** The wheel after two ticks with nothing scheduled. *)
Definition ticked_twice : Wheel :=
  match tick empty_mem (make_wheel 0) with
  | Some (m, w, _) => match tick m w with Some (_, w, _) => w | None => w end
  | None => make_wheel 0
  end.

Lemma reach_ticked_twice : reach 0 ticked_twice (a_tick (a_tick (mkAgenda 0 ∅))).
Proof.
  assert (exists r, tick empty_mem (make_wheel 0) = Some r) as [[[m1 w1] f1] E1] by (eexists; by vm_compute).
  assert (exists r, tick m1 w1 = Some r) as [[[m2 w2] f2] E2].
  { vm_compute in E1. injection E1 as <- <- <-. eexists. by vm_compute. }
  unfold ticked_twice. rewrite E1, E2.
  eapply reach_tick; [|exact E2]. eapply reach_tick; [|exact E1]. constructor.
Qed.

Lemma timer_past_deadline_waits_witness :
  exists id w1, schedule_at 1000000 None (Some 2%nat) TimedOut ticked_twice = Some (id, w1) /\
    forall w2, evolve id w1 w2 ->
      lookup w2 id = if current_time w2 <=? current_time ticked_twice + (dticks 0 1000000 - 2) mod 256 * kMillisecond
                     then Some (mkEntry id 1000000 None (Some 2%nat) TimedOut) else None.
Proof.
  apply (timer_past_deadline_waits 0 ticked_twice (a_tick (a_tick (mkAgenda 0 ∅))));
    [exact reach_ticked_twice|by vm_compute..].
Defined.

(** ** What a tick does *)

Lemma Rel_tick_completes w a m m' w' f id e p :
  Rel w a -> tick m w = Some (m', w', f) -> due a !! id = Some (now a, e) ->
  te_state e = Some p -> ws_cells m !! p = Some Pending ->
  (forall id' e', due a !! id' = Some (now a, e') -> te_state e' = Some p -> id' = id) ->
  ws_cells m' !! p = Some (te_completion e) /\
  (forall h, te_handle e = Some h -> frames m !! h = Some false -> Some h ∈ ready w') /\
  lookup w' id = None.
Proof.
  intros R Ht Hd Hp Hm Hown.
  destruct (Rel_tick m w a R) as (order & w1 & Hnd & Hord & R1 & _ & _ & E). rewrite E in Ht.
  destruct (fire_entries _ _) as [[[m1 r1] f1]|] eqn:Ef; [|done]. injection Ht as <- <- <-.
  pose proof (proj2 (Hord id e) Hd) as Hin. apply list_elem_of_split in Hin as (o1 & o2 & ->).
  rewrite fmap_app, fmap_cons in Ef. rewrite fmap_app, fmap_cons in Hnd. cbn [snd fst] in *.
  destruct (fire_entries_complete _ _ _ p _ _ _ _ _ _ Ef Hp Hm) as [H1 H2].
  - intros e' He' Hp'. rewrite <- fmap_app in He'. apply list_elem_of_fmap in He' as ([id' e1] & -> & Hin').
    assert (id' = id) as ->. { apply (Hown id' e1); [|done]. apply Hord. set_solver. }
    apply NoDup_app in Hnd as (_ & Hdis & [Hni _]%NoDup_cons).
    apply elem_of_app in Hin' as [Hin'|Hin'].
    + apply (Hdis id); [|by left]. apply list_elem_of_fmap. by exists (id, e1).
    + apply Hni, list_elem_of_fmap. by exists (id, e1).
  - split_and!; [done|done|]. rewrite (Rel_lookup _ _ _ (Rel_set_ready r1 _ _ R1)). cbn [a_tick due].
    rewrite map_lookup_filter, Hd. cbn. rewrite option_guard_False by (cbn; lia). done.
Qed.

(** A tick completes every timer due in its slot: the wait state it
    alone owns goes from [Pending] to the timer's completion, its handle (when
    not done) is queued, and the identifier is dead afterwards. *)
Theorem tick_completes_due t0 w a m m' w' f id e p :
  reach t0 w a -> tick m w = Some (m', w', f) -> due a !! id = Some (now a, e) ->
  te_state e = Some p -> ws_cells m !! p = Some Pending ->
  (forall id' e', due a !! id' = Some (now a, e') -> te_state e' = Some p -> id' = id) ->
  ws_cells m' !! p = Some (te_completion e) /\
  (forall h, te_handle e = Some h -> frames m !! h = Some false -> Some h ∈ ready w') /\
  lookup w' id = None.
Proof.
  intros Hr. destruct (reach_Rel t0 w a Hr) as [R _]. by apply Rel_tick_completes.
Qed.

(** A wheel with one timer due in the current slot. *)
Definition one_timer : Wheel :=
  match schedule_at 0 (Some 1%nat) (Some 2%nat) Ready (make_wheel 0) with
  | Some (_, w) => w
  | None => make_wheel 0
  end.

Definition one_timer_id : Z := encode_id 0 1.

Definition one_timer_mem : Mem := mkMem {[2%nat := Pending]} ∅ {[1%nat := false]}.

Lemma reach_one_timer :
  reach 0 one_timer
    (a_schedule 0 one_timer_id (mkEntry one_timer_id 0 (Some 1%nat) (Some 2%nat) Ready) (mkAgenda 0 ∅)).
Proof.
  eapply (reach_schedule 0 (make_wheel 0)); [constructor|reflexivity..|]. by vm_compute.
Qed.

Lemma tick_completes_due_witness :
  match tick one_timer_mem one_timer with
  | Some (m', w', _) =>
    ws_cells m' !! 2%nat = Some Ready /\
    (forall h, Some 1%nat = Some h -> frames one_timer_mem !! h = Some false -> Some h ∈ ready w') /\
    lookup w' one_timer_id = None
  | None => False
  end.
Proof.
  destruct (tick one_timer_mem one_timer) as [[[m' w'] f]|] eqn:E; [|by vm_compute in E].
  apply (tick_completes_due 0 one_timer _ one_timer_mem m' w' f one_timer_id
           (mkEntry one_timer_id 0 (Some 1%nat) (Some 2%nat) Ready) 2 reach_one_timer E);
    try (by vm_compute).
  intros id' e'. unfold a_schedule, due. rewrite lookup_insert. case_decide; [by subst|].
  by rewrite lookup_empty.
Defined.

(** Ticking any reachable wheel is free of undefined behaviour when the
    timers due in the current slot have live pointers.  The pointers of
    cancelled, fired and later timers are not looked at. *)
Theorem tick_safe t0 w a m :
  reach t0 w a -> (forall id e, due a !! id = Some (now a, e) -> valid_entry m e) ->
  exists m' w' f, tick m w = Some (m', w', f).
Proof.
  intros Hr Hv. destruct (reach_Rel t0 w a Hr) as [R _].
  destruct (Rel_tick m w a R) as (order & w1 & _ & Hord & _ & _ & _ & ->).
  destruct (fire_entries_total order.*2 m (ready w) 0) as [[[m' r'] f'] ->]; [|eauto].
  intros e ([id e'] & -> & Hin)%list_elem_of_fmap. apply (Hv id). by apply Hord.
Qed.

(** With a timer that was cancelled, its state pointer dangling. *)
Lemma tick_safe_witness : exists m' w' f, tick empty_mem (cancel one_timer_id one_timer).2 = Some (m', w', f).
Proof.
  eapply (tick_safe 0).
  { eapply (reach_cancel 0 one_timer _ one_timer_id true); [exact reach_one_timer|by vm_compute]. }
  intros id e. unfold a_cancel, a_schedule, due. rewrite lookup_delete. case_decide; [done|].
  by rewrite lookup_insert_ne, lookup_empty.
Defined.

(** ** Cancellation *)

(** C31: [cancel] says whether the identifier was live, leaves every other
    timer as it was, and the identifier never becomes live again, although its
    index is reused: a stale identifier never names another timer. *)
Theorem cancel_forever t0 w a id b w1 :
  reach t0 w a -> issued w id -> cancel id w = (b, w1) ->
  b = bool_decide (is_Some (lookup w id)) /\
  (forall id', id' <> id -> lookup w1 id' = lookup w id') /\
  (forall w2, evolve id w1 w2 -> lookup w2 id = None /\ (cancel id w2).1 = false).
Proof.
  intros Hr Hi Hc. destruct (reach_Rel t0 w a Hr) as [R Es].
  destruct (Rel_cancel w a id R) as (w1' & Hc' & R1 & Hl1). rewrite Hc in Hc'. injection Hc' as -> <-.
  rewrite cancel_release in Hc. injection Hc as Hb <-.
  split_and!; [done|intros id' Hne; rewrite release_lookup; by case_decide|].
  intros w2 Hev.
  destruct (fate_evolve id t0 (fun _ => None) (fun _ => eq_refl) (release id w) w2 (a_cancel id a))
    as (a2 & R2 & _ & _ & Hd2); [|done|].
  - split; [done|]. split; [destruct (release_frame w id) as (_ & -> & _); done|].
    split; [by apply release_issued|]. cbn [a_cancel due]. by rewrite lookup_delete_eq.
  - assert (lookup w2 id = None) as Hnone; [|by rewrite cancel_release, Hnone].
    by rewrite (Rel_lookup w2 a2 id R2), Hd2.
Qed.

Lemma cancel_forever_witness :
  true = bool_decide (is_Some (lookup one_timer one_timer_id)) /\
  (forall id', id' <> one_timer_id ->
     lookup (cancel one_timer_id one_timer).2 id' = lookup one_timer id') /\
  (forall w2, evolve one_timer_id (cancel one_timer_id one_timer).2 w2 ->
     lookup w2 one_timer_id = None /\ (cancel one_timer_id w2).1 = false).
Proof.
  apply (cancel_forever 0 one_timer _ one_timer_id true _ reach_one_timer); [|by vm_compute].
  eexists. split; by vm_compute.
Defined.

(** ** [advance_to] *)

Lemma advance_loop_total k target total m w a :
  Rel w a -> (forall id E e, due a !! id = Some (E, e) -> valid_entry m e) ->
  target <= current_time w + Z.of_nat k * kTickDuration ->
  exists m' w' tot, advance_loop k target total m w = Some (m', w', tot) /\
    (forall id w0, evolve id w0 w -> evolve id w0 w') /\ target <= current_time w' /\
    (current_time w' = current_time w \/ current_time w' < target + kTickDuration).
Proof.
  revert total m w a. induction k as [|k IH]; intros total m w a R Hv Hk; cbn [advance_loop].
  - destruct (Z.ltb_spec (current_time w) target); [lia|].
    eexists _, _, _. split; [done|]. split_and!; try done. by left.
  - destruct (Z.ltb_spec (current_time w) target).
    2:{ eexists _, _, _. split; [done|]. split_and!; try done. by left. }
    destruct (Rel_tick m w a R) as (order & w1 & _ & Hord & R1 & Es & _ & E).
    destruct (fire_entries_total order.*2 m (ready w) 0) as [[[m1 r1] f1] Ef].
    { intros e ([id e'] & -> & Hin)%list_elem_of_fmap. eapply Hv. by apply Hord. }
    rewrite Ef in E. cbn [mbind option_bind] in E. rewrite E. cbn [mbind option_bind].
    apply fire_entries_frame in Ef as (F1 & F2 & _).
    assert (current_time (set_ready r1 w1) = current_time w + kTickDuration) as Ec.
    { rewrite (Rel_current _ _ (Rel_set_ready r1 _ _ R1)), (Rel_current w a R).
      cbn [a_tick now]. change (start_time (set_ready r1 w1)) with (start_time w1).
      rewrite Es. unfold kTickDuration. lia. }
    destruct (IH (u32 (total + f1)) m1 (set_ready r1 w1) (a_tick a)) as (m2 & w2 & tot & E2 & Hev & Ht & Hc).
    + by apply Rel_set_ready.
    + intros id E' e He. apply (valid_entry_frame m); [done..|].
      cbn [a_tick due] in He. apply map_lookup_filter_Some in He as [He _]. eauto.
    + lia.
    + eexists _, _, _. split; [exact E2|]. split; [|split; [done|right; lia]].
      intros id w0 H0. apply Hev. by eapply evolve_tick.
Qed.

(** [advance_to] terminates within the ticks that separate the wheel
    from the target, without undefined behaviour when the pending timers'
    pointers are live; it stops at the first tick at or past the target, and
    does nothing when the target is not ahead. *)
Theorem advance_to_reaches t0 w a m target :
  reach t0 w a -> (forall id E e, due a !! id = Some (E, e) -> valid_entry m e) ->
  exists m' w' total, advance_to target m w = Some (m', w', total) /\
    (forall id, evolve id w w') /\ target <= current_time w' /\
    (current_time w' = current_time w \/ current_time w' < target + kTickDuration).
Proof.
  intros Hr Hv. destruct (reach_Rel t0 w a Hr) as [R _].
  destruct (advance_loop_total (ticks_until w target) target 0 m w a R Hv) as (m' & w' & tot & E & Hev & H).
  - unfold ticks_until, kTickDuration, kMillisecond. zdiv.
  - exists m', w', tot. split; [exact E|]. split; [|done]. intros id. apply Hev. constructor.
Qed.

Lemma advance_to_reaches_witness :
  exists m' w' total, advance_to 7500000 one_timer_mem one_timer = Some (m', w', total) /\
    (forall id, evolve id one_timer w') /\ 7500000 <= current_time w' /\
    (current_time w' = current_time one_timer \/ current_time w' < 7500000 + kTickDuration).
Proof.
  apply (advance_to_reaches 0 one_timer _ one_timer_mem 7500000 reach_one_timer).
  intros id E e. unfold a_schedule, due. rewrite lookup_insert. case_decide; [|by rewrite lookup_empty].
  intros [= <- <-]. split; intros p [= <-]; by eexists.
Defined.

(** ** [next_deadline] *)

Section Scan.
Context (w : Wheel) (f : list Z -> option Z).

(** [f] picks the deadline of a live identifier of the slot, if there is one. *)
Hypothesis f_none : forall ids, f ids = None <-> forall id, id ∈ ids -> lookup w id = None.
Hypothesis f_some : forall ids d, f ids = Some d ->
  exists id e, id ∈ ids /\ lookup w id = Some e /\ te_deadline e = d.

Lemma scan_slots_none l count i todo :
  scan_slots f w l count i todo = None <->
  forall j, i <= j < i + Z.of_nat todo -> f (get_slot w l ((cur_slot w l + j) mod count)) = None.
Proof.
  revert i. induction todo as [|todo IH]; intros i; cbn [scan_slots]; [split; [lia|done]|].
  destruct (f (get_slot w l ((cur_slot w l + i) mod count))) as [d|] eqn:E.
  - split; [done|]. intros H. rewrite H in E by lia. done.
  - rewrite IH. split; intros H j Hj.
    + destruct (Z.eq_dec j i) as [->|]; [done|]. apply H. lia.
    + apply H. lia.
Qed.

(** The slot found is the first one after the cursor with a live identifier. *)
Lemma scan_slots_some l count i todo d :
  scan_slots f w l count i todo = Some d ->
  exists j, i <= j < i + Z.of_nat todo /\ f (get_slot w l ((cur_slot w l + j) mod count)) = Some d /\
    forall j', i <= j' < j -> f (get_slot w l ((cur_slot w l + j') mod count)) = None.
Proof.
  revert i. induction todo as [|todo IH]; intros i; cbn [scan_slots]; [done|].
  destruct (f (get_slot w l ((cur_slot w l + i) mod count))) as [d'|] eqn:E.
  - intros [= ->]. exists i. split_and!; [lia..|done|lia].
  - intros (j & Hj & Ed & Hlt)%IH. exists j. split_and!; [lia..|done|].
    intros j' Hj'. destruct (Z.eq_dec j' i) as [->|]; [done|]. apply Hlt. lia.
Qed.

Lemma scan_level_none l :
  shape w -> (l < 4)%nat -> scan_level f w l = None -> forall s id, at_slot w l s id -> lookup w id = None.
Proof.
  intros Hsh Hl H s id [[_ Hs] Hin]. unfold scan_level in H. rewrite level_slot_count_shape in H by done.
  pose proof (level_size_pos l). rewrite scan_slots_none in H.
  specialize (H ((s - cur_slot w l) mod level_size l)). rewrite Zplus_mod_idemp_r in H.
  replace (cur_slot w l + (s - cur_slot w l)) with s in H by lia. rewrite (Z.mod_small s) in H by done.
  eapply f_none; [|exact Hin]. apply H.
  pose proof (Z.mod_pos_bound (s - cur_slot w l) (level_size l)). lia.
Qed.

Lemma scan_level_some l d :
  shape w -> (l < 4)%nat -> scan_level f w l = Some d ->
  exists id e, lookup w id = Some e /\ te_deadline e = d /\
    exists j, 0 <= j < level_size l /\ at_slot w l ((cur_slot w l + j) mod level_size l) id /\
      forall j' id', 0 <= j' < j -> at_slot w l ((cur_slot w l + j') mod level_size l) id' -> lookup w id' = None.
Proof.
  intros Hsh Hl H. unfold scan_level in H. rewrite level_slot_count_shape in H by done.
  pose proof (level_size_pos l). apply scan_slots_some in H as (j & Hj & Hf & Hlt).
  destruct (f_some _ _ Hf) as (id & e & Hin & Hlk & Hd). exists id, e. split_and!; [done..|].
  exists j. split_and!; [lia..| |].
  - split; [|done]. split; [done|]. apply Z.mod_pos_bound. lia.
  - intros j' id' Hj' [_ Hin']. eapply f_none; [|exact Hin']. apply Hlt. lia.
Qed.
End Scan.

Lemma first_live_none w ids : first_live w ids = None <-> forall id, id ∈ ids -> lookup w id = None.
Proof.
  induction ids as [|i ids IH]; cbn [first_live]; [split; [by intros _ id ?%elem_of_nil|done]|].
  destruct (lookup w i) eqn:E; [split; [done|]|rewrite IH].
  - intros H. rewrite H in E; [done|by left].
  - set_solver.
Qed.

Lemma first_live_some w ids d :
  first_live w ids = Some d -> exists id e, id ∈ ids /\ lookup w id = Some e /\ te_deadline e = d.
Proof.
  induction ids as [|i ids IH]; cbn [first_live]; [done|]. destruct (lookup w i) as [e|] eqn:E.
  - intros [= <-]. exists i, e. split; [by left|done].
  - intros (id & e & ? & ?)%IH. exists id, e. split; [by right|done].
Qed.

Lemma earliest_live_snoc w ids i :
  earliest_live w (ids ++ [i]) =
    match lookup w i with
    | Some e => match earliest_live w ids with
                | None => Some (te_deadline e)
                | Some d => if te_deadline e <? d then Some (te_deadline e) else Some d
                end
    | None => earliest_live w ids
    end.
Proof.
  unfold earliest_live. rewrite foldl_snoc. destruct (lookup w i); [|done].
  by destruct (foldl _ None ids).
Qed.

Lemma earliest_live_none w ids : earliest_live w ids = None <-> forall id, id ∈ ids -> lookup w id = None.
Proof.
  induction ids as [|i ids IH] using rev_ind; [split; [by intros _ id ?%elem_of_nil|done]|].
  rewrite earliest_live_snoc. destruct (lookup w i) eqn:E.
  - split; [destruct (earliest_live w ids); [by case_match|done]|].
    intros H. rewrite H in E; [done|]. set_solver.
  - rewrite IH. set_solver.
Qed.

Lemma earliest_live_some w ids d :
  earliest_live w ids = Some d -> exists id e, id ∈ ids /\ lookup w id = Some e /\ te_deadline e = d.
Proof.
  revert d. induction ids as [|i ids IH] using rev_ind; intros d; [done|].
  rewrite earliest_live_snoc. destruct (lookup w i) as [e|] eqn:E.
  - destruct (earliest_live w ids) as [d'|].
    + destruct (te_deadline e <? d'); intros [= <-].
      * exists i, e. split; [set_solver|done].
      * destruct (IH d' eq_refl) as (id & e' & ? & ?). exists id, e'. split; [set_solver|done].
    + intros [= <-]. exists i, e. split; [set_solver|done].
  - intros (id & e' & ? & ?)%IH. exists id, e'. split; [set_solver|done].
Qed.

Lemma active_count_zero w : sm_wf w -> active_count w = 0 <-> forall id, lookup w id = None.
Proof.
  intros Hwf. rewrite (sm_count w Hwf). split.
  - intros H id. destruct (lookup w id) as [e|] eqn:E; [|done].
    apply lookup_Some in E as (s & Hs & Ha & _). assert (active_slots (slotmap w) = 0%nat) as H0 by lia.
    apply nil_length_inv in H0. apply list_elem_of_lookup_2 in Hs.
    assert (s ∈ filter (fun s => active s = true) (slotmap w)) as Hin by (by apply list_elem_of_filter).
    rewrite H0 in Hin. by apply elem_of_nil in Hin.
  - intros H. unfold active_slots. destruct (filter _ _) as [|s l] eqn:E; [done|]. exfalso.
    assert (s ∈ filter (fun s => active s = true) (slotmap w)) as Hin by (rewrite E; by left).
    apply list_elem_of_filter in Hin as [Ha [i Hi]%list_elem_of_lookup].
    pose proof (sm_gen w Hwf _ _ Hi). pose proof (sm_len w Hwf). pose proof (lookup_lt_Some _ _ _ Hi).
    specialize (H (encode_id (Z.of_nat i) (generation s))). unfold lookup in H.
    rewrite id_index_encode, id_gen_encode, Nat2Z.id, Hi, Ha, Z.eqb_refl in H by lia. done.
Qed.

(** The levels a deadline may come from, with the function that picks it. *)
Lemma next_deadline_scan w d :
  next_deadline w = Some d ->
  active_count w <> 0 /\
  (scan_level (first_live w) w 0 = Some d \/
   scan_level (first_live w) w 0 = None /\ exists l, (l < 4)%nat /\ scan_level (earliest_live w) w l = Some d).
Proof.
  unfold next_deadline. destruct (Z.eqb_spec (active_count w) 0); [done|]. split; [done|].
  destruct (scan_level (first_live w) w 0); [by left|]. right. split; [done|].
  destruct (scan_level (earliest_live w) w 1) eqn:E1; [exists 1%nat; split; [lia|congruence]|].
  destruct (scan_level (earliest_live w) w 2) eqn:E2; [exists 2%nat; split; [lia|congruence]|].
  exists 3%nat. split; [lia|done].
Qed.

Lemma next_deadline_none w a : Rel w a -> next_deadline w = None <-> due a = ∅.
Proof.
  intros R. pose proof R as [M _]. pose proof (mid_shape _ _ _ _ _ M) as Hsh.
  pose proof (active_count_zero w (mid_sm _ _ _ _ _ M)) as Hz.
  assert (due a = ∅ <-> forall id, lookup w id = None) as Hemp.
  { split; [intros E id; by rewrite (Rel_lookup w a id R), E, lookup_empty|].
    intros H. apply map_empty. intros id. specialize (H id). rewrite (Rel_lookup w a id R) in H.
    by destruct (due a !! id). }
  rewrite Hemp, <- Hz. unfold next_deadline. destruct (Z.eqb_spec (active_count w) 0) as [E|E]; [done|].
  split; [|done]. intros H. exfalso. apply E, Hz. intros id.
  destruct (scan_level (first_live w) w 0) eqn:E0; [done|].
  destruct (scan_level (earliest_live w) w 1) eqn:E1; [done|].
  destruct (scan_level (earliest_live w) w 2) eqn:E2; [done|].
  destruct (lookup w id) as [e|] eqn:El; [|done]. exfalso.
  rewrite (Rel_lookup w a id R) in El. destruct (due a !! id) as [p|] eqn:Ed; [|done].
  destruct (mid_cover _ _ _ _ _ M id p Ed) as [[]%elem_of_nil|(l & s & Hat)].
  assert (lookup w id = None) as Hnone; [|rewrite (Rel_lookup w a id R), Ed in Hnone; done].
  pose proof Hat as [[Hl _] _].
  destruct l as [|[|[|[|l]]]]; [| | | |lia].
  - by eapply (scan_level_none w _ (first_live_none w) 0).
  - by eapply (scan_level_none w _ (earliest_live_none w) 1).
  - by eapply (scan_level_none w _ (earliest_live_none w) 2).
  - by eapply (scan_level_none w _ (earliest_live_none w) 3).
Qed.

(** [next_deadline] is empty exactly when no timer is live; what it
    returns is the deadline of a live timer, and no timer due before the next
    256-tick boundary fires in an earlier slot than that one.  (Timers still in
    the upper levels are not compared.) *)
Theorem next_deadline_correct t0 w a :
  reach t0 w a ->
  (next_deadline w = None <-> due a = ∅) /\
  forall d, next_deadline w = Some d ->
    exists id0 E0 e0, due a !! id0 = Some (E0, e0) /\ te_deadline e0 = d /\
      forall id E e, due a !! id = Some (E, e) -> E < 256 * ((now a + 255) / 256) -> E0 <= E.
Proof.
  intros Hr. destruct (reach_Rel t0 w a Hr) as [R _]. split; [by apply next_deadline_none|].
  intros d Hnd. pose proof R as [M Hc]. pose proof (mid_shape _ _ _ _ _ M) as Hsh.
  assert (forall id e, lookup w id = Some e -> exists E, due a !! id = Some (E, e)) as Hdue.
  { intros id e. rewrite (Rel_lookup w a id R). destruct (due a !! id) as [[E e']|]; [|done].
    intros [= ->]. eauto. }
  assert (forall id E e, due a !! id = Some (E, e) -> E < 256 * ((now a + 255) / 256) ->
    at_slot w 0 (E mod 256) id /\ now a <= E < now a + 256) as Hlow.
  { intros id E e Hd HE. destruct (mid_cover _ _ _ _ _ M id _ Hd) as [[]%elem_of_nil|(l & s & Hat)].
    pose proof (mid_pos _ _ _ _ _ M l s id E e Hat Hd) as Hp.
    destruct l as [|[|[|[|l]]]]; cbn [pos_ok cstab] in Hp; [|exfalso; revert Hp; unfold early; case_cmp; intros; zdiv..|done].
    destruct Hp as (-> & _ & Hp). done. }
  destruct (next_deadline_scan w d Hnd) as [_ [H0|(H0 & l & Hl & Hs)]].
  - destruct (scan_level_some w _ (first_live_none w) (first_live_some w) 0 d Hsh ltac:(lia) H0)
      as (id0 & e0 & Hlk & Hd & j & Hj & Hat0 & Hlt).
    destruct (Hdue id0 e0 Hlk) as [E0 Hd0]. exists id0, E0, e0. split_and!; [done..|].
    intros id E e Hid HE. destruct (Hlow id E e Hid HE) as [Hat HEr].
    pose proof (mid_pos _ _ _ _ _ M _ _ id0 E0 e0 Hat0 Hd0) as (Hs0 & _ & HE0).
    rewrite (Hc 0%nat) in Hs0, Hlt by lia. cbn [cstab level_size] in *.
    destruct (Z.le_gt_cases E0 E); [done|]. exfalso.
    specialize (Hlt (E - now a) id). rewrite Zplus_mod_idemp_l in Hlt.
    replace (now a + (E - now a)) with E in Hlt by lia.
    rewrite (Rel_lookup w a id R), Hid in Hlt. discriminate Hlt; [|done]. zdiv.
  - destruct (scan_level_some w _ (earliest_live_none w) (earliest_live_some w) l d Hsh Hl Hs)
      as (id0 & e0 & Hlk & Hd & _).
    destruct (Hdue id0 e0 Hlk) as [E0 Hd0]. exists id0, E0, e0. split_and!; [done..|].
    intros id E e Hid HE. destruct (Hlow id E e Hid HE) as [Hat _].
    pose proof (scan_level_none w _ (first_live_none w) 0 Hsh ltac:(lia) H0 _ id Hat) as Hnone.
    rewrite (Rel_lookup w a id R), Hid in Hnone. done.
Qed.

Lemma next_deadline_correct_witness :
  (next_deadline one_timer = None <->
   due (a_schedule 0 one_timer_id (mkEntry one_timer_id 0 (Some 1%nat) (Some 2%nat) Ready) (mkAgenda 0 ∅)) = ∅) /\
  forall d, next_deadline one_timer = Some d ->
    exists id0 E0 e0,
      due (a_schedule 0 one_timer_id (mkEntry one_timer_id 0 (Some 1%nat) (Some 2%nat) Ready) (mkAgenda 0 ∅))
        !! id0 = Some (E0, e0) /\ te_deadline e0 = d /\
      forall id E e,
        due (a_schedule 0 one_timer_id (mkEntry one_timer_id 0 (Some 1%nat) (Some 2%nat) Ready) (mkAgenda 0 ∅))
          !! id = Some (E, e) -> E < 256 * ((0 + 255) / 256) -> E0 <= E.
Proof. exact (next_deadline_correct 0 _ _ reach_one_timer). Defined.

(** A timer in level 1 due at 300 ms, then, 100 ms later, one in level 0 due
    at 350 ms. *)
Definition two_levels : Wheel :=
  match schedule 300000000 None None TimedOut (make_wheel 0) with
  | Some (_, w) =>
    match advance_to 100000000 empty_mem w with
    | Some (_, w, _) =>
      match schedule 250000000 None None TimedOut w with Some (_, w) => w | None => w end
    | None => w
    end
  | None => make_wheel 0
  end.

(** [next_deadline] need not be the earliest deadline: a timer in level 0
    hides one with an earlier deadline that is still in level 1. *)
Theorem next_deadline_not_earliest :
  next_deadline two_levels = Some 350000000 /\
  te_deadline <$> lookup two_levels (encode_id 0 1) = Some 300000000.
Proof. by vm_compute. Qed.

(** ** The refinement *)

Lemma pos_ok_due n l s D E : 0 <= n -> pos_ok (cstab n) l s D E -> n <= E.
Proof.
  intros Hn. do 4 (destruct l as [|l]; [cbn [pos_ok cstab]; unfold early; case_cmp; intros; zdiv|]). done.
Qed.

Lemma Rel_not_overdue w a id E e : Rel w a -> due a !! id = Some (E, e) -> now a <= E.
Proof.
  intros [M _] Hd. pose proof (mid_time _ _ _ _ _ M) as [Hn _].
  destruct (mid_cover _ _ _ _ _ M id _ Hd) as [[]%elem_of_nil|(l & s & Hat)].
  eapply pos_ok_due; [done|]. by eapply (mid_pos _ _ _ _ _ M).
Qed.

(** C10: every wheel reached by scheduling, cancelling, ticking, waking and
    draining stands for its agenda: the clock is on the tick grid, exactly the
    agenda's timers are found by their identifiers, none of them is overdue,
    the slot map's free stack and count are consistent and the level array
    keeps its shape. *)
Theorem wheel_refines_agenda t0 w a :
  reach t0 w a ->
  current_time w = t0 + now a * kMillisecond /\
  (forall id, lookup w id = snd <$> due a !! id) /\
  (forall id E e, due a !! id = Some (E, e) -> te_id e = id /\ now a <= E) /\
  sm_wf w /\ shape w.
Proof.
  intros Hr. destruct (reach_Rel t0 w a Hr) as [R <-]. pose proof R as [M Hc].
  pose proof (mid_time _ _ _ _ _ M) as [Hn _].
  split; [by apply Rel_current|]. split; [intros; by apply Rel_lookup|].
  split; [|split; [apply (mid_sm _ _ _ _ _ M)|apply (mid_shape _ _ _ _ _ M)]].
  intros id E e Hd. split.
  - apply (lookup_te_id w); [apply (mid_sm _ _ _ _ _ M)|]. by rewrite (Rel_lookup w a id R), Hd.
  - by eapply Rel_not_overdue.
Qed.

(** A wheel with one live timer. *)
Lemma wheel_refines_agenda_witness :
  current_time one_timer = 0 /\
  lookup one_timer one_timer_id = Some (mkEntry one_timer_id 0 (Some 1%nat) (Some 2%nat) Ready) /\
  lookup one_timer (encode_id 1 1) = None /\ sm_wf one_timer /\ shape one_timer.
Proof.
  destruct (wheel_refines_agenda 0 _ _ reach_one_timer) as (Ht & Hl & _ & Hsm & Hsh).
  split; [exact Ht|]. split; [rewrite Hl; vm_compute; reflexivity|]. split; [rewrite Hl; vm_compute; reflexivity|].
  split; [exact Hsm|exact Hsh].
Defined.

(** C37: the wheel's data stay within their types.  In every reachable wheel there
    are four levels of 256, 64, 64 and 64 slots with the cursor of each inside
    it; free indices are distinct 24-bit positions of the table whose slots are
    inactive; the identifier of every live timer is a [u64] that encodes its own
    position and generation; an identifier left in a slot list points into the
    table; and the count of active timers is exact and fits 24 bits. *)
Theorem wheel_well_typed t0 w a :
  reach t0 w a ->
  length (levels w) = 4%nat /\
  (forall l L, levels w !! l = Some L -> length (slots L) = Z.to_nat (level_size l) /\ 0 <= cur_slot w l < level_size l) /\
  NoDup (free_indices w) /\
  (forall i, i ∈ free_indices w -> 0 <= i < 2 ^ 24 /\ exists s, slotmap w !! Z.to_nat i = Some s /\ active s = false) /\
  (forall id e, lookup w id = Some e -> te_id e = id /\ 0 <= id < 2 ^ 64 /\
     id = encode_id (id_index id) (id_gen id)) /\
  (forall l s id, at_slot w l s id -> 0 <= id_index id < Z.of_nat (length (slotmap w))) /\
  active_count w = Z.of_nat (active_slots (slotmap w)) /\ 0 <= active_count w <= 2 ^ 24.
Proof.
  intros Hr. destruct (reach_Rel t0 w a Hr) as [[M Hc] _]. pose proof (mid_shape _ _ _ _ _ M) as Hs.
  pose proof (mid_sm _ _ _ _ _ M) as Hsm. pose proof (sm_len w Hsm) as Hlen.
  assert (active_slots (slotmap w) <= length (slotmap w))%nat as Hact by apply length_filter.
  split_and!.
  - apply Hs.
  - intros l L HL. split; [by apply (shape_slots _ Hs)|]. apply (cursor_addr w _ l Hc).
    rewrite <- (shape_levels _ Hs). by eapply lookup_lt_Some.
  - apply Hsm.
  - intros i Hi. apply (sm_free w Hsm) in Hi as (H0 & s & Hi & Ha). pose proof (lookup_lt_Some _ _ _ Hi). split; [lia|eauto].
  - intros id e He. pose proof (lookup_te_id w id e Hsm He) as Ei. apply lookup_Some in He as (s & Hi & Ha & Hg & <-).
    pose proof (sm_gen w Hsm _ _ Hi) as Hgen. pose proof (lookup_lt_Some _ _ _ Hi).
    pose proof (id_index_nonneg id). assert (id_index id < 2 ^ 24) by lia.
    assert (id = encode_id (id_index id) (id_gen id)) as E.
    { rewrite <- Ei at 1. rewrite (sm_id w Hsm _ _ Hi Ha), Z2Nat.id, Hg by lia. done. }
    split; [done|]. split; [|done]. rewrite E, encode_id_add by lia. rewrite <- Hg. zpow. lia.
  - intros l s id (s' & Hi & _)%(mid_issued _ _ _ _ _ M). apply lookup_lt_Some in Hi. pose proof (id_index_nonneg id). lia.
  - apply Hsm.
  - rewrite (sm_count w Hsm). lia.
  - rewrite (sm_count w Hsm). lia.
Qed.

Lemma wheel_well_typed_witness :
  length (levels one_timer) = 4%nat /\ NoDup (free_indices one_timer) /\ active_count one_timer = 1 /\
  0 <= one_timer_id < 2 ^ 64 /\ one_timer_id = encode_id (id_index one_timer_id) (id_gen one_timer_id).
Proof.
  destruct (wheel_well_typed 0 _ _ reach_one_timer) as (Hl & _ & Hn & _ & Hid & _ & Hc & _).
  split; [exact Hl|]. split; [exact Hn|]. split; [rewrite Hc; vm_compute; reflexivity|].
  destruct (Hid one_timer_id (mkEntry one_timer_id 0 (Some 1%nat) (Some 2%nat) Ready)) as (_ & Hr & He); [vm_compute; reflexivity|].
  split; [exact Hr|exact He].
Defined.

End TimerProps.
