(* ===== verification/Channel.v ===== *)
(** * Channel: [sync/channel.hpp]

    The mutex/condition-variable channel.  Every operation is one critical
    section; a blocking operation whose wait predicate is false gives [None].
    Operations also return the notifications they issue, and a system of
    sending and receiving threads interleaves the critical sections. *)

From S2P Require Import Prelude Core.

Module Channel.
Section Channel.
Context {T : Type}.

(** ** The object *)

Record Channel := mkChannel { queue : list T; capacity : Z; closed : bool }.

Definition make_channel (cap : Z) : Channel := mkChannel [] cap false.

Inductive Cond := not_empty | not_full.
Inductive Notify := notify_one (c : Cond) | notify_all (c : Cond).

Definition size (c : Channel) : Z := Z.of_nat (length (queue c)).
Definition is_closed (c : Channel) : bool := closed c.

Definition send_on_closed : SystemError := make_error EPIPE "send on closed channel".
Definition send_on_full : SystemError := make_error EAGAIN "send on full channel".

Definition push (v : T) (c : Channel) : Channel := mkChannel (queue c ++ [v]) (capacity c) (closed c).

(** The wait predicates. *)
Definition can_send (c : Channel) : bool := (size c <? capacity c) || closed c.
Definition can_recv (c : Channel) : bool := negb (size c =? 0) || closed c.

Definition send (v : T) (c : Channel) : option (Result unit * Channel * list Notify) :=
  if (0 <? capacity c) && negb (can_send c) then None
  else if closed c then Some (Err send_on_closed, c, [])
  else Some (Ok tt, push v c, [notify_one not_empty]).

Definition try_send (v : T) (c : Channel) : Result unit * Channel * list Notify :=
  if closed c then (Err send_on_closed, c, [])
  else if (0 <? capacity c) && (capacity c <=? size c) then (Err send_on_full, c, [])
  else (Ok tt, push v c, [notify_one not_empty]).

(** [front]/[pop] and the notification, shared by the three receives. *)
Definition try_recv (c : Channel) : option T * Channel * list Notify :=
  match queue c with
  | [] => (None, c, [])
  | v :: q => (Some v, mkChannel q (capacity c) (closed c), [notify_one not_full])
  end.

Definition recv (c : Channel) : option (option T * Channel * list Notify) :=
  if can_recv c then Some (try_recv c) else None.

(** [expired]: the [wait_for] deadline has passed. *)
Definition recv_timeout (expired : bool) (c : Channel) : option (option T * Channel * list Notify) :=
  if can_recv c then Some (try_recv c)
  else if expired then Some (None, c, []) else None.

Definition close (c : Channel) : Channel * list Notify :=
  (mkChannel (queue c) (capacity c) true, [notify_all not_empty; notify_all not_full]).

(** ** Threads

    Threads inside a blocking call are either awake (about to take the mutex
    and test their predicate) or asleep on their condition variable. *)

Record Sys := mkSys {
  chan : Channel;
  snd_awake : list T;
  snd_asleep : list T;
  rcv_awake : nat;
  rcv_asleep : nat;
  sent : list T;
  received : list T;
}.

Definition init (cap : Z) : Sys := mkSys (make_channel cap) [] [] 0 0 [] [].

(** Delivery of one notification: [notify_one] wakes some sleeper if there is
    one. *)
Inductive wake : Notify -> Sys -> Sys -> Prop :=
| wake_recv c sa sl ra rl se re :
    wake (notify_one not_empty) (mkSys c sa sl ra (S rl) se re) (mkSys c sa sl (S ra) rl se re)
| wake_recv_none c sa sl ra se re :
    wake (notify_one not_empty) (mkSys c sa sl ra 0 se re) (mkSys c sa sl ra 0 se re)
| wake_send c sa l1 v l2 ra rl se re :
    wake (notify_one not_full) (mkSys c sa (l1 ++ v :: l2) ra rl se re)
                               (mkSys c (v :: sa) (l1 ++ l2) ra rl se re)
| wake_send_none c sa ra rl se re :
    wake (notify_one not_full) (mkSys c sa [] ra rl se re) (mkSys c sa [] ra rl se re)
| wake_all_recv c sa sl ra rl se re :
    wake (notify_all not_empty) (mkSys c sa sl ra rl se re) (mkSys c sa sl (ra + rl) 0 se re)
| wake_all_send c sa sl ra rl se re :
    wake (notify_all not_full) (mkSys c sa sl ra rl se re) (mkSys c (sl ++ sa) [] ra rl se re).

Inductive wakes : list Notify -> Sys -> Sys -> Prop :=
| wakes_nil s : wakes [] s s
| wakes_cons n ns s s1 s2 : wake n s s1 -> wakes ns s1 s2 -> wakes (n :: ns) s s2.

(** The bookkeeping of a completed send or receive. *)
Definition log_send (r : Result unit) (v : T) (se : list T) : list T :=
  match r with Ok _ => se ++ [v] | Err _ => se end.
Definition log_recv (o : option T) (re : list T) : list T :=
  match o with Some v => re ++ [v] | None => re end.

Inductive step : Sys -> Sys -> Prop :=
| step_call_send c sa sl ra rl se re v :
    step (mkSys c sa sl ra rl se re) (mkSys c (v :: sa) sl ra rl se re)
| step_call_recv c sa sl ra rl se re :
    step (mkSys c sa sl ra rl se re) (mkSys c sa sl (S ra) rl se re)
| step_send_block c l1 v l2 sl ra rl se re :
    send v c = None ->
    step (mkSys c (l1 ++ v :: l2) sl ra rl se re) (mkSys c (l1 ++ l2) (v :: sl) ra rl se re)
| step_send c l1 v l2 sl ra rl se re r c' ns s' :
    send v c = Some (r, c', ns) ->
    wakes ns (mkSys c' (l1 ++ l2) sl ra rl (log_send r v se) re) s' ->
    step (mkSys c (l1 ++ v :: l2) sl ra rl se re) s'
| step_try_send c sa sl ra rl se re v r c' ns s' :
    try_send v c = (r, c', ns) ->
    wakes ns (mkSys c' sa sl ra rl (log_send r v se) re) s' ->
    step (mkSys c sa sl ra rl se re) s'
| step_recv_block c sa sl ra rl se re :
    recv c = None ->
    step (mkSys c sa sl (S ra) rl se re) (mkSys c sa sl ra (S rl) se re)
| step_recv c sa sl ra rl se re o c' ns s' :
    recv c = Some (o, c', ns) ->
    wakes ns (mkSys c' sa sl ra rl se (log_recv o re)) s' ->
    step (mkSys c sa sl (S ra) rl se re) s'
| step_recv_timeout c sa sl ra rl se re o c' ns s' :
    recv_timeout true c = Some (o, c', ns) ->
    wakes ns (mkSys c' sa sl ra rl se (log_recv o re)) s' ->
    step (mkSys c sa sl (S ra) rl se re) s'
| step_try_recv c sa sl ra rl se re o c' ns s' :
    try_recv c = (o, c', ns) ->
    wakes ns (mkSys c' sa sl ra rl se (log_recv o re)) s' ->
    step (mkSys c sa sl ra rl se re) s'
| step_close c sa sl ra rl se re c' ns s' :
    close c = (c', ns) -> wakes ns (mkSys c' sa sl ra rl se re) s' ->
    step (mkSys c sa sl ra rl se re) s'
| step_spurious_send c sa l1 v l2 ra rl se re :
    step (mkSys c sa (l1 ++ v :: l2) ra rl se re) (mkSys c (v :: sa) (l1 ++ l2) ra rl se re)
| step_spurious_recv c sa sl ra rl se re :
    step (mkSys c sa sl ra (S rl) se re) (mkSys c sa sl (S ra) rl se re).

Inductive reachable (cap : Z) : Sys -> Prop :=
| reachable_init : reachable cap (init cap)
| reachable_step s s' : reachable cap s -> step s s' -> reachable cap s'.

(** ** Invariants *)

(** Nothing lost, duplicated or reordered, and the bound respected. *)
Definition conserved (cap : Z) (s : Sys) : Prop :=
  capacity (chan s) = cap /\ sent s = received s ++ queue (chan s) /\
  (0 < cap -> size (chan s) <= cap).

(** A sleeper implies enough threads awake to use every item (or free place)
    that is there. *)
Definition no_lost_wakeup (s : Sys) : Prop :=
  ((0 < rcv_asleep s)%nat ->
     closed (chan s) = false /\ size (chan s) <= Z.of_nat (rcv_awake s)) /\
  (snd_asleep s <> [] ->
     closed (chan s) = false /\ 0 < capacity (chan s) /\
     capacity (chan s) - size (chan s) <= Z.of_nat (length (snd_awake s))).

Lemma wake_frame n s s' :
  wake n s s' -> chan s' = chan s /\ sent s' = sent s /\ received s' = received s.
Proof. by destruct 1. Qed.

Lemma wakes_frame ns s s' :
  wakes ns s s' -> chan s' = chan s /\ sent s' = sent s /\ received s' = received s.
Proof.
  induction 1 as [|n ns s s1 s2 H1%wake_frame _ IH]; [done|].
  destruct H1 as (-> & -> & ->) in IH. done.
Qed.

Lemma size_push v c : size (push v c) = size c + 1.
Proof. unfold size, push; cbn. rewrite length_app. cbn. lia. Qed.

(** A completed send pushed, below the bound, or found the channel closed. *)
Definition sent_ok (v : T) (c : Channel) (r : Result unit) (c' : Channel) (ns : list Notify) : Prop :=
  (r = Ok tt /\ c' = push v c /\ closed c = false /\ (0 < capacity c -> size c < capacity c) /\
   ns = [notify_one not_empty]) \/
  (exists e, r = Err e /\ c' = c /\ ns = []).

(** A completed receive popped the front, or found nothing. *)
Definition recv_ok (c : Channel) (o : option T) (c' : Channel) (ns : list Notify) : Prop :=
  (exists v q, queue c = v :: q /\ o = Some v /\ c' = mkChannel q (capacity c) (closed c) /\
     ns = [notify_one not_full]) \/
  (queue c = [] /\ o = None /\ c' = c /\ ns = []).

Lemma send_inv v c r c' ns : send v c = Some (r, c', ns) -> sent_ok v c r c' ns.
Proof.
  unfold send, can_send. destruct (closed c) eqn:Hc.
  - rewrite orb_true_r, andb_false_r. intros [= <- <- <-]. right. eauto.
  - rewrite orb_false_r. destruct (Z.ltb_spec 0 (capacity c)), (Z.ltb_spec (size c) (capacity c)); cbn;
      intros [= <- <- <-]; left; split_and!; try done; lia.
Qed.

Lemma send_block_inv v c : send v c = None -> closed c = false /\ 0 < capacity c <= size c.
Proof.
  unfold send, can_send. destruct (closed c); [by rewrite orb_true_r, andb_false_r|].
  rewrite orb_false_r.
  by destruct (Z.ltb_spec 0 (capacity c)), (Z.ltb_spec (size c) (capacity c)).
Qed.

Lemma try_send_inv v c r c' ns : try_send v c = (r, c', ns) -> sent_ok v c r c' ns.
Proof.
  unfold try_send. destruct (closed c) eqn:Hc; [intros [= <- <- <-]; right; eauto|].
  destruct (Z.ltb_spec 0 (capacity c)), (Z.leb_spec (capacity c) (size c)); cbn; intros [= <- <- <-];
    [right; eauto|left; split_and!; try done; lia..].
Qed.

Lemma try_recv_inv c o c' ns : try_recv c = (o, c', ns) -> recv_ok c o c' ns.
Proof.
  unfold try_recv. destruct (queue c) as [|v q] eqn:E; intros [= <- <- <-]; [by right|left; eauto 10].
Qed.

Lemma recv_inv c o c' ns : recv c = Some (o, c', ns) -> recv_ok c o c' ns.
Proof. unfold recv. destruct (can_recv c); [|done]. intros [= H]. by apply try_recv_inv. Qed.

Lemma recv_timeout_inv b c o c' ns : recv_timeout b c = Some (o, c', ns) -> recv_ok c o c' ns.
Proof.
  unfold recv_timeout, can_recv. destruct (Z.eqb_spec (size c) 0) as [E|E]; cbn.
  - destruct (closed c); [intros [= H]; by apply try_recv_inv|]. destruct b; [|done].
    intros [= <- <- <-]. right. unfold size in E. split; [by apply nil_length_inv; lia|done].
  - intros [= H]. by apply try_recv_inv.
Qed.

Lemma recv_block_inv c : recv c = None -> closed c = false /\ size c = 0.
Proof.
  unfold recv, can_recv. destruct (Z.eqb_spec (size c) 0), (closed c); cbn; done.
Qed.

Lemma conserved_sent cap v c r c' ns sa sl ra rl se re :
  sent_ok v c r c' ns -> conserved cap (mkSys c sa sl ra rl se re) ->
  conserved cap (mkSys c' sa sl ra rl (log_send r v se) re).
Proof.
  intros [(-> & -> & _ & Hs & _)|(e & -> & -> & _)] (Hcap & Hq & Hb); cbn in *; [|done].
  split_and!; cbn; [done|by rewrite Hq, app_assoc|]. rewrite size_push. intros. rewrite <- Hcap in *. lia.
Qed.

Lemma conserved_received cap c o c' ns sa sl ra rl se re :
  recv_ok c o c' ns -> conserved cap (mkSys c sa sl ra rl se re) ->
  conserved cap (mkSys c' sa sl ra rl se (log_recv o re)).
Proof.
  intros [(v & q & Eq & -> & -> & _)|(_ & -> & -> & _)] (Hcap & Hq & Hb); cbn in *; [|done].
  split_and!; cbn; [done|by rewrite Hq, Eq, <- app_assoc|]. unfold size in *; cbn.
  rewrite Eq in Hb. cbn in Hb. lia.
Qed.

Lemma conserved_wakes cap ns s s' : wakes ns s s' -> conserved cap s -> conserved cap s'.
Proof. intros (E1 & E2 & E3)%wakes_frame. unfold conserved. by rewrite E1, E2, E3. Qed.

Lemma conserved_step cap s s' : step s s' -> conserved cap s -> conserved cap s'.
Proof.
  destruct 1; intros Hc; try exact Hc.
  - eapply conserved_wakes; [done|]. eapply conserved_sent; [by eapply send_inv|exact Hc].
  - eapply conserved_wakes; [done|]. eapply conserved_sent; [by eapply try_send_inv|exact Hc].
  - eapply conserved_wakes; [done|]. eapply conserved_received; [by eapply recv_inv|exact Hc].
  - eapply conserved_wakes; [done|]. eapply conserved_received; [by eapply recv_timeout_inv|exact Hc].
  - eapply conserved_wakes; [done|]. eapply conserved_received; [by eapply try_recv_inv|exact Hc].
  - eapply conserved_wakes; [done|]. injection H as <- _. exact Hc.
Qed.

(** *** Wake-ups *)

(** The two halves of [no_lost_wakeup], with [k] wake-ups still to be delivered. *)
Definition recv_half (k : Z) (s : Sys) : Prop :=
  (0 < rcv_asleep s)%nat -> closed (chan s) = false /\ size (chan s) <= Z.of_nat (rcv_awake s) + k.
Definition send_half (k : Z) (s : Sys) : Prop :=
  snd_asleep s <> [] -> closed (chan s) = false /\ 0 < capacity (chan s) /\
    capacity (chan s) - size (chan s) <= Z.of_nat (length (snd_awake s)) + k.

Lemma halves s : no_lost_wakeup s <-> recv_half 0 s /\ send_half 0 s.
Proof. unfold no_lost_wakeup, recv_half, send_half. by rewrite !Z.add_0_r. Qed.

Lemma wake_not_empty s s' :
  recv_half 1 s -> send_half 0 s -> wakes [notify_one not_empty] s s' -> no_lost_wakeup s'.
Proof.
  intros H1 H2 H. inversion H as [|? ? ? s1 ? Hw Hn]; subst. inversion Hn; subst.
  apply halves. inversion Hw; subst; split; try exact H2; intros Hr; cbn in *; [|lia].
  destruct (H1 ltac:(cbn; lia)) as [? Hs]. cbn in *. split; [done|lia].
Qed.

Lemma wake_not_full s s' :
  recv_half 0 s -> send_half 1 s -> wakes [notify_one not_full] s s' -> no_lost_wakeup s'.
Proof.
  intros H1 H2 H. inversion H as [|? ? ? s1 ? Hw Hn]; subst. inversion Hn; subst.
  apply halves. inversion Hw; subst; split; try exact H1; intros Hr; cbn in *; [|done].
  destruct (H2 ltac:(cbn; by intros []%app_nil)) as (? & ? & Hs). cbn in *. split_and!; [done..|lia].
Qed.

(** A completed send that accounts for [k] senders that were awake. *)
Lemma wakeup_sent v c r c' ns sa sl ra rl se re s' :
  sent_ok v c r c' ns ->
  (forall e, r = Err e -> no_lost_wakeup (mkSys c sa sl ra rl se re)) ->
  recv_half 0 (mkSys c sa sl ra rl se re) -> send_half 1 (mkSys c sa sl ra rl se re) ->
  wakes ns (mkSys c' sa sl ra rl (log_send r v se) re) s' -> no_lost_wakeup s'.
Proof.
  intros [(-> & -> & Hc & _ & ->)|(e & -> & -> & ->)] He H1 H2 Hw.
  - apply (wake_not_empty _ _) in Hw; [done|..].
    + intros Hr. destruct (H1 Hr) as [_ Hs]. cbn in *. rewrite size_push. split; [done|lia].
    + intros Hsl. destruct (H2 Hsl) as (_ & Hp & Hs). cbn in *. rewrite size_push. split_and!; [done..|lia].
  - inversion Hw; subst. by apply (He e).
Qed.

Lemma wakeup_received c o c' ns sa sl ra rl se re s' :
  recv_ok c o c' ns ->
  recv_half 1 (mkSys c sa sl ra rl se re) -> send_half 0 (mkSys c sa sl ra rl se re) ->
  wakes ns (mkSys c' sa sl ra rl se (log_recv o re)) s' -> no_lost_wakeup s'.
Proof.
  intros [(v & q & Eq & -> & -> & ->)|(Eq & -> & -> & ->)] H1 H2 Hw.
  - apply (wake_not_full _ _) in Hw; [done|..].
    + intros Hr. destruct (H1 Hr) as [? Hs]. unfold size in *. cbn in *. rewrite Eq in Hs. cbn in Hs.
      split; [done|lia].
    + intros Hsl. destruct (H2 Hsl) as (? & Hp & Hs). unfold size in *. cbn in *. rewrite Eq in Hs. cbn in Hs.
      split_and!; [done..|lia].
  - inversion Hw; subst. apply halves. split; [|exact H2]. intros Hr. destruct (H1 Hr) as [? _].
    split; [done|]. unfold size; cbn. rewrite Eq. cbn. lia.
Qed.

(** A send that failed found the channel closed: nobody sleeps. *)
Lemma send_err_closed v c e c' ns : send v c = Some (Err e, c', ns) -> closed c = true.
Proof. unfold send. destruct (_ && _); [done|]. by destruct (closed c). Qed.

Lemma closed_nobody_sleeps c sa sl ra rl se re :
  closed c = true -> no_lost_wakeup (mkSys c sa sl ra rl se re) -> rl = 0%nat /\ sl = [].
Proof.
  intros Hc [H1 H2]. split.
  - destruct rl; [done|]. destruct (H1 ltac:(cbn; lia)) as [H _]. cbn in H. congruence.
  - destruct sl; [done|]. destruct (H2 ltac:(done)) as [H _]. cbn in H. congruence.
Qed.

Lemma no_lost_wakeup_step s s' : step s s' -> no_lost_wakeup s -> no_lost_wakeup s'.
Proof.
  intros Hst Hn. pose proof (proj1 (halves s) Hn) as [H1 H2]. destruct Hst.
  - split; [exact (proj1 Hn)|]. intros Hs. destruct (H2 Hs) as (? & ? & ?). cbn in *. split_and!; [done..|lia].
  - split; [|exact (proj2 Hn)]. intros Hs. destruct (H1 Hs) as (? & ?). cbn in *. split; [done|lia].
  - destruct (send_block_inv _ _ H) as [Hc Hcap]. split; [exact (proj1 Hn)|]. intros _. cbn. split_and!; [done|lia..].
  - eapply (wakeup_sent v c r c' ns (l1 ++ l2)); [by eapply send_inv| |exact H1| |done].
    + intros e ->. destruct (closed_nobody_sleeps _ _ _ _ _ _ _ (send_err_closed _ _ _ _ _ H) Hn) as [-> ->].
      split; cbn; [lia|by intros []].
    + intros Hs. destruct (H2 Hs) as (? & ? & Hle). cbn in *. rewrite !length_app in *. cbn in Hle.
      split_and!; [done..|lia].
  - eapply (wakeup_sent v c r c' ns); [by eapply try_send_inv|done|exact H1| |done].
    intros Hs. destruct (H2 Hs) as (? & ? & Hle). cbn in *. split_and!; [done..|lia].
  - destruct (recv_block_inv _ H) as [Hc Hsz]. split; [|exact (proj2 Hn)]. intros _. cbn. split; [done|lia].
  - eapply (wakeup_received c o c' ns sa sl ra rl); [by eapply recv_inv| |exact H2|done].
    intros Hs. destruct (H1 Hs) as (? & Hle). cbn in *. split; [done|lia].
  - eapply (wakeup_received c o c' ns sa sl ra rl); [by eapply recv_timeout_inv| |exact H2|done].
    intros Hs. destruct (H1 Hs) as (? & Hle). cbn in *. split; [done|lia].
  - eapply (wakeup_received c o c' ns); [by eapply try_recv_inv| |exact H2|done].
    intros Hs. destruct (H1 Hs) as (? & Hle). cbn in *. split; [done|lia].
  - injection H as <- <-. inversion H0 as [|? ? ? ? ? Ha Hb]; subst. inversion Ha; subst.
    inversion Hb as [|? ? ? ? ? Hd He]; subst. inversion Hd; subst. inversion He; subst.
    split; cbn; [lia|by intros []].
  - split; [exact (proj1 Hn)|]. intros _. destruct (H2 ltac:(cbn; by intros []%app_nil)) as (? & ? & ?).
    cbn in *. split_and!; [done..|lia].
  - split; [|exact (proj2 Hn)]. intros _. destruct (H1 ltac:(cbn; lia)) as (? & ?). cbn in *. split; [done|lia].
Qed.

(** ** What the channel guarantees *)

(** C12: under every interleaving of senders, receivers, timeouts, spurious
    wake-ups and [close], the values received followed by the values queued
    are the values sent, in order, and a bounded channel never exceeds its
    capacity. *)
Theorem channel_fifo cap s :
  reachable cap s ->
  sent s = received s ++ queue (chan s) /\ (0 < cap -> size (chan s) <= cap).
Proof.
  intros Hr. assert (conserved cap s) as (_ & ? & ?); [|done].
  induction Hr as [|s s' _ IH Hst]; [|by eapply conserved_step].
  split_and!; [done..|]. unfold size. cbn. lia.
Qed.

(** C8: [notify_one] and [notify_all] lose no wake-up: when an item is queued
    while a receiver sleeps, another receiver is awake and its receive does not
    block; when there is room while a sender sleeps, another sender is awake
    and does not block; and nobody sleeps on a closed channel. *)
Theorem channel_no_lost_wakeup cap s :
  reachable cap s ->
  ((0 < rcv_asleep s)%nat -> queue (chan s) <> [] ->
     (0 < rcv_awake s)%nat /\ is_Some (recv (chan s))) /\
  (snd_asleep s <> [] -> size (chan s) < capacity (chan s) ->
     snd_awake s <> [] /\ forall v, is_Some (send v (chan s))) /\
  (closed (chan s) = true -> rcv_asleep s = 0%nat /\ snd_asleep s = []).
Proof.
  intros Hr. assert (no_lost_wakeup s) as Hn.
  { induction Hr as [|s s' _ IH Hst]; [split; cbn; [lia|by intros []]|by eapply no_lost_wakeup_step]. }
  split_and!.
  - intros Ha Hq. destruct (proj1 Hn Ha) as [_ Hs]. unfold size in Hs.
    destruct (queue (chan s)) eqn:E; [done|]. cbn in Hs. split; [lia|].
    unfold recv, can_recv, size. rewrite E. cbn. eauto.
  - intros Ha Hq. destruct (proj2 Hn Ha) as (_ & _ & Hs). split.
    + intros E. rewrite E in Hs. cbn in Hs. lia.
    + intros v. unfold send, can_send. rewrite (proj2 (Z.ltb_lt _ _) Hq). cbn.
      rewrite andb_false_r. destruct (closed (chan s)); eauto.
  - intros Hc. destruct s. by eapply closed_nobody_sleeps.
Qed.

(** The non-blocking operations agree with the blocking ones: [try_send]
    fails with [EPIPE] exactly on a closed channel, with [EAGAIN] exactly when
    [send] would block, and otherwise is [send]; [try_recv] is [recv] whenever
    that does not block, and finds nothing when it would. *)
Theorem channel_try_agrees v c :
  (send v c = None <-> try_send v c = (Err send_on_full, c, [])) /\
  (forall x, send v c = Some x -> try_send v c = x) /\
  (closed c = true <-> try_send v c = (Err send_on_closed, c, [])) /\
  (forall x, recv c = Some x -> try_recv c = x) /\
  (recv c = None -> try_recv c = (None, c, [])).
Proof.
  unfold send, try_send, can_send, recv, can_recv. destruct (closed c) eqn:Hc.
  - rewrite !orb_true_r, andb_false_r. split_and!; try done; intros x [= <-]; done.
  - rewrite !orb_false_r.
    destruct (Z.ltb_spec 0 (capacity c)), (Z.ltb_spec (size c) (capacity c)),
      (Z.leb_spec (capacity c) (size c)), (Z.eqb_spec (size c) 0) as [Hz|Hz]; try lia; cbn;
      (split_and!; [split; done|try done; by intros x [= <-]|split; done|try done; by intros x [= <-]|]);
      try done; intros _; unfold try_recv, size in *; destruct (queue c); cbn in *; try done; lia.
Qed.

End Channel.

(** A bounded channel with a full queue, a sender asleep, and one item on its
    way to a receiver. *)
Definition busy : @Sys Z :=
  mkSys (mkChannel [2] 1 false) [] [3] 1 0 [1; 2] [1].

Lemma reachable_busy : reachable 1 busy.
Proof.
  eapply reachable_step; [|eapply step_call_recv].
  eapply reachable_step.
  2:{ apply (step_send_block (mkChannel [2] 1 false) [] 3 [] [] 0 0 [1; 2] [1]). done. }
  eapply reachable_step; [|apply step_call_send].
  eapply reachable_step.
  2:{ apply (step_try_send (mkChannel [] 1 false) [] [] 0 0 [1] [1] 2 (Ok tt) (mkChannel [2] 1 false)
        [notify_one not_empty]); [done|]. eapply wakes_cons; [apply wake_recv_none|constructor]. }
  eapply reachable_step.
  2:{ apply (step_try_recv (mkChannel [1] 1 false) [] [] 0 0 [1] [] (Some 1) (mkChannel [] 1 false)
        [notify_one not_full]); [done|]. eapply wakes_cons; [apply wake_send_none|constructor]. }
  eapply reachable_step; [constructor|].
  eapply (step_try_send (mkChannel [] 1 false) [] [] 0 0 [] [] 1); [done|].
  eapply wakes_cons; [apply wake_recv_none|constructor].
Qed.

Lemma channel_fifo_witness : [1; 2] = [1] ++ [2] /\ (0 < 1 -> size (chan busy) <= 1).
Proof. exact (channel_fifo 1 busy reachable_busy). Defined.

(** Two receivers wait on an empty channel; *)
Definition two_receivers : @Sys Z := mkSys (mkChannel [] 1 false) [] [] 0 2 [] [].

Lemma reachable_two_receivers : reachable 1 two_receivers.
Proof.
  eapply reachable_step; [|by apply step_recv_block]. eapply reachable_step; [|by apply step_recv_block].
  eapply reachable_step; [|apply step_call_recv]. eapply reachable_step; [|apply step_call_recv]. constructor.
Qed.

(** an item arrives, and one of them is notified; *)
Definition item_for_two : @Sys Z := mkSys (mkChannel [1] 1 false) [] [] 1 1 [1] [].

Lemma reachable_item : reachable 1 item_for_two.
Proof.
  eapply reachable_step; [apply reachable_two_receivers|].
  eapply (step_try_send (mkChannel [] 1 false) [] [] 0 2 [] [] 1); [done|]. eapply wakes_cons; [apply wake_recv|constructor].
Qed.

(** or the channel is closed under them. *)
Definition closed_on_two : @Sys Z := mkSys (mkChannel [] 1 true) [] [] 2 0 [] [].

Lemma reachable_closed : reachable 1 closed_on_two.
Proof.
  eapply reachable_step; [apply reachable_two_receivers|]. eapply step_close; [done|].
  eapply wakes_cons; [apply wake_all_recv|]. eapply wakes_cons; [apply wake_all_send|constructor].
Qed.

(** Two senders wait on a full channel and an item is taken. *)
Definition room_for_two : @Sys Z := mkSys (mkChannel [] 1 false) [2] [3] 0 0 [1] [1].

Lemma reachable_room : reachable 1 room_for_two.
Proof.
  eapply reachable_step.
  2:{ eapply (step_try_recv (mkChannel [1] 1 false) [] [2; 3] 0 0 [1] []); [done|].
      eapply wakes_cons; [apply (wake_send _ [] [] 2 [3])|constructor]. }
  eapply reachable_step; [|by apply (step_send_block _ [] 2 [])].
  eapply reachable_step; [|apply step_call_send].
  eapply reachable_step; [|by apply (step_send_block _ [] 3 [])].
  eapply reachable_step; [|apply step_call_send].
  eapply reachable_step; [constructor|].
  eapply (step_try_send (mkChannel [] 1 false) [] [] 0 0 [] [] 1); [done|].
  eapply wakes_cons; [apply wake_recv_none|constructor].
Qed.

(** The premises hold: a receiver sleeps while an item is queued, a sender sleeps
    while there is room, the channel is closed. *)
Lemma channel_no_lost_wakeup_witness :
  ((0 < rcv_asleep item_for_two)%nat /\ queue (chan item_for_two) <> [] /\
     (0 < rcv_awake item_for_two)%nat /\ is_Some (recv (chan item_for_two))) /\
  (snd_asleep room_for_two <> [] /\ size (chan room_for_two) < capacity (chan room_for_two) /\
     snd_awake room_for_two <> [] /\ is_Some (send 7 (chan room_for_two))) /\
  (closed (chan closed_on_two) = true /\ rcv_asleep closed_on_two = 0%nat /\ snd_asleep closed_on_two = []).
Proof.
  destruct (channel_no_lost_wakeup 1 item_for_two reachable_item) as (Hr & _ & _).
  destruct (channel_no_lost_wakeup 1 room_for_two reachable_room) as (_ & Hs & _).
  destruct (channel_no_lost_wakeup 1 closed_on_two reachable_closed) as (_ & _ & Hc).
  split; [|split].
  - split; [cbn; lia|]. split; [discriminate|]. apply Hr; [cbn; lia|discriminate].
  - split; [discriminate|]. split; [reflexivity|]. destruct Hs as [Ha Hv]; [discriminate|reflexivity|]. split; [exact Ha|apply Hv].
  - split; [reflexivity|]. apply Hc. reflexivity.
Defined.

End Channel.
