(* ===== verification/SpinLock.v ===== *)
(** * SpinLock: [sync/spinlock.hpp]

    [SpinLock] over an atomic flag and the [LockGuard] scopes that use it, for
    any number of threads. *)

From S2P Require Import Prelude Core.

Module SpinLock.

(** [test_and_set]: the old value and the new one. *)
Definition test_and_set (flag : bool) : bool * bool := (flag, true).
Definition clear (flag : bool) : bool := false.

(** One turn of the loop of [lock]: [true] when the loop is left. *)
Definition lock_turn (flag : bool) : bool * bool := let '(old, flag) := test_and_set flag in (negb old, flag).
Definition unlock (flag : bool) : bool := clear flag.

(** Where a thread is: outside, in the loop of [lock] (the constructor of a
    [LockGuard]), inside the scope of the guard. *)
Inductive Where := Outside | Spinning | Inside.

#[global] Instance Where_eq_dec : EqDecision Where.
Proof. solve_decision. Defined.

Record Locked := mkLocked { flag : bool; threads : list Where }.

Definition make_lock (n : nat) : Locked := mkLocked false (replicate n Outside).

(** The steps of thread [i]; each touches the flag at most once. *)
Definition thread_step (i : nat) (s : Locked) : option Locked :=
  w ← threads s !! i;
  match w with
  | Outside => Some (mkLocked (flag s) (<[i := Spinning]> (threads s)))
  | Spinning =>
    let '(got, f) := lock_turn (flag s) in
    Some (mkLocked f (if got then <[i := Inside]> (threads s) else threads s))
  | Inside => Some (mkLocked (unlock (flag s)) (<[i := Outside]> (threads s)))
  end.

(** A schedule names the thread that steps next. *)
Fixpoint steps (sched : list nat) (s : Locked) : option Locked :=
  match sched with
  | [] => Some s
  | i :: sched => s ← thread_step i s; steps sched s
  end.

(** ** Mutual exclusion *)

Definition SpinInv (s : Locked) : Prop :=
  (forall i j, threads s !! i = Some Inside -> threads s !! j = Some Inside -> i = j) /\
  (flag s = true <-> exists i, threads s !! i = Some Inside).

Lemma insert_inside (l : list Where) i w w' j :
  l !! i = Some w -> <[i := w']> l !! j = Some Inside <-> (j = i /\ w' = Inside) \/ (j <> i /\ l !! j = Some Inside).
Proof.
  intros Hi. destruct (decide (j = i)) as [->|Hne].
  - rewrite list_lookup_insert_eq by (by eapply lookup_lt_Some). naive_solver.
  - rewrite list_lookup_insert_ne by done. naive_solver.
Qed.

Lemma SpinInv_step i s s' : thread_step i s = Some s' -> SpinInv s -> SpinInv s'.
Proof.
  unfold thread_step. destruct (threads s !! i) as [w|] eqn:Hi; [|done]. intros E [Huniq Hflag].
  destruct w; cbn in E.
  - injection E as <-. split; cbn.
    + intros a b Ha Hb. apply (insert_inside _ _ _ _ _ Hi) in Ha, Hb. naive_solver.
    + rewrite Hflag. setoid_rewrite (insert_inside _ _ _ Spinning _ Hi). naive_solver.
  - destruct (flag s) eqn:Ef; injection E as <-; split; cbn; [done|naive_solver| |].
    + intros a b Ha Hb. apply (insert_inside _ _ _ _ _ Hi) in Ha, Hb. naive_solver.
    + split; [|done]. intros _. exists i. rewrite (insert_inside _ _ _ _ _ Hi). by left.
  - injection E as <-. split; cbn.
    + intros a b Ha Hb. apply (insert_inside _ _ _ _ _ Hi) in Ha, Hb. naive_solver.
    + split; [done|]. intros [j Hj]. rewrite (insert_inside _ _ _ _ _ Hi) in Hj. naive_solver.
Qed.

Lemma SpinInv_steps sched : forall s s', steps sched s = Some s' -> SpinInv s -> SpinInv s'.
Proof.
  induction sched as [|i sched IH]; intros s s'; cbn; [by intros [= <-]|].
  destruct (thread_step i s) as [s1|] eqn:E1; [|done]. cbn. intros E2 I. eapply IH; [done|]. by eapply SpinInv_step.
Qed.

Lemma SpinInv_init n : SpinInv (make_lock n).
Proof.
  split; cbn.
  - intros i j Hi%lookup_replicate_1. naive_solver.
  - split; [done|]. intros [i Hi%lookup_replicate_1]. naive_solver.
Qed.

(** C38: the spin lock excludes and lets in.  Under every schedule at most one
    thread is inside the scope of a guard; a thread that tries while another is
    inside keeps spinning and disturbs nothing; and when nobody is inside, the
    first spinning thread to try gets in. *)
Theorem spinlock_excludes n sched s :
  steps sched (make_lock n) = Some s ->
  (forall i j, threads s !! i = Some Inside -> threads s !! j = Some Inside -> i = j) /\
  (forall i, threads s !! i = Some Spinning ->
    if decide (Inside ∈ threads s) then thread_step i s = Some s
    else exists s', thread_step i s = Some s' /\ threads s' = <[i := Inside]> (threads s)).
Proof.
  intros E. pose proof (SpinInv_steps _ _ _ E (SpinInv_init n)) as [Huniq Hflag]. split; [exact Huniq|].
  intros i Hi. unfold thread_step. rewrite Hi. cbn. destruct (decide (Inside ∈ threads s)) as [Hin|Hout].
  - apply list_elem_of_lookup in Hin. rewrite (proj2 Hflag Hin). cbn. f_equal. destruct s as [[] ?]; [done|].
    by specialize (proj2 Hflag Hin).
  - destruct (flag s) eqn:Ef; cbn; [|eauto]. destruct (proj1 Hflag eq_refl) as [j Hj].
    destruct Hout. by eapply list_elem_of_lookup_2.
Qed.

(** Two threads: the second gets in when the first has left. *)
Lemma spinlock_excludes_witness :
  exists s, steps [0; 1; 0; 1]%nat (make_lock 2) = Some s /\ threads s = [Inside; Spinning] /\ thread_step 1 s = Some s.
Proof.
  destruct (steps [0; 1; 0; 1]%nat (make_lock 2)) as [s|] eqn:E; [|vm_compute in E; done].
  assert (threads s = [Inside; Spinning]) as Et by (vm_compute in E; by injection E as <-).
  exists s. split; [done|]. split; [exact Et|].
  destruct (spinlock_excludes 2 [0; 1; 0; 1]%nat s E) as [_ H]. specialize (H 1%nat).
  rewrite Et in H. specialize (H eq_refl). by rewrite decide_True in H by (by repeat constructor).
Defined.

End SpinLock.
