(* ===== verification/Reactor.v ===== *)
(** * Reactor: [EpollReactor] of [async/io_reactor.hpp]

    The edge-triggered one-shot epoll reactor: a table of waiters indexed by
    descriptor, one per direction, and the queue of handles to resume.  The
    kernel is a parameter: the class [EpollKernel] has the system calls the
    reactor makes and [EpollLaws] the documented behaviour of epoll it relies
    on. *)

From S2P Require Import Prelude Core.

Module Reactor.

(** ** The kernel interface *)

Definition EPOLLIN : Z := 1.
Definition EPOLLOUT : Z := 4.
Definition EPOLLERR : Z := 8.
Definition EPOLLHUP : Z := 16.
Definition EPOLLONESHOT : Z := Z.shiftl 1 30.
Definition EPOLLET : Z := Z.shiftl 1 31.

Inductive CtlOp := EPOLL_CTL_ADD | EPOLL_CTL_MOD | EPOLL_CTL_DEL.

(** [epoll_wait] gives the [(data.fd, events)] pairs it stored. *)
Class EpollKernel (K : Type) := {
  epoll_create1 : K -> SysRet Z * K;
  epoll_ctl : Z -> CtlOp -> Z -> Z -> K -> SysRet unit * K;
  epoll_wait : Z -> nat -> Z -> K -> SysRet (list (Z * Z)) * K;
  epoll_close : Z -> K -> SysRet unit * K;
}.

(** ** Data *)

Record PendingEntry := mkPending {
  pe_handle : handle;
  pe_result : ptr;
  pe_state : ptr;
  pe_completion : WaitState;
}.

Record FdEntry := mkFd { read : option PendingEntry; write : option PendingEntry }.

Definition empty_fd : FdEntry := mkFd None None.

Record Reactor := mkReactor { epoll_fd : Z; slots : list FdEntry; ready : list handle }.

Definition kMaxEventsPerPoll : nat := 256.

Definition set_slots (x : list FdEntry) (r : Reactor) : Reactor := mkReactor (epoll_fd r) x (ready r).
Definition set_ready (x : list handle) (r : Reactor) : Reactor := mkReactor (epoll_fd r) (slots r) x.

(** The two directions, for the operations the source writes twice. *)
Inductive Dir := DRead | DWrite.

Definition other (d : Dir) : Dir := match d with DRead => DWrite | DWrite => DRead end.
Definition get_dir (d : Dir) (e : FdEntry) : option PendingEntry :=
  match d with DRead => read e | DWrite => write e end.
Definition set_dir (d : Dir) (w : option PendingEntry) (e : FdEntry) : FdEntry :=
  match d with DRead => mkFd w (write e) | DWrite => mkFd (read e) w end.
Definition dir_event (d : Dir) : Z := match d with DRead => IoEvent.Read | DWrite => IoEvent.Write end.

Definition idle (e : FdEntry) : bool :=
  match read e, write e with None, None => true | _, _ => false end.

(** [fd < 0 || static_cast<usize>(fd) >= slots_.size()] *)
Definition out_of_table (fd : Z) (r : Reactor) : bool :=
  (fd <? 0) || (Z.of_nat (length (slots r)) <=? fd).

Definition upd_fd (fd : Z) (f : FdEntry -> FdEntry) (r : Reactor) : Reactor :=
  set_slots (alter f (Z.to_nat fd) (slots r)) r.

Definition to_epoll_events (ev : Z) : Z :=
  let bit (flag e result : Z) := if IoEvent.has_flag ev flag then Z.lor result e else result in
  bit IoEvent.OneShot EPOLLONESHOT
    (bit IoEvent.EdgeTrig EPOLLET
      (bit IoEvent.HangUp EPOLLHUP
        (bit IoEvent.Error EPOLLERR
          (bit IoEvent.Write EPOLLOUT
            (bit IoEvent.Read EPOLLIN 0))))).

Section Operations.
Context {K : Type} `{EpollKernel K}.

(** ** Construction and the plain [epoll_ctl] wrappers *)

Definition create (k : K) : Result Reactor * K :=
  match epoll_create1 k with
  | (SErr e, k) => (Err (from_errno e), k)
  | (SOk fd, k) => (Ok (mkReactor fd [] []), k)
  end.

Definition ctl (op : CtlOp) (fd events : Z) (r : Reactor) (k : K) : Result unit * K :=
  match epoll_ctl (epoll_fd r) op fd (to_epoll_events events) k with
  | (SErr e, k) => (Err (from_errno e), k)
  | (SOk _, k) => (Ok tt, k)
  end.

Definition add (fd events : Z) (r : Reactor) (k : K) : Result unit * K := ctl EPOLL_CTL_ADD fd events r k.
Definition modify (fd events : Z) (r : Reactor) (k : K) : Result unit * K := ctl EPOLL_CTL_MOD fd events r k.

Definition clear_slot (fd : Z) (r : Reactor) : Reactor :=
  if fd <? 0 then r else upd_fd fd (fun _ => empty_fd) r.

Definition remove (fd : Z) (r : Reactor) (k : K) : Result unit * Reactor * K :=
  if fd <? 0 then (Ok tt, r, k)
  else
    match epoll_ctl (epoll_fd r) EPOLL_CTL_DEL fd 0 k with
    | (SErr e, k) =>
      if negb (e =? ENOENT) && negb (e =? EBADF) then (Err (from_errno e), r, k)
      else (Ok tt, clear_slot fd r, k)
    | (SOk _, k) => (Ok tt, clear_slot fd r, k)
    end.

(** ** Arming *)

Definition ensure (fd events : Z) (r : Reactor) (k : K) : Result unit * K :=
  match epoll_ctl (epoll_fd r) EPOLL_CTL_MOD fd (to_epoll_events events) k with
  | (SOk _, k) => (Ok tt, k)
  | (SErr e, k) =>
    if e =? ENOENT then
      match epoll_ctl (epoll_fd r) EPOLL_CTL_ADD fd (to_epoll_events events) k with
      | (SErr e, k) => (Err (from_errno e), k)
      | (SOk _, k) => (Ok tt, k)
      end
    else (Err (from_errno e), k)
  end.

Definition ensure_slot (fd : Z) (r : Reactor) : Reactor :=
  set_slots (slots r ++ replicate (S (Z.to_nat fd) - length (slots r)) empty_fd) r.

(** [rearm_or_erase]: the interest of the waiters left; its [ensure] may fail
    and the failure is dropped. *)
Definition rearm_interest (e : FdEntry) : Z :=
  let i := IoEvent.or IoEvent.EdgeTrig IoEvent.OneShot in
  let i := if has_value (read e) then IoEvent.or i IoEvent.Read else i in
  if has_value (write e) then IoEvent.or i IoEvent.Write else i.

Definition rearm_or_erase (fd : Z) (r : Reactor) (k : K) : K :=
  if out_of_table fd r then k
  else
    match slots r !! Z.to_nat fd with
    | None => k
    | Some e => if idle e then k else (ensure fd (rearm_interest e) r k).2
    end.

(** ** Registering a waiter

    [register_read] and [register_write] differ in the direction only. *)

Definition negative_fd (d : Dir) : SystemError :=
  make_error EBADF match d with DRead => "register_read: negative fd" | DWrite => "register_write: negative fd" end.
Definition already_pending (d : Dir) : SystemError :=
  make_error EBUSY match d with
                   | DRead => "register_read: read already pending on fd"
                   | DWrite => "register_write: write already pending on fd"
                   end.

Definition register_interest (d : Dir) (e : FdEntry) : Z :=
  let i := IoEvent.or (IoEvent.or (dir_event d) IoEvent.EdgeTrig) IoEvent.OneShot in
  if has_value (get_dir (other d) e) then IoEvent.or i (dir_event (other d)) else i.

Definition register (d : Dir) (fd : Z) (w : PendingEntry) (r : Reactor) (k : K) : Result unit * Reactor * K :=
  if fd <? 0 then (Err (negative_fd d), r, k)
  else
    let r := ensure_slot fd r in
    let e := default empty_fd (slots r !! Z.to_nat fd) in
    match get_dir d e with
    | Some _ => (Err (already_pending d), r, k)
    | None =>
      let r := upd_fd fd (set_dir d (Some w)) r in
      match ensure fd (register_interest d e) r k with
      | (Err err, k) => (Err err, upd_fd fd (set_dir d None) r, k)
      | (Ok _, k) => (Ok tt, r, k)
      end
    end.

Definition register_read (fd : Z) (h : handle) (result state : ptr) (completion : WaitState) :=
  register DRead fd (mkPending h result state completion).
Definition register_write (fd : Z) (h : handle) (result state : ptr) (completion : WaitState) :=
  register DWrite fd (mkPending h result state completion).

(** ** Deregistering *)

Definition deregister (fd : Z) (r : Reactor) : Reactor := clear_slot fd r.

Definition deregister_dir (fd dir : Z) (r : Reactor) (k : K) : Reactor * K :=
  if out_of_table fd r then (r, k)
  else
    match slots r !! Z.to_nat fd with
    | None => (r, k)
    | Some e =>
      if idle e then (r, k)
      else
        let r := if IoEvent.has_flag dir IoEvent.Read then upd_fd fd (set_dir DRead None) r else r in
        let r := if IoEvent.has_flag dir IoEvent.Write then upd_fd fd (set_dir DWrite None) r else r in
        (r, rearm_or_erase fd r k)
    end.

(** ** Polling *)

Definition fire (w : PendingEntry) (r : Reactor) (m : Mem) : option (bool * Reactor * Mem) :=
  c ← claim (pe_state w) (pe_completion w) m;
  let '(go, m) := c in
  if negb go then Some (false, r, m)
  else
    m ← store_res (pe_result w) (Ok 0) m;
    match pe_handle w with
    | None => Some (false, r, m)
    | Some _ => Some (true, set_ready (ready r ++ [pe_handle w]) r, m)
    end.

(** Does an event mask wake direction [d]?  Errors and hang-ups wake both. *)
Definition hits (ep : Z) (d : Dir) : bool :=
  negb (Z.land ep (match d with DRead => EPOLLIN | DWrite => EPOLLOUT end) =? 0) ||
  negb (Z.land ep (Z.lor EPOLLERR EPOLLHUP) =? 0).

(** The block [if (e.read && ...) { if (fire( *e.read)) ++completed; e.read.reset(); }] *)
Definition fire_dir (d : Dir) (fd ep : Z) (st : Reactor * Mem * Z) : option (Reactor * Mem * Z) :=
  let '(r, m, completed) := st in
  match e ← slots r !! Z.to_nat fd; get_dir d e with
  | None => Some (r, m, completed)
  | Some w =>
    if hits ep d then
      x ← fire w r m;
      let '(pushed, r, m) := x in
      Some (upd_fd fd (set_dir d None) r, m, if (pushed : bool) then (completed +u[32] 1)%rain else completed)
    else Some (r, m, completed)
  end.

Definition handle_event (fd ep : Z) (st : Reactor * Mem * Z * K) : option (Reactor * Mem * Z * K) :=
  let '(r, m, completed, k) := st in
  if out_of_table fd r then Some st
  else
    e ← slots r !! Z.to_nat fd;
    if idle e then Some st
    else
      st ← fire_dir DRead fd ep (r, m, completed);
      st ← fire_dir DWrite fd ep st;
      let '(r, m, completed) := st in
      Some (r, m, completed, rearm_or_erase fd r k).

Fixpoint handle_events (evs : list (Z * Z)) (st : Reactor * Mem * Z * K) : option (Reactor * Mem * Z * K) :=
  match evs with
  | [] => Some st
  | (fd, ep) :: evs => st ← handle_event fd ep st; handle_events evs st
  end.

(** The timeout, nanoseconds, as [epoll_wait] takes it. *)
Definition timeout_ms (timeout : Z) : Z :=
  let ms := Z.quot timeout 1000000 in i32 (if ms <? 0 then -1 else ms).

Definition poll (timeout : Z) (r : Reactor) (m : Mem) (k : K) : option (Result Z * Reactor * Mem * K) :=
  match epoll_wait (epoll_fd r) kMaxEventsPerPoll (timeout_ms timeout) k with
  | (SErr e, k) => Some (if e =? EINTR then Ok 0 else Err (from_errno e), r, m, k)
  | (SOk evs, k) =>
    st ← handle_events evs (r, m, 0, k);
    let '(r, m, completed, k) := st in
    Some (Ok completed, r, m, k)
  end.

(** ** The ready queue, closing and moving *)

Definition drain_ready (r : Reactor) : list handle * Reactor := (ready r, set_ready [] r).
Definition drain_ready_into (out : list handle) (r : Reactor) : list handle * Reactor :=
  (out ++ ready r, set_ready [] r).

Definition valid (r : Reactor) : bool := 0 <=? epoll_fd r.

Definition close (r : Reactor) (k : K) : Result unit * Reactor * K :=
  if 0 <=? epoll_fd r then
    match epoll_close (epoll_fd r) k with
    | (SErr e, k) => (Err (from_errno e), mkReactor (-1) [] [], k)
    | (SOk _, k) => (Ok tt, mkReactor (-1) [] [], k)
    end
  else (Ok tt, mkReactor (epoll_fd r) [] [], k).

(** The move constructor gives the new object and what is left of the old. *)
Definition move_construct (other : Reactor) : Reactor * Reactor := (other, mkReactor (-1) [] []).
Definition move_assign (self other : Reactor) (k : K) : Reactor * Reactor * K :=
  let '(_, _, k) := close self k in (other, mkReactor (-1) [] [], k).

Definition destroy (r : Reactor) (k : K) : K := (close r k).2.

End Operations.
End Reactor.
