(* ===== verification/ReactorProps.v ===== *)
(** * ReactorProps: correctness of the epoll reactor *)

From S2P Require Import Prelude Core Reactor.

Module ReactorProps.
Import Reactor.

(** ** What the reactor relies on

    [interest k ep] is the interest list of the epoll instance [ep] in kernel
    state [k]: the event mask each registered descriptor is armed with. *)

Definition ctl_effect (op : CtlOp) (fd ev : Z) (i : gmap Z Z) : gmap Z Z :=
  match op with EPOLL_CTL_DEL => delete fd i | _ => <[fd := ev]> i end.

Class EpollLaws (K : Type) `{EpollKernel K} := {
  interest : K -> Z -> gmap Z Z;
  (** epoll_ctl(2): a successful call changes the entry it names; *)
  ctl_ok ep op fd ev k k' :
    epoll_ctl ep op fd ev k = (SOk tt, k') -> interest k' ep = ctl_effect op fd ev (interest k ep);
  (** a failed one changes nothing; *)
  ctl_err ep op fd ev k e k' :
    epoll_ctl ep op fd ev k = (SErr e, k') -> interest k' ep = interest k ep;
  (** only an unregistered descriptor can be added ([EEXIST]).  Any call may
      fail: [ENOMEM] and [ENOSPC] are documented for registered descriptors
      too. *)
  ctl_add ep fd ev k k' :
    epoll_ctl ep EPOLL_CTL_ADD fd ev k = (SOk tt, k') -> interest k ep !! fd = None;
  (** epoll_wait(2): at most one event per registered descriptor, no more
      than asked for; descriptors without an event stay armed as they were
      and the others stay registered. *)
  wait_ok ep n t k evs k' :
    epoll_wait ep n t k = (SOk evs, k') ->
    NoDup evs.*1 /\ (length evs <= n)%nat /\
    (forall fd, fd ∉ evs.*1 -> interest k' ep !! fd = interest k ep !! fd) /\
    (forall fd, fd ∈ evs.*1 -> 0 <= fd /\ is_Some (interest k' ep !! fd));
  wait_err ep n t k e k' :
    epoll_wait ep n t k = (SErr e, k') -> interest k' ep = interest k ep;
}.

(** ** Waiters *)

Definition waiter (r : Reactor) (fd : Z) (d : Dir) : option PendingEntry :=
  if fd <? 0 then None else e ← slots r !! Z.to_nat fd; get_dir d e.

#[global] Instance Dir_eq_dec : EqDecision Dir.
Proof. solve_decision. Defined.

Definition dir_bit (d : Dir) : Z := match d with DRead => EPOLLIN | DWrite => EPOLLOUT end.

Lemma get_set_dir d d' w e : get_dir d (set_dir d' w e) = if decide (d = d') then w else get_dir d e.
Proof. by destruct d, d'. Qed.

Lemma idle_spec e : idle e = true <-> forall d, get_dir d e = None.
Proof.
  split.
  - destruct e as [[] []]; cbn; try done. by intros _ [].
  - intros Hd. pose proof (Hd DRead) as H1. pose proof (Hd DWrite) as H2. destruct e; cbn in *. by subst.
Qed.

Lemma out_of_table_false fd r :
  out_of_table fd r = false <-> 0 <= fd /\ is_Some (slots r !! Z.to_nat fd).
Proof.
  unfold out_of_table. rewrite lookup_lt_is_Some. case_cmp; cbn; split; try done; lia.
Qed.

Lemma waiter_in_table r fd d w : waiter r fd d = Some w -> out_of_table fd r = false.
Proof.
  unfold waiter. intros Hw. apply out_of_table_false. destruct (Z.ltb_spec fd 0); [done|].
  destruct (slots r !! _); [eauto|done].
Qed.

Lemma waiter_get r fd d e : 0 <= fd -> slots r !! Z.to_nat fd = Some e -> waiter r fd d = get_dir d e.
Proof. intros Hfd He. unfold waiter. rewrite (proj2 (Z.ltb_ge _ _) Hfd), He. done. Qed.

Lemma waiter_upd r fd f fd' d :
  0 <= fd ->
  waiter (upd_fd fd f r) fd' d =
  if decide (fd' = fd) then e ← slots r !! Z.to_nat fd; get_dir d (f e) else waiter r fd' d.
Proof.
  intros Hfd. unfold waiter, upd_fd. cbn. destruct (Z.ltb_spec fd' 0).
  - destruct (decide _); [lia|done].
  - destruct (decide _) as [->|Hn].
    + rewrite list_lookup_alter_eq. by destruct (slots r !! _).
    + rewrite list_lookup_alter_ne by lia. done.
Qed.

Lemma waiter_upd_dir r fd d w fd' d' :
  0 <= fd -> is_Some (slots r !! Z.to_nat fd) ->
  waiter (upd_fd fd (set_dir d w) r) fd' d' =
  if decide (fd' = fd /\ d' = d) then w else waiter r fd' d'.
Proof.
  intros Hfd [e He]. rewrite waiter_upd, He by done. cbn [mbind option_bind]. rewrite get_set_dir.
  destruct (decide (fd' = fd)) as [->|]; [|by rewrite decide_False by tauto].
  rewrite (waiter_get _ _ _ _ Hfd He). destruct (decide (d' = d)).
  - by rewrite decide_True.
  - by rewrite decide_False by tauto.
Qed.

(** ** Firing *)

(** The pointers of a waiter are live. *)
Definition valid_waiter (m : Mem) (w : PendingEntry) : Prop :=
  (forall p, pe_state w = Some p -> is_Some (ws_cells m !! p)) /\
  (forall p, pe_result w = Some p -> is_Some (res_cells m !! p)).

(** The same cells exist. *)
Definition same_dom (m m' : Mem) : Prop :=
  (forall p, is_Some (ws_cells m !! p) <-> is_Some (ws_cells m' !! p)) /\
  (forall p, is_Some (res_cells m !! p) <-> is_Some (res_cells m' !! p)).

#[global] Instance same_dom_equiv : Equivalence same_dom.
Proof.
  split.
  - by intros m.
  - intros m m' [H1 H2]. split; intros p; by rewrite ?H1, ?H2.
  - intros m m' m'' [H1 H2] [H3 H4]. split; intros p; by rewrite ?H1, ?H2, ?H3, ?H4.
Qed.

Lemma valid_waiter_dom m m' w : same_dom m m' -> valid_waiter m w -> valid_waiter m' w.
Proof. intros [D1 D2] [V1 V2]. split; intros p Hp; [apply D1, V1|apply D2, V2]; done. Qed.

Lemma is_Some_insert `{Countable A} {B} (f : gmap A B) a b :
  is_Some (f !! a) -> forall p, is_Some (f !! p) <-> is_Some (<[a := b]> f !! p).
Proof.
  intros Ha p. destruct (decide (p = a)) as [->|]; [|by rewrite lookup_insert_ne].
  rewrite lookup_insert_eq. split; eauto.
Qed.

(** The wait of [w] is still to be settled: it has no wait state, or one that is
    [Pending]. *)
Definition awake (m : Mem) (w : PendingEntry) : bool :=
  match pe_state w with None => true | Some p => bool_decide (ws_cells m !! p = Some Pending) end.

Lemma awake_spec m w : awake m w = true <-> forall p, pe_state w = Some p -> ws_cells m !! p = Some Pending.
Proof.
  unfold awake. destruct (pe_state w) as [p|]; [|done]. rewrite bool_decide_eq_true. naive_solver.
Qed.

Lemma awake_ext m m' w :
  (forall p, pe_state w = Some p -> ws_cells m' !! p = ws_cells m !! p) -> awake m' w = awake m w.
Proof. intros E. unfold awake. destruct (pe_state w) as [p|]; [by rewrite E|done]. Qed.

(** What [fire] does: it is defined on live pointers, queues at most the
    waiter's handle and writes the waiter's own cells only. *)
Record fired (w : PendingEntry) (r : Reactor) (m : Mem) (b : bool) (r' : Reactor) (m' : Mem) : Prop := {
  fired_ready : r' = set_ready (ready r ++ if b then [pe_handle w] else []) r;
  fired_dom : same_dom m m';
  fired_other p : pe_state w <> Some p -> ws_cells m' !! p = ws_cells m !! p;
  fired_pending p h : pe_state w = Some p -> ws_cells m !! p = Some Pending -> pe_handle w = Some h ->
    b = true /\ ws_cells m' !! p = Some (pe_completion w);
  fired_plain h : pe_state w = None -> pe_handle w = Some h -> b = true;
  fired_stored p : pe_state w = None -> pe_result w = Some p -> res_cells m' !! p = Some (Ok 0);
  fired_keep p : res_cells m !! p = Some (Ok 0) -> res_cells m' !! p = Some (Ok 0);
  fired_result p q : pe_state w = Some p -> ws_cells m !! p = Some Pending -> pe_result w = Some q -> res_cells m' !! q = Some (Ok 0);
  fired_queued : b = awake m w && has_value (pe_handle w);
  fired_settled p v : ws_cells m !! p = Some v -> v <> Pending -> ws_cells m' !! p = Some v;
  fired_cells q : (awake m w = true -> pe_result w <> Some q) -> res_cells m' !! q = res_cells m !! q;
}.

Lemma set_ready_self r : set_ready (ready r ++ []) r = r.
Proof. rewrite app_nil_r. by destruct r. Qed.

Lemma claim_spec s c m :
  (forall p, s = Some p -> is_Some (ws_cells m !! p)) ->
  exists b m', claim s c m = Some (b, m') /\ same_dom m m' /\ res_cells m' = res_cells m /\
    (forall p, s <> Some p -> ws_cells m' !! p = ws_cells m !! p) /\
    (forall p, s = Some p -> ws_cells m !! p = Some Pending -> b = true /\ ws_cells m' !! p = Some c) /\
    (s = None -> b = true) /\
    (forall p v, s = Some p -> ws_cells m !! p = Some v -> v <> Pending -> b = false /\ m' = m).
Proof.
  intros Hs. destruct s as [p|]; cbn; [|by exists true, m].
  destruct (Hs p eq_refl) as [v Hv]. rewrite Hv. cbn. destruct (decide (v = Pending)) as [->|Hn].
  - exists true, (set_ws p c m). split_and!; try done.
    + split; [|done]. apply is_Some_insert. eauto.
    + intros q Hq. cbn. by rewrite lookup_insert_ne by congruence.
    + intros q [= <-] _. cbn. by rewrite lookup_insert_eq.
    + intros q v [= <-]. congruence.
  - exists false, m. split_and!; try done. intros q [= <-]. congruence.
Qed.

Lemma store_res_spec s v m :
  (forall p, s = Some p -> is_Some (res_cells m !! p)) ->
  exists m', store_res s v m = Some m' /\ same_dom m m' /\ ws_cells m' = ws_cells m /\
    (forall p, s = Some p -> res_cells m' !! p = Some v) /\
    (forall p, res_cells m !! p = Some v -> res_cells m' !! p = Some v) /\
    (forall p, s <> Some p -> res_cells m' !! p = res_cells m !! p).
Proof.
  intros Hs. destruct s as [p|]; cbn; [|by exists m]. destruct (Hs p eq_refl) as [u Hu]. rewrite Hu. cbn.
  exists (set_res p v m). split_and!; try done.
  - split; [done|]. apply is_Some_insert. eauto.
  - intros q [= <-]. apply lookup_insert_eq.
  - intros q Hq. cbn. destruct (decide (q = p)) as [->|]; [apply lookup_insert_eq|by rewrite lookup_insert_ne].
  - intros q Hq. cbn. by rewrite lookup_insert_ne by congruence.
Qed.

(** [claim] goes ahead exactly on a wait that is still to be settled. *)
Lemma claim_awake w m b m' :
  claim (pe_state w) (pe_completion w) m = Some (b, m') -> b = awake m w.
Proof.
  unfold awake, claim. destruct (pe_state w) as [p|]; [|by intros [= <- _]].
  destruct (ws_cells m !! p) as [v|]; [|done]. cbn. case_decide as Hv; intros [= <- _]; symmetry.
  - by apply bool_decide_eq_true; subst.
  - apply bool_decide_eq_false. congruence.
Qed.

Lemma fire_spec w r m : valid_waiter m w -> exists b r' m', fire w r m = Some (b, r', m') /\ fired w r m b r' m'.
Proof.
  intros [V1 V2]. destruct (claim_spec _ (pe_completion w) _ V1) as (go & m1 & E1 & D1 & R1 & O1 & P1 & N1 & S1).
  apply claim_awake in E1 as Ego.
  assert (forall p v, ws_cells m !! p = Some v -> v <> Pending -> ws_cells m1 !! p = Some v) as K1.
  { intros p v Hp Hv. destruct (decide (pe_state w = Some p)) as [Hs|Hs]; [|by rewrite O1].
    by destruct (S1 p v Hs Hp Hv) as [_ ->]. }
  unfold fire. rewrite E1. cbn. destruct go; cbn.
  - destruct (store_res_spec (pe_result w) (Ok 0) m1) as (m2 & E2 & D2 & W2 & S2 & P2 & O2); [by rewrite R1|].
    rewrite E2. cbn. assert (same_dom m m2) by by transitivity m1.
    assert (forall q, (awake m w = true -> pe_result w <> Some q) -> res_cells m2 !! q = res_cells m !! q) as O3.
    { intros q Hq. rewrite O2, R1; [done|]. by apply Hq. }
    rewrite <- Ego in O3.
    destruct (pe_handle w) as [h|] eqn:Eh.
    + exists true, (set_ready (ready r ++ [Some h]) r), m2. split; [done|]. split; rewrite ?Eh, ?W2, <- ?Ego; try done.
      * intros p h' Hp Hv _. by destruct (P1 p Hp Hv).
      * intros p _. apply S2.
      * intros p Hp. apply P2. by rewrite R1.
      * intros p q _ _. apply S2.
    + exists false, r, m2. split; [done|]. split; rewrite ?Eh, ?W2, <- ?Ego; try done; [by rewrite set_ready_self| | |].
      * intros p _. apply S2.
      * intros p Hp. apply P2. by rewrite R1.
      * intros p q _ _. apply S2.
  - exists false, r, m1. split; [done|]. split; rewrite <- ?Ego; try done; [by rewrite set_ready_self|..].
    + intros p h Hp Hv _. by destruct (P1 p Hp Hv).
    + intros h Hn _. by apply N1.
    + intros p Hn%N1. done.
    + intros p. by rewrite R1.
    + intros p q Hp Hv. by destruct (P1 p Hp Hv).
    + intros q _. by rewrite R1.
Qed.

(** ** Dispatching events

    [dispatched hit n]: the waiters selected by [hit], and only they, were
    fired and removed, with at most [n] handles queued. *)

Section Dispatch.
Context {K : Type} `{EpollKernel K}.

Definition sole_owner (r : Reactor) (p : nat) (fd : Z) (d : Dir) : Prop :=
  forall fd' d' w, waiter r fd' d' = Some w -> pe_state w = Some p -> fd' = fd /\ d' = d.

Record dispatched (hit : Z -> Dir -> bool) (n : nat) (r : Reactor) (m : Mem) (c : Z)
    (r' : Reactor) (m' : Mem) (c' : Z) (hs : list handle) : Prop := {
  disp_epoll : epoll_fd r' = epoll_fd r;
  disp_length : length (slots r') = length (slots r);
  disp_waiter fd d : waiter r' fd d = if hit fd d then None else waiter r fd d;
  disp_ready : ready r' = ready r ++ hs;
  disp_bound : (length hs <= n)%nat;
  disp_count : 0 <= c < 2 ^ 32 -> 0 <= c' < 2 ^ 32 /\ c' = u32 (c + Z.of_nat (length hs));
  disp_dom : same_dom m m';
  disp_other p : (forall fd d w, waiter r fd d = Some w -> hit fd d = true -> pe_state w <> Some p) ->
    ws_cells m' !! p = ws_cells m !! p;
  disp_hit fd d w p h : waiter r fd d = Some w -> hit fd d = true -> pe_state w = Some p ->
    pe_handle w = Some h -> sole_owner r p fd d -> ws_cells m !! p = Some Pending ->
    Some h ∈ hs /\ ws_cells m' !! p = Some (pe_completion w);
  (** every queued handle is that of a selected waiter whose wait is still to
      be settled, and a selected waiter without a wait state is always queued *)
  disp_from x : x ∈ hs -> exists fd d w, waiter r fd d = Some w /\ hit fd d = true /\ pe_handle w = x /\ awake m w = true;
  disp_plain fd d w h : waiter r fd d = Some w -> hit fd d = true -> pe_state w = None ->
    pe_handle w = Some h -> Some h ∈ hs;
  (** a fired waiter without a wait state finds success in its result cell *)
  disp_stored fd d w p : waiter r fd d = Some w -> hit fd d = true -> pe_state w = None ->
    pe_result w = Some p -> res_cells m' !! p = Some (Ok 0);
  disp_keep p : res_cells m !! p = Some (Ok 0) -> res_cells m' !! p = Some (Ok 0);
  (** and so does one that was pending *)
  disp_result fd d w p q : waiter r fd d = Some w -> hit fd d = true -> pe_state w = Some p -> sole_owner r p fd d ->
    ws_cells m !! p = Some Pending -> pe_result w = Some q -> res_cells m' !! q = Some (Ok 0);
  (** a settled wait keeps its outcome, and only result cells of fired waiters
      are written *)
  disp_settled p v : ws_cells m !! p = Some v -> v <> Pending -> ws_cells m' !! p = Some v;
  disp_cells q : (forall fd d w, waiter r fd d = Some w -> hit fd d = true -> awake m w = true -> pe_result w <> Some q) ->
    res_cells m' !! q = res_cells m !! q;
}.

(** A wait that is still to be settled afterwards was so before. *)
Lemma awake_back hit n r m c r' m' c' hs w :
  dispatched hit n r m c r' m' c' hs -> awake m' w = true -> awake m w = true.
Proof.
  intros D Ha. apply awake_spec. intros p Hp. apply (proj1 (awake_spec _ _)) with (p := p) in Ha; [|done].
  destruct (ws_cells m !! p) as [v|] eqn:Ev.
  - destruct (decide (v = Pending)) as [->|Hv]; [done|]. rewrite (disp_settled _ _ _ _ _ _ _ _ _ D _ _ Ev Hv) in Ha. congruence.
  - destruct (disp_dom _ _ _ _ _ _ _ _ _ D) as [Hd _]. destruct (proj2 (Hd p)) as [v Hv]; [eauto|congruence].
Qed.

Lemma dispatched_ext hit hit' n r m c r' m' c' hs :
  (forall fd d, is_Some (waiter r fd d) -> hit fd d = hit' fd d) ->
  dispatched hit n r m c r' m' c' hs -> dispatched hit' n r m c r' m' c' hs.
Proof.
  intros E []. split; try done.
  - intros fd d. rewrite disp_waiter0. destruct (waiter r fd d) eqn:Ew; [by rewrite E|].
    by destruct (hit fd d), (hit' fd d).
  - intros p Hp. apply disp_other0. intros fd d w Hw. rewrite E by (rewrite Hw; eauto). by apply Hp.
  - intros fd d w p h Hw Hh. rewrite <- E in Hh by (rewrite Hw; eauto). by apply disp_hit0.
  - intros x (fd & d & w & Hw & Hh & Hx & Ha)%disp_from0. exists fd, d, w. by rewrite <- E by (rewrite Hw; eauto).
  - intros fd d w h Hw Hh. rewrite <- E in Hh by (rewrite Hw; eauto). by apply (disp_plain0 fd d w).
  - intros fd d w p Hw Hh. rewrite <- E in Hh by (rewrite Hw; eauto). by apply (disp_stored0 fd d w).
  - intros fd d w p q Hw Hh. rewrite <- E in Hh by (rewrite Hw; eauto). by apply (disp_result0 fd d w).
  - intros q Hq. apply disp_cells0. intros fd d w Hw. rewrite E by (rewrite Hw; eauto). by apply Hq.
Qed.

Lemma dispatched_none n r m c hit :
  (forall fd d, is_Some (waiter r fd d) -> hit fd d = false) -> dispatched hit n r m c r m c [].
Proof.
  intros Hn. apply (dispatched_ext (fun _ _ => false)); [by intros; rewrite Hn|].
  split; try done; [by rewrite app_nil_r|cbn; lia| |by intros x []%not_elem_of_nil].
  intros Hc. rewrite Z.add_0_r, wrap_small; done.
Qed.

Lemma dispatched_trans hit1 hit2 n1 n2 r m c r1 m1 c1 hs1 r2 m2 c2 hs2 :
  (forall fd d, hit1 fd d = true -> hit2 fd d = false) ->
  dispatched hit1 n1 r m c r1 m1 c1 hs1 -> dispatched hit2 n2 r1 m1 c1 r2 m2 c2 hs2 ->
  dispatched (fun fd d => hit1 fd d || hit2 fd d) (n1 + n2) r m c r2 m2 c2 (hs1 ++ hs2).
Proof.
  intros Hdis D1 D2.
  assert (forall fd d w, waiter r1 fd d = Some w <-> waiter r fd d = Some w /\ hit1 fd d = false) as W1.
  { intros fd d w. rewrite (disp_waiter _ _ _ _ _ _ _ _ _ D1). destruct (hit1 fd d); naive_solver. }
  split.
  - by rewrite (disp_epoll _ _ _ _ _ _ _ _ _ D2), (disp_epoll _ _ _ _ _ _ _ _ _ D1).
  - by rewrite (disp_length _ _ _ _ _ _ _ _ _ D2), (disp_length _ _ _ _ _ _ _ _ _ D1).
  - intros fd d. rewrite (disp_waiter _ _ _ _ _ _ _ _ _ D2), (disp_waiter _ _ _ _ _ _ _ _ _ D1).
    by destruct (hit1 fd d), (hit2 fd d).
  - by rewrite (disp_ready _ _ _ _ _ _ _ _ _ D2), (disp_ready _ _ _ _ _ _ _ _ _ D1), app_assoc.
  - rewrite length_app. apply Nat.add_le_mono; [apply D1|apply D2].
  - intros Hc. destruct (disp_count _ _ _ _ _ _ _ _ _ D1 Hc) as [Hc1 E1].
    destruct (disp_count _ _ _ _ _ _ _ _ _ D2 Hc1) as [Hc2 E2]. split; [done|].
    rewrite E2, E1, length_app, Nat2Z.inj_add. unfold wrap. rewrite Zplus_mod_idemp_l. f_equal. lia.
  - transitivity m1; [apply D1|apply D2].
  - intros p Hp. rewrite (disp_other _ _ _ _ _ _ _ _ _ D2), (disp_other _ _ _ _ _ _ _ _ _ D1); [done|..].
    + intros fd d w Hw Hh. eapply Hp; [done|]. by rewrite Hh.
    + intros fd d w [Hw _]%W1 Hh. eapply Hp; [done|]. by rewrite Hh, orb_true_r.
  - intros fd d w p h Hw Hh Hp Hwh Hso Hv. destruct (hit1 fd d) eqn:E1; cbn in Hh.
    + destruct (disp_hit _ _ _ _ _ _ _ _ _ D1 fd d w p h) as [Hin Hc]; try done. split; [set_solver|].
      rewrite (disp_other _ _ _ _ _ _ _ _ _ D2); [done|]. intros fd' d' w' [Hw' E1']%W1 _ Hp'.
      destruct (Hso _ _ _ Hw' Hp') as [-> ->]. congruence.
    + destruct (disp_hit _ _ _ _ _ _ _ _ _ D2 fd d w p h) as [Hin Hc]; try done.
      * by apply W1.
      * intros fd' d' w' [Hw' _]%W1. by apply Hso.
      * rewrite (disp_other _ _ _ _ _ _ _ _ _ D1); [done|]. intros fd' d' w' Hw' E1' Hp'.
        destruct (Hso _ _ _ Hw' Hp') as [-> ->]. congruence.
      * split; [set_solver|done].
  - intros x [Hx|Hx]%elem_of_app.
    + destruct (disp_from _ _ _ _ _ _ _ _ _ D1 x Hx) as (fd & d & w & Hw & Hh & Ex & Ha). exists fd, d, w. by rewrite Hh.
    + destruct (disp_from _ _ _ _ _ _ _ _ _ D2 x Hx) as (fd & d & w & [Hw _]%W1 & Hh & Ex & Ha). exists fd, d, w.
      rewrite Hh, orb_true_r. split_and!; [done..|]. by eapply awake_back.
  - intros fd d w h Hw Hh Hp Hwh. apply elem_of_app. destruct (hit1 fd d) eqn:E1; cbn in Hh.
    + left. by apply (disp_plain _ _ _ _ _ _ _ _ _ D1 fd d w).
    + right. apply (disp_plain _ _ _ _ _ _ _ _ _ D2 fd d w); try done. by apply W1.
  - intros fd d w p Hw Hh Hp Hr. destruct (hit1 fd d) eqn:E1; cbn in Hh.
    + apply (disp_keep _ _ _ _ _ _ _ _ _ D2). by apply (disp_stored _ _ _ _ _ _ _ _ _ D1 fd d w).
    + apply (disp_stored _ _ _ _ _ _ _ _ _ D2 fd d w); try done. by apply W1.
  - intros p Hp. by apply (disp_keep _ _ _ _ _ _ _ _ _ D2), (disp_keep _ _ _ _ _ _ _ _ _ D1).
  - intros fd d w p q Hw Hh Hp Hso Hv Hq. destruct (hit1 fd d) eqn:E1; cbn in Hh.
    + apply (disp_keep _ _ _ _ _ _ _ _ _ D2). by apply (disp_result _ _ _ _ _ _ _ _ _ D1 fd d w p q).
    + apply (disp_result _ _ _ _ _ _ _ _ _ D2 fd d w p q); try done.
      * by apply W1.
      * intros fd' d' w' [Hw' _]%W1. by apply Hso.
      * rewrite (disp_other _ _ _ _ _ _ _ _ _ D1); [done|]. intros fd' d' w' Hw' E1' Hp'.
        destruct (Hso _ _ _ Hw' Hp') as [-> ->]. congruence.
  - intros p v Hp Hv. apply (disp_settled _ _ _ _ _ _ _ _ _ D2); [|done]. by apply (disp_settled _ _ _ _ _ _ _ _ _ D1).
  - intros q Hq. rewrite (disp_cells _ _ _ _ _ _ _ _ _ D2), (disp_cells _ _ _ _ _ _ _ _ _ D1); [done|..].
    + intros fd d w Hw Hh. apply (Hq fd d w); [done|]. by rewrite Hh.
    + intros fd d w [Hw _]%W1 Hh Ha. apply (Hq fd d w); [done|by rewrite Hh, orb_true_r|]. by eapply awake_back.
Qed.

Definition valid_waiters (m : Mem) (r : Reactor) : Prop :=
  forall fd d w, waiter r fd d = Some w -> valid_waiter m w.

Lemma valid_waiters_dispatched hit n r m c r' m' c' hs :
  dispatched hit n r m c r' m' c' hs -> valid_waiters m r -> valid_waiters m' r'.
Proof.
  intros D V fd d w. rewrite (disp_waiter _ _ _ _ _ _ _ _ _ D). destruct (hit fd d); [done|].
  intros Hw. eapply valid_waiter_dom; [apply D|by eapply V].
Qed.

Definition one_dir (fd ep : Z) (d : Dir) (fd' : Z) (d' : Dir) : bool :=
  bool_decide (fd' = fd) && bool_decide (d' = d) && hits ep d.

Lemma fire_dir_spec d fd ep r m c :
  0 <= fd -> valid_waiters m r ->
  exists r' m' c' hs, fire_dir d fd ep (r, m, c) = Some (r', m', c') /\
    dispatched (one_dir fd ep d) 1 r m c r' m' c' hs.
Proof.
  intros Hfd V. unfold fire_dir. destruct (slots r !! Z.to_nat fd) as [e|] eqn:He; cbn [mbind option_bind].
  2:{ exists r, m, c, []. split; [done|]. apply dispatched_none. intros fd' d' [w Hw]. unfold one_dir.
      destruct (bool_decide_reflect (fd' = fd)) as [->|]; [|done].
      unfold waiter in Hw. rewrite He in Hw. by destruct (fd <? 0). }
  pose proof (fun d => waiter_get r fd d e Hfd He) as Hwt.
  destruct (get_dir d e) as [w|] eqn:Ew.
  2:{ exists r, m, c, []. split; [done|]. apply dispatched_none. intros fd' d' [w Hw]. unfold one_dir.
      destruct (bool_decide_reflect (fd' = fd)) as [->|]; [|done].
      destruct (bool_decide_reflect (d' = d)) as [->|]; [|done]. rewrite Hwt in Hw. congruence. }
  destruct (hits ep d) eqn:Eh.
  2:{ exists r, m, c, []. split; [done|]. apply dispatched_none. intros fd' d' _. unfold one_dir.
      by rewrite Eh, andb_false_r. }
  assert (waiter r fd d = Some w) as Hw by by rewrite Hwt.
  destruct (fire_spec w r m) as (b & r1 & m1 & E & F); [by eapply V|]. rewrite E. cbn.
  eexists _, m1, _, (if b then [pe_handle w] else []). split; [done|].
  pose proof (fired_ready _ _ _ _ _ _ F) as ->. split; cbn.
  - done.
  - apply length_alter.
  - intros fd' d'. rewrite waiter_upd_dir by (cbn; eauto). unfold one_dir. rewrite Eh, andb_true_r.
    repeat case_decide; repeat case_bool_decide; naive_solver.
  - done.
  - destruct b; cbn; lia.
  - intros Hc. destruct b; cbn; [split; [auto with rain lia|done]|]. by rewrite Z.add_0_r, wrap_small.
  - apply F.
  - intros p Hp. apply F. eapply Hp; [done|]. unfold one_dir. by rewrite !bool_decide_true.
  - intros fd' d' w' p h Hw' Hh Hp Hph _ Hv. unfold one_dir in Hh.
    repeat case_bool_decide; try done; subst. assert (w' = w) as -> by congruence.
    destruct (fired_pending _ _ _ _ _ _ F p h) as [-> ?]; [done..|]. rewrite Hph. split; [set_solver|done].
  - intros x Hx. destruct b; [|by apply not_elem_of_nil in Hx]. apply list_elem_of_singleton in Hx as ->.
    exists fd, d, w. pose proof (fired_queued _ _ _ _ _ _ F) as [Ha _]%eq_sym%andb_true_iff.
    split_and!; [done| |done|done]. unfold one_dir. by rewrite !bool_decide_true.
  - intros fd' d' w' h Hw' Hh Hp Hph. unfold one_dir in Hh.
    repeat case_bool_decide; try done; subst. assert (w' = w) as -> by congruence.
    rewrite (fired_plain _ _ _ _ _ _ F h Hp Hph), Hph. constructor.
  - intros fd' d' w' p Hw' Hh Hp Hr. unfold one_dir in Hh.
    repeat case_bool_decide; try done; subst. assert (w' = w) as -> by congruence.
    by apply (fired_stored _ _ _ _ _ _ F).
  - apply (fired_keep _ _ _ _ _ _ F).
  - intros fd' d' w' p q Hw' Hh Hp _ Hv Hq. unfold one_dir in Hh.
    repeat case_bool_decide; try done; subst. assert (w' = w) as -> by congruence.
    by apply (fired_result _ _ _ _ _ _ F p).
  - apply (fired_settled _ _ _ _ _ _ F).
  - intros q Hq. apply (fired_cells _ _ _ _ _ _ F). apply (Hq fd d w); [done|].
    unfold one_dir. by rewrite !bool_decide_true.
Qed.

(** The directions one event wakes. *)
Definition one_event (fd ep fd' : Z) (d' : Dir) : bool := bool_decide (fd' = fd) && hits ep d'.

Lemma handle_event_spec fd ep r m c k :
  0 <= fd -> valid_waiters m r ->
  exists r' m' c' hs, handle_event fd ep (r, m, c, k) = Some (r', m', c', rearm_or_erase fd r' k) /\
    dispatched (one_event fd ep) 2 r m c r' m' c' hs.
Proof.
  intros Hfd V. unfold handle_event. destruct (out_of_table fd r) eqn:Eo.
  { exists r, m, c, []. unfold rearm_or_erase. rewrite Eo. split; [done|]. apply dispatched_none.
    intros fd' d' [w Hw]. unfold one_event. case_bool_decide; [|done]. subst.
    apply waiter_in_table in Hw. congruence. }
  apply out_of_table_false in Eo as Ho. destruct Ho as [_ [e He]]. rewrite He. cbn [mbind option_bind].
  destruct (idle e) eqn:Ei.
  { exists r, m, c, []. unfold rearm_or_erase. rewrite Eo, He, Ei. split; [done|]. apply dispatched_none.
    intros fd' d' [w Hw]. unfold one_event. case_bool_decide; [|done]. subst.
    rewrite (waiter_get _ _ _ _ Hfd He), (proj1 (idle_spec e) Ei) in Hw. done. }
  destruct (fire_dir_spec DRead fd ep r m c Hfd V) as (r1 & m1 & c1 & hs1 & E1 & D1).
  pose proof (valid_waiters_dispatched _ _ _ _ _ _ _ _ _ D1 V) as V1.
  destruct (fire_dir_spec DWrite fd ep r1 m1 c1 Hfd V1) as (r2 & m2 & c2 & hs2 & E2 & D2).
  rewrite E1. cbn [mbind option_bind]. rewrite E2. cbn [mbind option_bind].
  exists r2, m2, c2, (hs1 ++ hs2). split; [done|].
  eapply (dispatched_ext (fun fd' d' => one_dir fd ep DRead fd' d' || one_dir fd ep DWrite fd' d')).
  2:{ eapply (dispatched_trans _ _ 1 1); [|done..]. intros fd' []; unfold one_dir; cbn; by rewrite ?andb_false_r. }
  intros fd' [] _; unfold one_dir, one_event; cbn; rewrite ?andb_true_r, ?andb_false_r, ?orb_false_r; done.
Qed.

(** The directions a list of events wakes. *)
Definition event_hits (evs : list (Z * Z)) (fd : Z) (d : Dir) : bool :=
  existsb (fun ev => one_event ev.1 ev.2 fd d) evs.

(** Bits of the event mask: 0 readable, 2 writable, 3 error, 4 hang-up. *)
Definition selects (evs : list (Z * Z)) (fd : Z) (d : Dir) : Prop :=
  exists ep, (fd, ep) ∈ evs /\
    (Z.testbit ep (match d with DRead => 0 | DWrite => 2 end) = true \/ Z.testbit ep 3 = true \/ Z.testbit ep 4 = true).

Lemma hits_bits ep d :
  hits ep d = Z.testbit ep (match d with DRead => 0 | DWrite => 2 end) || (Z.testbit ep 3 || Z.testbit ep 4).
Proof.
  unfold hits. rewrite land_either.
  rewrite <- (land_single ep 3), <- (land_single ep 4) by lia. f_equal. by destruct d; rewrite <- land_single by lia.
Qed.

Lemma event_hits_selects evs fd d : event_hits evs fd d = true <-> selects evs fd d.
Proof.
  unfold event_hits, selects, one_event. rewrite existsb_exists. split.
  - intros ([fd' ep] & Hin%list_elem_of_In & Hh). cbn in Hh. case_bool_decide; [subst|done]. exists ep. split; [done|].
    cbn [andb] in Hh. rewrite hits_bits, !orb_true_iff in Hh. tauto.
  - intros (ep & Hin & Hb). exists (fd, ep). rewrite <- list_elem_of_In. split; [done|]. cbn.
    rewrite bool_decide_true by done. cbn [andb]. rewrite hits_bits, !orb_true_iff. tauto.
Qed.

Lemma event_hits_elem evs fd d : event_hits evs fd d = true -> fd ∈ evs.*1.
Proof.
  unfold event_hits. rewrite existsb_exists. intros ([fd' ep] & Hin%list_elem_of_In & Hh).
  apply list_elem_of_fmap. exists (fd', ep). split; [|done]. unfold one_event in Hh. by case_bool_decide.
Qed.

(** The events are handled in turn; [k'] is reached by their rearmings. *)
Lemma handle_events_spec evs r m c k :
  NoDup evs.*1 -> Forall (fun fd => 0 <= fd) evs.*1 -> valid_waiters m r ->
  exists r' m' c' k' hs, handle_events evs (r, m, c, k) = Some (r', m', c', k') /\
    dispatched (event_hits evs) (2 * length evs) r m c r' m' c' hs.
Proof.
  revert r m c k. induction evs as [|[fd ep] evs IH]; intros r m c k Hnd Hpos V.
  { exists r, m, c, k, []. split; [done|]. by apply dispatched_none. }
  cbn in Hnd, Hpos. apply NoDup_cons in Hnd as [Hnin Hnd]. apply Forall_cons in Hpos as [Hfd Hpos].
  destruct (handle_event_spec fd ep r m c k Hfd V) as (r1 & m1 & c1 & hs1 & E1 & D1).
  cbn [handle_events]. rewrite E1. cbn [mbind option_bind].
  pose proof (valid_waiters_dispatched _ _ _ _ _ _ _ _ _ D1 V) as V1.
  destruct (IH r1 m1 c1 (rearm_or_erase fd r1 k) Hnd Hpos V1) as (r2 & m2 & c2 & k2 & hs2 & E2 & D2).
  exists r2, m2, c2, k2, (hs1 ++ hs2). split; [done|].
  replace (2 * length ((fd, ep) :: evs))%nat with (2 + 2 * length evs)%nat by (cbn; lia).
  eapply dispatched_trans; [|done..]. intros fd' d' Hh. unfold one_event in Hh.
  case_bool_decide; [subst|done]. destruct (event_hits evs fd d') eqn:Eh; [|done].
  by apply event_hits_elem in Eh.
Qed.

(** *** Exactly which handles are queued

    An event with the bits [ep] reports direction [d]: readable or writable,
    error, hang-up. *)
Definition reports (ep : Z) (d : Dir) : bool :=
  Z.testbit ep (match d with DRead => 0 | DWrite => 2 end) || (Z.testbit ep 3 || Z.testbit ep 4).

(** The handle an event wakes in one direction, and the handles a batch of
    events wakes: in the order of the events, the reader before the writer. *)
Definition woken_dir (m : Mem) (r : Reactor) (fd ep : Z) (d : Dir) : list handle :=
  match waiter r fd d with
  | Some w => if reports ep d && awake m w && has_value (pe_handle w) then [pe_handle w] else []
  | None => []
  end.

Definition woken_by (m : Mem) (r : Reactor) (ev : Z * Z) : list handle :=
  woken_dir m r ev.1 ev.2 DRead ++ woken_dir m r ev.1 ev.2 DWrite.

Definition woken (m : Mem) (r : Reactor) (evs : list (Z * Z)) : list handle := concat (woken_by m r <$> evs).

(** No two waiters share a wait state. *)
Definition distinct_states (r : Reactor) : Prop :=
  forall fd d w p, waiter r fd d = Some w -> pe_state w = Some p -> sole_owner r p fd d.

Lemma fire_dir_woken d fd ep r m c r' m' c' :
  0 <= fd -> valid_waiters m r -> fire_dir d fd ep (r, m, c) = Some (r', m', c') ->
  ready r' = ready r ++ woken_dir m r fd ep d.
Proof.
  intros Hfd V. unfold fire_dir, woken_dir, reports. rewrite <- hits_bits.
  destruct (slots r !! Z.to_nat fd) as [e|] eqn:He; cbn [mbind option_bind].
  2:{ intros [= <- _ _]. unfold waiter. rewrite He. destruct (fd <? 0); by rewrite app_nil_r. }
  rewrite (waiter_get _ _ _ _ Hfd He). destruct (get_dir d e) as [w|] eqn:Ew.
  2:{ intros [= <- _ _]. by rewrite app_nil_r. }
  destruct (hits ep d); [|intros [= <- _ _]; by rewrite app_nil_r].
  destruct (fire_spec w r m) as (b & r1 & m1 & E & F).
  { eapply V. by rewrite (waiter_get _ _ _ _ Hfd He). }
  rewrite E. cbn. intros [= <- _ _]. rewrite (fired_ready _ _ _ _ _ _ F). cbn.
  by rewrite (fired_queued _ _ _ _ _ _ F).
Qed.

(** Waiters that dispatching did not select are woken by later events as they
    would have been before it. *)
Lemma woken_dir_after hit n r m c r' m' c' hs fd ep d :
  dispatched hit n r m c r' m' c' hs -> distinct_states r -> hit fd d = false ->
  woken_dir m' r' fd ep d = woken_dir m r fd ep d.
Proof.
  intros D Hd Hh. unfold woken_dir. rewrite (disp_waiter _ _ _ _ _ _ _ _ _ D), Hh.
  destruct (waiter r fd d) as [w|] eqn:Ew; [|done]. rewrite (awake_ext m m'); [done|].
  intros p Hp. apply (disp_other _ _ _ _ _ _ _ _ _ D). intros fd' d' w' Hw' Hh' Hp'.
  destruct (Hd _ _ _ _ Ew Hp _ _ _ Hw' Hp') as [-> ->]. congruence.
Qed.

Lemma distinct_dispatched hit n r m c r' m' c' hs :
  dispatched hit n r m c r' m' c' hs -> distinct_states r -> distinct_states r'.
Proof.
  intros D Hd. assert (forall fd d w, waiter r' fd d = Some w -> waiter r fd d = Some w) as Hw.
  { intros fd d w. rewrite (disp_waiter _ _ _ _ _ _ _ _ _ D). by destruct (hit fd d). }
  intros fd d w p Ew Ep fd' d' w' Ew'. by apply (Hd fd d w p); [apply Hw| |apply Hw].
Qed.

Lemma handle_event_woken fd ep r m c k r' m' c' k' :
  0 <= fd -> valid_waiters m r -> distinct_states r ->
  handle_event fd ep (r, m, c, k) = Some (r', m', c', k') -> ready r' = ready r ++ woken_by m r (fd, ep).
Proof.
  intros Hfd V Hd. unfold handle_event, woken_by. cbn [fst snd].
  assert ((forall d, waiter r fd d = None) -> woken_dir m r fd ep DRead ++ woken_dir m r fd ep DWrite = []) as Hnone.
  { intros Hn. unfold woken_dir. by rewrite !Hn. }
  destruct (out_of_table fd r) eqn:Eo.
  { intros [= <- _ _ _]. rewrite Hnone; [by rewrite app_nil_r|]. intros d. apply eq_None_not_Some.
    intros [w Hw%waiter_in_table]. congruence. }
  apply out_of_table_false in Eo as [_ [e He]]. rewrite He. cbn [mbind option_bind]. destruct (idle e) eqn:Ei.
  { intros [= <- _ _ _]. rewrite Hnone; [by rewrite app_nil_r|]. intros d.
    by rewrite (waiter_get _ _ _ _ Hfd He), (proj1 (idle_spec e) Ei). }
  destruct (fire_dir_spec DRead fd ep r m c Hfd V) as (r1 & m1 & c1 & hs1 & E1 & D1).
  pose proof (valid_waiters_dispatched _ _ _ _ _ _ _ _ _ D1 V) as V1. rewrite E1. cbn [mbind option_bind].
  destruct (fire_dir DWrite fd ep (r1, m1, c1)) as [[[r2 m2] c2]|] eqn:E2; [|done]. cbn. intros [= <- _ _ _].
  rewrite (fire_dir_woken _ _ _ _ _ _ _ _ _ Hfd V1 E2), (fire_dir_woken _ _ _ _ _ _ _ _ _ Hfd V E1), <- app_assoc.
  do 2 f_equal. eapply woken_dir_after; [done..|]. unfold one_dir. by rewrite andb_false_r.
Qed.

Lemma handle_events_woken evs r m c k r' m' c' k' :
  NoDup evs.*1 -> Forall (fun fd => 0 <= fd) evs.*1 -> valid_waiters m r -> distinct_states r ->
  handle_events evs (r, m, c, k) = Some (r', m', c', k') -> ready r' = ready r ++ woken m r evs.
Proof.
  revert r m c k. induction evs as [|[fd ep] evs IH]; intros r m c k Hnd Hpos V Hd E.
  { injection E as <- _ _ _. cbn. by rewrite app_nil_r. }
  cbn in Hnd, Hpos. apply NoDup_cons in Hnd as [Hnin Hnd]. apply Forall_cons in Hpos as [Hfd Hpos].
  destruct (handle_event_spec fd ep r m c k Hfd V) as (r1 & m1 & c1 & hs1 & E1 & D1).
  cbn [handle_events] in E. rewrite E1 in E. cbn [mbind option_bind] in E.
  apply IH in E; [|done|done|by eapply valid_waiters_dispatched|by eapply distinct_dispatched].
  rewrite E, (handle_event_woken _ _ _ _ _ _ _ _ _ _ Hfd V Hd E1), <- app_assoc. f_equal. unfold woken. cbn. f_equal.
  f_equal. apply list_fmap_ext. intros i [fd' ep'] Hin%list_elem_of_lookup_2. assert (fd' <> fd) as Hne.
  { intros ->. apply Hnin, list_elem_of_fmap. by exists (fd, ep'). }
  unfold woken_by. cbn [fst snd]. f_equal; (eapply woken_dir_after; [done..|]); unfold one_event;
    by rewrite bool_decide_false.
Qed.

End Dispatch.

(** ** Deregistering a direction *)
Definition drop_dirs (fd dir : Z) (r : Reactor) : Reactor :=
  let r := if IoEvent.has_flag dir IoEvent.Read then upd_fd fd (set_dir DRead None) r else r in
  if IoEvent.has_flag dir IoEvent.Write then upd_fd fd (set_dir DWrite None) r else r.

Lemma waiter_drop_dirs fd dir r fd' d :
  0 <= fd -> is_Some (slots r !! Z.to_nat fd) ->
  waiter (drop_dirs fd dir r) fd' d =
  if decide (fd' = fd /\ IoEvent.has_flag dir (dir_event d) = true) then None else waiter r fd' d.
Proof.
  intros Hfd He. unfold drop_dirs. cbv zeta.
  assert (is_Some (slots (upd_fd fd (set_dir DRead None) r) !! Z.to_nat fd)) as He'.
  { unfold upd_fd. cbn. rewrite list_lookup_alter_eq. destruct He as [e ->]. eauto. }
  destruct (IoEvent.has_flag dir IoEvent.Read) eqn:E1, (IoEvent.has_flag dir IoEvent.Write) eqn:E2;
    rewrite ?waiter_upd_dir by done; destruct d; cbn [dir_event]; rewrite ?E1, ?E2;
    repeat case_decide; naive_solver.
Qed.

Lemma deregister_dir_frame {K} `{EpollKernel K} fd dir r (k : K) r' k' :
  deregister_dir fd dir r k = (r', k') ->
  ready r' = ready r /\ epoll_fd r' = epoll_fd r /\
  (forall fd' d, waiter r' fd' d =
     if decide (fd' = fd /\ IoEvent.has_flag dir (dir_event d) = true) then None else waiter r fd' d) /\
  (k' = k /\ r' = r \/ k' = rearm_or_erase fd r' k /\ exists d, is_Some (waiter r fd d)).
Proof.
  unfold deregister_dir. destruct (out_of_table fd r) eqn:Eo.
  { intros [= <- <-]. split_and!; [done..| |by left]. intros fd' d. case_decide as Hd; [|done]. destruct Hd as [-> _].
    destruct (waiter r fd d) eqn:Ew; [|done]. apply waiter_in_table in Ew. congruence. }
  apply out_of_table_false in Eo as [Hfd [e He]]. rewrite He. destruct (idle e) eqn:Ei.
  { intros [= <- <-]. split_and!; [done..| |by left]. intros fd' d. case_decide as Hd; [|done]. destruct Hd as [-> _].
    by rewrite (waiter_get _ _ _ _ Hfd He), (proj1 (idle_spec e) Ei). }
  fold (drop_dirs fd dir r). intros [= <- <-]. split_and!.
  - unfold drop_dirs. by destruct (IoEvent.has_flag _ _), (IoEvent.has_flag _ _).
  - unfold drop_dirs. by destruct (IoEvent.has_flag _ _), (IoEvent.has_flag _ _).
  - intros fd' d. apply waiter_drop_dirs; eauto.
  - right. split; [done|]. exists (if has_value (read e) then DRead else DWrite).
    rewrite (waiter_get _ _ _ _ Hfd He). destruct e as [[] []]; cbn in *; eauto; done.
Qed.

(** ** Growing the table and registering *)

Lemma waiter_ensure_slot fd r fd' d : waiter (ensure_slot fd r) fd' d = waiter r fd' d.
Proof.
  unfold waiter, ensure_slot. cbn. destruct (fd' <? 0); [done|].
  destruct (slots r !! Z.to_nat fd') as [e|] eqn:E; [by rewrite (lookup_app_l_Some _ _ _ _ E)|].
  apply lookup_ge_None in E. rewrite lookup_app_r by done.
  destruct (replicate _ _ !! _) as [e|] eqn:Er; [|done].
  apply lookup_replicate in Er as [-> _]. by destruct d.
Qed.

Lemma ensure_slot_in fd r : 0 <= fd -> is_Some (slots (ensure_slot fd r) !! Z.to_nat fd).
Proof. intros Hfd. apply lookup_lt_is_Some. cbn. rewrite length_app, length_replicate. lia. Qed.

Lemma register_frame {K} `{EpollKernel K} d fd w r (k : K) res r' k' :
  register d fd w r k = (res, r', k') ->
  ready r' = ready r /\
  forall fd' d', waiter r' fd' d' =
    if is_ok res && bool_decide (fd' = fd /\ d' = d) then Some w else waiter r fd' d'.
Proof.
  unfold register. destruct (Z.ltb_spec fd 0) as [|Hfd]; [by intros [= <- <- <-]|].
  destruct (ensure_slot_in fd r Hfd) as [e He]. rewrite He. change (default empty_fd (Some e)) with e.
  destruct (get_dir d e) eqn:Ed.
  { intros [= <- <- <-]. split; [done|]. intros. apply waiter_ensure_slot. }
  set (r1 := upd_fd fd (set_dir d (Some w)) (ensure_slot fd r)).
  assert (forall fd' d', waiter r1 fd' d' = if bool_decide (fd' = fd /\ d' = d) then Some w else waiter r fd' d') as Hw.
  { intros fd' d'. unfold r1. rewrite waiter_upd_dir, waiter_ensure_slot by eauto.
    case_decide; [by rewrite bool_decide_true|by rewrite bool_decide_false]. }
  destruct (ensure _ _ _ k) as [[[]|er] k1]; intros [= <- <- <-]; (split; [done|]); [done|].
  intros fd' d'. rewrite waiter_upd_dir; [|done|unfold r1, upd_fd; cbn; rewrite list_lookup_alter_eq; cbn in He; rewrite He; eauto].
  rewrite Hw. cbn [is_ok andb]. case_decide as Hd; [|by rewrite bool_decide_false].
  destruct Hd as [-> ->]. by rewrite <- (waiter_ensure_slot fd), (waiter_get _ _ _ _ Hfd He).
Qed.

(** *** Why a registration is refused

    The event mask a new waiter in direction [d] asks for, the error of the two
    [epoll_ctl] calls, and the error a registration reports: a negative
    descriptor, a direction that is taken, or the kernel's own error. *)
Definition wanted_mask (d : Dir) (r : Reactor) (fd : Z) : Z :=
  Z.lor (Z.lor EPOLLET EPOLLONESHOT)
    (Z.lor (dir_bit d) (if has_value (waiter r fd (other d)) then dir_bit (other d) else 0)).

Definition ctl_refusal {K} `{EpollKernel K} (ep fd mask : Z) (k : K) : option Z :=
  match epoll_ctl ep EPOLL_CTL_MOD fd mask k with
  | (SOk _, _) => None
  | (SErr e, k) =>
    if negb (e =? ENOENT) then Some e
    else match epoll_ctl ep EPOLL_CTL_ADD fd mask k with (SOk _, _) => None | (SErr e, _) => Some e end
  end.

Definition refusal {K} `{EpollKernel K} (d : Dir) (fd : Z) (r : Reactor) (k : K) : option SystemError :=
  if fd <? 0 then Some (negative_fd d)
  else if has_value (waiter r fd d) then Some (already_pending d)
  else from_errno <$> ctl_refusal (epoll_fd r) fd (wanted_mask d r fd) k.

Lemma register_refusal {K} `{EpollKernel K} d fd w r (k : K) :
  (register d fd w r k).1.1 = match refusal d fd r k with Some e => Err e | None => Ok tt end.
Proof.
  unfold register, refusal. destruct (Z.ltb_spec fd 0) as [|Hfd]; [done|].
  destruct (ensure_slot_in fd r Hfd) as [e He]. rewrite He. change (default empty_fd (Some e)) with e.
  assert (forall d', waiter r fd d' = get_dir d' e) as Hg.
  { intros d'. by rewrite <- (waiter_ensure_slot fd r), (waiter_get _ _ _ _ Hfd He). }
  unfold wanted_mask. rewrite !Hg. destruct (get_dir d e) eqn:Ed; [done|]. cbn [has_value].
  unfold ensure, ctl_refusal. cbn [epoll_fd upd_fd ensure_slot set_slots].
  assert (to_epoll_events (register_interest d e) =
    Z.lor (Z.lor EPOLLET EPOLLONESHOT) (Z.lor (dir_bit d) (if has_value (get_dir (other d) e) then dir_bit (other d) else 0))) as ->.
  { unfold register_interest. by destruct d, (has_value (get_dir _ e)). }
  destruct (epoll_ctl _ EPOLL_CTL_MOD _ _ k) as [[[]|er] k1]; [done|]. destruct (er =? ENOENT); cbn [negb]; [|done].
  by destruct (epoll_ctl _ EPOLL_CTL_ADD _ _ k1) as [[[]|er'] k2].
Qed.

(** ** Waiters are armed

    With one-shot interest a waiter whose direction is not armed in the kernel
    would never be woken.  [rearm_or_erase] drops the error of its [ensure], so
    the waiters of a descriptor whose re-arming failed can be left unarmed:
    [lost], a set that is no part of the program, follows these descriptors. *)

Section Armed.
Context {K : Type} `{EpollLaws K}.

Definition armed (k : K) (r : Reactor) (fd : Z) (d : Dir) : Prop :=
  exists ev, interest k (epoll_fd r) !! fd = Some ev /\ Z.land ev (dir_bit d) <> 0.

Definition Armed (lost : gset Z) (r : Reactor) (k : K) : Prop :=
  forall fd d, fd ∉ lost -> is_Some (waiter r fd d) -> armed k r fd d.

Lemma ensure_spec fd ev r (k : K) :
  exists k',
    (ensure fd ev r k = (Ok tt, k') /\
     interest k' (epoll_fd r) = <[fd := to_epoll_events ev]> (interest k (epoll_fd r))) \/
    (exists e, ensure fd ev r k = (Err (from_errno e), k') /\ interest k' (epoll_fd r) = interest k (epoll_fd r)).
Proof.
  unfold ensure. destruct (epoll_ctl _ EPOLL_CTL_MOD _ _ k) as [[[]|e] k1] eqn:E1.
  { exists k1. left. split; [done|]. by apply ctl_ok in E1. }
  apply ctl_err in E1 as I1. destruct (e =? ENOENT); [|by exists k1; right; exists e].
  destruct (epoll_ctl _ EPOLL_CTL_ADD _ _ k1) as [[[]|e'] k2] eqn:E2.
  - exists k2. left. split; [done|]. apply ctl_ok in E2. by rewrite E2, I1.
  - exists k2. right. exists e'. apply ctl_err in E2. by rewrite E2, I1.
Qed.

(** *** What re-arming loses *)

(** The outcome of the call [ensure(fd, interest)] of [rearm_or_erase], where it
    is made. *)
Definition rearm_result (fd : Z) (r : Reactor) (k : K) : option (Result unit) :=
  if out_of_table fd r then None
  else
    match slots r !! Z.to_nat fd with
    | None => None
    | Some e => if idle e then None else Some (ensure fd (rearm_interest e) r k).1
    end.

(** [fd] is lost when its re-arming fails, and no longer lost when it succeeds or
    nobody waits on it. *)
Definition lost_rearm (fd : Z) (r : Reactor) (k : K) (lost : gset Z) : gset Z :=
  match rearm_result fd r k with Some (Err _) => {[ fd ]} ∪ lost | _ => lost ∖ {[ fd ]} end.

Fixpoint lost_events (evs : list (Z * Z)) (st : Reactor * Mem * Z * K) (lost : gset Z) : gset Z :=
  match evs with
  | [] => lost
  | (fd, ep) :: evs =>
    match handle_event fd ep st with
    | Some st' => lost_events evs st' (lost_rearm fd st'.1.1.1 st.2 lost)
    | None => lost
    end
  end.

Definition lost_poll (timeout : Z) (r : Reactor) (m : Mem) (k : K) (lost : gset Z) : gset Z :=
  match epoll_wait (epoll_fd r) kMaxEventsPerPoll (timeout_ms timeout) k with
  | (SOk evs, k) => lost_events evs (r, m, 0, k) lost
  | (SErr _, _) => lost
  end.

Lemma rearm_interest_bit e d : is_Some (get_dir d e) -> Z.land (to_epoll_events (rearm_interest e)) (dir_bit d) <> 0.
Proof. destruct e as [[] []], d; intros [? ?]; done. Qed.

Lemma register_interest_bit d e : Z.land (to_epoll_events (register_interest d e)) (dir_bit d) <> 0.
Proof. destruct e as [[] []], d; done. Qed.

Lemma register_interest_other d e :
  is_Some (get_dir (other d) e) -> Z.land (to_epoll_events (register_interest d e)) (dir_bit (other d)) <> 0.
Proof. destruct e as [[] []], d; intros [? ?]; done. Qed.

(** Re-arming touches one entry; after it the waiters of the descriptor are
    armed unless it is lost. *)
Lemma rearm_spec fd r (k : K) lost :
  (forall fd', fd' <> fd ->
     interest (rearm_or_erase fd r k) (epoll_fd r) !! fd' = interest k (epoll_fd r) !! fd') /\
  (forall fd', fd' <> fd -> fd' ∉ lost_rearm fd r k lost -> fd' ∉ lost) /\
  (forall d, fd ∉ lost_rearm fd r k lost -> is_Some (waiter r fd d) -> armed (rearm_or_erase fd r k) r fd d).
Proof.
  unfold rearm_or_erase, lost_rearm, rearm_result. destruct (out_of_table fd r) eqn:Eo.
  { split_and!; [done|set_solver|]. intros d _ [w Hw%waiter_in_table]. congruence. }
  apply out_of_table_false in Eo as [Hfd [e He]]. rewrite He. destruct (idle e) eqn:Ei.
  { split_and!; [done|set_solver|]. intros d _ [w Hw]. rewrite (waiter_get _ _ _ _ Hfd He) in Hw.
    rewrite (proj1 (idle_spec e) Ei) in Hw. done. }
  destruct (ensure_spec fd (rearm_interest e) r k) as (k' & [[-> Hi]|(er & -> & Hi)]); cbn [fst snd]; unfold armed; rewrite Hi.
  - split_and!; [|set_solver|].
    + intros fd' Hn. by rewrite lookup_insert_ne.
    + intros d _ Hw. rewrite (waiter_get _ _ _ _ Hfd He) in Hw. rewrite lookup_insert_eq.
      eexists. split; [done|]. by apply rearm_interest_bit.
  - split_and!; set_solver.
Qed.

(** Re-arming after the waiters of [fd] changed. *)
Lemma Armed_rearm fd r (k : K) lost :
  Armed ({[ fd ]} ∪ lost) r k -> Armed (lost_rearm fd r k lost) r (rearm_or_erase fd r k).
Proof.
  intros HA fd' d Hl Hw. destruct (rearm_spec fd r k lost) as (Hne & Hout & Heq).
  destruct (decide (fd' = fd)) as [->|Hn]; [by apply Heq|].
  unfold armed. rewrite Hne by done. apply HA; [|done]. apply Hout in Hl; [|done]. set_solver.
Qed.

(** [todo]: descriptors whose events are still to be handled. *)
Lemma handle_events_armed evs r m c (k : K) r' m' c' k' lost :
  Forall (fun fd => 0 <= fd) evs.*1 -> valid_waiters m r ->
  handle_events evs (r, m, c, k) = Some (r', m', c', k') ->
  Armed (list_to_set evs.*1 ∪ lost) r k -> Armed (lost_events evs (r, m, c, k) lost) r' k'.
Proof.
  revert r m c k lost. induction evs as [|[fd ep] evs IH]; intros r m c k lost Hpos V E HA.
  { injection E as <- <- <- <-. cbn in *. by rewrite union_empty_l_L in HA. }
  cbn in Hpos. apply Forall_cons in Hpos as [Hfd Hpos].
  destruct (handle_event_spec fd ep r m c k Hfd V) as (r1 & m1 & c1 & hs1 & E1 & D1).
  cbn [handle_events lost_events] in *. rewrite E1 in *. cbn [mbind option_bind fst snd] in *.
  eapply IH; [done|by eapply valid_waiters_dispatched|done|].
  pose proof (disp_epoll _ _ _ _ _ _ _ _ _ D1) as Ee.
  intros fd' d Hl Hw. destruct (rearm_spec fd r1 k lost) as (Hne & Hout & Heq).
  destruct (decide (fd' = fd)) as [->|Hn]; [apply Heq; [set_solver|done]|].
  unfold armed. rewrite Hne, Ee by done. apply HA.
  - cbn. assert (fd' ∉ lost_rearm fd r1 k lost) as Hlr by set_solver. apply Hout in Hlr; [|done]. set_solver.
  - rewrite (disp_waiter _ _ _ _ _ _ _ _ _ D1) in Hw. destruct (one_event _ _ _ _); [by destruct Hw|done].
Qed.

Lemma Armed_poll timeout r m (k : K) res r' m' k' lost :
  valid_waiters m r -> poll timeout r m k = Some (res, r', m', k') ->
  Armed lost r k -> Armed (lost_poll timeout r m k lost) r' k'.
Proof.
  intros V E HA. unfold poll in E. unfold lost_poll. destruct (epoll_wait _ _ _ k) as [[evs|e] k1] eqn:Ew.
  - apply wait_ok in Ew as (Hnd & _ & Hout & Hin).
    destruct (handle_events evs (r, m, 0, k1)) as [[[[r2 m2] c2] k2]|] eqn:Eh; [|done].
    injection E as _ <- _ <-. eapply handle_events_armed; [|done..|].
    + apply Forall_forall. intros fd Hfd%Hin. tauto.
    + intros fd d Hfd Hw. unfold armed. rewrite Hout by set_solver. apply HA; [set_solver|done].
  - apply wait_err in Ew. injection E as _ <- _ <-. intros fd d Hl Hw. unfold armed. rewrite Ew. by apply HA.
Qed.

(** *** Registration *)

(** The outcomes of registering [w], as a relation between the waiters and
    kernel before and after. *)
Definition registered (d : Dir) (fd : Z) (w : PendingEntry) (r : Reactor) (k : K)
    (res : Result unit) (r' : Reactor) (k' : K) : Prop :=
  epoll_fd r' = epoll_fd r /\ ready r' = ready r /\
  (res = Ok tt /\ 0 <= fd /\ waiter r fd d = None /\
     (forall fd' d', waiter r' fd' d' = if decide (fd' = fd /\ d' = d) then Some w else waiter r fd' d') /\
     (forall d', is_Some (waiter r' fd d') -> armed k' r' fd d') /\
     (forall fd', fd' <> fd -> interest k' (epoll_fd r) !! fd' = interest k (epoll_fd r) !! fd') \/
   (exists e, res = Err e /\ (forall fd' d', waiter r' fd' d' = waiter r fd' d') /\
     interest k' (epoll_fd r) = interest k (epoll_fd r))).

Lemma register_interest_waiters d e d' :
  d' = d \/ is_Some (get_dir d' e) -> Z.land (to_epoll_events (register_interest d e)) (dir_bit d') <> 0.
Proof.
  intros Hd. destruct (decide (d' = d)) as [->|Hn]; [apply register_interest_bit|].
  destruct Hd as [|Hs]; [done|]. assert (d' = other d) as -> by (by destruct d, d').
  by apply register_interest_other.
Qed.

Lemma register_spec d fd w r (k : K) res r' k' :
  register d fd w r k = (res, r', k') -> registered d fd w r k res r' k'.
Proof.
  unfold register. destruct (Z.ltb_spec fd 0) as [|Hfd].
  { intros [= <- <- <-]. split_and!; [done..|]. right. eauto. }
  destruct (ensure_slot_in fd r Hfd) as [e He]. rewrite He. change (default empty_fd (Some e)) with e.
  assert (forall d', waiter r fd d' = get_dir d' e) as Hg.
  { intros d'. by rewrite <- (waiter_ensure_slot fd r), (waiter_get _ _ _ _ Hfd He). }
  destruct (get_dir d e) as [w'|] eqn:Ed.
  { intros [= <- <- <-]. split_and!; [done..|]. right. eexists. split_and!; [done| |done].
    intros. apply waiter_ensure_slot. }
  destruct (ensure_spec fd (register_interest d e) (upd_fd fd (set_dir d (Some w)) (ensure_slot fd r)) k)
    as (k1 & [[-> Hi]|(er & -> & Hi)]); intros [= <- <- <-]; split_and!; try done.
  - left. split_and!; [done..| | | |].
    + by rewrite Hg.
    + intros fd' d'. rewrite waiter_upd_dir by eauto. by rewrite waiter_ensure_slot.
    + intros d' Hw. unfold armed. rewrite Hi, lookup_insert_eq. eexists. split; [done|].
      rewrite waiter_upd_dir, waiter_ensure_slot, Hg in Hw by eauto.
      apply register_interest_waiters. case_decide; naive_solver.
    + intros fd' Hne. cbn in Hi. by rewrite Hi, lookup_insert_ne.
  - right. eexists. split_and!; [done| |done]. intros fd' d'.
    rewrite waiter_upd_dir.
    + rewrite waiter_upd_dir, waiter_ensure_slot by eauto. case_decide as Hd; [|done].
      destruct Hd as [-> ->]. by rewrite Hg.
    + done.
    + unfold upd_fd. cbn. rewrite list_lookup_alter_eq. cbn in He. rewrite He. eauto.
Qed.

(** A successful registration arms every direction that waits on the descriptor. *)
Definition lost_register (fd : Z) (res : Result unit) (lost : gset Z) : gset Z :=
  if is_ok res then lost ∖ {[ fd ]} else lost.

Lemma Armed_register d fd w r (k : K) res r' k' lost :
  register d fd w r k = (res, r', k') -> Armed lost r k -> Armed (lost_register fd res lost) r' k'.
Proof.
  unfold lost_register.
  intros (Ee & _ & [(-> & _ & _ & Hw & Ha & Hi)|(e & -> & Hw & Hi)])%register_spec HA fd' d' Hl Hs; cbn in Hl.
  - destruct (decide (fd' = fd)) as [->|Hn]; [by apply Ha|].
    rewrite Hw, decide_False in Hs by tauto. unfold armed. rewrite Ee, Hi by done. apply HA; [set_solver|done].
  - rewrite Hw in Hs. unfold armed. rewrite Ee, Hi. by apply HA.
Qed.

(** *** The other operations *)

Lemma waiter_clear fd r fd' d w : waiter (clear_slot fd r) fd' d = Some w -> fd' <> fd /\ waiter r fd' d = Some w.
Proof.
  unfold clear_slot. destruct (Z.ltb_spec fd 0) as [Hn|Hfd].
  - intros Hw. split; [|done]. intros ->. unfold waiter in Hw. destruct (Z.ltb_spec fd 0); [done|lia].
  - rewrite waiter_upd by done. case_decide; [|done]. destruct (slots r !! _); [|done]. by destruct d.
Qed.

Lemma Armed_clear_slot fd r (k k' : K) lost :
  (forall fd', fd' <> fd -> interest k' (epoll_fd r) !! fd' = interest k (epoll_fd r) !! fd') ->
  Armed lost r k -> Armed (lost ∖ {[ fd ]}) (clear_slot fd r) k'.
Proof.
  intros Hi HA fd' d Hl [w [Hn Hw]%waiter_clear].
  assert (epoll_fd (clear_slot fd r) = epoll_fd r) as Ee by (unfold clear_slot; by destruct (fd <? 0)).
  unfold armed. rewrite Ee, Hi by done. apply HA; [set_solver|by rewrite Hw].
Qed.

Lemma Armed_weaken lost lost' r (k : K) : lost ⊆ lost' -> Armed lost r k -> Armed lost' r k.
Proof. intros Hl HA fd d Hn. apply HA. set_solver. Qed.

Lemma Armed_remove fd r (k : K) res r' k' lost : remove fd r k = (res, r', k') -> Armed lost r k -> Armed lost r' k'.
Proof.
  unfold remove. intros E HA. destruct (fd <? 0); [by injection E as <- <- <-|].
  destruct (epoll_ctl _ _ _ _ k) as [[[]|e] k1] eqn:E1.
  - injection E as <- <- <-. eapply Armed_weaken; [|eapply Armed_clear_slot; [|done]]; [set_solver|]. intros fd' Hn.
    apply ctl_ok in E1. rewrite E1. cbn. by rewrite lookup_delete_ne.
  - apply ctl_err in E1. destruct (_ && _); injection E as <- <- <-.
    + intros fd' d Hl Hw. unfold armed. rewrite E1. by apply HA.
    + eapply Armed_weaken; [|eapply Armed_clear_slot; [|done]]; [set_solver|]. intros fd' Hn. by rewrite E1.
Qed.

Lemma Armed_add fd ev r (k : K) res k' lost : add fd ev r k = (res, k') -> Armed lost r k -> Armed lost r k'.
Proof.
  unfold add, ctl. intros E HA fd' d Hl Hw. destruct (HA _ _ Hl Hw) as (x & Hx & Hb).
  destruct (epoll_ctl _ _ _ _ k) as [[[]|e] k1] eqn:E1; injection E as <- <-.
  - apply ctl_add in E1 as Hf. apply ctl_ok in E1. exists x. rewrite E1. cbn.
    rewrite lookup_insert_ne by congruence. done.
  - apply ctl_err in E1. exists x. by rewrite E1.
Qed.

Lemma Armed_modify fd ev r (k : K) res k' lost :
  modify fd ev r k = (res, k') -> Armed lost r k -> Armed ({[ fd ]} ∪ lost) r k'.
Proof.
  unfold modify, ctl. intros E HA fd' d Hl Hw. destruct (HA fd' d ltac:(set_solver) Hw) as (x & Hx & Hb). exists x.
  destruct (epoll_ctl _ _ _ _ k) as [[[]|e] k1] eqn:E1; injection E as <- <-.
  - apply ctl_ok in E1. rewrite E1. cbn. by rewrite lookup_insert_ne by set_solver.
  - apply ctl_err in E1. by rewrite E1.
Qed.

(** [deregister_dir] always ends as a re-arming of its descriptor does. *)
Lemma deregister_dir_rearms fd dir r (k : K) r' k' :
  deregister_dir fd dir r k = (r', k') -> k' = rearm_or_erase fd r' k.
Proof.
  unfold deregister_dir. destruct (out_of_table fd r) eqn:Eo.
  { intros [= <- <-]. unfold rearm_or_erase. by rewrite Eo. }
  apply out_of_table_false in Eo as Ho. destruct Ho as [_ [e He]]. rewrite He. destruct (idle e) eqn:Ei; intros [= <- <-]; [|done].
  unfold rearm_or_erase. by rewrite Eo, He, Ei.
Qed.

Lemma Armed_deregister_dir fd dir r (k : K) r' k' lost :
  deregister_dir fd dir r k = (r', k') -> Armed lost r k -> Armed (lost_rearm fd r' k lost) r' k'.
Proof.
  intros E HA. apply deregister_dir_rearms in E as Ek. apply deregister_dir_frame in E as (_ & Ee & Hw & _).
  subst k'. apply Armed_rearm. intros fd' d Hl Hs. unfold armed. rewrite Ee. apply HA; [set_solver|].
  rewrite Hw in Hs. case_decide; [by destruct Hs|done].
Qed.

(** ** Reachable reactors

    [reach r k lost]: a reactor and a kernel state after any operations, with the
    descriptors that are lost.  A descriptor is lost when its re-arming failed,
    when the caller overwrote its interest with [modify], or when something else
    changed it in this instance (a descriptor closed without [remove]); until it
    is registered or re-armed again, or nobody waits on it.  The waiters'
    pointers are live when the reactor polls. *)

Inductive reach : Reactor -> K -> gset Z -> Prop :=
| reach_create k r k' : create k = (Ok r, k') -> reach r k' ∅
| reach_add fd ev r k lost res k' : reach r k lost -> add fd ev r k = (res, k') -> reach r k' lost
| reach_modify fd ev r k lost res k' : reach r k lost -> modify fd ev r k = (res, k') -> reach r k' ({[ fd ]} ∪ lost)
| reach_register d fd w r k lost res r' k' :
    reach r k lost -> register d fd w r k = (res, r', k') -> reach r' k' (lost_register fd res lost)
| reach_deregister fd r k lost : reach r k lost -> reach (deregister fd r) k (lost ∖ {[ fd ]})
| reach_deregister_dir fd dir r k lost r' k' :
    reach r k lost -> deregister_dir fd dir r k = (r', k') -> reach r' k' (lost_rearm fd r' k lost)
| reach_remove fd r k lost res r' k' : reach r k lost -> remove fd r k = (res, r', k') -> reach r' k' lost
| reach_poll timeout r m k lost res r' m' k' :
    reach r k lost -> valid_waiters m r -> poll timeout r m k = Some (res, r', m', k') ->
    reach r' k' (lost_poll timeout r m k lost)
| reach_drain r k lost : reach r k lost -> reach (drain_ready r).2 k lost
| reach_close r k lost res r' k' : reach r k lost -> close r k = (res, r', k') -> reach r' k' lost
| reach_env X r k lost k' :
    reach r k lost -> (forall fd, fd ∉ X -> interest k' (epoll_fd r) !! fd = interest k (epoll_fd r) !! fd) ->
    reach r k' (X ∪ lost).

Lemma Armed_no_waiters r (k : K) lost : slots r = [] -> Armed lost r k.
Proof.
  intros E fd d _ [w Hw]. unfold waiter in Hw. rewrite E in Hw. destruct (fd <? 0); [done|].
  by destruct (Z.to_nat fd).
Qed.

Lemma reach_Armed r k lost : reach r k lost -> Armed lost r k.
Proof.
  induction 1 as [k r k' E| | | |fd r k lost _ IH| | | |r k lost _ IH|r k lost res r' k' _ _ E|X r k lost k' _ IH E].
  - apply Armed_no_waiters. unfold create in E. destruct (epoll_create1 k) as [[]]; by simplify_eq.
  - by eapply Armed_add.
  - by eapply Armed_modify.
  - by eapply Armed_register.
  - by eapply Armed_clear_slot.
  - by eapply Armed_deregister_dir.
  - by eapply Armed_remove.
  - by eapply Armed_poll.
  - exact IH.
  - apply Armed_no_waiters. unfold close in E. destruct (0 <=? _); [|by simplify_eq].
    destruct (epoll_close _ _) as [[]]; by simplify_eq.
  - intros fd d Hl Hw. unfold armed. rewrite E by set_solver. apply IH; [set_solver|done].
Qed.

(** C4: no waiter is forgotten by the kernel unless re-arming it failed: on
    every reachable reactor, a descriptor with a pending read (write) waiter is
    registered in the epoll instance with [EPOLLIN] ([EPOLLOUT]) armed, although
    each event disarms its descriptor ([EPOLLONESHOT]) and one entry serves both
    directions.  The exceptions are the descriptors in [lost]: those whose last
    [EPOLL_CTL_MOD]/[ADD] in [rearm_or_erase] failed (its result is dropped), or
    whose interest was changed from outside the reactor's own arming, and which
    were not armed again since.  No [epoll_ctl] call is assumed to succeed. *)
Theorem waiters_armed r (k : K) lost fd d w :
  reach r k lost -> waiter r fd d = Some w -> fd ∉ lost ->
  exists ev, interest k (epoll_fd r) !! fd = Some ev /\ Z.land ev (dir_bit d) <> 0.
Proof. intros Hr Hw Hl. apply (reach_Armed _ _ _ Hr); [done|]. by rewrite Hw. Qed.

Lemma poll_spec timeout r m (k : K) evs k1 :
  epoll_wait (epoll_fd r) kMaxEventsPerPoll (timeout_ms timeout) k = (SOk evs, k1) ->
  valid_waiters m r ->
  exists r' m' k' hs, poll timeout r m k = Some (Ok (Z.of_nat (length hs)), r', m', k') /\
    dispatched (event_hits evs) (2 * length evs) r m 0 r' m' (Z.of_nat (length hs)) hs.
Proof.
  intros Ew V. unfold poll. rewrite Ew. apply wait_ok in Ew as (Hnd & Hlen & _ & Hin).
  destruct (handle_events_spec evs r m 0 k1) as (r' & m' & c' & k' & hs & E & D); [done| |done|].
  { apply Forall_forall. intros fd Hfd%Hin. tauto. }
  exists r', m', k', hs. rewrite E. cbn [mbind option_bind].
  assert (c' = Z.of_nat (length hs)) as <-; [|done].
  destruct (disp_count _ _ _ _ _ _ _ _ _ D) as [_ ->]; [lia|].
  rewrite wrap_small; [done|]. pose proof (disp_bound _ _ _ _ _ _ _ _ _ D). unfold kMaxEventsPerPoll in Hlen. lia.
Qed.

(** C11: a successful [poll] fires exactly the waiters its events select.  It is
    defined when the waiters' pointers are live, removes the waiters whose
    direction (or an error or hang-up) was reported and keeps the others, and
    returns the number of handles it queued.  When no two waiters share a wait
    state, the queued handles are, in order and once each, those of the selected
    waiters whose wait is not settled yet (event by event, reader before
    writer).  A selected waiter that is still [Pending] is completed, finds
    success in its result cell and is queued; every queued handle is that of a
    selected waiter that was not settled; a wait that was settled keeps its
    outcome; the wait states of waiters that were not selected and the result
    cells of those that were not fired are untouched. *)
Theorem poll_dispatch timeout r m (k : K) evs k1 :
  epoll_wait (epoll_fd r) kMaxEventsPerPoll (timeout_ms timeout) k = (SOk evs, k1) ->
  valid_waiters m r ->
  exists r' m' k' hs, poll timeout r m k = Some (Ok (Z.of_nat (length hs)), r', m', k') /\
    ready r' = ready r ++ hs /\
    (distinct_states r -> hs = woken m r evs) /\
    (forall fd d, selects evs fd d -> waiter r' fd d = None) /\
    (forall fd d, ~ selects evs fd d -> waiter r' fd d = waiter r fd d) /\
    (forall fd d w p h, waiter r fd d = Some w -> selects evs fd d ->
       pe_state w = Some p -> pe_handle w = Some h -> sole_owner r p fd d ->
       ws_cells m !! p = Some Pending ->
       Some h ∈ hs /\ ws_cells m' !! p = Some (pe_completion w) /\
       forall q, pe_result w = Some q -> res_cells m' !! q = Some (Ok 0)) /\
    (forall x, x ∈ hs -> exists fd d w, waiter r fd d = Some w /\ selects evs fd d /\ pe_handle w = x /\ awake m w = true) /\
    (forall p v, ws_cells m !! p = Some v -> v <> Pending -> ws_cells m' !! p = Some v) /\
    (forall p, (forall fd d w, waiter r fd d = Some w -> selects evs fd d -> pe_state w <> Some p) ->
       ws_cells m' !! p = ws_cells m !! p) /\
    (forall q, (forall fd d w, waiter r fd d = Some w -> selects evs fd d -> awake m w = true -> pe_result w <> Some q) ->
       res_cells m' !! q = res_cells m !! q).
Proof.
  intros Ew V. destruct (poll_spec timeout r m k evs k1 Ew V) as (r' & m' & k' & hs & E & D).
  exists r', m', k', hs. rewrite E. setoid_rewrite <- event_hits_selects.
  split_and!; [done|apply D| | | | |apply D|apply D|apply D|apply D].
  - intros Hd. apply (app_inv_head (ready r)). rewrite <- (disp_ready _ _ _ _ _ _ _ _ _ D).
    unfold poll in E. rewrite Ew in E. apply wait_ok in Ew as (Hnd & _ & _ & Hin).
    destruct (handle_events evs (r, m, 0, k1)) as [[[[r2 m2] c2] k2]|] eqn:Eh; [|done]. injection E as _ <- _ _.
    eapply handle_events_woken; [done| |done..]. apply Forall_forall. intros fd Hfd%Hin. tauto.
  - intros fd d Hh. rewrite (disp_waiter _ _ _ _ _ _ _ _ _ D). by rewrite Hh.
  - intros fd d Hh. rewrite (disp_waiter _ _ _ _ _ _ _ _ _ D). by destruct (event_hits evs fd d).
  - intros fd d w p h Hw Hh Hp Hwh Hso Hv. destruct (disp_hit _ _ _ _ _ _ _ _ _ D fd d w p h) as [Hin Hc]; try done.
    split_and!; [done..|]. intros q Hq. by apply (disp_result _ _ _ _ _ _ _ _ _ D fd d w p).
Qed.

(** Registering a waiter is all or nothing: a negative descriptor is
    refused with [EBADF] and a busy direction with [EBUSY] before the kernel is
    asked; on success the waiter is in place, the other waiters are untouched
    and every direction waiting on the descriptor is armed; when the kernel
    refuses, waiters and interest list are as before. *)
Theorem register_outcome d fd w r (k : K) :
  exists res r' k', register d fd w r k = (res, r', k') /\
  (fd < 0 -> res = Err (negative_fd d) /\ k' = k) /\
  (0 <= fd -> is_Some (waiter r fd d) -> res = Err (already_pending d) /\ k' = k) /\
  registered d fd w r k res r' k'.
Proof.
  destruct (register d fd w r k) as [[res r'] k'] eqn:E. exists res, r', k'.
  split_and!; [done| | |by apply register_spec].
  - intros Hfd. unfold register in E. rewrite (proj2 (Z.ltb_lt _ _) Hfd) in E. by simplify_eq.
  - intros Hfd [w' Hw]. unfold register in E. rewrite (proj2 (Z.ltb_ge _ _) Hfd) in E.
    destruct (ensure_slot_in fd r Hfd) as [e He]. rewrite He in E.
    rewrite <- (waiter_ensure_slot fd), (waiter_get _ _ _ _ Hfd He) in Hw.
    change (default empty_fd (Some e)) with e in E. rewrite Hw in E. by simplify_eq.
Qed.

End Armed.

(** ** A concrete kernel

    One epoll instance whose interest list is a map and which reports the
    events queued in [pending] one at a time. *)

Module SimEpoll.

Record Sim := mkSim { ilist : gmap Z Z; pending : list (Z * Z) }.

Definition sim_ctl (op : CtlOp) (fd ev : Z) (s : Sim) : SysRet unit * Sim :=
  match op, ilist s !! fd with
  | EPOLL_CTL_ADD, Some _ => (SErr 17, s)
  | EPOLL_CTL_ADD, None => (SOk tt, mkSim (<[fd := ev]> (ilist s)) (pending s))
  | EPOLL_CTL_MOD, Some _ => (SOk tt, mkSim (<[fd := ev]> (ilist s)) (pending s))
  | EPOLL_CTL_DEL, Some _ => (SOk tt, mkSim (delete fd (ilist s)) (pending s))
  | _, None => (SErr ENOENT, s)
  end.

(** A reported one-shot descriptor stays registered, disarmed. *)
Definition disarm (ev : Z) : Z :=
  if Z.land ev EPOLLONESHOT =? 0 then ev else Z.land ev (Z.lor EPOLLONESHOT EPOLLET).

Definition sim_wait (n : nat) (s : Sim) : SysRet (list (Z * Z)) * Sim :=
  match n, pending s with
  | S _, (fd, ep) :: rest =>
    match ilist s !! fd with
    | Some ev => if 0 <=? fd then (SOk [(fd, ep)], mkSim (<[fd := disarm ev]> (ilist s)) rest)
                 else (SOk [], s)
    | None => (SOk [], mkSim (ilist s) rest)
    end
  | _, _ => (SOk [], s)
  end.

#[export] Instance sim_kernel : EpollKernel Sim := {
  epoll_create1 s := (SOk 3, mkSim ∅ (pending s));
  epoll_ctl _ op fd ev s := sim_ctl op fd ev s;
  epoll_wait _ n _ s := sim_wait n s;
  epoll_close _ s := (SOk tt, s);
}.

#[export] Program Instance sim_laws : EpollLaws Sim := { interest s _ := ilist s }.
Next Obligation. cbn. intros _ [] fd ev s s'; unfold sim_ctl; destruct (ilist s !! fd); by intros [= <-]. Qed.
Next Obligation. cbn. intros _ [] fd ev s e s'; unfold sim_ctl; destruct (ilist s !! fd); by intros [= _ <-]. Qed.
Next Obligation. cbn. intros _ fd ev s s'; unfold sim_ctl; by destruct (ilist s !! fd). Qed.
Next Obligation.
  cbn. intros _ n _ s evs s'. unfold sim_wait. destruct n as [|n], (pending s) as [|[fd ep] rest];
    try (intros [= <- <-]; cbn; split_and!; [constructor|lia|done|set_solver]).
  destruct (ilist s !! fd) as [ev|] eqn:Ef; [|intros [= <- <-]; cbn; split_and!; [constructor|lia|done|set_solver]].
  destruct (Z.leb_spec 0 fd); intros [= <- <-]; cbn; [|split_and!; [constructor|lia|done|set_solver]].
  split_and!; [apply NoDup_singleton|lia| |].
  - intros fd' Hn. rewrite lookup_insert_ne by set_solver. done.
  - intros fd' ->%list_elem_of_singleton. rewrite lookup_insert_eq. eauto.
Qed.
Next Obligation.
  cbn. intros _ n _ s e s'. unfold sim_wait. destruct n as [|n], (pending s) as [|[fd ep] rest]; try done.
  destruct (ilist s !! fd); [|done]. by destruct (0 <=? fd).
Qed.

End SimEpoll.

(** The same kernel, with a switch for running out of memory: [EPOLL_CTL_MOD]
    then fails with [ENOMEM] although the descriptor is registered. *)

Module TightEpoll.
Import SimEpoll.

Definition ENOMEM : Z := 12.

Record Tight := mkTight { base : Sim; refuse : bool }.

Definition tight {A} (t : Tight) (x : A * Sim) : A * Tight := (x.1, mkTight x.2 (refuse t)).

#[export] Instance tight_kernel : EpollKernel Tight := {
  epoll_create1 t := tight t (epoll_create1 (base t));
  epoll_ctl ep op fd ev t :=
    match op, refuse t with
    | EPOLL_CTL_MOD, true => (SErr ENOMEM, t)
    | _, _ => tight t (epoll_ctl ep op fd ev (base t))
    end;
  epoll_wait ep n tm t := tight t (epoll_wait ep n tm (base t));
  epoll_close ep t := tight t (epoll_close ep (base t));
}.

Lemma tight_inv {A} t (x : A * Sim) a t' : tight t x = (a, t') -> x = (a, base t') /\ t' = mkTight x.2 (refuse t).
Proof. destruct x as [a' s]. unfold tight. cbn. by intros [= <- <-]. Qed.

Lemma tight_ctl ep op fd ev t r t' :
  epoll_ctl ep op fd ev t = (r, t') ->
  r = SErr ENOMEM /\ t' = t \/ epoll_ctl ep op fd ev (base t) = (r, base t').
Proof.
  cbn. destruct op, (refuse t); try (intros [E _]%tight_inv; by right). intros [= <- <-]. by left.
Qed.

#[export] Program Instance tight_laws : EpollLaws Tight := { interest t ep := interest (base t) ep }.
Next Obligation. intros ep op fd ev t t' [[? _]|E]%tight_ctl; [done|]. by apply ctl_ok in E. Qed.
Next Obligation. intros ep op fd ev t e t' [[_ ->]|E]%tight_ctl; [done|]. by apply ctl_err in E. Qed.
Next Obligation. intros ep fd ev t t' [[? _]|E]%tight_ctl; [done|]. by apply ctl_add in E. Qed.
Next Obligation. intros ep n tm t evs t' [E _]%tight_inv. by apply (wait_ok ep n tm). Qed.
Next Obligation. intros ep n tm t e t' [E _]%tight_inv. by apply (wait_err ep n tm) in E. Qed.

End TightEpoll.

(** ** Witnesses: a reader and a writer on one descriptor, data arrives *)

Section Witness.
Import SimEpoll TightEpoll.

Definition rd_waiter : PendingEntry := mkPending (Some 1%nat) None (Some 10%nat) Ready.
Definition wr_waiter : PendingEntry := mkPending (Some 2%nat) None (Some 20%nat) Ready.

Definition duplex : Reactor := mkReactor 3 (replicate 5 empty_fd ++ [mkFd (Some rd_waiter) (Some wr_waiter)]) [].
Definition duplex_mask : Z :=
  to_epoll_events (IoEvent.or (IoEvent.or (IoEvent.or IoEvent.Write IoEvent.EdgeTrig) IoEvent.OneShot) IoEvent.Read).
Definition duplex_k : Sim := mkSim {[ 5 := duplex_mask ]} [(5, EPOLLIN)].
Definition duplex_m : Mem := mkMem {[ 10%nat := Pending; 20%nat := Pending ]} ∅ ∅.

Lemma waiter_duplex fd d w :
  waiter duplex fd d = Some w -> fd = 5 /\ w = match d with DRead => rd_waiter | DWrite => wr_waiter end.
Proof.
  unfold waiter. destruct (Z.ltb_spec fd 0); [done|]. intros E.
  destruct (slots duplex !! Z.to_nat fd) as [e|] eqn:Es; [|done]. cbn in Es, E.
  destruct (decide (Z.to_nat fd = 5%nat)) as [E5|Hn].
  - rewrite E5 in Es. injection Es as <-. split; [lia|]. destruct d; by injection E as <-.
  - destruct (Z.to_nat fd) as [|[|[|[|[|[|n]]]]]]; cbn in Es; try done;
      injection Es as <-; by destruct d.
Qed.

Lemma valid_duplex : valid_waiters duplex_m duplex.
Proof.
  intros fd [] w [-> ->]%waiter_duplex; split; intros p Hp; cbn in Hp; try done;
    injection Hp as <-; cbn; eauto.
Qed.

Lemma reach_duplex : reach duplex duplex_k ∅.
Proof.
  assert (lost_register 5 (Ok tt) (lost_register 5 (Ok tt) ∅) = ∅) as <- by set_solver.
  eapply (reach_register DWrite 5 wr_waiter
    (mkReactor 3 (replicate 5 empty_fd ++ [mkFd (Some rd_waiter) None]) [])
    (mkSim {[ 5 := to_epoll_events (IoEvent.or (IoEvent.or IoEvent.Read IoEvent.EdgeTrig) IoEvent.OneShot) ]} [(5, EPOLLIN)])).
  - eapply (reach_register DRead 5 rd_waiter (mkReactor 3 [] []) (mkSim ∅ [(5, EPOLLIN)])); [|reflexivity].
    by apply (reach_create (mkSim ∅ [(5, EPOLLIN)])).
  - vm_compute. reflexivity.
Qed.

(** The event disarms the descriptor; the writer is armed again. *)
Lemma waiters_armed_witness :
  exists res r' m' k', poll 0 duplex duplex_m duplex_k = Some (res, r', m', k') /\
    waiter r' 5 DRead = None /\ waiter r' 5 DWrite = Some wr_waiter /\
    lost_poll 0 duplex duplex_m duplex_k ∅ = ∅ /\
    exists ev, interest k' (epoll_fd r') !! 5 = Some ev /\ Z.land ev EPOLLOUT <> 0.
Proof.
  destruct (poll 0 duplex duplex_m duplex_k) as [[[[res r'] m'] k']|] eqn:E; [|vm_compute in E; done].
  assert (waiter r' 5 DRead = None /\ waiter r' 5 DWrite = Some wr_waiter) as [H1 H2].
  { vm_compute in E. by injection E as <- <- <- <-. }
  assert (lost_poll 0 duplex duplex_m duplex_k ∅ = ∅) as HL by (vm_compute; reflexivity).
  exists res, r', m', k'. split; [done|]. split; [done|]. split; [done|]. split; [done|].
  apply (waiters_armed r' k' (lost_poll 0 duplex duplex_m duplex_k ∅) 5 DWrite wr_waiter); [|done|by rewrite HL].
  eapply reach_poll; [apply reach_duplex|apply valid_duplex|exact E].
Defined.

(** The same event with a kernel out of memory: [rearm_or_erase] drops the
    [ENOMEM] of its [epoll_ctl].  The poll succeeds, the reader is woken, and the
    writer is left waiting on a descriptor that is registered and disarmed. *)
Theorem failed_rearm_silences :
  exists r' m' k' ev, poll 0 duplex duplex_m (mkTight duplex_k true) = Some (Ok 1, r', m', k') /\
    waiter r' 5 DWrite = Some wr_waiter /\ lost_poll 0 duplex duplex_m (mkTight duplex_k true) ∅ = {[ 5 ]} /\
    interest k' (epoll_fd r') !! 5 = Some ev /\ Z.land ev EPOLLOUT = 0 /\ Z.land ev EPOLLIN = 0.
Proof.
  destruct (poll 0 duplex duplex_m (mkTight duplex_k true)) as [[[[res r'] m'] k']|] eqn:E; [|vm_compute in E; done].
  vm_compute in E. injection E as <- <- <- <-. eexists _, _, _, _. split_and!; [reflexivity|reflexivity|vm_compute; reflexivity|vm_compute; reflexivity|reflexivity..].
Qed.

(** Both directions are reported; the writer's wait has timed out already. *)
Definition late_m : Mem := mkMem {[ 10%nat := Pending; 20%nat := TimedOut ]} ∅ ∅.
Definition late_k : Sim := mkSim {[ 5 := duplex_mask ]} [(5, Z.lor EPOLLIN EPOLLOUT)].

Lemma distinct_duplex : distinct_states duplex.
Proof.
  intros fd d w p [-> ->]%waiter_duplex Hp fd' d' w' [-> ->]%waiter_duplex Hp'. split; [done|].
  destruct d, d'; cbn in *; congruence.
Qed.

Lemma poll_dispatch_witness :
  exists r' m' k' hs, poll 0 duplex late_m late_k = Some (Ok (Z.of_nat (length hs)), r', m', k') /\
    hs = [Some 1%nat] /\ ws_cells m' !! 10%nat = Some Ready /\ ws_cells m' !! 20%nat = Some TimedOut /\
    waiter r' 5 DWrite = None.
Proof.
  assert (valid_waiters late_m duplex) as V.
  { intros fd [] w [-> ->]%waiter_duplex; split; intros p Hp; cbn in Hp; try done; injection Hp as <-; cbn; eauto. }
  destruct (poll_dispatch 0 duplex late_m late_k [(5, Z.lor EPOLLIN EPOLLOUT)] (sim_wait 256 late_k).2)
    as (r' & m' & k' & hs & E & _ & Hex & Hgone & _ & Hhit & _ & Hset & _); [reflexivity|exact V|].
  exists r', m', k', hs. split; [exact E|].
  assert (forall d, selects [(5, Z.lor EPOLLIN EPOLLOUT)] 5 d) as Hsel.
  { intros d. exists (Z.lor EPOLLIN EPOLLOUT). split; [constructor|left; by destruct d]. }
  split; [rewrite (Hex distinct_duplex); vm_compute; reflexivity|].
  destruct (Hhit 5 DRead rd_waiter 10%nat 1%nat) as (_ & H2 & _); [done|apply Hsel|done..| |done|].
  { by apply distinct_duplex with rd_waiter. }
  split; [exact H2|]. split; [apply Hset; [vm_compute; reflexivity|discriminate]|apply Hgone, Hsel].
Defined.

End Witness.
End ReactorProps.
