(* ===== verification/Signal.v ===== *)
(** * Signal: [async/signal.hpp]

    Signals as descriptors: [SignalSet] blocks a set of signals in the calling
    thread and opens a signalfd for them; closing it restores the mask that was
    in force before.  [SignalAwaiter] waits for the descriptor in the reactor
    and reads one record. *)

From S2P Require Import Prelude Core Reactor.

Module Signal.
Import Reactor.

(** ** Signal sets and the calls *)

#[local] Abbreviation sigset := (gset Z).

(** sigaddset(3) refuses numbers outside 1..64 and the two signals the threads
    library keeps for itself. *)
Definition sigaddset (mask : sigset) (sig : Z) : sigset :=
  if (1 <=? sig) && (sig <=? 64) && negb ((sig =? 32) || (sig =? 33)) then {[ sig ]} ∪ mask else mask.

Inductive How := SIG_BLOCK | SIG_SETMASK.

(** The fields of [signalfd_siginfo] the code reads, all [u32]. *)
Record RawInfo := mkRaw { ssi_signo : Z; ssi_pid : Z; ssi_uid : Z }.

(** [pthread_sigmask] returns 0 or an error number (it does not set [errno]),
    and the previous mask; [sig_read] the number of bytes and the record;
    [errno] is what [from_errno] reads after [pthread_sigmask]. *)
Class SignalKernel (K : Type) := {
  pthread_sigmask : How -> sigset -> K -> Z * sigset * K;
  signalfd : sigset -> K -> SysRet Z * K;
  sig_read : Z -> K -> SysRet (Z * RawInfo) * K;
  sig_close : Z -> K -> SysRet unit * K;
  errno : K -> Z;
}.

Record SignalInfo := mkInfo { signo : Z; pid : Z; uid : Z }.

Definition from_raw (raw : RawInfo) : SignalInfo :=
  mkInfo (i32 (ssi_signo raw)) (i32 (ssi_pid raw)) (i32 (ssi_uid raw)).

Definition sizeof_siginfo : Z := 128.

(** ** [SignalSet] *)

Record SignalSet := mkSet { fd : Z; mask : sigset; old_mask : sigset }.

Section Sets.
Context {K : Type} `{SignalKernel K}.

Definition create (signals : list Z) (k : K) : Result SignalSet * K :=
  let mask := foldl sigaddset ∅ signals in
  let '(rc, old_mask, k) := pthread_sigmask SIG_BLOCK mask k in
  if rc <? 0 then (Err (from_errno (errno k)), k)
  else
    match signalfd mask k with
    | (SErr e, k) => let '(_, _, k) := pthread_sigmask SIG_SETMASK old_mask k in (Err (from_errno e), k)
    | (SOk fd, k) => (Ok (mkSet fd mask old_mask), k)
    end.

Definition valid (s : SignalSet) : bool := 0 <=? fd s.

Definition short_read : SystemError := make_error EMSGSIZE "signalfd short read".

Definition read_signal (s : SignalSet) (k : K) : Result SignalInfo * K :=
  match sig_read (fd s) k with
  | (SErr e, k) => (Err (from_errno e), k)
  | (SOk (n, info), k) => if n =? sizeof_siginfo then (Ok (from_raw info), k) else (Err short_read, k)
  end.

Definition close (s : SignalSet) (k : K) : Result unit * SignalSet * K :=
  if fd s <? 0 then (Ok tt, s, k)
  else
    let '(r, k) := sig_close (fd s) k in
    let first_error := match r with SErr e => Some (from_errno e) | SOk _ => None end in
    let s := mkSet (-1) (mask s) (old_mask s) in
    let '(rc, _, k) := pthread_sigmask SIG_SETMASK (old_mask s) k in
    let first_error :=
      if (rc <? 0) && negb (has_value first_error) then Some (from_errno (errno k)) else first_error in
    (match first_error with Some e => Err e | None => Ok tt end, s, k).

(** The move constructor: the new object and what is left of the old one. *)
Definition move_construct (other : SignalSet) : SignalSet * SignalSet :=
  (other, mkSet (-1) (mask other) (old_mask other)).

Definition move_assign (self other : SignalSet) (k : K) : SignalSet * SignalSet * K :=
  let '(_, _, k) := close self k in (other, mkSet (-1) (mask other) (old_mask other), k).

Definition destroy (s : SignalSet) (k : K) : K := (close s k).2.

(** ** [EventLoop::add_signals], [wait_signal] and [has_signals]

    [add_signals]: [std::optional::emplace] destroys the set it holds before it
    constructs the new one from the local, whose own destructor then finds a
    moved-from object. *)

Definition add_signals (sigs : list Z) (signals : option SignalSet) (k : K) : Result unit * option SignalSet * K :=
  match create sigs k with
  | (Err e, k) => (Err e, signals, k)
  | (Ok sigset, k) =>
    let k := match signals with Some old => destroy old k | None => k end in
    let '(held, rest) := move_construct sigset in
    (Ok tt, Some held, destroy rest k)
  end.

Definition signals_not_configured : SystemError :=
  make_error EPERM "signals not configured; call add_signals first".

Definition has_signals (signals : option SignalSet) : bool := has_value signals.

(** ** [SignalAwaiter]

    [readiness_] is a cell of the awaiter's frame that the reactor writes. *)

Definition not_completed : SystemError := make_error ECANCELED "signal wait not completed".

Definition wait_signal (signals : option SignalSet) : Result (SignalSet * Result Z) :=
  match signals with
  | None => Err signals_not_configured
  | Some s => Ok (s, Err not_completed)
  end.

Context `{EpollKernel K}.

Definition signal_await_ready : bool := false.

(** [readiness]: the pointer to the cell, [m] the memory it is in. *)
Definition signal_await_suspend (h : handle) (s : SignalSet) (readiness : nat) (r : Reactor) (m : Mem) (k : K)
  : bool * Reactor * Mem * K :=
  match register_read (fd s) h (Some readiness) None Ready r k with
  | (Err e, r, k) => (false, r, set_res readiness (Err e) m, k)
  | (Ok _, r, k) => (true, r, m, k)
  end.

Definition signal_await_resume (s : SignalSet) (readiness : nat) (m : Mem) (k : K) : option (Result SignalInfo * K) :=
  v ← res_cells m !! readiness;
  Some (match v with Err e => (Err e, k) | Ok _ => read_signal s k end).

End Sets.
End Signal.
