(* ===== verification/SignalProps.v ===== *)
(** * SignalProps: the thread's signal mask, and signals through the reactor *)

From S2P Require Import Prelude Core Reactor ReactorProps Signal.

Module SignalProps.
Import Reactor ReactorProps Signal.

(** ** What the code relies on *)

(** SIGKILL and SIGSTOP cannot be blocked; asking for it has no effect. *)
Definition blockable (s : gset Z) : gset Z := s ∖ {[ 9; 19 ]}.

Definition new_mask (how : How) (set cur : gset Z) : gset Z :=
  match how with SIG_BLOCK => cur ∪ blockable set | SIG_SETMASK => blockable set end.

(** [blocked k]: the mask of the calling thread; [open_sigfds k]: the signalfds
    that are open, with the signals each reports. *)
Class SignalLaws (K : Type) `{SignalKernel K} := {
  blocked : K -> gset Z;
  open_sigfds : K -> gmap Z (gset Z);
  (** the mask never holds the two signals *)
  blocked_blockable k : blockable (blocked k) = blocked k;
  (** pthread_sigmask(3): with a valid [how] the call succeeds *)
  sigmask_ok how set k : exists k', pthread_sigmask how set k = (0, blocked k, k') /\
    blocked k' = new_mask how set (blocked k) /\ open_sigfds k' = open_sigfds k;
  (** signalfd(2), close(2) *)
  signalfd_ok set k fd k' : signalfd set k = (SOk fd, k') ->
    0 <= fd /\ open_sigfds k !! fd = None /\ open_sigfds k' = <[fd := set]> (open_sigfds k) /\ blocked k' = blocked k;
  signalfd_err set k e k' : signalfd set k = (SErr e, k') -> open_sigfds k' = open_sigfds k /\ blocked k' = blocked k;
  sig_close_any fd k r k' : sig_close fd k = (r, k') ->
    open_sigfds k' = delete fd (open_sigfds k) /\ blocked k' = blocked k;
}.

Section Mask.
Context {K : Type} `{SignalLaws K}.

Definition requested (sigs : list Z) : gset Z := foldl sigaddset ∅ sigs.

(** The signals a program may name. *)
Definition nameable (x : Z) : Prop := 1 <= x <= 64 /\ x <> 32 /\ x <> 33.

Lemma sigaddset_in mask sig x : x ∈ sigaddset mask sig <-> x ∈ mask \/ x = sig /\ nameable sig.
Proof.
  unfold sigaddset, nameable.
  destruct (Z.leb_spec 1 sig), (Z.leb_spec sig 64), (Z.eqb_spec sig 32), (Z.eqb_spec sig 33); cbn; set_solver by lia.
Qed.

Lemma requested_in sigs x : x ∈ requested sigs <-> x ∈ sigs /\ nameable x.
Proof.
  unfold requested. assert (forall m, x ∈ foldl sigaddset m sigs <-> x ∈ m \/ x ∈ sigs /\ nameable x) as E.
  { induction sigs as [|a sigs IH]; intros m; cbn [foldl]; [set_solver|]. rewrite IH, sigaddset_in. set_solver. }
  rewrite E. set_solver.
Qed.

Lemma create_spec sigs k res k' :
  create sigs k = (res, k') ->
  match res with
  | Ok s => mask s = requested sigs /\ old_mask s = blocked k /\ 0 <= fd s /\ open_sigfds k !! fd s = None /\
      open_sigfds k' = <[fd s := requested sigs]> (open_sigfds k) /\ blocked k' = blocked k ∪ blockable (requested sigs)
  | Err _ => blocked k' = blocked k /\ open_sigfds k' = open_sigfds k
  end.
Proof.
  unfold create. destruct (sigmask_ok SIG_BLOCK (foldl sigaddset ∅ sigs) k) as (k1 & -> & B1 & O1). cbn [Z.ltb Z.compare].
  destruct (signalfd _ k1) as [[f|e] k2] eqn:Es.
  - apply signalfd_ok in Es as (Hf & Hn & O2 & B2). intros [= <- <-]. cbn.
    rewrite <- O1. split_and!; try done. by rewrite B2.
  - apply signalfd_err in Es as [O2 B2]. destruct (sigmask_ok SIG_SETMASK (blocked k) k2) as (k3 & -> & B3 & O3).
    intros [= <- <-]. split; [rewrite B3; apply blocked_blockable|congruence].
Qed.

Lemma close_spec s k res s' k' :
  0 <= fd s -> close s k = (res, s', k') ->
  fd s' = -1 /\ blocked k' = blockable (old_mask s) /\ open_sigfds k' = delete (fd s) (open_sigfds k).
Proof.
  intros Hfd. unfold close. destruct (Z.ltb_spec (fd s) 0); [lia|].
  destruct (sig_close (fd s) k) as [r k1] eqn:Ec. apply sig_close_any in Ec as [O1 B1]. cbn [old_mask].
  destruct (sigmask_ok SIG_SETMASK (old_mask s) k1) as (k2 & -> & B2 & O2). intros [= <- <- <-].
  split_and!; [done|exact B2|congruence].
Qed.

Lemma destroy_spec s k :
  0 <= fd s ->
  blocked (destroy s k) = blockable (old_mask s) /\ open_sigfds (destroy s k) = delete (fd s) (open_sigfds k).
Proof. intros Hf. unfold destroy. destruct (close s k) as [[r s'] k'] eqn:E. by apply close_spec in E as (_ & ? & ?). Qed.

(** A set that was moved from, or closed, has nothing left to close. *)
Lemma destroy_inert s k : fd s < 0 -> destroy s k = k.
Proof. intros Hf. unfold destroy, close. by destruct (Z.ltb_spec (fd s) 0); [|lia]. Qed.

(** C34: the life of a [SignalSet].  Creation blocks the requested signals a
    program may name on top of the current mask and opens one new descriptor for exactly
    them, or fails and leaves mask and descriptors as they were; closing,
    whatever happened to the mask in between, puts back the mask that was in
    force before creation, closes that descriptor and makes a second close and
    the destructors of moved-from objects do nothing. *)
Theorem signal_mask_restored sigs k res k1 :
  create sigs k = (res, k1) ->
  match res with
  | Err _ => blocked k1 = blocked k /\ open_sigfds k1 = open_sigfds k
  | Ok s =>
    (forall x, x ∈ blocked k1 <-> x ∈ blocked k \/ x ∈ sigs /\ nameable x /\ x <> 9 /\ x <> 19) /\
    open_sigfds k !! fd s = None /\ open_sigfds k1 = <[fd s := mask s]> (open_sigfds k) /\
    forall k2 res2 s2 k3, close s k2 = (res2, s2, k3) ->
      blocked k3 = blocked k /\ open_sigfds k3 = delete (fd s) (open_sigfds k2) /\
      close s2 k3 = (Ok tt, s2, k3) /\ destroy (move_construct s).2 k3 = k3
  end.
Proof.
  intros E%create_spec. destruct res as [s|e]; [|done]. destruct E as (Em & Eo & Hf & Hn & O1 & B1).
  split_and!.
  - intros x. rewrite B1, elem_of_union. unfold blockable. rewrite elem_of_difference, requested_in. set_solver.
  - done.
  - by rewrite Em.
  - intros k2 res2 s2 k3 Ec. apply close_spec in Ec as (Ef & B3 & O3); [|done].
    rewrite Eo, blocked_blockable in B3. split_and!; [done|done| |by apply destroy_inert].
    unfold close. by rewrite Ef.
Qed.

(** A second [add_signals] on a loop undoes the first one's mask and its
    own.  Replacing the held set destroys it after the new one was made, which
    puts back the mask from before both: the signals of the set the loop now
    waits on are not blocked, and when that set is destroyed the signals of the
    first one stay blocked. *)
Theorem add_signals_again_unblocks sigs1 sigs2 k held1 k1 held2 k2 :
  add_signals sigs1 None k = (Ok tt, held1, k1) ->
  add_signals sigs2 held1 k1 = (Ok tt, held2, k2) ->
  blocked k2 = blocked k /\
  exists s, held2 = Some s /\ mask s = requested sigs2 /\ open_sigfds k2 !! fd s = Some (mask s) /\
    blocked (destroy s k2) = blocked k ∪ blockable (requested sigs1).
Proof.
  unfold add_signals. destruct (create sigs1 k) as [[s1|e1] ka] eqn:E1; [|done]. cbn [move_construct].
  rewrite destroy_inert by done. intros [= <- <-].
  destruct (create sigs2 ka) as [[s2|e2] kb] eqn:E2; [|done]. rewrite destroy_inert by done. intros [= <- <-].
  apply create_spec in E1 as (_ & Eo1 & Hf1 & _ & O1 & B1). apply create_spec in E2 as (Em2 & Eo2 & Hf2 & Hn2 & O2 & B2).
  destruct (destroy_spec s1 kb Hf1) as [B3 O3]. split.
  { rewrite B3, Eo1. apply blocked_blockable. }
  exists s2. split_and!; [done|done| |].
  - rewrite O3, O2. assert (fd s2 <> fd s1).
    { intros E. rewrite O1, E, lookup_insert_eq in Hn2. done. }
    rewrite lookup_delete_ne, lookup_insert_eq by done. by rewrite Em2.
  - destruct (destroy_spec s2 (destroy s1 kb) Hf2) as [B4 _]. by rewrite B4, Eo2, blocked_blockable.
Qed.

End Mask.

(** ** Waiting for a signal *)

Section Wait.
Context {K : Type} `{EL : EpollLaws K} `{SignalKernel K}.

(** C35: [co_await loop.wait_signal()].  The coroutine is suspended exactly when
    the registration is not refused; a refused wait resumes at once with the
    registration's own error ([EBADF] for a closed set, [EBUSY] when another
    coroutine waits already, else the error of [epoll_ctl]) and leaves all
    waiters as they were.  Otherwise it is the reader of the signalfd, and any
    later poll that reports the descriptor succeeds, queues the coroutine,
    removes the registration, and makes [await_resume] give what reading the
    signalfd gives. *)
Theorem signal_wait_delivers h s rd r m (k : K) susp r1 m1 k1 :
  signal_await_suspend (Some h) s rd r m k = (susp, r1, m1, k1) ->
  susp = negb (has_value (refusal DRead (fd s) r k)) /\
  if susp then
    waiter r1 (fd s) DRead = Some (mkPending (Some h) (Some rd) None Ready) /\ m1 = m /\
    forall timeout r2 m2 (k2 : K) evs k2',
      waiter r2 (fd s) DRead = waiter r1 (fd s) DRead -> valid_waiters m2 r2 ->
      epoll_wait (epoll_fd r2) kMaxEventsPerPoll (timeout_ms timeout) k2 = (SOk evs, k2') -> selects evs (fd s) DRead ->
      exists n r3 m3 k3, poll timeout r2 m2 k2 = Some (Ok n, r3, m3, k3) /\
        Some h ∈ ready r3 /\ waiter r3 (fd s) DRead = None /\
        signal_await_resume s rd m3 k3 = Some (read_signal s k3)
  else exists e, refusal DRead (fd s) r k = Some e /\
    signal_await_resume s rd m1 k1 = Some (Err e, k1) /\ forall fd d, waiter r1 fd d = waiter r fd d.
Proof.
  unfold signal_await_suspend, register_read.
  pose proof (register_refusal DRead (fd s) (mkPending (Some h) (Some rd) None Ready) r k) as Hre.
  destruct (register DRead _ _ _ _) as [[[u|e] r'] k'] eqn:Er; cbn in Hre;
    destruct (refusal DRead (fd s) r k) as [e'|]; try done.
  - intros [= <- <- <- <-]. split; [done|]. apply register_frame in Er as [_ Hw]. specialize (Hw (fd s) DRead) as Hs.
    cbn [is_ok andb] in Hs. rewrite bool_decide_true in Hs by done. split_and!; [done|done|].
    intros timeout r2 m2 k2 evs k2' Hsame V Ew Hsel. rewrite Hs in Hsame.
    destruct (wait_ok _ _ _ _ _ _ Ew) as (Hnd & _ & _ & Hin). unfold poll. rewrite Ew.
    destruct (handle_events_spec evs r2 m2 0 k2') as (r3 & m3 & c3 & k3 & hs & E & D); [done| |done|].
    { apply Forall_forall. intros x Hx%Hin. tauto. }
    rewrite E. cbn [mbind option_bind]. apply event_hits_selects in Hsel as Hh. exists c3, r3, m3, k3. split_and!; [done|..].
    + rewrite (disp_ready _ _ _ _ _ _ _ _ _ D), elem_of_app. right. by eapply (disp_plain _ _ _ _ _ _ _ _ _ D).
    + by rewrite (disp_waiter _ _ _ _ _ _ _ _ _ D), Hh.
    + unfold signal_await_resume. rewrite (disp_stored _ _ _ _ _ _ _ _ _ D _ _ _ _ Hsame Hh) by done. done.
  - injection Hre as ->. intros [= <- <- <- <-]. split; [done|]. exists e'. split_and!; [done|..].
    + unfold signal_await_resume. cbn. by rewrite lookup_insert_eq.
    + apply register_frame in Er as [_ Hw]. exact Hw.
Qed.

End Wait.

(** ** The interface can be implemented: a thread with a mask and descriptors *)

Module SimSignal.

Record Sim := mkSim { masked : gset Z; fds : gmap Z (gset Z) }.

Definition sim_mask (s : Sim) : gset Z := blockable (masked s).

#[export] Instance sim_kernel : SignalKernel Sim := {
  pthread_sigmask how set s := (0, sim_mask s, mkSim (new_mask how set (sim_mask s)) (fds s));
  signalfd set s :=
    let fd := Z.of_nat (fresh (set_map (C := gset Z) (D := gset nat) Z.to_nat (dom (fds s)))) in
    (SOk fd, mkSim (masked s) (<[fd := set]> (fds s)));
  sig_read _ s := (SErr EAGAIN, s);
  sig_close fd s := (match fds s !! fd with Some _ => SOk tt | None => SErr EBADF end, mkSim (masked s) (delete fd (fds s)));
  errno _ := 0;
}.

Lemma blockable_idem s : blockable (blockable s) = blockable s.
Proof. unfold blockable. set_solver. Qed.

#[export] Program Instance sim_laws : SignalLaws Sim := { blocked := sim_mask; open_sigfds := fds }.
Next Obligation. cbn. intros k. apply blockable_idem. Qed.
Next Obligation.
  cbn. intros how set k. eexists. split_and!; [reflexivity| |reflexivity]. unfold sim_mask. cbn [masked].
  destruct how; unfold blockable; set_solver.
Qed.
Next Obligation.
  cbn. intros set k fd k' [= <- <-]. cbn. split_and!; [lia| |done|done].
  apply not_elem_of_dom. intros Hd.
  pose proof (is_fresh (set_map (C := gset Z) (D := gset nat) Z.to_nat (dom (fds k)))) as Hf. apply Hf, elem_of_map.
  eexists. split; [|exact Hd]. by rewrite Nat2Z.id.
Qed.
Next Obligation. done. Qed.
Next Obligation. cbn. intros fd k r k' [= _ <-]. done. Qed.

End SimSignal.

Section Witness.
Import SimSignal SimEpoll.

Definition thread0 : SimSignal.Sim := SimSignal.mkSim {[ 13 ]} ∅.

(** SIGINT and SIGTERM are added to a mask that holds SIGPIPE. *)
Lemma signal_mask_restored_witness :
  exists s k1, create [2; 15] thread0 = (Ok s, k1) /\ 15 ∈ blocked k1 /\ 13 ∈ blocked k1 /\
    blocked (destroy s k1) = blocked thread0.
Proof.
  destruct (create [2; 15] thread0) as [[s|e] k1] eqn:E; [|vm_compute in E; done].
  destruct (signal_mask_restored [2; 15] thread0 (Ok s) k1 E) as (Hin & _ & _ & Hc). exists s, k1. split; [done|]. split_and!.
  - apply Hin. right. unfold nameable. split; [set_solver|lia].
  - apply Hin. left. vm_compute. done.
  - unfold destroy. destruct (close s k1) as [[r s'] k2] eqn:Ec. cbn [snd]. by destruct (Hc _ _ _ _ Ec) as [-> _].
Defined.

Lemma add_signals_again_unblocks_witness :
  exists held1 k1 held2 k2, add_signals [2] None thread0 = (Ok tt, held1, k1) /\
    add_signals [15] held1 k1 = (Ok tt, held2, k2) /\ 15 ∈ blocked (create [15] thread0).2 /\ 15 ∉ blocked k2.
Proof.
  destruct (add_signals [2] None thread0) as [[r1 held1] k1] eqn:E1.
  destruct (add_signals [15] held1 k1) as [[r2 held2] k2] eqn:E2.
  assert (r1 = Ok tt) as -> by (vm_compute in E1; congruence).
  assert (r2 = Ok tt) as ->.
  { clear -E1 E2. vm_compute in E1. injection E1 as <- <-. vm_compute in E2. congruence. }
  exists held1, k1, held2, k2. split; [done|]. split; [done|]. split; [vm_compute; done|].
  destruct (add_signals_again_unblocks [2] [15] thread0 held1 k1 held2 k2 E1 E2) as [-> _]. vm_compute. naive_solver.
Defined.

(** A kernel in which signal 15 is pending on descriptor 5. *)
#[local] Instance pending_kernel : SignalKernel SimEpoll.Sim := {
  pthread_sigmask _ _ s := (0, ∅, s);
  signalfd _ s := (SOk 5, s);
  sig_read _ s := (SOk (sizeof_siginfo, mkRaw 15 100 1000), s);
  sig_close _ s := (SOk tt, s);
  errno _ := 0;
}.

Definition term_set : SignalSet := mkSet 5 {[ 15 ]} ∅.
Definition idle_reactor : Reactor := mkReactor 3 [] [].
Definition awaiter_mem : Mem := mkMem ∅ {[ 7%nat := Err not_completed ]} ∅.
Definition pending_k : SimEpoll.Sim := SimEpoll.mkSim ∅ [(5, EPOLLIN)].

(** One coroutine is woken by the signal; a second one that waits meanwhile is
    told that the direction is taken. *)
Lemma signal_wait_delivers_witness :
  exists r1 m1 k1 n r3 m3 k3,
    signal_await_suspend (Some 1%nat) term_set 7%nat idle_reactor awaiter_mem pending_k = (true, r1, m1, k1) /\
    poll 0 r1 m1 k1 = Some (Ok n, r3, m3, k3) /\ Some 1%nat ∈ ready r3 /\
    signal_await_resume term_set 7%nat m3 k3 = Some (Ok (mkInfo 15 100 1000), k3) /\
    exists r4 m4 k4, signal_await_suspend (Some 2%nat) term_set 8%nat r1 m1 k1 = (false, r4, m4, k4) /\
      signal_await_resume term_set 8%nat m4 k4 = Some (Err (already_pending DRead), k4).
Proof.
  destruct (signal_await_suspend (Some 1%nat) term_set 7%nat idle_reactor awaiter_mem pending_k)
    as [[[susp r1] m1] k1] eqn:E.
  assert (susp = true) as -> by (vm_compute in E; congruence).
  destruct (signal_wait_delivers 1%nat term_set 7%nat idle_reactor awaiter_mem pending_k true r1 m1 k1 E) as (_ & Hw & -> & Hp).
  assert (epoll_wait (epoll_fd r1) kMaxEventsPerPoll (timeout_ms 0) k1 = (SOk [(5, EPOLLIN)], (SimEpoll.sim_wait 256 k1).2)) as Ew.
  { vm_compute in E. injection E as <- <-. vm_compute. reflexivity. }
  destruct (Hp 0 r1 awaiter_mem k1 [(5, EPOLLIN)] (SimEpoll.sim_wait 256 k1).2 eq_refl) as (n & r3 & m3 & k3 & Epoll & Hr & _ & Hres).
  - intros fd' d w. vm_compute in E. injection E as <- <-. unfold waiter. destruct (fd' <? 0); [done|].
    destruct (Z.to_nat fd') as [|[|[|[|[|[|n]]]]]]; cbn; try (destruct d; done).
    destruct d; [|done]. intros [= <-]. split; intros p Hx; cbn in Hx; [done|]. injection Hx as <-. cbn. eauto.
  - exact Ew.
  - exists EPOLLIN. split; [constructor|by left].
  - exists r1, awaiter_mem, k1, n, r3, m3, k3. split_and!; [done|done|done|rewrite Hres; reflexivity|].
    destruct (signal_await_suspend (Some 2%nat) term_set 8%nat r1 awaiter_mem k1) as [[[susp r4] m4] k4] eqn:E4.
    assert (refusal DRead (Signal.fd term_set) r1 k1 = Some (already_pending DRead)) as Hre.
    { unfold refusal. rewrite Hw. reflexivity. }
    destruct (signal_wait_delivers 2%nat term_set 8%nat r1 awaiter_mem k1 susp r4 m4 k4 E4) as [Hs Hrest].
    rewrite Hre in Hs. cbn in Hs. subst susp. destruct Hrest as (e & He & Hr4 & _).
    rewrite Hre in He. injection He as <-. by exists r4, m4, k4.
Defined.

End Witness.
End SignalProps.
