(* ===== verification/World.v ===== *)
(** * World: the state one event-loop thread works on

    The data of [EventLoop] ([async/event_loop.hpp]) with the reactor and the
    timer wheel it owns, the memory of the coroutine frames, the
    [std::stop_source] states cancellation goes through, and the kernel. *)

From S2P Require Import Prelude Core TimerWheel Reactor Signal.

(** ** Stop states

    A [std::stop_token] is null or names a stop state.  The callbacks are the
    three closures that the awaiters register, with what they capture. *)

Inductive CallbackKind :=
| CbIo (fd dir : Z)                 (* [cancel_io_wait]; also [AcceptAwaiter] *)
| CbTimed (fd dir timer_id : Z)     (* [TimedReadyAwaiter] *)
| CbSleep (timer_id : Z).           (* [SleepAwaiter] *)

Record Callback := mkCallback { cb_state : nat; cb_handle : handle; cb_kind : CallbackKind }.

Record StopState := mkStop { requested : bool; callbacks : list Callback }.

Abbreviation stop_token := (option nat).

(** ** The loop *)

(** [OwnedTask]: the stored closure holds the [Task] whose handle this is. *)
Record OwnedTask := mkOwned { ot_handle : handle }.

Record Loop := mkLoop {
  reactor : Reactor.Reactor;
  timer : Timer.Wheel;
  signals : option Signal.SignalSet;
  owned_tasks : list OwnedTask;
  ready_queue : list handle;
  stop_requested : bool;
  graceful_source : nat;
  cross_core_fd : Z;
  cross_core_queue : list OwnedTask;
}.

Definition set_reactor (x : Reactor.Reactor) (l : Loop) : Loop :=
  mkLoop x (timer l) (signals l) (owned_tasks l) (ready_queue l) (stop_requested l)
         (graceful_source l) (cross_core_fd l) (cross_core_queue l).
Definition set_timer (x : Timer.Wheel) (l : Loop) : Loop :=
  mkLoop (reactor l) x (signals l) (owned_tasks l) (ready_queue l) (stop_requested l)
         (graceful_source l) (cross_core_fd l) (cross_core_queue l).
Definition set_signals (x : option Signal.SignalSet) (l : Loop) : Loop :=
  mkLoop (reactor l) (timer l) x (owned_tasks l) (ready_queue l) (stop_requested l)
         (graceful_source l) (cross_core_fd l) (cross_core_queue l).
Definition set_tasks (o : list OwnedTask) (q : list handle) (x : list OwnedTask) (l : Loop) : Loop :=
  mkLoop (reactor l) (timer l) (signals l) o q (stop_requested l)
         (graceful_source l) (cross_core_fd l) x.
Definition set_ready_queue (q : list handle) (l : Loop) : Loop :=
  set_tasks (owned_tasks l) q (cross_core_queue l) l.
Definition set_stop_requested (x : bool) (l : Loop) : Loop :=
  mkLoop (reactor l) (timer l) (signals l) (owned_tasks l) (ready_queue l) x
         (graceful_source l) (cross_core_fd l) (cross_core_queue l).

(** [notify]: append a handle to the ready queue. *)
Definition notify (h : handle) (l : Loop) : Loop := set_ready_queue (ready_queue l ++ [h]) l.

(** [cancel_tokens]: the [cancel_token_] of the promises that were given one;
    [installed]: the thread-local [g_event_loop], [g_reactor] and [g_timer]
    point to this loop. *)
Record World (K : Type) := mkWorld {
  loop : Loop;
  mem : Mem;
  stops : gmap nat StopState;
  cancel_tokens : gmap nat stop_token;
  installed : bool;
  kern : K;
}.
Arguments mkWorld {K} _ _ _ _ _ _.
Arguments loop {K} _.
Arguments mem {K} _.
Arguments stops {K} _.
Arguments cancel_tokens {K} _.
Arguments installed {K} _.
Arguments kern {K} _.

Section Setters.
Context {K : Type}.
Definition set_loop (x : Loop) (W : World K) : World K :=
  mkWorld x (mem W) (stops W) (cancel_tokens W) (installed W) (kern W).
Definition set_mem (x : Mem) (W : World K) : World K :=
  mkWorld (loop W) x (stops W) (cancel_tokens W) (installed W) (kern W).
Definition set_stops (x : gmap nat StopState) (W : World K) : World K :=
  mkWorld (loop W) (mem W) x (cancel_tokens W) (installed W) (kern W).
Definition set_cancel_tokens (x : gmap nat stop_token) (W : World K) : World K :=
  mkWorld (loop W) (mem W) (stops W) x (installed W) (kern W).
Definition set_installed (x : bool) (W : World K) : World K :=
  mkWorld (loop W) (mem W) (stops W) (cancel_tokens W) x (kern W).
Definition set_kern (x : K) (W : World K) : World K :=
  mkWorld (loop W) (mem W) (stops W) (cancel_tokens W) (installed W) x.
End Setters.
