(* ===== verification/Awaiters.v ===== *)
(** * Awaiters: the leaf awaiters and preemptive cancellation

    [SleepAwaiter] ([async/timer.hpp]), the readiness, timed and connect
    awaiters with [cancel_io_wait] ([net/io_awaiters.hpp]) and [AcceptAwaiter]
    ([net/accept_awaiter.hpp]): how a suspended coroutine enters the timer
    wheel, the reactor and a stop state, and how each of them wakes it. *)

From S2P Require Import Prelude Core TimerWheel Reactor World.

Module Awaiters.

Section Awaiters.
Context {K : Type} `{Reactor.EpollKernel K}.

(** ** Cancellation *)

Definition io_cancelled_error : SystemError := make_error ECANCELED "io operation cancelled".

(** [if (g_event_loop && handle) g_event_loop->notify(handle);] *)
Definition notify_handle (h : handle) (W : World K) : World K :=
  if installed W && has_value h then set_loop (notify h (loop W)) W else W.

Definition reactor_deregister (fd dir : Z) (W : World K) : World K :=
  let '(r, k) := Reactor.deregister_dir fd dir (reactor (loop W)) (kern W) in
  set_kern k (set_loop (set_reactor r (loop W)) W).

Definition timer_cancel (id : Z) (W : World K) : World K :=
  set_loop (set_timer (Timer.cancel id (timer (loop W))).2 (loop W)) W.

Definition cancel_io_wait (fd dir : Z) (state : nat) (h : handle) (W : World K) : option (World K) :=
  v ← ws_cells (mem W) !! state;
  if decide (v = Pending) then
    let W := set_mem (set_ws state Cancelled (mem W)) W in
    let W := reactor_deregister fd dir W in
    Some (notify_handle h W)
  else Some W.

(** The closure of [TimedReadyAwaiter]. *)
Definition cancel_timed_wait (fd dir id : Z) (state : nat) (h : handle) (W : World K) : option (World K) :=
  v ← ws_cells (mem W) !! state;
  if decide (v = Pending) then
    let W := set_mem (set_ws state Cancelled (mem W)) W in
    let W := timer_cancel id W in
    let W := reactor_deregister fd dir W in
    Some (notify_handle h W)
  else Some W.

(** The closure of [SleepAwaiter]; the handle goes through the wheel's queue. *)
Definition cancel_sleep (id : Z) (state : nat) (h : handle) (W : World K) : option (World K) :=
  v ← ws_cells (mem W) !! state;
  if decide (v = Pending) then
    let W := set_mem (set_ws state Cancelled (mem W)) W in
    let W := timer_cancel id W in
    Some (if has_value h then set_loop (set_timer (Timer.wake h (timer (loop W))) (loop W)) W else W)
  else Some W.

Definition run_callback (cb : Callback) (W : World K) : option (World K) :=
  match cb_kind cb with
  | CbIo fd dir => cancel_io_wait fd dir (cb_state cb) (cb_handle cb) W
  | CbTimed fd dir id => cancel_timed_wait fd dir id (cb_state cb) (cb_handle cb) W
  | CbSleep id => cancel_sleep id (cb_state cb) (cb_handle cb) W
  end.

Fixpoint run_callbacks (cbs : list Callback) (W : World K) : option (World K) :=
  match cbs with
  | [] => Some W
  | cb :: cbs => W ← run_callback cb W; run_callbacks cbs W
  end.

(** ** [std::stop_source] and [std::stop_callback] *)

(** [request_stop()]: the first request runs the registered callbacks, on the
    calling thread. *)
Definition request_stop (s : nat) (W : World K) : option (World K) :=
  st ← stops W !! s;
  if requested st then Some W
  else run_callbacks (callbacks st) (set_stops (<[s := mkStop true []]> (stops W)) W).

Definition stop_possible (t : stop_token) : bool := has_value t.

(** [cancel_cb_.emplace(token_, f)]: a callback on a stop state that was
    already requested runs at once. *)
Definition emplace_callback (t : stop_token) (cb : Callback) (W : World K) : option (World K) :=
  match t with
  | None => Some W
  | Some s =>
    st ← stops W !! s;
    if requested st then run_callback cb W
    else Some (set_stops (<[s := mkStop false (callbacks st ++ [cb])]> (stops W)) W)
  end.

(** [cancel_cb_.reset()]: the callback of the awaiter owning [state]. *)
Definition reset_callback (state : nat) (W : World K) : World K :=
  set_stops ((fun st => mkStop (requested st) (filter (fun cb => cb_state cb <> state) (callbacks st))) <$> stops W) W.

(** ** The awaiter objects

    [aw_state] and [aw_readiness] are the addresses of [state_] and
    [readiness_]. *)

Record Awaiter := mkAwaiter {
  aw_fd : Z;
  aw_state : nat;
  aw_readiness : nat;
  aw_token : stop_token;
}.

Definition set_cancellation (t : stop_token) (a : Awaiter) : Awaiter :=
  mkAwaiter (aw_fd a) (aw_state a) (aw_readiness a) t.

(** Construction of an awaiter: [state_] is [Pending], [readiness_] an error. *)
Definition construct (not_completed : string) (a : Awaiter) (W : World K) : World K :=
  set_mem (set_res (aw_readiness a) (Err (make_error ECANCELED not_completed))
            (set_ws (aw_state a) Pending (mem W))) W.

(** The awaiters' constructors, with the members' initial values: [s] and [r] are
    the addresses of [state_] and [readiness_]. *)
Definition make_awaiter (not_completed : string) (fd : Z) (s r : nat) (W : World K) : Awaiter * World K :=
  let a := mkAwaiter fd s r None in (a, construct not_completed a W).
Definition make_read_ready := make_awaiter "read readiness not completed".
Definition make_write_ready := make_awaiter "write readiness not completed".
Definition make_connect := make_awaiter "connect not completed".
Definition make_accept := make_awaiter "accept not completed".
Definition make_timed := make_awaiter "timed readiness not completed".

Definition register_waiter (d : Reactor.Dir) (a : Awaiter) (h : handle) (W : World K) : Result unit * World K :=
  let '(res, r, k) :=
    Reactor.register d (aw_fd a)
      (Reactor.mkPending h (Some (aw_readiness a)) (Some (aw_state a)) Ready) (reactor (loop W)) (kern W) in
  (res, set_kern k (set_loop (set_reactor r (loop W)) W)).

Definition store_readiness (a : Awaiter) (v : Result Z) (W : World K) : World K :=
  set_mem (set_res (aw_readiness a) v (mem W)) W.

(** [ReadReadyAwaiter], [WriteReadyAwaiter], [ConnectAwaiter] and
    [AcceptAwaiter] suspend alike; the boolean says whether the coroutine
    stays suspended. *)
Definition io_await_suspend (d : Reactor.Dir) (a : Awaiter) (h : handle) (W : World K) : option (bool * World K) :=
  match register_waiter d a h W with
  | (Err e, W) => Some (false, store_readiness a (Err e) W)
  | (Ok _, W) =>
    W ← emplace_callback (aw_token a) (mkCallback (aw_state a) h (CbIo (aw_fd a) (Reactor.dir_event d))) W;
    Some (true, W)
  end.

Definition write_ready_await_suspend (a : Awaiter) (h : handle) (W : World K) := io_await_suspend Reactor.DWrite a h W.

(** The common part of [await_resume]. *)
Definition io_await_resume (a : Awaiter) (W : World K) : option (Result unit * World K) :=
  let W := reset_callback (aw_state a) W in
  v ← ws_cells (mem W) !! aw_state a;
  if decide (v = Cancelled) then Some (Err io_cancelled_error, W)
  else
    rd ← res_cells (mem W) !! aw_readiness a;
    match rd with
    | Err e => Some (Err e, W)
    | Ok _ => Some (Ok tt, W)
    end.

(** ** [TimedReadyAwaiter] *)

Definition timed_await_suspend (d : Reactor.Dir) (timeout : Z) (a : Awaiter) (h : handle) (W : World K)
  : option (bool * Z * World K) :=
  if timeout <=? 0 then Some (false, 0, set_mem (set_ws (aw_state a) TimedOut (mem W)) W)
  else
    sc ← Timer.schedule timeout h (Some (aw_state a)) TimedOut (timer (loop W));
    let '(id, t) := sc in
    let W := set_loop (set_timer t (loop W)) W in
    match register_waiter d a h W with
    | (Err e, W) => Some (false, id, store_readiness a (Err e) (timer_cancel id W))
    | (Ok _, W) =>
      W ← emplace_callback (aw_token a)
            (mkCallback (aw_state a) h (CbTimed (aw_fd a) (Reactor.dir_event d) id)) W;
      Some (true, id, W)
    end.

Definition timed_out_error (d : Reactor.Dir) : SystemError :=
  make_error ETIMEDOUT match d with Reactor.DRead => "read timeout" | Reactor.DWrite => "write timeout" end.

Definition timed_await_resume (d : Reactor.Dir) (id : Z) (a : Awaiter) (W : World K) : option (Result unit * World K) :=
  let W := reset_callback (aw_state a) W in
  v ← ws_cells (mem W) !! aw_state a;
  if decide (v = Cancelled) then Some (Err io_cancelled_error, timer_cancel id W)
  else if decide (v = TimedOut) then
    Some (Err (timed_out_error d), reactor_deregister (aw_fd a) (Reactor.dir_event d) W)
  else
    let W := timer_cancel id W in
    rd ← res_cells (mem W) !! aw_readiness a;
    match rd with
    | Err e => Some (Err e, W)
    | Ok _ => Some (Ok tt, W)
    end.

(** ** [SleepAwaiter] *)

Definition sleep_await_ready (delay : Z) : bool := delay <=? 0.

Definition sleep_await_suspend (delay : Z) (a : Awaiter) (h : handle) (W : World K) : option (Z * World K) :=
  sc ← Timer.schedule delay h (Some (aw_state a)) Ready (timer (loop W));
  let '(id, t) := sc in
  let W := set_loop (set_timer t (loop W)) W in
  W ← (if stop_possible (aw_token a)
       then emplace_callback (aw_token a) (mkCallback (aw_state a) h (CbSleep id)) W else Some W);
  Some (id, W).

Definition sleep_cancelled : SystemError := make_error ECANCELED "sleep cancelled".

Definition sleep_await_resume (a : Awaiter) (W : World K) : option (Result unit * World K) :=
  let W := reset_callback (aw_state a) W in
  v ← ws_cells (mem W) !! aw_state a;
  if decide (v = Cancelled) then Some (Err sleep_cancelled, W) else Some (Ok tt, W).

(** [sleep_for]: the awaiter and its delay; it has no [readiness_]. *)
Definition sleep_for (delay : Z) (s : nat) (W : World K) : Awaiter * Z * World K :=
  (mkAwaiter (-1) s s None, delay, set_mem (set_ws s Pending (mem W)) W).

End Awaiters.
End Awaiters.
