(* ===== verification/AwaiterProps.v ===== *)
(** * AwaiterProps: one wake-up per suspension

    A suspended coroutine can be woken by the reactor, by the timer wheel and
    by its stop callback.  The invariant [Inv] says that exactly one of them
    does: a pending wait has no handle in any queue, a settled one has exactly
    one, and whoever settled it no longer refers to it. *)

From S2P Require Import Prelude Core TimerWheel TimerInv TimerSpec Reactor ReactorProps World Awaiters.

Module AwaiterProps.
Import Awaiters ReactorProps TimerInv.

(** ** A suspended wait *)

(** [ReadReadyAwaiter], [WriteReadyAwaiter], [ConnectAwaiter] and
    [AcceptAwaiter] wait for the reactor, [SleepAwaiter] for the wheel and
    [TimedReadyAwaiter] for both. *)
Inductive Kind := KIo | KTimed | KSleep.

Record Wait := mkWait {
  w_kind : Kind;
  w_handle : nat;
  w_state : nat;
  w_res : nat;
  w_fd : Z;
  w_dir : Reactor.Dir;
  w_timer : Z;
}.

(** What the wait's timer completes with. *)
Definition w_completion (a : Wait) : WaitState := match w_kind a with KSleep => Ready | _ => TimedOut end.
Definition w_io (a : Wait) : bool := match w_kind a with KSleep => false | _ => true end.
Definition w_timed (a : Wait) : bool := match w_kind a with KIo => false | _ => true end.

Lemma wait_ok a :
  w_completion a <> Pending /\ w_completion a <> Cancelled /\ (w_io a = true -> w_completion a <> Ready).
Proof. unfold w_completion, w_io. by destruct (w_kind a). Qed.

Definition count (h : nat) (l : list handle) : nat := length (filter (fun x => x = Some h) l).

Lemma count_app h l1 l2 : count h (l1 ++ l2) = (count h l1 + count h l2)%nat.
Proof. unfold count. by rewrite filter_app, length_app. Qed.

Lemma count_single h x : count h [x] = if decide (x = Some h) then 1%nat else 0%nat.
Proof. unfold count. rewrite filter_cons. by case_decide. Qed.

Definition pending_token (p : nat) (m : Mem) : nat := if decide (ws_cells m !! p = Some Pending) then 1 else 0.

Definition tokens (a : Wait) (r : Reactor.Reactor) (w : Timer.Wheel) (q : list handle) (m : Mem) : nat :=
  count (w_handle a) (Timer.ready w) + count (w_handle a) (Reactor.ready r) + count (w_handle a) q +
  pending_token (w_state a) m.

(** The waiter and the timer entry that belong to the wait. *)
Definition own_waiter (a : Wait) (x : Reactor.PendingEntry) : Prop :=
  Reactor.pe_state x = Some (w_state a) \/ Reactor.pe_handle x = Some (w_handle a) \/
  Reactor.pe_result x = Some (w_res a).
Definition own_entry (a : Wait) (e : Timer.TimerEntry) : Prop :=
  Timer.te_state e = Some (w_state a) \/ Timer.te_handle e = Some (w_handle a).

Definition settled_by (a : Wait) (m : Mem) (c : WaitState) : Prop := ws_cells m !! w_state a = Some c.

Record Inv (a : Wait) (r : Reactor.Reactor) (w : Timer.Wheel) (q : list handle) (m : Mem) : Prop := {
  inv_live : frames m !! w_handle a = Some false;
  inv_cell : is_Some (ws_cells m !! w_state a);
  inv_waiter fd d x : waiter r fd d = Some x -> own_waiter a x ->
    x = Reactor.mkPending (Some (w_handle a)) (Some (w_res a)) (Some (w_state a)) Ready /\
    fd = w_fd a /\ d = w_dir a /\ w_io a = true /\ ~ settled_by a m Ready /\ ~ settled_by a m Cancelled;
  inv_entry id e : Timer.lookup w id = Some e -> own_entry a e ->
    Timer.te_state e = Some (w_state a) /\ Timer.te_handle e = Some (w_handle a) /\
    Timer.te_completion e = w_completion a /\ id = w_timer a /\ w_timed a = true /\
    ~ settled_by a m (w_completion a) /\ ~ settled_by a m Cancelled;
  inv_result : w_io a = true -> settled_by a m Ready -> res_cells m !! w_res a = Some (Ok 0);
  inv_timed : settled_by a m TimedOut -> w_kind a = KTimed;
  inv_tokens : tokens a r w q m = 1%nat;
}.

(** ** The reactor *)

Section Reactor.
Context {K : Type} `{Reactor.EpollKernel K}.

(** Shrinking the sets of waiters and entries and moving handles between the
    queues keeps the invariant. *)
Lemma Inv_weaken a r w q m r' w' q' :
  Inv a r w q m ->
  (forall fd d x, waiter r' fd d = Some x -> own_waiter a x -> waiter r fd d = Some x) ->
  (forall id e, Timer.lookup w' id = Some e -> own_entry a e -> Timer.lookup w id = Some e) ->
  tokens a r' w' q' m = tokens a r w q m ->
  Inv a r' w' q' m.
Proof.
  intros [] Hw He Ht. split; try done.
  - intros fd d x Hx Ho. eapply inv_waiter0; eauto.
  - intros id e Hx Ho. eapply inv_entry0; eauto.
  - congruence.
Qed.

(** A change of memory outside the wait's cells. *)
Lemma Inv_mem a r w q m m' :
  Inv a r w q m -> frames m' !! w_handle a = frames m !! w_handle a ->
  ws_cells m' !! w_state a = ws_cells m !! w_state a ->
  res_cells m' !! w_res a = res_cells m !! w_res a ->
  Inv a r w q m'.
Proof.
  intros [] Hf Hw Hr. split; unfold settled_by, tokens, pending_token in *; rewrite ?Hf, ?Hw, ?Hr; done.
Qed.

(** Settling a pending wait with [c], which queues its handle. *)
Lemma Inv_settle a r w q m r' w' q' m' c :
  Inv a r w q m -> settled_by a m Pending -> c <> Pending ->
  frames m' = frames m -> settled_by a m' c -> (c = TimedOut -> w_kind a = KTimed) ->
  (w_io a = true -> c = Ready -> res_cells m' !! w_res a = Some (Ok 0)) ->
  (forall fd d x, waiter r' fd d = Some x -> own_waiter a x ->
     waiter r fd d = Some x /\ c <> Ready /\ c <> Cancelled) ->
  (forall id e, Timer.lookup w' id = Some e -> own_entry a e ->
     Timer.lookup w id = Some e /\ c <> w_completion a /\ c <> Cancelled) ->
  (count (w_handle a) (Timer.ready w') + count (w_handle a) (Reactor.ready r') + count (w_handle a) q' =
   S (count (w_handle a) (Timer.ready w) + count (w_handle a) (Reactor.ready r) + count (w_handle a) q))%nat ->
  Inv a r' w' q' m'.
Proof.
  intros I Hp Hc Hf Hs Hto Hres Hw He Ht. unfold settled_by in *. split; unfold settled_by.
  - rewrite Hf. apply I.
  - rewrite Hs. eauto.
  - intros fd d x Hx Ho. destruct (Hw _ _ _ Hx Ho) as (Hx' & ? & ?).
    destruct (inv_waiter _ _ _ _ _ I _ _ _ Hx' Ho) as (-> & -> & -> & -> & _). rewrite Hs.
    split_and!; try done; congruence.
  - intros id e Hx Ho. destruct (He _ _ Hx Ho) as (Hx' & ? & ?).
    destruct (inv_entry _ _ _ _ _ I _ _ Hx' Ho) as (-> & -> & -> & -> & -> & _). rewrite Hs.
    split_and!; try done; congruence.
  - rewrite Hs. intros Hio [= ->]. by apply Hres.
  - rewrite Hs. intros [= ->]. by apply Hto.
  - pose proof (inv_tokens _ _ _ _ _ I) as E. unfold tokens, pending_token in *. rewrite Hs. rewrite Hp in E.
    rewrite decide_True in E by done. rewrite decide_False by congruence. lia.
Qed.

Lemma claim_frames s c m b m' : claim s c m = Some (b, m') -> frames m' = frames m /\ res_cells m' = res_cells m.
Proof.
  unfold claim. destruct s as [p|]; [|by intros [= _ <-]].
  destruct (ws_cells m !! p) as [v|]; [|done]. cbn. case_decide; by intros [= _ <-].
Qed.

Lemma claim_other s c m b m' p : claim s c m = Some (b, m') -> s <> Some p -> ws_cells m' !! p = ws_cells m !! p.
Proof.
  unfold claim. destruct s as [p'|]; [|by intros [= _ <-]]. intros E Hn.
  destruct (ws_cells m !! p') as [v|]; [|done]. cbn in E. case_decide; injection E as _ <-; [|done].
  cbn. rewrite lookup_insert_ne by congruence. done.
Qed.

Lemma claim_self p c m b m' :
  claim (Some p) c m = Some (b, m') ->
  (b = true /\ ws_cells m !! p = Some Pending /\ m' = set_ws p c m) \/
  (b = false /\ ws_cells m !! p <> Some Pending /\ m' = m).
Proof.
  unfold claim. destruct (ws_cells m !! p) as [v|] eqn:Ev; [|done]. cbn.
  case_decide; intros [= <- <-]; [left|right]; subst; naive_solver.
Qed.

Lemma store_res_frames s v m m' :
  store_res s v m = Some m' ->
  frames m' = frames m /\ ws_cells m' = ws_cells m /\
  (forall p, s <> Some p -> res_cells m' !! p = res_cells m !! p) /\
  (forall p, s = Some p -> res_cells m' !! p = Some v).
Proof.
  unfold store_res. destruct s as [p|]; [|by intros [= <-]].
  destruct (res_cells m !! p) as [u|]; [|done]. intros [= <-]. split_and!; try done.
  - intros p' Hn. cbn. by rewrite lookup_insert_ne by congruence.
  - intros p' [= <-]. cbn. by rewrite lookup_insert_eq.
Qed.

#[local] Instance own_waiter_dec a x : Decision (own_waiter a x).
Proof. unfold own_waiter. apply _. Defined.
#[local] Instance own_entry_dec a e : Decision (own_entry a e).
Proof. unfold own_entry. apply _. Defined.

Lemma Inv_remove_waiter a r w q m fd d :
  0 <= fd -> is_Some (Reactor.slots r !! Z.to_nat fd) ->
  Inv a r w q m -> Inv a (Reactor.upd_fd fd (Reactor.set_dir d None) r) w q m.
Proof.
  intros Hfd Hs I. eapply Inv_weaken; [done| |done|done]. intros fd' d' x. rewrite waiter_upd_dir by done.
  by case_decide.
Qed.

(** Firing somebody else's waiter. *)
Lemma Inv_fire_other a r w q m x b r' m' :
  Inv a r w q m -> ~ own_waiter a x -> Reactor.fire x r m = Some (b, r', m') ->
  Inv a r' w q m' /\ Reactor.slots r' = Reactor.slots r.
Proof.
  intros I Hn. unfold Reactor.fire.
  destruct (claim _ _ m) as [[go m1]|] eqn:Ec; [|done]. cbn [mbind option_bind].
  destruct (claim_frames _ _ _ _ _ Ec) as [F1 R1].
  assert (Inv a r w q m1) as I1.
  { eapply Inv_mem; [done| | |]; [by rewrite F1| |by rewrite R1].
    eapply claim_other; [done|]. unfold own_waiter in Hn. naive_solver. }
  destruct go; cbn [negb]; [|by intros [= <- <- <-]].
  destruct (store_res _ _ m1) as [m2|] eqn:Es; [|done]. cbn [mbind option_bind].
  destruct (store_res_frames _ _ _ _ Es) as (F2 & W2 & R2 & _).
  assert (Inv a r w q m2) as I2.
  { eapply Inv_mem; [done| | |]; [by rewrite F2|by rewrite W2|].
    apply R2. unfold own_waiter in Hn. naive_solver. }
  destruct (Reactor.pe_handle x) as [h|] eqn:Eh; [|by intros [= <- <- <-]].
  intros [= <- <- <-]. split; [|done]. eapply Inv_weaken; [done..|]. unfold tokens. cbn [Reactor.ready Reactor.set_ready].
  rewrite count_app, count_single, decide_False; [lia|]. unfold own_waiter in Hn. rewrite Eh in Hn. tauto.
Qed.

(** Firing the wait's own waiter, which leaves the table. *)
Lemma Inv_fire_own a r w q m fd d x b r' m' :
  Inv a r w q m -> 0 <= fd -> waiter r fd d = Some x -> own_waiter a x ->
  Reactor.fire x r m = Some (b, r', m') ->
  Inv a (Reactor.upd_fd fd (Reactor.set_dir d None) r') w q m'.
Proof.
  destruct (wait_ok a) as (Wp & Wc & Wr). intros I Hfd Hx Ho. destruct (inv_waiter _ _ _ _ _ I _ _ _ Hx Ho) as (-> & -> & -> & Hio & Hr & Hc).
  assert (is_Some (Reactor.slots r !! Z.to_nat (w_fd a))) as Hs.
  { apply waiter_in_table, out_of_table_false in Hx. tauto. }
  unfold Reactor.fire. cbn [Reactor.pe_state Reactor.pe_completion Reactor.pe_result Reactor.pe_handle].
  destruct (claim _ _ m) as [[go m1]|] eqn:Ec; [|done]. cbn [mbind option_bind].
  destruct (claim_self _ _ _ _ _ Ec) as [(-> & Hp & ->)|(-> & Hp & ->)]; cbn [negb].
  2:{ intros [= <- <- <-]. by apply Inv_remove_waiter. }
  destruct (store_res _ _ _) as [m2|] eqn:Es; [|done]. cbn [mbind option_bind].
  destruct (store_res_frames _ _ _ _ Es) as (F2 & W2 & _ & R2). intros [= <- <- <-].
  eapply (Inv_settle a r w q m _ _ _ _ Ready); try done.
  - unfold settled_by. rewrite W2. cbn. by rewrite lookup_insert_eq.
  - intros _ _. by apply R2.
  - intros fd' d' x' Hx' Ho'. rewrite waiter_upd_dir in Hx' by done. case_decide as Hd; [done|].
    destruct (inv_waiter _ _ _ _ _ I _ _ _ Hx' Ho') as (_ & -> & -> & _). tauto.
  - intros id e He Ho'. split_and!; [done|by apply not_eq_sym, Wr|done].
  - cbn [Reactor.ready Reactor.set_ready Reactor.upd_fd Reactor.set_slots].
    rewrite count_app, count_single, decide_True by done. lia.
Qed.

Lemma Inv_fire_dir a d fd ep r w q m c r' m' c' :
  0 <= fd -> Inv a r w q m -> Reactor.fire_dir d fd ep (r, m, c) = Some (r', m', c') -> Inv a r' w q m'.
Proof.
  intros Hfd I. unfold Reactor.fire_dir.
  destruct (Reactor.slots r !! Z.to_nat fd) as [e|] eqn:He; cbn [mbind option_bind]; [|by intros [= <- <- <-]].
  destruct (Reactor.get_dir d e) as [x|] eqn:Ed; [|by intros [= <- <- <-]].
  destruct (Reactor.hits ep d); [|by intros [= <- <- <-]].
  destruct (Reactor.fire x r m) as [[[b r1] m1]|] eqn:Ef; [|done]. cbn [mbind option_bind]. intros [= <- <- <-].
  assert (waiter r fd d = Some x) as Hx by by rewrite (waiter_get _ _ _ _ Hfd He).
  destruct (decide (own_waiter a x)) as [Ho|Hn]; [by eapply Inv_fire_own|].
  destruct (Inv_fire_other _ _ _ _ _ _ _ _ _ I Hn Ef) as [I1 E1].
  apply Inv_remove_waiter; [done|rewrite E1; eauto|done].
Qed.

Lemma Inv_handle_events a evs r w q m c (k : K) r' m' c' k' :
  Inv a r w q m -> Reactor.handle_events evs (r, m, c, k) = Some (r', m', c', k') -> Inv a r' w q m'.
Proof.
  revert r m c k. induction evs as [|[fd ep] evs IH]; intros r m c k I; [by intros [= <- <- <- <-]|].
  cbn [Reactor.handle_events]. unfold Reactor.handle_event.
  destruct (Reactor.out_of_table fd r) eqn:Eo; [by apply IH|].
  apply out_of_table_false in Eo as [Hfd [e He]]. rewrite He. cbn [mbind option_bind].
  destruct (Reactor.idle e); [by apply IH|].
  destruct (Reactor.fire_dir Reactor.DRead fd ep (r, m, c)) as [[[r1 m1] c1]|] eqn:E1; [|done]. cbn [mbind option_bind].
  destruct (Reactor.fire_dir Reactor.DWrite fd ep (r1, m1, c1)) as [[[r2 m2] c2]|] eqn:E2; [|done].
  cbn [mbind option_bind]. apply IH. eapply Inv_fire_dir; [done..| |done]. by eapply Inv_fire_dir.
Qed.

Lemma Inv_poll a timeout r w q m (k : K) res r' m' k' :
  Inv a r w q m -> Reactor.poll timeout r m k = Some (res, r', m', k') -> Inv a r' w q m'.
Proof.
  intros I. unfold Reactor.poll. destruct (Reactor.epoll_wait _ _ _ k) as [[evs|e] k1].
  - destruct (Reactor.handle_events evs (r, m, 0, k1)) as [[[[r1 m1] c1] k2]|] eqn:E; [|done].
    intros [= <- <- <- <-]. by eapply Inv_handle_events.
  - by intros [= <- <- <- <-].
Qed.

End Reactor.

(** ** The timer wheel *)

(** Moving identifiers between slots changes neither entries nor the queue. *)
Definition same_entries (w w' : Timer.Wheel) : Prop :=
  Timer.slotmap w' = Timer.slotmap w /\ Timer.ready w' = Timer.ready w.

Lemma same_entries_drain l w : same_entries w (Timer.drain_level l w).
Proof.
  unfold Timer.drain_level.
  assert (forall ids w, same_entries w (Timer.replace_ids ids w)) as Hr.
  { induction ids as [|id ids IH]; intros w1; [done|]. rewrite TimerSpec.replace_ids_cons.
    destruct (Timer.lookup w1 id) as [e|]; [|apply IH].
    destruct (place_levels_only id (Timer.te_deadline e) w1) as [lv ->].
    destruct (IH (Timer.set_levels lv w1)) as [E1 E2]. split; [exact E1|exact E2]. }
  destruct (Hr (Timer.get_slot w l (Timer.cur_slot w l)) (Timer.upd_slot l (Timer.cur_slot w l) (fun _ => []) w)) as [E1 E2].
  split; [exact E1|exact E2].
Qed.

Lemma same_entries_cascade w : same_entries w (Timer.cascade 1 w).
Proof.
  rewrite TimerSpec.cascade_unfold.
  assert (forall b l w0 w1, same_entries w0 w1 -> same_entries w0 (if (b : bool) then Timer.drain_level l w1 else w1)) as Hd.
  { intros b l w0 w1 [E1 E2]. destruct b; [|done]. destruct (same_entries_drain l w1). split; congruence. }
  destruct (same_entries_drain 1 (if Timer.cur_slot w 1 =? 0
    then Timer.drain_level 2 (if Timer.cur_slot w 2 =? 0 then Timer.drain_level 3 w else w) else w)) as [E1 E2].
  assert (same_entries w (if Timer.cur_slot w 1 =? 0
    then Timer.drain_level 2 (if Timer.cur_slot w 2 =? 0 then Timer.drain_level 3 w else w) else w)) as [E3 E4].
  { destruct (Timer.cur_slot w 1 =? 0); [|done].
    destruct (Hd (Timer.cur_slot w 2 =? 0) 3%nat w w) as [E3 E4]; [done|].
    destruct (same_entries_drain 2 (if Timer.cur_slot w 2 =? 0 then Timer.drain_level 3 w else w)).
    split; congruence. }
  split; congruence.
Qed.

Lemma Inv_same_entries a r w q m w' : same_entries w w' -> Inv a r w q m -> Inv a r w' q m.
Proof.
  intros [E1 E2] I. eapply Inv_weaken; [done|done| |unfold tokens; by rewrite E2].
  intros id e. by rewrite (lookup_same_slotmap w' w).
Qed.

Lemma Inv_release a r w q m id : Inv a r w q m -> Inv a r (Timer.release id w) q m.
Proof.
  intros I. eapply Inv_weaken; [done|done| |].
  - intros i e. rewrite release_lookup. by case_decide.
  - unfold tokens. destruct (release_frame w id) as (_ & _ & _ & ->). done.
Qed.

#[local] Existing Instance own_entry_dec.

Lemma Inv_process_id a r w q m c id m' w' c' :
  Inv a r w q m -> Timer.process_id id (m, w, c) = Some (m', w', c') -> Inv a r w' q m'.
Proof.
  destruct (wait_ok a) as (Wp & Wc & Wr). intros I. unfold Timer.process_id.
  destruct (Timer.lookup w id) as [e|] eqn:El; [|by intros [= <- <- <-]].
  destruct (claim _ _ m) as [[go m1]|] eqn:Ec; [|done]. cbn [mbind option_bind].
  destruct (claim_frames _ _ _ _ _ Ec) as [F1 R1].
  destruct (decide (own_entry a e)) as [Ho|Hn].
  - destruct (inv_entry _ _ _ _ _ I _ _ El Ho) as (Es & Eh & Ecm & -> & _ & Hc1 & Hc2). rewrite Es in Ec.
    destruct (claim_self _ _ _ _ _ Ec) as [(-> & Hp & ->)|(-> & Hp & ->)]; cbn [negb].
    2:{ intros [= <- <- <-]. by apply Inv_release. }
    rewrite Eh. cbn [resumable set_ws frames]. rewrite (inv_live _ _ _ _ _ I). cbn [mbind option_bind negb].
    intros [= <- <- <-]. destruct (release_frame (Timer.set_ready (Timer.ready w ++ [Some (w_handle a)]) w) (w_timer a))
      as (_ & _ & _ & Er).
    eapply (Inv_settle a r w q m _ _ _ _ (w_completion a)); try done.
    + unfold settled_by. cbn. by rewrite lookup_insert_eq, Ecm.
    + unfold w_completion. destruct (w_kind a) eqn:Ek; try done.
      destruct (inv_entry _ _ _ _ _ I _ _ El Ho) as (_ & _ & _ & _ & Ht & _). unfold w_timed in Ht. by rewrite Ek in Ht.
    + intros Hio E. by destruct (Wr Hio).
    + intros fd d x Hx Hox. split_and!; [done| |done].
      destruct (inv_waiter _ _ _ _ _ I _ _ _ Hx Hox) as (_ & _ & _ & Hio & _). by apply Wr.
    + intros i e' He' Ho'. rewrite release_lookup in He'. case_decide as Hd; [done|].
      change (Timer.lookup w i = Some e') in He'.
      destruct (inv_entry _ _ _ _ _ I _ _ He' Ho') as (_ & _ & _ & -> & _). done.
    + rewrite Er. cbn [Timer.ready Timer.set_ready]. rewrite count_app, count_single, decide_True by done. lia.
  - assert (Inv a r w q m1) as I1.
    { eapply Inv_mem; [done| | |]; [by rewrite F1| |by rewrite R1].
      eapply claim_other; [done|]. unfold own_entry in Hn. naive_solver. }
    destruct go; cbn [negb]; [|intros [= <- <- <-]; by apply Inv_release].
    destruct (resumable (Timer.te_handle e) m1) as [push|]; [|done]. cbn [mbind option_bind].
    destruct push; intros [= <- <- <-]; [|by apply Inv_release].
    rewrite TimerSpec.release_set_ready. eapply Inv_weaken; [apply Inv_release, I1|done|intros i e' He' _; exact He'|].
    unfold tokens. destruct (release_frame w id) as (_ & _ & _ & ->). cbn [Timer.ready Timer.set_ready].
    rewrite count_app, count_single, decide_False; [lia|]. unfold own_entry in Hn. tauto.
Qed.

Lemma Inv_process_ids a r ids w q m c m' w' c' :
  Inv a r w q m -> Timer.process_ids ids (m, w, c) = Some (m', w', c') -> Inv a r w' q m'.
Proof.
  revert w m c. induction ids as [|id ids IH]; intros w m c I; [by intros [= <- <- <-]|].
  cbn [Timer.process_ids]. destruct (Timer.process_id id (m, w, c)) as [[[m1 w1] c1]|] eqn:E; [|done].
  cbn [mbind option_bind]. apply IH. by eapply Inv_process_id.
Qed.

Lemma Inv_tick a r w q m m' w' f :
  Inv a r w q m -> Timer.tick m w = Some (m', w', f) -> Inv a r w' q m'.
Proof.
  intros I. unfold Timer.tick, Timer.process_current_slot.
  set (w0 := Timer.set_time _ w).
  set (w1 := if Timer.cur_slot w0 0 =? 0 then Timer.cascade 1 w0 else w0).
  assert (Inv a r w1 q m) as I1.
  { assert (Inv a r w0 q m) by by eapply (Inv_same_entries _ _ w).
    subst w1. destruct (_ =? 0); [|done]. by eapply Inv_same_entries; [apply same_entries_cascade|]. }
  destruct (Timer.process_ids _ _) as [[[m2 w2] f2]|] eqn:E; [|done]. cbn [mbind option_bind]. intros [= <- <- <-].
  eapply (Inv_same_entries _ _ w2); [done|]. eapply Inv_process_ids; [|exact E].
  by eapply (Inv_same_entries _ _ w1).
Qed.

Lemma Inv_advance_loop a r fuel target total q m w m' w' f :
  Inv a r w q m -> Timer.advance_loop fuel target total m w = Some (m', w', f) -> Inv a r w' q m'.
Proof.
  revert total m w. induction fuel as [|fuel IH]; intros total m w I; cbn [Timer.advance_loop].
  - destruct (_ <? _); [done|]. by intros [= <- <- <-].
  - destruct (_ <? _); [|by intros [= <- <- <-]].
    destruct (Timer.tick m w) as [[[m1 w1] f1]|] eqn:E; [|done]. cbn [mbind option_bind]. apply IH. by eapply Inv_tick.
Qed.

(** Scheduling adds one entry. *)
Lemma schedule_lookup w dl h st c id w' :
  sm_wf w -> schedule_room w -> Timer.schedule_at dl h st c w = Some (id, w') ->
  Timer.ready w' = Timer.ready w /\
  forall id', Timer.lookup w' id' = if decide (id' = id) then Some (Timer.mkEntry id dl h st c) else Timer.lookup w id'.
Proof.
  intros Hwf Hroom E. destruct (schedule_spec w dl h st c Hwf Hroom) as (id0 & w2 & E2 & (_ & _ & _ & Hr) & _ & _ & _ & _ & Hl).
  rewrite E2 in E. injection E as -> <-. destruct (place_levels_only id dl w2) as [lv ->]. split; [exact Hr|].
  intros id'. rewrite <- Hl. by apply lookup_same_slotmap.
Qed.

(** ** The world *)

Section World.
Context {K : Type} `{Reactor.EpollKernel K}.

(** Handles taken out of the loop's queue and not yet resumed. *)
Variable extra : list handle.

Definition WInv_with (a : Wait) (W : World K) : Prop :=
  Inv a (reactor (loop W)) (timer (loop W)) (extra ++ ready_queue (loop W)) (mem W).

Definition queued_with (a : Wait) (W : World K) : nat :=
  count (w_handle a) (Timer.ready (timer (loop W))) + count (w_handle a) (Reactor.ready (reactor (loop W))) +
  count (w_handle a) (extra ++ ready_queue (loop W)).

(** No waiter and no timer of the world refers to the wait. *)
Definition unwatched (a : Wait) (W : World K) : Prop :=
  (forall fd d x, waiter (reactor (loop W)) fd d = Some x -> ~ own_waiter a x) /\
  (forall id e, Timer.lookup (timer (loop W)) id = Some e -> ~ own_entry a e).

(** Nothing that outlives the awaiter points into it: no waiter, no timer and no
    stop callback. *)
Definition unreferenced (a : Wait) (W : World K) : Prop :=
  unwatched a W /\
  forall s st cb, stops W !! s = Some st -> cb ∈ callbacks st -> cb_state cb <> w_state a.

(** The closure the wait's awaiter registers. *)
Definition wait_callback (a : Wait) : Callback :=
  mkCallback (w_state a) (Some (w_handle a))
    match w_kind a with
    | KIo => CbIo (w_fd a) (Reactor.dir_event (w_dir a))
    | KTimed => CbTimed (w_fd a) (Reactor.dir_event (w_dir a)) (w_timer a)
    | KSleep => CbSleep (w_timer a)
    end.

Definition foreign (a : Wait) (h : handle) (state : ptr) : Prop :=
  h <> Some (w_handle a) /\ state <> Some (w_state a).

(** *** The pieces of a callback *)

Lemma reactor_deregister_spec fd dir (W : World K) :
  let W' := reactor_deregister fd dir W in
  mem W' = mem W /\ timer (loop W') = timer (loop W) /\ ready_queue (loop W') = ready_queue (loop W) /\
  Reactor.ready (reactor (loop W')) = Reactor.ready (reactor (loop W)) /\ installed W' = installed W /\
  forall fd' d, waiter (reactor (loop W')) fd' d =
    if decide (fd' = fd /\ IoEvent.has_flag dir (Reactor.dir_event d) = true) then None
    else waiter (reactor (loop W)) fd' d.
Proof.
  unfold reactor_deregister. destruct (Reactor.deregister_dir _ _ _ _) as [r k] eqn:E.
  apply deregister_dir_frame in E as (Hr & _ & Hw & _). cbn. done.
Qed.

Lemma timer_cancel_spec id (W : World K) :
  let W' := timer_cancel id W in
  mem W' = mem W /\ reactor (loop W') = reactor (loop W) /\ ready_queue (loop W') = ready_queue (loop W) /\
  Timer.ready (timer (loop W')) = Timer.ready (timer (loop W)) /\ installed W' = installed W /\
  forall id', Timer.lookup (timer (loop W')) id' =
    if decide (id' = id) then None else Timer.lookup (timer (loop W)) id'.
Proof.
  unfold timer_cancel. cbn. rewrite cancel_release. cbn. destruct (release_frame (timer (loop W)) id) as (_ & _ & _ & ->).
  split_and!; try done. intros id'. apply release_lookup.
Qed.

Lemma WInv_deregister a fd dir (W : World K) : WInv_with a W -> WInv_with a (reactor_deregister fd dir W).
Proof.
  intros I. destruct (reactor_deregister_spec fd dir W) as (Em & Et & Eq & Er & _ & Hw). unfold WInv_with. rewrite Em, Et, Eq.
  eapply Inv_weaken; [done| |done|unfold tokens; by rewrite Er]. intros fd' d x. rewrite Hw. by case_decide.
Qed.

Lemma WInv_timer_cancel a id (W : World K) : WInv_with a W -> WInv_with a (timer_cancel id W).
Proof.
  intros I. destruct (timer_cancel_spec id W) as (Em & Er & Eq & Et & _ & Hl). unfold WInv_with. rewrite Em, Er, Eq.
  eapply Inv_weaken; [done|done| |unfold tokens; by rewrite Et]. intros i e. rewrite Hl. by case_decide.
Qed.

Lemma WInv_notify_other a h (W : World K) : h <> Some (w_handle a) -> WInv_with a W -> WInv_with a (notify_handle h W).
Proof.
  intros Hn I. unfold notify_handle. destruct (_ && _); [|done]. unfold WInv_with. cbn.
  eapply Inv_weaken; [done..|]. unfold tokens. rewrite !count_app, count_single, decide_False by done. lia.
Qed.

Lemma WInv_set_ws_other a p v (W : World K) :
  p <> w_state a -> WInv_with a W -> WInv_with a (set_mem (set_ws p v (mem W)) W).
Proof. intros Hn I. eapply Inv_mem; [exact I|done| |done]. cbn. by rewrite lookup_insert_ne. Qed.

(** A callback of another wait. *)
Lemma WInv_other_callback a cb (W W' : World K) :
  foreign a (cb_handle cb) (Some (cb_state cb)) -> WInv_with a W -> run_callback cb W = Some W' -> WInv_with a W'.
Proof.
  intros [Hh Hs] I. assert (cb_state cb <> w_state a) as Hp by congruence.
  pose proof (WInv_set_ws_other a (cb_state cb) Cancelled W Hp I) as I1.
  unfold run_callback, cancel_io_wait, cancel_timed_wait, cancel_sleep.
  destruct (cb_kind cb) as [fd dir|fd dir id|id];
    (destruct (ws_cells (mem W) !! cb_state cb) as [v|]; [|done]); cbn [mbind option_bind];
    (case_decide; [|by intros [= <-]]); intros [= <-].
  - by apply WInv_notify_other, WInv_deregister.
  - by apply WInv_notify_other, WInv_deregister, WInv_timer_cancel.
  - apply (WInv_timer_cancel a id) in I1. destruct (has_value (cb_handle cb)); [|done].
    eapply Inv_weaken; [exact I1|done|intros i e He _; exact He|].
    unfold tokens. cbn [loop set_loop timer set_timer Timer.wake Timer.set_ready Timer.ready reactor ready_queue].
    rewrite !count_app, count_single, decide_False by done.
    by rewrite Nat.add_0_r.
Qed.

Lemma has_flag_self d d' : IoEvent.has_flag (Reactor.dir_event d) (Reactor.dir_event d') = true <-> d = d'.
Proof. by destruct d, d'. Qed.

(** Cancelling a pending wait: the world after the state has been set and the
    registrations removed. *)
Lemma WInv_cancelled a (W W' : World K) :
  WInv_with a W -> settled_by a (mem W) Pending -> mem W' = set_ws (w_state a) Cancelled (mem W) ->
  unwatched a W' -> queued_with a W' = S (queued_with a W) -> WInv_with a W'.
Proof.
  intros I Hp Em [Hw He] Hq. eapply Inv_settle with (c := Cancelled); [exact I|done|done|..].
  - by rewrite Em.
  - unfold settled_by. rewrite Em. cbn. by rewrite lookup_insert_eq.
  - done.
  - done.
  - intros fd d x Hx Ho. by destruct (Hw _ _ _ Hx).
  - intros id e Hx Ho. by destruct (He _ _ Hx).
  - exact Hq.
Qed.

Lemma WInv_own_callback a (W W' : World K) :
  installed W = true \/ w_kind a = KSleep -> WInv_with a W -> run_callback (wait_callback a) W = Some W' -> WInv_with a W'.
Proof.
  intros Hin I. unfold run_callback, wait_callback, cancel_io_wait, cancel_timed_wait, cancel_sleep. cbn [cb_kind cb_state cb_handle].
  destruct (w_kind a) eqn:Ek; (destruct (ws_cells (mem W) !! w_state a) as [v|] eqn:Ev; [|done]); cbn [mbind option_bind];
    (case_decide as Hv; [|by intros [= <-]]); rewrite ?Ek in Hin; intros Eq%(inj Some); subst v W';
    set (W1 := set_mem (set_ws (w_state a) Cancelled (mem W)) W).
  - destruct (reactor_deregister_spec (w_fd a) (Reactor.dir_event (w_dir a)) W1) as (Em & Et & Eq & Er & Ei & Hw).
    unfold notify_handle. rewrite Ei. cbn [installed W1 set_mem]. destruct Hin as [Hin|?]; [|done]. rewrite Hin. cbn [andb has_value].
    eapply WInv_cancelled; [done|done|exact Em| |].
    + split; cbn [loop set_loop notify set_ready_queue set_tasks reactor timer].
      * intros fd d x. rewrite Hw. case_decide as Hd; [done|]. intros Hx Ho.
        destruct (inv_waiter _ _ _ _ _ I _ _ _ Hx Ho) as (_ & -> & -> & _). apply Hd. split; [done|by apply has_flag_self].
      * intros id e. rewrite Et. intros He Ho. destruct (inv_entry _ _ _ _ _ I _ _ He Ho) as (_ & _ & _ & _ & Ht & _).
        unfold w_timed in Ht. by rewrite Ek in Ht.
    + unfold queued_with. cbn [loop set_loop notify set_ready_queue set_tasks reactor timer ready_queue].
      rewrite Et, Er, Eq, !count_app, count_single, decide_True by done. cbn [W1 loop set_mem]. lia.
  - destruct (timer_cancel_spec (w_timer a) W1) as (Em0 & Er0 & Eq0 & Et0 & Ei0 & Hl).
    destruct (reactor_deregister_spec (w_fd a) (Reactor.dir_event (w_dir a)) (timer_cancel (w_timer a) W1))
      as (Em & Et & Eq & Er & Ei & Hw).
    unfold notify_handle. rewrite Ei, Ei0. cbn [installed W1 set_mem]. destruct Hin as [Hin|?]; [|done]. rewrite Hin. cbn [andb has_value].
    eapply WInv_cancelled; [done|done|exact (eq_trans Em Em0)| |].
    + split; cbn [loop set_loop notify set_ready_queue set_tasks reactor timer].
      * intros fd d x. rewrite Hw, Er0. case_decide as Hd; [done|]. intros Hx Ho.
        destruct (inv_waiter _ _ _ _ _ I _ _ _ Hx Ho) as (_ & -> & -> & _). apply Hd. split; [done|by apply has_flag_self].
      * intros id e. rewrite Et, Hl. case_decide as Hd; [done|]. intros He Ho.
        by destruct (inv_entry _ _ _ _ _ I _ _ He Ho) as (_ & _ & _ & -> & _).
    + unfold queued_with. cbn [loop set_loop notify set_ready_queue set_tasks reactor timer ready_queue].
      rewrite Et, Er, Eq, Et0, Er0, Eq0, !count_app, count_single, decide_True by done. cbn [W1 loop set_mem]. lia.
  - destruct (timer_cancel_spec (w_timer a) W1) as (Em0 & Er0 & Eq0 & Et0 & Ei0 & Hl).
    fold W1. cbn [has_value]. eapply WInv_cancelled; [done|done|exact Em0| |].
    + split; cbn [loop set_loop set_timer reactor timer].
      * intros fd d x. rewrite Er0. intros Hx Ho.
        destruct (inv_waiter _ _ _ _ _ I _ _ _ Hx Ho) as (_ & _ & _ & Hio & _). unfold w_io in Hio. by rewrite Ek in Hio.
      * intros id e Hx. change (Timer.lookup (timer (loop (timer_cancel (w_timer a) W1))) id = Some e) in Hx.
        rewrite Hl in Hx. case_decide as Hd; [done|]. intros Ho.
        by destruct (inv_entry _ _ _ _ _ I _ _ Hx Ho) as (_ & _ & _ & -> & _).
    + unfold queued_with. cbn [loop set_loop set_timer reactor timer ready_queue Timer.wake Timer.ready Timer.set_ready].
      rewrite !count_app, Er0, Eq0, Et0, count_single, decide_True by done. cbn [W1 loop set_mem]. lia.
Qed.

(** A cancellation that runs on a thread without an event loop: [notify] is
    skipped ([g_event_loop] is null there), so a pending read or write is settled
    and taken out of reactor and wheel, and its handle is queued nowhere.  The
    invariant goes on as if the handle were in the hands of somebody who never
    resumes it. *)
Lemma WInv_off_loop a (W W' : World K) :
  installed W = false -> w_kind a <> KSleep -> WInv_with a W -> settled_by a (mem W) Pending ->
  run_callback (wait_callback a) W = Some W' ->
  settled_by a (mem W') Cancelled /\
  Inv a (reactor (loop W')) (timer (loop W')) ((Some (w_handle a) :: extra) ++ ready_queue (loop W')) (mem W').
Proof.
  intros Hin Hns I Hp. unfold settled_by in Hp. set (W1 := set_mem (set_ws (w_state a) Cancelled (mem W)) W).
  assert (forall V, mem V = mem W1 -> unwatched a V -> queued_with a V = queued_with a W ->
    settled_by a (mem V) Cancelled /\
    Inv a (reactor (loop V)) (timer (loop V)) ((Some (w_handle a) :: extra) ++ ready_queue (loop V)) (mem V)) as Hgo.
  { intros V Em [Hw He] Hq. assert (settled_by a (mem V) Cancelled) as Hs.
    { unfold settled_by. rewrite Em. cbn. by rewrite lookup_insert_eq. }
    split; [done|]. eapply Inv_settle with (c := Cancelled); [exact I|done|done|by rewrite Em|done..| | |].
    - intros fd d x Hx Ho. by destruct (Hw _ _ _ Hx).
    - intros id e Hx Ho. by destruct (He _ _ Hx).
    - unfold queued_with in Hq. change ((Some (w_handle a) :: extra) ++ ready_queue (loop V))
        with ([Some (w_handle a)] ++ (extra ++ ready_queue (loop V))).
      rewrite (count_app _ [Some (w_handle a)]), count_single, decide_True by done. lia. }
  unfold run_callback, wait_callback, cancel_io_wait, cancel_timed_wait. cbn [cb_kind cb_state cb_handle].
  destruct (w_kind a) eqn:Ek; [| |done]; rewrite Hp; cbn [mbind option_bind]; rewrite decide_True by done;
    intros Eq%(inj Some); subst W'; fold W1; unfold notify_handle.
  - destruct (reactor_deregister_spec (w_fd a) (Reactor.dir_event (w_dir a)) W1) as (Em & Et & Eq & Er & Ei & Hw).
    rewrite Ei. cbn [installed W1 set_mem]. rewrite Hin. cbn [andb]. apply Hgo; [exact Em| |].
    + split.
      * intros fd d x. rewrite Hw. case_decide as Hd; [done|]. intros Hx Ho.
        destruct (inv_waiter _ _ _ _ _ I _ _ _ Hx Ho) as (_ & -> & -> & _). apply Hd. split; [done|by apply has_flag_self].
      * intros id e. rewrite Et. intros He Ho. destruct (inv_entry _ _ _ _ _ I _ _ He Ho) as (_ & _ & _ & _ & Ht & _).
        unfold w_timed in Ht. by rewrite Ek in Ht.
    + unfold queued_with. by rewrite Et, Er, Eq.
  - destruct (timer_cancel_spec (w_timer a) W1) as (Em0 & Er0 & Eq0 & Et0 & Ei0 & Hl).
    destruct (reactor_deregister_spec (w_fd a) (Reactor.dir_event (w_dir a)) (timer_cancel (w_timer a) W1))
      as (Em & Et & Eq & Er & Ei & Hw).
    rewrite Ei, Ei0. cbn [installed W1 set_mem]. rewrite Hin. cbn [andb]. apply Hgo; [by rewrite Em, Em0| |].
    + split.
      * intros fd d x. rewrite Hw, Er0. case_decide as Hd; [done|]. intros Hx Ho.
        destruct (inv_waiter _ _ _ _ _ I _ _ _ Hx Ho) as (_ & -> & -> & _). apply Hd. split; [done|by apply has_flag_self].
      * intros id e. rewrite Et, Hl. case_decide as Hd; [done|]. intros He Ho.
        by destruct (inv_entry _ _ _ _ _ I _ _ He Ho) as (_ & _ & _ & -> & _).
    + unfold queued_with. by rewrite Et, Er, Eq, Et0, Er0, Eq0.
Qed.

(** *** Suspending *)

(** Before it suspends, the wait is constructed and nothing refers to it. *)
Record fresh_with (a : Wait) (W : World K) : Prop := {
  fresh_unwatched : unwatched a W;
  fresh_queued : queued_with a W = 0%nat;
  fresh_frame : frames (mem W) !! w_handle a = Some false;
  fresh_state : settled_by a (mem W) Pending;
  fresh_wheel : sm_wf (timer (loop W)) /\ schedule_room (timer (loop W));
  fresh_installed : installed W = true;
}.

Definition of_awaiter (a : Wait) (aw : Awaiter) : Prop :=
  aw_fd aw = w_fd a /\ aw_state aw = w_state a /\ aw_readiness aw = w_res a.

Inductive suspends (a : Wait) (W W' : World K) : Prop :=
| suspends_io aw :
    w_kind a = KIo -> of_awaiter a aw ->
    io_await_suspend (w_dir a) aw (Some (w_handle a)) W = Some (true, W') -> suspends a W W'
| suspends_timed aw timeout :
    w_kind a = KTimed -> of_awaiter a aw ->
    timed_await_suspend (w_dir a) timeout aw (Some (w_handle a)) W = Some (true, w_timer a, W') -> suspends a W W'
| suspends_sleep aw delay :
    w_kind a = KSleep -> of_awaiter a aw ->
    sleep_await_suspend delay aw (Some (w_handle a)) W = Some (w_timer a, W') -> suspends a W W'.

Lemma WInv_fresh a W : fresh_with a W -> WInv_with a W.
Proof.
  intros [[Hw He] Hq Hf Hs _ _]. unfold settled_by in Hs. split; unfold settled_by; rewrite ?Hs; eauto; try done.
  - intros fd d x Hx Ho. by destruct (Hw _ _ _ Hx).
  - intros id e Hx Ho. by destruct (He _ _ Hx).
  - unfold queued_with in Hq. unfold tokens, pending_token. rewrite Hs, decide_True by done. lia.
Qed.

Lemma WInv_register_own a aw (W W' : World K) :
  WInv_with a W -> settled_by a (mem W) Pending -> w_io a = true -> of_awaiter a aw ->
  register_waiter (w_dir a) aw (Some (w_handle a)) W = (Ok tt, W') ->
  WInv_with a W' /\ mem W' = mem W /\ installed W' = installed W.
Proof.
  intros I Hp Hio (Ef & Es & Er). unfold register_waiter. rewrite Ef, Es, Er.
  destruct (Reactor.register _ _ _ _ _) as [[res r] k] eqn:E. intros [= -> <-].
  apply register_frame in E as [Hr Hw]. cbn [is_ok andb] in Hw.
  split; [|done]. pose proof I as []. split; try done.
  - intros fd d x. cbn. rewrite Hw. case_bool_decide as Hd; [|by apply inv_waiter0].
    destruct Hd as [-> ->]. intros [= <-] _. unfold settled_by in *. rewrite Hp. done.
  - unfold tokens in *. cbn. by rewrite Hr.
Qed.

Lemma WInv_schedule_own a delay c (W : World K) id t :
  WInv_with a W -> settled_by a (mem W) Pending -> w_timed a = true -> c = w_completion a ->
  sm_wf (timer (loop W)) /\ schedule_room (timer (loop W)) ->
  Timer.schedule delay (Some (w_handle a)) (Some (w_state a)) c (timer (loop W)) = Some (id, t) ->
  id = w_timer a -> WInv_with a (set_loop (set_timer t (loop W)) W).
Proof.
  intros I Hp Ht -> [Hwf Hroom] E ->. unfold Timer.schedule in E.
  destruct (schedule_lookup _ _ _ _ _ _ _ Hwf Hroom E) as [Hr Hl].
  pose proof I as []. destruct (wait_ok a) as (Wp & Wc & _). split; try done.
  - intros i e. cbn. rewrite Hl. case_decide as Hd; [|by apply inv_entry0].
    intros [= <-] _. cbn. unfold settled_by in *. rewrite Hp. split_and!; try done; congruence.
  - unfold tokens in *. cbn. by rewrite Hr.
Qed.

Lemma WInv_set_stops a x (W : World K) : WInv_with a W -> WInv_with a (set_stops x W).
Proof. done. Qed.

Lemma WInv_emplace a t (W W' : World K) :
  installed W = true -> WInv_with a W -> emplace_callback t (wait_callback a) W = Some W' -> WInv_with a W'.
Proof.
  intros Hin I. unfold emplace_callback. destruct t as [s|]; [|by intros [= <-]].
  destruct (stops W !! s) as [st|]; [|done]. cbn [mbind option_bind].
  destruct (requested st); [apply WInv_own_callback; [by left|done]|]. intros [= <-]. by apply WInv_set_stops.
Qed.

Lemma WInv_suspends a W W' : fresh_with a W -> suspends a W W' -> WInv_with a W'.
Proof.
  intros F Hs. pose proof (WInv_fresh _ _ F) as I. pose proof F as [_ _ _ Hp Hwh Hin].
  destruct Hs as [aw Hk Ha E|aw timeout Hk Ha E|aw delay Hk Ha E]; pose proof Ha as (Ef & Es & Er).
  - unfold io_await_suspend in E. rewrite Es, Ef in E.
    destruct (register_waiter _ _ _ _) as [[[]|e] W1] eqn:E1; [|done].
    destruct (emplace_callback _ _ W1) as [W2|] eqn:E2; [|done]. injection E as <-.
    destruct (WInv_register_own a aw W W1 I Hp) as (I1 & Em & Ei); [by unfold w_io; rewrite Hk|done..|].
    eapply WInv_emplace; [by rewrite Ei|exact I1|]. unfold wait_callback. rewrite Hk. exact E2.
  - unfold timed_await_suspend in E. destruct (timeout <=? 0); [done|]. rewrite Es, Ef in E.
    destruct (Timer.schedule _ _ _ _ _) as [[id t]|] eqn:E0; [|done]. cbn [mbind option_bind] in E.
    destruct (register_waiter _ _ _ _) as [[[]|e] W1] eqn:E1; [|done].
    destruct (emplace_callback _ _ W1) as [W2|] eqn:E2; [|done]. injection E as -> <-.
    assert (WInv_with a (set_loop (set_timer t (loop W)) W)) as I0.
    { eapply WInv_schedule_own; [done|done| | |done|exact E0|done]; unfold w_timed, w_completion; by rewrite Hk. }
    destruct (WInv_register_own a aw _ W1 I0 Hp) as (I1 & Em & Ei); [by unfold w_io; rewrite Hk|done..|].
    eapply WInv_emplace; [by rewrite Ei|exact I1|]. unfold wait_callback. rewrite Hk. exact E2.
  - unfold sleep_await_suspend in E. rewrite Es in E.
    destruct (Timer.schedule _ _ _ _ _) as [[id t]|] eqn:E0; [|done]. cbn [mbind option_bind] in E.
    assert (forall W0, id = w_timer a -> W0 = set_loop (set_timer t (loop W)) W -> WInv_with a W0) as I0.
    { intros W0 Hid ->. eapply WInv_schedule_own; [done|done| | |done|exact E0|done]; unfold w_timed, w_completion; by rewrite Hk. }
    destruct (stop_possible (aw_token aw)).
    + destruct (emplace_callback _ _ _) as [W2|] eqn:E2; [|done]. injection E as -> <-.
      eapply WInv_emplace; [|by apply I0|]; [done|]. unfold wait_callback. rewrite Hk. exact E2.
    + injection E as -> <-. by apply I0.
Qed.

(** *** What may happen while the coroutine is suspended

    The loop polls, advances the wheel and drains the queues; the wait is
    cancelled; everybody else goes on registering, scheduling, cancelling and
    being resumed, with other handles and cells.  [wstep_cancel] is a
    cancellation on a thread that has the event loop installed (a sleep does not
    need it: its closure queues the handle in the wheel); [cancel_off_loop] is
    the other case. *)

Definition cancel_off_loop (a : Wait) (W W' : World K) : Prop :=
  installed W = false /\ w_kind a <> KSleep /\ run_callback (wait_callback a) W = Some W'.

Inductive wstep (a : Wait) (W : World K) : World K -> Prop :=
| wstep_poll timeout res r m k :
    Reactor.poll timeout (reactor (loop W)) (mem W) (kern W) = Some (res, r, m, k) ->
    wstep a W (set_kern k (set_mem m (set_loop (set_reactor r (loop W)) W)))
| wstep_advance target m t f :
    Timer.advance_to target (mem W) (timer (loop W)) = Some (m, t, f) ->
    wstep a W (set_mem m (set_loop (set_timer t (loop W)) W))
| wstep_drain_reactor q r :
    Reactor.drain_ready_into (ready_queue (loop W)) (reactor (loop W)) = (q, r) ->
    wstep a W (set_loop (set_ready_queue q (set_reactor r (loop W))) W)
| wstep_drain_timer q t :
    Timer.drain_ready_into (ready_queue (loop W)) (timer (loop W)) = (q, t) ->
    wstep a W (set_loop (set_ready_queue q (set_timer t (loop W))) W)
| wstep_cancel W' :
    installed W = true \/ w_kind a = KSleep -> run_callback (wait_callback a) W = Some W' -> wstep a W W'
| wstep_other_cancel cb W' :
    foreign a (cb_handle cb) (Some (cb_state cb)) -> run_callback cb W = Some W' -> wstep a W W'
| wstep_other_register d fd x res r k :
    ~ own_waiter a x -> Reactor.register d fd x (reactor (loop W)) (kern W) = (res, r, k) ->
    wstep a W (set_kern k (set_loop (set_reactor r (loop W)) W))
| wstep_other_schedule dl h st c id t :
    foreign a h st -> sm_wf (timer (loop W)) -> schedule_room (timer (loop W)) ->
    Timer.schedule_at dl h st c (timer (loop W)) = Some (id, t) ->
    wstep a W (set_loop (set_timer t (loop W)) W)
| wstep_deregister fd dir : wstep a W (reactor_deregister fd dir W)
| wstep_timer_cancel id : wstep a W (timer_cancel id W)
| wstep_notify h : h <> Some (w_handle a) -> wstep a W (notify_handle h W)
| wstep_resume_other h q :
    h <> Some (w_handle a) -> ready_queue (loop W) = h :: q -> wstep a W (set_loop (set_ready_queue q (loop W)) W)
| wstep_mem m :
    frames m !! w_handle a = frames (mem W) !! w_handle a ->
    ws_cells m !! w_state a = ws_cells (mem W) !! w_state a ->
    res_cells m !! w_res a = res_cells (mem W) !! w_res a -> wstep a W (set_mem m W)
| wstep_rest W' :
    reactor (loop W') = reactor (loop W) -> timer (loop W') = timer (loop W) ->
    ready_queue (loop W') = ready_queue (loop W) -> mem W' = mem W -> wstep a W W'.

Lemma WInv_wstep a W W' : wstep a W W' -> WInv_with a W -> WInv_with a W'.
Proof.
  intros Hs I. destruct Hs as [timeout res r m k E|target m t f E|q r E|q t E|W' Hin E|cb W' Hf E|d fd x res r k Hn E
    |dl h st c id t [Hh Hst] Hwf Hroom E|fd dir|id|h Hn|h q Hn E|m Hf Hw Hr|W' E1 E2 E3 E4].
  - by eapply Inv_poll.
  - by eapply Inv_advance_loop.
  - injection E as <- <-. eapply Inv_weaken; [exact I|done..|]. unfold tokens. cbn [ready_queue loop set_loop set_ready_queue
      set_tasks set_reactor reactor timer Reactor.ready Reactor.set_ready]. rewrite !count_app. cbn. lia.
  - injection E as <- <-. eapply Inv_weaken; [exact I|done|intros i e He _; exact He|]. unfold tokens.
    cbn [ready_queue loop set_loop set_ready_queue set_tasks set_timer reactor timer Timer.ready Timer.set_ready].
    rewrite !count_app. cbn. lia.
  - by eapply WInv_own_callback.
  - by eapply WInv_other_callback.
  - apply register_frame in E as [Hr Hw]. eapply Inv_weaken; [exact I| |done|unfold tokens; cbn; by rewrite Hr].
    intros fd' d' x' Hx' Ho. cbn in Hx'. rewrite Hw in Hx'. destruct (_ && _); [|done]. by injection Hx' as <-.
  - destruct (schedule_lookup _ _ _ _ _ _ _ Hwf Hroom E) as [Hr Hl].
    eapply Inv_weaken; [exact I|done| |unfold tokens; cbn; by rewrite Hr].
    intros i e He Ho. cbn in He. rewrite Hl in He. case_decide; [|done]. injection He as <-.
    unfold own_entry in Ho. cbn in Ho. tauto.
  - by apply WInv_deregister.
  - by apply WInv_timer_cancel.
  - by apply WInv_notify_other.
  - eapply Inv_weaken; [exact I|done..|]. unfold tokens. rewrite E. cbn [loop set_loop ready_queue set_ready_queue set_tasks].
    change (h :: q) with ([h] ++ q). rewrite !count_app, count_single, decide_False by done. done.
  - by eapply Inv_mem.
  - unfold WInv_with. by rewrite E1, E2, E3, E4.
Qed.

Lemma WInv_wsteps a W W' : rtc (wstep a) W W' -> WInv_with a W -> WInv_with a W'.
Proof. induction 1; eauto using WInv_wstep. Qed.

(** *** Resuming *)

(** What [cancel_cb_.reset()] leaves. *)
Definition uncalled (p : nat) (W : World K) : Prop :=
  forall s st cb, stops W !! s = Some st -> cb ∈ callbacks st -> cb_state cb <> p.

Lemma reset_uncalled p (W : World K) : uncalled p (reset_callback p W).
Proof.
  intros s st cb Hs Hin. cbn in Hs. rewrite lookup_fmap in Hs. destruct (stops W !! s); [|done]. injection Hs as <-.
  cbn in Hin. by apply list_elem_of_filter in Hin as [].
Qed.

Lemma deregister_stops fd dir (W : World K) : stops (reactor_deregister fd dir W) = stops W.
Proof. unfold reactor_deregister. by destruct (Reactor.deregister_dir _ _ _ _). Qed.

Lemma uncalled_deregister p fd dir (W : World K) : uncalled p W -> uncalled p (reactor_deregister fd dir W).
Proof. unfold uncalled. by rewrite deregister_stops. Qed.

Inductive resumes (a : Wait) (W : World K) (res : Result unit) (W' : World K) : Prop :=
| resumes_io aw :
    w_kind a = KIo -> of_awaiter a aw -> io_await_resume aw W = Some (res, W') -> resumes a W res W'
| resumes_timed aw :
    w_kind a = KTimed -> of_awaiter a aw ->
    timed_await_resume (w_dir a) (w_timer a) aw W = Some (res, W') -> resumes a W res W'
| resumes_sleep aw :
    w_kind a = KSleep -> of_awaiter a aw -> sleep_await_resume aw W = Some (res, W') -> resumes a W res W'.

(** The error each winner of the race gives. *)
Definition outcome (a : Wait) (v : WaitState) : Result unit :=
  match v with
  | TimedOut => Err (timed_out_error (w_dir a))
  | Cancelled => Err (match w_kind a with KSleep => sleep_cancelled | _ => io_cancelled_error end)
  | _ => Ok tt
  end.

Lemma no_waiter a (W : World K) v :
  WInv_with a W -> settled_by a (mem W) v -> v = Ready \/ v = Cancelled \/ w_kind a = KSleep ->
  forall fd d x, waiter (reactor (loop W)) fd d = Some x -> ~ own_waiter a x.
Proof.
  intros I Hv Hc fd d x Hx Ho. destruct (inv_waiter _ _ _ _ _ I _ _ _ Hx Ho) as (_ & _ & _ & Hio & H1 & H2).
  unfold w_io in Hio. destruct Hc as [->|[->|Hk]]; [done|done|]. by rewrite Hk in Hio.
Qed.

Lemma no_entry a (W : World K) v :
  WInv_with a W -> settled_by a (mem W) v -> v = w_completion a \/ v = Cancelled \/ w_kind a = KIo ->
  forall id e, Timer.lookup (timer (loop W)) id = Some e -> ~ own_entry a e.
Proof.
  intros I Hv Hc id e Hx Ho. destruct (inv_entry _ _ _ _ _ I _ _ Hx Ho) as (_ & _ & _ & _ & Ht & H1 & H2).
  unfold w_timed in Ht. destruct Hc as [->|[->|Hk]]; [done|done|]. by rewrite Hk in Ht.
Qed.

Lemma io_resume_spec a aw (W : World K) res W' v :
  WInv_with a W -> w_kind a = KIo -> aw_state aw = w_state a -> aw_readiness aw = w_res a ->
  ws_cells (mem W) !! w_state a = Some v -> v <> Pending -> io_await_resume aw W = Some (res, W') ->
  unreferenced a W' /\ settled_by a (mem W) v /\ res = outcome a v.
Proof.
  intros I Hk Es Er Hv Hp E. unfold io_await_resume in E. rewrite Es, Er in E.
  assert (unreferenced a (reset_callback (w_state a) W)) as U.
  { split; [split; cbn; [|by eapply no_entry; eauto]|apply reset_uncalled].
    eapply no_waiter; [done..|]. destruct v; try tauto. apply (inv_timed _ _ _ _ _ I) in Hv. congruence. }
  cbn [reset_callback mem set_stops] in E. rewrite Hv in E. cbn [mbind option_bind] in E.
  destruct v; try done; cbn in E.
  - rewrite (inv_result _ _ _ _ _ I) in E; [|by unfold w_io; rewrite Hk|done]. cbn in E. injection E as <- <-.
    split; [apply U|done].
  - apply (inv_timed _ _ _ _ _ I) in Hv. congruence.
  - injection E as <- <-. split; [apply U|]. unfold outcome. by rewrite Hk.
Qed.

Lemma sleep_resume_spec a aw (W : World K) res W' v :
  WInv_with a W -> w_kind a = KSleep -> aw_state aw = w_state a ->
  ws_cells (mem W) !! w_state a = Some v -> v <> Pending -> sleep_await_resume aw W = Some (res, W') ->
  unreferenced a W' /\ settled_by a (mem W) v /\ res = outcome a v.
Proof.
  intros I Hk Es Hv Hp E. unfold sleep_await_resume in E. rewrite Es in E.
  assert (v <> TimedOut) as Ht. { intros ->. apply (inv_timed _ _ _ _ _ I) in Hv. congruence. }
  assert (unreferenced a (reset_callback (w_state a) W)) as U.
  { split; [split; cbn; [by eapply no_waiter; eauto|]|apply reset_uncalled].
    eapply no_entry; [done..|]. unfold w_completion. rewrite Hk. destruct v; tauto. }
  cbn [reset_callback mem set_stops] in E. rewrite Hv in E. cbn [mbind option_bind] in E.
  destruct v; try done; cbn in E; injection E as <- <-; (split; [apply U|]); [done|].
  unfold outcome. by rewrite Hk.
Qed.

Lemma timed_resume_spec a aw (W : World K) res W' v :
  WInv_with a W -> w_kind a = KTimed -> aw_fd aw = w_fd a -> aw_state aw = w_state a -> aw_readiness aw = w_res a ->
  ws_cells (mem W) !! w_state a = Some v -> v <> Pending ->
  timed_await_resume (w_dir a) (w_timer a) aw W = Some (res, W') ->
  unreferenced a W' /\ settled_by a (mem W) v /\ res = outcome a v.
Proof.
  intros I Hk Ef Es Er Hv Hp E. unfold timed_await_resume in E. rewrite Es in E.
  pose proof (reset_uncalled (w_state a) W) as Uc. set (W1 := reset_callback (w_state a) W) in *.
  change (mem W1) with (mem W) in E. rewrite Ef, Hv in E. cbn [mbind option_bind] in E.
  destruct (timer_cancel_spec (w_timer a) W1) as (Em & Et & _ & _ & _ & Hl).
  assert (forall id e, Timer.lookup (timer (loop (timer_cancel (w_timer a) W1))) id = Some e -> ~ own_entry a e) as Ue.
  { intros id e. rewrite Hl. destruct (decide (id = w_timer a)) as [|Hd]; [done|]. intros He Ho.
    by destruct (inv_entry _ _ _ _ _ I _ _ He Ho) as (_ & _ & _ & -> & _). }
  destruct v; try done; cbn in E.
  - rewrite Er, (inv_result _ _ _ _ _ I) in E; [|by unfold w_io; rewrite Hk|done]. cbn in E. injection E as <- <-.
    split; [|done]. split; [|exact Uc]. split; [|exact Ue]. eapply (no_waiter a W Ready); eauto.
  - injection E as <- <-. split; [|done]. split; [|by apply uncalled_deregister].
    destruct (reactor_deregister_spec (w_fd a) (Reactor.dir_event (w_dir a)) W1) as (_ & Et1 & _ & _ & _ & Hw). split.
    + intros fd d x. rewrite Hw. case_decide as Hd; [done|]. intros Hx Ho.
      destruct (inv_waiter _ _ _ _ _ I _ _ _ Hx Ho) as (_ & -> & -> & _). apply Hd. split; [done|by apply has_flag_self].
    + rewrite Et1. eapply (no_entry a W TimedOut); [done..|]. unfold w_completion. rewrite Hk. by left.
  - injection E as <- <-. split; [split; [split; [|exact Ue]|exact Uc]|unfold outcome; by rewrite Hk].
    eapply (no_waiter a W Cancelled); eauto.
Qed.

End World.

(** Nothing is taken out between two iterations. *)
Abbreviation WInv := (WInv_with []).
Abbreviation queued := (queued_with []).
Abbreviation fresh := (fresh_with []).

Section Theorems.
Context {K : Type} `{Reactor.EpollKernel K}.

(** C2: a suspended coroutine is woken exactly once.  The wait suspends on the
    loop's own thread; then, whatever the reactor, the wheel, the stop callback
    (run on a thread with the event loop installed) and the rest of the program
    do, and in whatever order, its handle is in no queue while the wait is
    [Pending] and exactly once in the queues when it is settled, so readiness,
    timeout and cancellation never both win and none is lost.  The one exception
    is stated too: when a stop request runs the callback of a pending read or
    write on a thread without an event loop, the wait is settled as [Cancelled]
    and whatever happens later its handle is in no queue: it is never woken. *)
Theorem wake_exactly_once a W W1 W2 :
  fresh a W -> suspends a W W1 -> rtc (wstep a) W1 W2 ->
  exists v, ws_cells (mem W2) !! w_state a = Some v /\
    queued a W2 = (if decide (v = Pending) then 0%nat else 1%nat) /\
    forall W3 W4, v = Pending -> cancel_off_loop a W2 W3 -> rtc (wstep a) W3 W4 ->
      ws_cells (mem W3) !! w_state a = Some Cancelled /\
      ~ settled_by a (mem W4) Pending /\ queued a W4 = 0%nat.
Proof.
  intros F S Hst. pose proof (WInv_wsteps [] _ _ _ Hst (WInv_suspends [] _ _ _ F S)) as I.
  destruct (inv_cell _ _ _ _ _ I) as [v Hv]. exists v. split; [done|].
  pose proof (inv_tokens _ _ _ _ _ I) as E. unfold tokens, pending_token in E. rewrite Hv in E. split.
  { unfold queued_with. repeat case_decide; try congruence; lia. }
  intros W3 W4 -> (Hoff & Hns & Hcb) Hst2. destruct (WInv_off_loop [] a W2 W3 Hoff Hns I Hv Hcb) as [Hc I3].
  pose proof (WInv_wsteps [Some (w_handle a)] _ _ _ Hst2 I3) as I4. split; [done|].
  pose proof (inv_tokens _ _ _ _ _ I4) as E4. unfold tokens, pending_token in E4.
  rewrite count_app, count_single, decide_True in E4 by done. unfold settled_by, queued_with. cbn [app].
  case_decide; [lia|]. split; [done|lia].
Qed.

(** [await_resume] reports who won the race (readiness gives success, the
    timer a timeout error, the stop callback a cancellation error) and leaves no
    waiter, no timer and no stop callback that refers to the awaiter, so nothing can later write
    through a pointer into the coroutine frame. *)
Theorem resume_releases a W W1 W2 res W3 :
  fresh a W -> suspends a W W1 -> rtc (wstep a) W1 W2 ->
  ~ settled_by a (mem W2) Pending -> resumes a W2 res W3 ->
  unreferenced a W3 /\ exists v, settled_by a (mem W2) v /\ res = outcome a v.
Proof.
  intros F S Hst Hnp Hr. pose proof (WInv_wsteps [] _ _ _ Hst (WInv_suspends [] _ _ _ F S)) as I.
  destruct (inv_cell _ _ _ _ _ I) as [v Hv].
  destruct Hr as [aw Hk (Ef & Es & Er) E|aw Hk (Ef & Es & Er) E|aw Hk (Ef & Es & Er) E].
  - destruct (io_resume_spec [] _ _ _ _ _ _ I Hk Es Er Hv ltac:(congruence) E) as (? & ? & ?). eauto.
  - destruct (timed_resume_spec [] _ _ _ _ _ _ I Hk Ef Es Er Hv ltac:(congruence) E) as (? & ? & ?). eauto.
  - destruct (sleep_resume_spec [] _ _ _ _ _ _ I Hk Es Hv ltac:(congruence) E) as (? & ? & ?). eauto.
Qed.

End Theorems.

(** ** Witnesses: a read with a timeout; data arrives, then the timeout passes *)

Section Witness.
Import SimEpoll.

Definition wit_awaiter : Awaiter := mkAwaiter 5 10 11 None.
Definition wit_wait : Wait := mkWait KTimed 1 10 11 5 Reactor.DRead (Timer.encode_id 0 1).

Definition wit_world : World Sim :=
  mkWorld (mkLoop (Reactor.mkReactor 3 [] []) (Timer.make_wheel 0) None [] [] false 0 4 [])
          (mkMem {[ 10%nat := Pending ]} {[ 11%nat := Ok 7 ]} {[ 1%nat := false ]}) ∅ ∅ true
          (mkSim ∅ [(5, Reactor.EPOLLIN)]).

Definition wit_suspended : World Sim :=
  match timed_await_suspend Reactor.DRead 5000000 wit_awaiter (Some 1%nat) wit_world with
  | Some (_, _, W) => W
  | None => wit_world
  end.

Definition wit_polled : World Sim :=
  match Reactor.poll 0 (reactor (loop wit_suspended)) (mem wit_suspended) (kern wit_suspended) with
  | Some (_, r, m, k) => set_kern k (set_mem m (set_loop (set_reactor r (loop wit_suspended)) wit_suspended))
  | None => wit_world
  end.

Definition wit_advanced : World Sim :=
  match Timer.advance_to 10000000 (mem wit_polled) (timer (loop wit_polled)) with
  | Some (m, t, _) => set_mem m (set_loop (set_timer t (loop wit_polled)) wit_polled)
  | None => wit_world
  end.

Lemma wit_fresh : fresh wit_wait wit_world.
Proof.
  split; [|done..| |done].
  - split.
    + intros fd d x Hx. unfold waiter in Hx. cbn in Hx. destruct (fd <? 0); [done|]. by destruct (Z.to_nat fd).
    + intros id e He. unfold Timer.lookup in He. cbn in He. by destruct (Z.to_nat (Timer.id_index id)).
  - split; [|done]. destruct (TimerSpec.Rel_make_wheel 0) as [[]]. done.
Qed.

Lemma wit_suspends : suspends wit_wait wit_world wit_suspended.
Proof. apply (suspends_timed _ _ _ wit_awaiter 5000000); [done|done|]. vm_compute. reflexivity. Qed.

Lemma wit_steps : rtc (wstep wit_wait) wit_suspended wit_advanced.
Proof.
  transitivity wit_polled; apply rtc_once.
  - unfold wit_polled. destruct (Reactor.poll _ _ _ _) as [[[[res r] m] k]|] eqn:E; [|vm_compute in E; done].
    by eapply wstep_poll.
  - unfold wit_advanced. destruct (Timer.advance_to _ _ _) as [[[m t] f]|] eqn:E; [|vm_compute in E; done].
    by eapply wstep_advance.
Qed.

(** The same wait while another thread, without an event loop, runs its stop
    callback. *)
Definition wit_elsewhere : World Sim :=
  mkWorld (loop wit_suspended) (mem wit_suspended) (stops wit_suspended) (cancel_tokens wit_suspended) false (kern wit_suspended).

Lemma wake_exactly_once_witness :
  ws_cells (mem wit_advanced) !! 10%nat = Some Ready /\ queued wit_wait wit_advanced = 1%nat /\
  exists W3, run_callback (wait_callback wit_wait) wit_elsewhere = Some W3 /\
    ws_cells (mem W3) !! 10%nat = Some Cancelled /\ queued wit_wait W3 = 0%nat.
Proof.
  destruct (wake_exactly_once wit_wait wit_world wit_suspended wit_advanced wit_fresh wit_suspends wit_steps)
    as (v & Hv & Hq & _).
  assert (v = Ready) as ->. { vm_compute in Hv. congruence. }
  split; [exact Hv|]. split; [exact Hq|].
  destruct (run_callback (wait_callback wit_wait) wit_elsewhere) as [W3|] eqn:E; [|vm_compute in E; done].
  exists W3. split; [done|].
  destruct (wake_exactly_once wit_wait wit_world wit_suspended wit_elsewhere wit_fresh wit_suspends)
    as (v & Hv' & _ & Hoff); [by apply rtc_once, wstep_rest|].
  assert (v = Pending) as ->. { vm_compute in Hv'. congruence. }
  destruct (Hoff W3 W3 eq_refl) as (Hc & _ & Hq3); [|reflexivity|split; [exact Hc|exact Hq3]].
  split; [reflexivity|]. split; [discriminate|exact E].
Defined.

Lemma resume_releases_witness :
  exists W3, timed_await_resume Reactor.DRead (w_timer wit_wait) wit_awaiter wit_advanced = Some (Ok tt, W3) /\
    unreferenced wit_wait W3.
Proof.
  destruct (timed_await_resume Reactor.DRead (w_timer wit_wait) wit_awaiter wit_advanced) as [[res W3]|] eqn:E;
    [|vm_compute in E; done].
  destruct (resume_releases wit_wait wit_world wit_suspended wit_advanced res W3 wit_fresh wit_suspends wit_steps)
    as (U & v & Hv & Er).
  { intros Hp. vm_compute in Hp. discriminate Hp. }
  { apply (resumes_timed _ _ _ _ wit_awaiter); [reflexivity|repeat split|exact E]. }
  assert (v = Ready) as ->. { vm_compute in Hv. congruence. }
  exists W3. split; [by rewrite Er|exact U].
Defined.

End Witness.
End AwaiterProps.
