(* ===== verification/EventLoop.v ===== *)
(** * EventLoop: [async/event_loop.hpp]

    The per-core loop: spawning, cross-core submission, one iteration of
    [run], stopping.  Resuming a coroutine runs user code, which is a
    parameter; the clock, the wake-up eventfd and [close] are kernel
    operations. *)

From S2P Require Import Prelude Core TimerWheel Reactor ReactorProps Signal World Awaiters.

Module EventLoop.
Import Awaiters.

(** [eventfd_write] is [write(fd, &val, 8)], which for an eventfd is all or
    nothing; [eventfd_read] is the [read] whose result the loop drops. *)
Class LoopKernel (K : Type) := {
  eventfd : K -> SysRet Z * K;
  eventfd_write : Z -> K -> SysRet unit * K;
  eventfd_read : Z -> K -> K;
  close_fd : Z -> K -> K;
  clock_now : K -> Z * K;
}.

Definition kDefaultPollTimeout : Z := Timer.kTickDuration * 10.

Section Loop.
Context {K : Type} `{Reactor.EpollKernel K} `{LoopKernel K}.

(** ** Construction *)

(** The reactor of a failed construction is closed by its destructor. *)
Definition create (graceful : nat) (k : K) : Result Loop * K :=
  match Reactor.create k with
  | (Err e, k) => (Err e, k)
  | (Ok r, k) =>
    match eventfd k with
    | (SErr e, k) => let '(_, _, k) := Reactor.close r k in (Err (from_errno e), k)
    | (SOk wakeup_fd, k) =>
      match Reactor.add wakeup_fd (IoEvent.or IoEvent.Read IoEvent.EdgeTrig) r k with
      | (Err e, k) => let '(_, _, k) := Reactor.close r (close_fd wakeup_fd k) in (Err e, k)
      | (Ok _, k) =>
        let '(now, k) := clock_now k in
        (Ok (mkLoop r (Timer.make_wheel now) None [] [] false graceful wakeup_fd []), k)
      end
    end
  end.

(** The move constructor: the new object and what is left of the old one. *)
Definition move_construct (graceful : nat) (other : Loop) : Loop * Loop :=
  let '(r, r') := Reactor.move_construct (reactor other) in
  (set_reactor r other,
   mkLoop r' (timer other) ((fun s => (Signal.move_construct s).2) <$> signals other) [] [] (stop_requested other) graceful (-1) []).

(** The destructor closes the eventfd it still owns. *)
Definition destroy (l : Loop) (k : K) : K := if 0 <=? cross_core_fd l then close_fd (cross_core_fd l) k else k.

(** ** Spawning and submitting *)

Definition enqueue (h : handle) (W : World K) : World K :=
  set_loop (set_tasks (owned_tasks (loop W) ++ [mkOwned h]) (ready_queue (loop W) ++ [h])
                      (cross_core_queue (loop W)) (loop W)) W.

Definition spawn (task : handle) (W : World K) : World K := enqueue task W.
Definition spawn_with_handle (task : handle) (W : World K) : handle * World K := (task, enqueue task W).

(** [Task::set_cancellation] *)
Definition set_task_cancellation (task : handle) (t : stop_token) (W : World K) : World K :=
  match task with
  | None => W
  | Some f => set_cancel_tokens (<[f := t]> (cancel_tokens W)) W
  end.

Definition shutdown_token (W : World K) : stop_token := Some (graceful_source (loop W)).

Definition spawn_service (task : handle) (W : World K) : World K :=
  spawn task (set_task_cancellation task (shutdown_token W) W).

(** The two halves of [submit]: the critical section and the wake-up. *)
Definition submit_push (task : handle) (W : World K) : World K :=
  set_loop (set_tasks (owned_tasks (loop W)) (ready_queue (loop W))
                      (cross_core_queue (loop W) ++ [mkOwned task]) (loop W)) W.

Definition wake_owner (W : World K) : Result unit * World K :=
  match eventfd_write (cross_core_fd (loop W)) (kern W) with
  | (SErr e, k) => (Err (from_errno e), set_kern k W)
  | (SOk _, k) => (Ok tt, set_kern k W)
  end.

Definition submit (task : handle) (W : World K) : Result unit * World K := wake_owner (submit_push task W).

(** ** Stopping *)

Definition wake_if_open (W : World K) : World K :=
  if 0 <=? cross_core_fd (loop W) then (wake_owner W).2 else W.

Definition request_stop (W : World K) : World K :=
  wake_if_open (set_loop (set_stop_requested true (loop W)) W).

Definition request_graceful_stop (W : World K) : option (World K) :=
  W ← Awaiters.request_stop (graceful_source (loop W)) W; Some (wake_if_open W).

(** ** One iteration of [run] *)

(** [resume f]: running the coroutine [f] until it suspends or finishes. *)
Variable resume : nat -> World K -> option (World K).

Fixpoint resume_all (scratch : list handle) (W : World K) : option (World K) :=
  match scratch with
  | [] => Some W
  | h :: scratch =>
    go ← resumable h (mem W);
    W ← match h with
        | Some f => if (go : bool) then resume f W else Some W
        | None => Some W
        end;
    resume_all scratch W
  end.

(** [!t.handle || t.handle.done()] *)
Definition completed (t : OwnedTask) (m : Mem) : option bool :=
  match ot_handle t with None => Some true | Some f => frames m !! f end.

(** Destroying the [Task] of an erased entry destroys its frame. *)
Definition destroy_frame (h : handle) (m : Mem) : Mem :=
  match h with
  | None => m
  | Some f => mkMem (ws_cells m) (res_cells m) (delete f (frames m))
  end.

Fixpoint erase_completed (ts : list OwnedTask) (m : Mem) : option (list OwnedTask * Mem) :=
  match ts with
  | [] => Some ([], m)
  | t :: ts =>
    c ← completed t m;
    let m := if (c : bool) then destroy_frame (ot_handle t) m else m in
    r ← erase_completed ts m;
    let '(keep, m) := r in
    Some (if (c : bool) then keep else t :: keep, m)
  end.

Definition cleanup_completed (W : World K) : option (World K) :=
  r ← erase_completed (owned_tasks (loop W)) (mem W);
  let '(keep, m) := r in
  Some (set_mem m (set_loop (set_tasks keep (ready_queue (loop W)) (cross_core_queue (loop W)) (loop W)) W)).

Definition drain_cross_core (W : World K) : World K :=
  let l := loop W in
  let l' := set_tasks (owned_tasks l ++ cross_core_queue l)
                      (ready_queue l ++ map ot_handle (cross_core_queue l)) [] l in
  set_kern (eventfd_read (cross_core_fd l) (kern W)) (set_loop l' W).

Definition no_tasks (W : World K) : bool := match owned_tasks (loop W) with [] => true | _ => false end.

Definition poll_timeout (next : option Z) (now : Z) : Z :=
  match next with
  | None => kDefaultPollTimeout
  | Some d =>
    let remaining := d - now in
    if remaining <=? 0 then 0
    else if remaining <? kDefaultPollTimeout then remaining else kDefaultPollTimeout
  end.

Inductive Control := Continue | Break (r : Result unit).

(** Steps 3 to 7. *)
Definition wait_for_events (W : World K) : option (Control * World K) :=
  let '(now, k) := clock_now (kern W) in
  let timeout := poll_timeout (Timer.next_deadline (timer (loop W))) now in
  p ← Reactor.poll timeout (reactor (loop W)) (mem W) k;
  let '(res, r, m, k) := p in
  let W := set_kern k (set_mem m (set_loop (set_reactor r (loop W)) W)) in
  match res with
  | Err e => Some (Break (Err e), W)
  | Ok _ =>
    let '(q, r) := Reactor.drain_ready_into (ready_queue (loop W)) (reactor (loop W)) in
    let W := set_loop (set_ready_queue q (set_reactor r (loop W))) W in
    let '(now, k) := clock_now (kern W) in
    a ← Timer.advance_to now (mem W) (timer (loop W));
    let '(m, t, _) := a in
    let '(q, t) := Timer.drain_ready_into (ready_queue (loop W)) t in
    let W := set_kern k (set_mem m (set_loop (set_ready_queue q (set_timer t (loop W))) W)) in
    Some (Continue, drain_cross_core W)
  end.

Definition iteration (W : World K) : option (Control * World K) :=
  let scratch := ready_queue (loop W) in
  W ← resume_all scratch (set_loop (set_ready_queue [] (loop W)) W);
  W ← cleanup_completed W;
  if no_tasks W then
    let W := drain_cross_core W in
    if no_tasks W then Some (Break (Ok tt), W) else wait_for_events W
  else wait_for_events W.

(** The [while] loop; [fuel] bounds the iterations, [None] when it runs out. *)
Fixpoint run_loop (fuel : nat) (W : World K) : option (Result unit * World K) :=
  if stop_requested (loop W) then Some (Ok tt, W)
  else
    match fuel with
    | O => None
    | S fuel =>
      r ← iteration W;
      match r with
      | (Continue, W) => run_loop fuel W
      | (Break res, W) => Some (res, W)
      end
    end.

(** The constructor and the destructor of [ThreadLocalGuard], which installs the
    loop for the duration of [run] on every path. *)
Definition guard_enter (W : World K) : World K := set_installed true W.
Definition guard_leave (W : World K) : World K := set_installed false W.

Definition run (fuel : nat) (W : World K) : option (Result unit * World K) :=
  r ← run_loop fuel (guard_enter W);
  Some (r.1, guard_leave r.2).

Definition run_until_complete (fuel : nat) (main_task : handle) (W : World K) : option (Result unit * World K) :=
  run fuel (enqueue main_task W).

End Loop.
End EventLoop.
