(* ===== verification/LoopProps.v ===== *)
(** * LoopProps: what [EventLoop::run] guarantees *)

From S2P Require Import Prelude Core TimerWheel Reactor ReactorProps World Awaiters EventLoop.

Module LoopProps.
Import EventLoop.

Section Props.
Context {K : Type} `{Reactor.EpollKernel K} `{LoopKernel K}.
(** ** Tasks held by a loop *)

Definition held (W : World K) : list OwnedTask := owned_tasks (loop W) ++ cross_core_queue (loop W).

Lemma held_drain W : held (drain_cross_core W) ≡ₚ held W /\ cross_core_queue (loop (drain_cross_core W)) = [].
Proof. unfold held, drain_cross_core. cbn. by rewrite app_nil_r. Qed.

(** ** Cleaning up *)

(** Exactly the completed tasks are erased, and their frames destroyed. *)
Lemma erase_completed_spec ts m keep m' :
  NoDup (map ot_handle ts) -> erase_completed ts m = Some (keep, m') ->
  (forall t, t ∈ keep <-> t ∈ ts /\ completed t m = Some false) /\
  (forall f, Some f ∈ map ot_handle ts -> frames m !! f = Some true -> frames m' !! f = None) /\
  (forall f, Some f ∉ map ot_handle ts \/ frames m !! f <> Some true -> frames m' !! f = frames m !! f).
Proof.
  revert m keep m'. induction ts as [|t ts IH]; intros m keep m' Hnd E; cbn in E.
  { injection E as <- <-. split_and!; [set_solver|set_solver|done]. }
  cbn in Hnd. apply NoDup_cons in Hnd as [Hnin Hnd].
  destruct (completed t m) as [c|] eqn:Ec; [|done]. cbn in E.
  set (m1 := if c then destroy_frame (ot_handle t) m else m) in E.
  destruct (erase_completed ts m1) as [[keep1 m2]|] eqn:E1; [|done]. cbn in E. injection E as <- <-.
  destruct (IH m1 keep1 m2 Hnd E1) as (Hk & Hd & Hf).
  assert (forall f, Some f <> ot_handle t \/ c = false -> frames m1 !! f = frames m !! f) as Hm1.
  { intros f Hff. unfold m1. destruct c; [|done]. unfold destroy_frame. destruct (ot_handle t) as [g|]; [|done].
    cbn. rewrite lookup_delete_ne; [done|]. destruct Hff; congruence. }
  assert (forall t', t' ∈ ts -> completed t' m1 = completed t' m) as Hcm.
  { intros t' Ht'. unfold completed. destruct (ot_handle t') as [g|] eqn:Eg; [|done]. apply Hm1. left.
    intros Eq. apply Hnin. rewrite <- Eq, <- Eg. by apply list_elem_of_fmap_2. }
  split_and!.
  - intros t'. assert (t' ∈ keep1 <-> t' ∈ ts /\ completed t' m = Some false) as Hk'.
    { rewrite Hk. split; intros [? Hc]; (split; [done|]); by rewrite Hcm in * by done. }
    rewrite elem_of_cons. destruct c; [rewrite Hk'; naive_solver|].
    rewrite elem_of_cons, Hk'. naive_solver.
  - intros f Hin Hft. cbn in Hin. apply elem_of_cons in Hin as [Ef|Hin].
    + unfold completed in Ec. rewrite <- Ef in Ec. rewrite Hft in Ec. injection Ec as <-.
      rewrite Hf by (left; by rewrite Ef). unfold m1, destroy_frame. rewrite <- Ef. cbn. apply lookup_delete_eq.
    + apply Hd; [done|]. rewrite Hm1; [done|]. left. congruence.
  - intros f Hff. cbn in Hff.
    assert (Some f <> ot_handle t \/ c = false) as Hc.
    { destruct (decide (Some f = ot_handle t)) as [Ef|]; [right|by left]. destruct Hff as [Hn|Hn]; [set_solver|].
      unfold completed in Ec. rewrite <- Ef in Ec. destruct c; congruence. }
    rewrite Hf, Hm1; [done|done|]. rewrite Hm1 by done. destruct Hff as [Hn|]; [left; set_solver|by right].
Qed.

Lemma erase_completed_keeps ts m keep m' t :
  erase_completed ts m = Some (keep, m') -> t ∈ ts ->
  t ∈ keep \/ ot_handle t = None \/ exists f, ot_handle t = Some f /\ frames m !! f = Some true.
Proof.
  revert m keep m'. induction ts as [|t0 ts IH]; intros m keep m' E Hin; [set_solver|]. cbn in E.
  destruct (completed t0 m) as [c|] eqn:Ec; [|done]. cbn in E.
  set (m1 := if c then destroy_frame (ot_handle t0) m else m) in E.
  destruct (erase_completed ts m1) as [[keep1 m2]|] eqn:E1; [|done]. cbn in E. injection E as <- <-.
  apply elem_of_cons in Hin as [->|Hin].
  - destruct c; [|left; set_solver]. right. unfold completed in Ec. destruct (ot_handle t0); eauto.
  - destruct (IH _ _ _ E1 Hin) as [Hk|[Hn|(f & Hf & Ht)]]; [left; destruct c; set_solver|by right; left|].
    right; right. exists f. split; [done|]. unfold m1 in Ht. destruct c; [|done].
    unfold destroy_frame in Ht. destruct (ot_handle t0) as [g|]; [|done]. cbn in Ht.
    by apply lookup_delete_Some in Ht as [_ ?].
Qed.

Lemma wait_for_events_held W c W' : wait_for_events W = Some (c, W') -> held W ⊆ held W'.
Proof.
  unfold wait_for_events. destruct (clock_now (kern W)) as [now k].
  destruct (Reactor.poll _ _ _ _) as [[[[res r] m] k1]|]; [|done]. cbn [mbind option_bind].
  destruct res as [n|e]; [|by intros [= <- <-]].
  cbn [Reactor.drain_ready_into Timer.drain_ready_into].
  destruct (clock_now _) as [now' k2]. destruct (Timer.advance_to _ _ _) as [[[m2 t2] f2]|]; [|done].
  cbn [mbind option_bind]. intros [= <- <-]. intros t Ht. rewrite (proj1 (held_drain _)). exact Ht.
Qed.

(** The poll timeout of an iteration is between 0 and 10 ms, never the
    [-1] that blocks for good, and never past the deadline the wheel reports. *)
Theorem poll_timeout_bounds next now :
  0 <= poll_timeout next now <= kDefaultPollTimeout /\
  0 <= Reactor.timeout_ms (poll_timeout next now) <= 10 /\
  (forall d, next = Some d -> now + poll_timeout next now <= Z.max now d).
Proof.
  assert (0 <= poll_timeout next now <= kDefaultPollTimeout) as Hb.
  { unfold poll_timeout, kDefaultPollTimeout, Timer.kTickDuration, Timer.kMillisecond.
    destruct next; [case_cmp; lia|lia]. }
  split; [done|]. split.
  - unfold Reactor.timeout_ms. change kDefaultPollTimeout with 10000000 in Hb.
    assert (0 <= Z.quot (poll_timeout next now) 1000000 <= 10).
    { rewrite Z.quot_div_nonneg by lia. zdiv. }
    destruct (Z.ltb_spec (Z.quot (poll_timeout next now) 1000000) 0); [lia|]. rewrite swrap_small; lia.
  - intros d ->. unfold poll_timeout. case_cmp; lia.
Qed.

(** Cleaning up erases exactly the tasks whose coroutine is done (or that
    have none) and destroys exactly their frames. *)
Theorem cleanup_exact (W W' : World K) :
  NoDup (map ot_handle (owned_tasks (loop W))) -> cleanup_completed W = Some W' ->
  (forall t, t ∈ owned_tasks (loop W') <-> t ∈ owned_tasks (loop W) /\ completed t (mem W) = Some false) /\
  (forall f, frames (mem W') !! f =
     if decide (Some f ∈ map ot_handle (owned_tasks (loop W)) /\ frames (mem W) !! f = Some true)
     then None else frames (mem W) !! f).
Proof.
  intros Hnd. unfold cleanup_completed. destruct (erase_completed _ _) as [[keep m]|] eqn:E; [|done].
  intros [= <-]. destruct (erase_completed_spec _ _ _ _ Hnd E) as (Hk & Hd & Hf). split; [done|].
  intros f. cbn. case_decide as Hc; [by destruct Hc; apply Hd|]. apply Hf.
  destruct (decide (Some f ∈ map ot_handle (owned_tasks (loop W)))); [right; tauto|by left].
Qed.

(** ** The exit check against concurrent [submit]

    [run] tests the owned tasks, drains the cross-core queue and tests again;
    other threads submit [before] the drain and [after] it. *)

Definition submits (ts : list handle) (W : World K) : World K := foldl (fun W t => (submit t W).2) W ts.

Definition exit_check (before after : list handle) (W : World K) : bool * World K :=
  let W := submits before W in
  if no_tasks W then
    let W := submits after (drain_cross_core W) in (no_tasks W, W)
  else (false, W).

Lemma submits_queue ts W :
  owned_tasks (loop (submits ts W)) = owned_tasks (loop W) /\
  cross_core_queue (loop (submits ts W)) = cross_core_queue (loop W) ++ map mkOwned ts.
Proof.
  revert W. induction ts as [|t ts IH]; intros W; [cbn; by rewrite app_nil_r|].
  unfold submits. cbn [foldl]. fold (submits ts (submit t W).2). destruct (IH (submit t W).2) as [-> ->].
  unfold submit, wake_owner. destruct (eventfd_write _ _) as [[]]; cbn; by rewrite <- app_assoc.
Qed.

(** The loop leaves through the exit check exactly when nothing was owned
    or queued and nothing was submitted before the drain; tasks submitted after
    the drain stay in the queue of the loop that has left, although [submit]
    succeeds. *)
Theorem exit_check_window before after W :
  let '(left_, W') := exit_check before after W in
  (left_ = true <-> held W = [] /\ before = []) /\
  (left_ = true -> cross_core_queue (loop W') = map mkOwned after /\ owned_tasks (loop W') = []).
Proof.
  unfold exit_check, no_tasks, held. destruct (submits_queue before W) as [Eo Ec]. rewrite Eo.
  destruct (owned_tasks (loop W)) as [|t ts] eqn:E; [|split; [split; [done|by intros []]|done]].
  destruct (submits_queue after (drain_cross_core (submits before W))) as [Eo' Ec']. rewrite Eo'.
  cbn in Eo', Ec'. cbn. rewrite Eo, Ec in *.
  assert (cross_core_queue (loop W) ++ map mkOwned before = [] <-> cross_core_queue (loop W) = [] /\ before = []) as Hq.
  { destruct (cross_core_queue (loop W)), before; cbn; naive_solver. }
  destruct (cross_core_queue (loop W) ++ map mkOwned before) eqn:Eq; cbn.
  - split; [|intros _; split; [exact Ec'|done]]. naive_solver.
  - split; [|done]. split; [done|]. intros Hh. by apply Hq in Hh.
Qed.

(** ** Iterations *)

Variable resume : nat -> World K -> option (World K).

(** User code may spawn and submit; only the loop removes tasks. *)
Definition resume_keeps : Prop :=
  forall f W W', resume f W = Some W' -> held W ⊆ held W'.

Lemma resume_all_keeps scratch W W' :
  resume_keeps -> resume_all resume scratch W = Some W' -> held W ⊆ held W'.
Proof.
  intros Hr. revert W. induction scratch as [|h scratch IH]; intros W; cbn; [by intros [= <-]|].
  destruct (resumable h (mem W)) as [go|]; [|done]. cbn.
  destruct h as [f|]; [|by apply IH]. destruct go; [|by apply IH].
  destruct (resume f W) as [W1|] eqn:E; [|done]. cbn. intros E'%IH. etrans; [by eapply Hr|done].
Qed.

(** C9: no task is lost: whatever the tasks' code does, a task the loop owns or
    that was submitted to it is, after an iteration, still held by the loop, or
    it had run to completion when the iteration cleaned up. *)
Theorem task_not_lost W c W' t :
  resume_keeps -> iteration resume W = Some (c, W') -> t ∈ held W -> ot_handle t <> None ->
  t ∈ held W' \/
  exists f W1, ot_handle t = Some f /\ frames (mem W1) !! f = Some true /\
    resume_all resume (ready_queue (loop W)) (set_loop (set_ready_queue [] (loop W)) W) = Some W1.
Proof.
  intros Hr E Ht Hn. unfold iteration in E.
  destruct (resume_all _ _ _) as [W1|] eqn:E1; [|done]. cbn [mbind option_bind] in E.
  assert (t ∈ held W1) as Ht1 by (by eapply resume_all_keeps).
  unfold cleanup_completed in E. destruct (erase_completed _ _) as [[keep m]|] eqn:E2; [|done].
  cbn [mbind option_bind] in E. set (W2 := set_mem m _) in E.
  assert (t ∈ held W2 \/ exists f, ot_handle t = Some f /\ frames (mem W1) !! f = Some true) as [Ht2|(f & Hf & Hd)].
  { unfold held in *. cbn. apply elem_of_app in Ht1 as [Ho|Hc]; [|left; set_solver].
    destruct (erase_completed_keeps _ _ _ _ _ E2 Ho) as [Hk|[?|?]]; [left; set_solver|done|by right]. }
  2:{ right. eauto. }
  left. destruct (no_tasks W2).
  - rewrite <- (proj1 (held_drain W2)) in Ht2. destruct (no_tasks _); [by injection E as <- <-|].
    by eapply wait_for_events_held.
  - by eapply wait_for_events_held.
Qed.

(** [run] returns successfully only when it was asked to stop, or when no
    task is left: none owned and none in the cross-core queue at the last
    check. *)
Theorem run_exits_idle fuel W W' :
  run resume fuel W = Some (Ok tt, W') -> stop_requested (loop W') = true \/ held W' = [].
Proof.
  unfold run. destruct (run_loop resume fuel _) as [[res W1]|] eqn:E; [|done]. cbn. intros [= -> <-].
  cbn [loop guard_leave set_installed held]. change (stop_requested (loop W1) = true \/ held W1 = []).
  revert E. generalize (guard_enter W). clear W. induction fuel as [|fuel IH]; intros W; cbn [run_loop];
    (destruct (stop_requested (loop W)) eqn:Es; [intros [= <-]; by left|]); [done|].
  destruct (iteration resume W) as [[[|res] W2]|] eqn:Ei; [apply IH| |done].
  cbn [mbind option_bind]. intros [= -> <-]. right. unfold iteration in Ei.
  destruct (resume_all _ _ _) as [W3|]; [|done]. cbn [mbind option_bind] in Ei.
  destruct (cleanup_completed W3) as [W4|]; [|done]. cbn [mbind option_bind] in Ei.
  assert (forall W c W', wait_for_events W = Some (c, W') -> c <> Break (Ok tt)) as Hw.
  { clear. intros W c W'. unfold wait_for_events. destruct (clock_now (kern W)) as [now k].
    destruct (Reactor.poll _ _ _ _) as [[[[res r] m] k1]|]; [|done]. cbn [mbind option_bind].
    destruct res; [|by intros [= <- <-]]. cbn [Reactor.drain_ready_into Timer.drain_ready_into].
    destruct (clock_now _). destruct (Timer.advance_to _ _ _) as [[[]]|]; [|done]. by intros [= <- <-]. }
  destruct (no_tasks W4); [|by apply Hw in Ei].
  destruct (no_tasks (drain_cross_core W4)) eqn:En; [|by apply Hw in Ei].
  injection Ei as <-. unfold held. rewrite (proj2 (held_drain W4)), app_nil_r.
  unfold no_tasks in En. by destruct (owned_tasks _).
Qed.

End Props.

(** ** Witnesses: a loop with a finished task and one submitted from outside *)

Section Witness.
Import ReactorProps.SimEpoll.

#[local] Instance sim_loop_kernel : LoopKernel Sim := {
  eventfd s := (SOk 4, s);
  eventfd_write _ s := (SOk tt, s);
  eventfd_read _ s := s;
  close_fd _ s := s;
  clock_now s := (0, s);
}.

(** Every coroutine finishes when it is resumed. *)
Definition finish (f : nat) (W : World Sim) : option (World Sim) :=
  Some (set_mem (mkMem (ws_cells (mem W)) (res_cells (mem W)) (<[f := true]> (frames (mem W)))) W).

Definition wit_loop : World Sim :=
  mkWorld (mkLoop (Reactor.mkReactor 3 [] []) (Timer.make_wheel 0) None [mkOwned (Some 1%nat)] [Some 1%nat]
                  false 0 4 [mkOwned (Some 2%nat)])
          (mkMem ∅ ∅ {[ 1%nat := false; 2%nat := false ]}) ∅ ∅ false (mkSim ∅ []).

Lemma finish_keeps : resume_keeps finish.
Proof. by intros f W W' [= <-]. Qed.

Lemma task_not_lost_witness :
  exists W', iteration finish wit_loop = Some (Continue, W') /\ held W' = [mkOwned (Some 2%nat)] /\
  (mkOwned (Some 2%nat) ∈ held W' \/
   exists f W1, Some 2%nat = Some f /\ frames (mem W1) !! f = Some true /\
     resume_all finish (ready_queue (loop wit_loop)) (set_loop (set_ready_queue [] (loop wit_loop)) wit_loop) = Some W1).
Proof.
  destruct (iteration finish wit_loop) as [[c W']|] eqn:E; [|vm_compute in E; discriminate E].
  assert (c = Continue /\ held W' = [mkOwned (Some 2%nat)]) as [-> Hh].
  { vm_compute in E. injection E as <- <-. split; reflexivity. }
  exists W'. split; [reflexivity|]. split; [exact Hh|].
  apply (task_not_lost finish wit_loop Continue W' (mkOwned (Some 2%nat)) finish_keeps E); [|discriminate].
  apply list_elem_of_In. vm_compute. tauto.
Defined.

Lemma run_exits_idle_witness :
  exists W', run finish 3 wit_loop = Some (Ok tt, W') /\ (stop_requested (loop W') = true \/ held W' = []).
Proof.
  destruct (run finish 3 wit_loop) as [[res W']|] eqn:E; [|vm_compute in E; discriminate E].
  assert (res = Ok tt) as ->. { vm_compute in E. injection E as <- _. reflexivity. }
  exists W'. split; [reflexivity|]. apply (run_exits_idle finish 3 wit_loop W' E).
Defined.

Lemma cleanup_exact_witness :
  exists W', cleanup_completed (mkWorld (loop wit_loop) (mkMem ∅ ∅ {[ 1%nat := true ]}) ∅ ∅ false (mkSim ∅ [])) = Some W' /\
    owned_tasks (loop W') = [] /\ frames (mem W') !! 1%nat = None.
Proof.
  set (W := mkWorld _ _ _ _ _ _).
  destruct (cleanup_completed W) as [W'|] eqn:E; [|vm_compute in E; discriminate E].
  exists W'. split; [reflexivity|].
  destruct (cleanup_exact W W') as [Ho Hf]; [apply NoDup_singleton|exact E|]. split.
  - apply elem_of_nil_inv. intros t Ht%Ho. destruct Ht as [Ht%list_elem_of_singleton Hc]. subst t. discriminate Hc.
  - rewrite Hf. rewrite decide_True; [reflexivity|]. split; [by apply list_elem_of_singleton|reflexivity].
Defined.

End Witness.
End LoopProps.
