(* ===== verification/WakeUp.v ===== *)
(** * WakeUp: reactor, wheel and loop together

    Steps 3 to 7 of [EventLoop::run]: a descriptor that epoll reports and a
    timer whose tick has passed queue their coroutines, and the next iteration
    resumes them. *)

From S2P Require Import Prelude Core TimerWheel TimerInv TimerSpec TimerProps Reactor ReactorProps World Awaiters EventLoop.

Module WakeUp.
Import EventLoop TimerSpec TimerProps.

(** ** Advancing the wheel *)

Definition timers_live (m : Mem) (a : Agenda) : Prop := forall id E e, due a !! id = Some (E, e) -> valid_entry m e.

(** No pending timer completes the wait state [p]. *)
Definition untimed (a : Agenda) (p : nat) : Prop := forall id E e, due a !! id = Some (E, e) -> Timer.te_state e <> Some p.

(** [id] is the only pending timer that completes [p]. *)
Definition sole_timer (a : Agenda) (p : nat) (id : Z) : Prop :=
  forall id' E e, due a !! id' = Some (E, e) -> Timer.te_state e = Some p -> id' = id.

Lemma due_tick a id E e : due (a_tick a) !! id = Some (E, e) <-> due a !! id = Some (E, e) /\ E <> now a.
Proof. unfold a_tick, due at 1. rewrite map_lookup_filter_Some. cbn. tauto. Qed.

(** A wait state that is settled stays as it is. *)
Lemma claim_settled st c m b m' p v : claim st c m = Some (b, m') -> ws_cells m !! p = Some v -> v <> Pending -> ws_cells m' !! p = Some v.
Proof.
  unfold claim. destruct st as [q|]; [|by intros [= <- <-]]. destruct (ws_cells m !! q) as [u|] eqn:Eq; cbn; [|done].
  destruct (decide (u = Pending)) as [->|]; intros [= <- <-] Hp Hv; [|done]. cbn. rewrite lookup_insert_ne; [done|]. congruence.
Qed.

Lemma fire_entries_settled es p v : forall m r f m' r' f',
  fire_entries es (m, r, f) = Some (m', r', f') -> ws_cells m !! p = Some v -> v <> Pending -> ws_cells m' !! p = Some v.
Proof.
  induction es as [|e es IH]; intros m r f m' r' f'; cbn [fire_entries]; [by intros [= <- <- <-]|].
  unfold fire_entry. destruct (claim _ _ m) as [[go m1]|] eqn:E; cbn; [|done]. intros H Hp Hv.
  pose proof (claim_settled _ _ _ _ _ _ _ E Hp Hv) as Hp1. destruct go; cbn in H; [|by eapply IH].
  destruct (resumable _ m1) as [[]|]; cbn in H; [by eapply IH..|done].
Qed.

(** No entry that fires leaves its wait state pending. *)
Lemma claim_claims c m b m' p : claim (Some p) c m = Some (b, m') -> c <> Pending -> exists v, ws_cells m' !! p = Some v /\ v <> Pending.
Proof.
  unfold claim. destruct (ws_cells m !! p) as [u|] eqn:E; cbn; [|done]. destruct (decide (u = Pending)); intros [= <- <-] Hc; [|eauto].
  exists c. split; [apply lookup_insert_eq|done].
Qed.

Lemma fire_entries_claims es e p : forall m r f m' r' f',
  fire_entries es (m, r, f) = Some (m', r', f') -> e ∈ es -> Timer.te_state e = Some p -> Timer.te_completion e <> Pending ->
  exists v, ws_cells m' !! p = Some v /\ v <> Pending.
Proof.
  induction es as [|e1 es IH]; intros m r f m' r' f'; cbn [fire_entries]; [by intros _ []%not_elem_of_nil|].
  destruct (fire_entry e1 (m, r, f)) as [[[m1 r1] f1]|] eqn:E; [|done]. cbn [mbind option_bind].
  intros H [<-|Hin]%elem_of_cons Hp Hc; [|by eapply IH]. unfold fire_entry in E. rewrite Hp in E.
  destruct (claim _ _ m) as [[go m2]|] eqn:Ec; cbn in E; [|done]. apply claim_claims in Ec as (v & Hv & Hn); [|done].
  assert (m1 = m2) as ->. { destruct go; cbn in E; [destruct (resumable _ m2) as [[]|]; cbn in E|]; congruence. }
  exists v. split; [|done]. by eapply fire_entries_settled.
Qed.

(** What is queued are handles of the entries that fire. *)
Lemma fire_entries_from es : forall m r f m' r' f',
  fire_entries es (m, r, f) = Some (m', r', f') -> exists l, r' = r ++ l /\ forall x, x ∈ l -> exists e, e ∈ es /\ Timer.te_handle e = x.
Proof.
  induction es as [|e es IH]; intros m r f m' r' f'; cbn [fire_entries].
  { intros [= _ <- _]. exists []. split; [by rewrite app_nil_r|]. by intros x []%not_elem_of_nil. }
  destruct (fire_entry e (m, r, f)) as [[[m1 r1] f1]|] eqn:E; [|done]. cbn [mbind option_bind].
  intros (l & -> & Hl)%IH. assert (r1 = r \/ r1 = r ++ [Timer.te_handle e]) as [->| ->].
  { unfold fire_entry in E. destruct (claim _ _ m) as [[go m2]|]; cbn in E; [|done]. destruct go; cbn in E; [|left; congruence].
    destruct (resumable _ m2) as [[]|]; cbn in E; [right|left|done]; congruence. }
  - exists l. split; [done|]. intros x Hx. destruct (Hl x Hx) as (e' & ? & ?). exists e'. split; [by constructor|done].
  - exists (Timer.te_handle e :: l). rewrite <- app_assoc. split; [done|]. intros x [->|Hx]%elem_of_cons.
    + exists e. split; [constructor|done].
    + destruct (Hl x Hx) as (e' & ? & ?). exists e'. split; [by constructor|done].
Qed.

(** The queue [q'] is [q] with handles of pending timers behind it. *)
Definition queued_by (a : Agenda) (q q' : list handle) : Prop :=
  exists l, q' = q ++ l /\ forall x, x ∈ l -> exists id E e, due a !! id = Some (E, e) /\ Timer.te_handle e = x.

Lemma queued_by_trans a a' q q1 q2 :
  queued_by a q q1 -> queued_by a' q1 q2 -> (forall id E e, due a' !! id = Some (E, e) -> due a !! id = Some (E, e)) -> queued_by a q q2.
Proof.
  intros (l & -> & H1) (l' & -> & H2) Hsub. exists (l ++ l'). split; [by rewrite app_assoc|].
  intros x [Hx|Hx]%elem_of_app; [auto|]. destruct (H2 x Hx) as (id & E & e & ? & ?). eauto 10.
Qed.

(** One tick, on live pointers. *)
Lemma tick_step m w a :
  Rel w a -> timers_live m a ->
  exists m' w' f, Timer.tick m w = Some (m', w', f) /\ Rel w' (a_tick a) /\ timers_live m' (a_tick a) /\
    Timer.start_time w' = Timer.start_time w /\
    frames m' = frames m /\ dom (ws_cells m') = dom (ws_cells m) /\ Timer.ready w `prefix_of` Timer.ready w' /\
    queued_by a (Timer.ready w) (Timer.ready w') /\
    (forall p, (forall id e, due a !! id = Some (now a, e) -> Timer.te_state e <> Some p) -> ws_cells m' !! p = ws_cells m !! p) /\
    (forall p v, ws_cells m !! p = Some v -> v <> Pending -> ws_cells m' !! p = Some v) /\
    (forall id e p, due a !! id = Some (now a, e) -> Timer.te_state e = Some p -> Timer.te_completion e <> Pending ->
      exists v, ws_cells m' !! p = Some v /\ v <> Pending).
Proof.
  intros R Hv. destruct (Rel_tick m w a R) as (order & w1 & _ & Hord & R1 & Es & _ & E).
  destruct (fire_entries_total order.*2 m (Timer.ready w) 0) as [[[m1 r1] f1] Ef].
  { intros e ([id e'] & -> & Hin)%list_elem_of_fmap. eapply Hv. by apply Hord. }
  rewrite Ef in E. cbn [mbind option_bind] in E. pose proof (fun p v => fire_entries_settled _ p v _ _ _ _ _ _ Ef) as F5.
  pose proof (fun e p => fire_entries_claims _ e p _ _ _ _ _ _ Ef) as F6. destruct (fire_entries_from _ _ _ _ _ _ _ Ef) as (l & El & Hl). apply fire_entries_frame in Ef as (F1 & F2 & F3 & F4).
  exists m1, (Timer.set_ready r1 w1), f1. split_and!; try done.
  - by apply Rel_set_ready.
  - intros id E' e [He _]%due_tick. apply (valid_entry_frame m); eauto.
  - exists l. split; [done|]. intros x Hx. destruct (Hl x Hx) as (e & ([id e'] & -> & Hin)%list_elem_of_fmap & He).
    exists id, (now a), e'. split; [by apply Hord|done].
  - intros p Hp. apply F4. intros e ([id e'] & -> & Hin)%list_elem_of_fmap. eapply Hp. by apply Hord.
  - intros id e p Hd Hp. apply F6; [|done]. apply list_elem_of_fmap. exists (id, e). split; [done|]. by apply Hord.
Qed.

Lemma tick_time w a w' : Rel w a -> Rel w' (a_tick a) -> Timer.start_time w' = Timer.start_time w ->
  Timer.current_time w' = Timer.current_time w + Timer.kTickDuration.
Proof.
  intros R R' Es. rewrite (Rel_current _ _ R'), (Rel_current _ _ R), Es. cbn [a_tick now]. unfold Timer.kTickDuration. lia.
Qed.

(** What [advance_to] does to memory and queue. *)
Record advanced (target : Z) (m : Mem) (w : Timer.Wheel) (a : Agenda) (m' : Mem) (w' : Timer.Wheel) (a' : Agenda) : Prop := {
  adv_rel : Rel w' a';
  adv_start : Timer.start_time w' = Timer.start_time w;
  adv_time : target <= Timer.current_time w';
  adv_exact : Timer.current_time w' = Timer.current_time w \/ Timer.current_time w' < target + Timer.kTickDuration;
  adv_frames : frames m' = frames m;
  adv_dom : dom (ws_cells m') = dom (ws_cells m);
  adv_ready : Timer.ready w `prefix_of` Timer.ready w';
  adv_from : queued_by a (Timer.ready w) (Timer.ready w');
  adv_rest id E e : due a' !! id = Some (E, e) -> due a !! id = Some (E, e);
  adv_other p : untimed a p -> ws_cells m' !! p = ws_cells m !! p;
  adv_settled p v : ws_cells m !! p = Some v -> v <> Pending -> ws_cells m' !! p = Some v;
  adv_due id E e p : due a !! id = Some (E, e) -> Timer.te_state e = Some p -> sole_timer a p id ->
    ws_cells m !! p = Some Pending -> Timer.start_time w + E * Timer.kMillisecond < target ->
    ws_cells m' !! p = Some (Timer.te_completion e) /\
    (forall h, Timer.te_handle e = Some h -> frames m !! h = Some false -> Some h ∈ Timer.ready w');
  adv_later id E e p : due a !! id = Some (E, e) -> Timer.te_state e = Some p -> sole_timer a p id ->
    Timer.current_time w' <= Timer.start_time w + E * Timer.kMillisecond -> ws_cells m' !! p = ws_cells m !! p;
  adv_gone id E e p : due a !! id = Some (E, e) -> Timer.te_state e = Some p -> Timer.te_completion e <> Pending ->
    due a' !! id = Some (E, e) \/ exists v, ws_cells m' !! p = Some v /\ v <> Pending;
}.

Lemma advance_loop_spec k : forall target total m w a,
  Rel w a -> timers_live m a -> target <= Timer.current_time w + Z.of_nat k * Timer.kTickDuration ->
  exists m' w' tot a', Timer.advance_loop k target total m w = Some (m', w', tot) /\ advanced target m w a m' w' a' /\
    Timer.current_time w <= Timer.current_time w'.
Proof.
  induction k as [|k IH]; intros target total m w a R Hv Hk; cbn [Timer.advance_loop];
    (destruct (Z.ltb_spec (Timer.current_time w) target) as [Hlt|Hge];
     [|exists m, w, total, a; split; [done|]; split; [|lia]; split; try done; [by left|exists []; split; [by rewrite app_nil_r|by intros x []%not_elem_of_nil]| |by left]; intros id E e p Hd _ _ _ Ht;
       pose proof (Rel_not_overdue _ _ _ _ _ R Hd); rewrite (Rel_current _ _ R) in Hge; unfold Timer.kMillisecond in *; lia]);
    [unfold Timer.kTickDuration, Timer.kMillisecond in *; lia|].
  destruct (tick_step m w a R Hv) as (m1 & w1 & f & Et & R1 & Hv1 & Es & Ff & Fd & Fr & Fq & Fo & Fs & Fc).
  rewrite Et. cbn [mbind option_bind]. pose proof (tick_time w a w1 R R1 Es) as Ec.
  destruct (IH target (wrap 32 (total + f)) m1 w1 (a_tick a) R1 Hv1) as (m2 & w2 & tot & a2 & E2 & A & Hle); [lia|].
  exists m2, w2, tot, a2. split; [done|]. destruct A as [A1 A2 A3 Ax A4 A5 A6 Aq A7 A8 As A9 A10 Ag].
  assert (Timer.kTickDuration > 0) as Hpos by done. split; [|lia]. split.
  - done.
  - congruence.
  - done.
  - right. lia.
  - congruence.
  - congruence.
  - by etrans.
  - eapply queued_by_trans; [done..|]. intros id E e [H _]%due_tick. done.
  - intros id E e [H _]%A7%due_tick. done.
  - intros p Hp. rewrite A8, Fo; [done| |].
    + intros id e Hd. by eapply Hp.
    + intros id E e [Hd _]%due_tick. by eapply Hp.
  - auto.
  - intros id E e p Hd Hp Hs Hm Ht. destruct (decide (E = now a)) as [->|Hne].
    + destruct (Rel_tick_completes w a m m1 w1 f id e p R Et Hd Hp Hm) as (H1 & H2 & _); [by intros; eapply Hs|].
      rewrite A8.
      * split; [done|]. intros h Hh Hf. eapply elem_of_prefix; [|done]. by apply H2.
      * intros id' E' e' [Hd' Hne]%due_tick Hp'. rewrite (Hs _ _ _ Hd' Hp') in Hd'. congruence.
    + destruct (A9 id E e p) as [H1 H2].
      * by apply due_tick.
      * done.
      * intros id' E' e' [Hd' _]%due_tick. by eapply Hs.
      * rewrite Fo; [done|]. intros id' e' Hd' Hp'. rewrite (Hs _ _ _ Hd' Hp') in Hd'. congruence.
      * by rewrite Es.
      * rewrite <- Ff. done.
  - intros id E e p Hd Hp Hs Ht. assert (E <> now a) as Hne.
    { intros ->. pose proof (Rel_current _ _ R). lia. }
    rewrite A10 with id E e p, Fo; [done| | |done| |by rewrite Es].
    + intros id' e' Hd' Hp'. rewrite (Hs _ _ _ Hd' Hp') in Hd'. congruence.
    + by apply due_tick.
    + intros id' E' e' [Hd' _]%due_tick. by eapply Hs.
  - intros id E e p Hd Hp Hc. destruct (decide (E = now a)) as [->|Hne].
    + right. destruct (Fc _ _ _ Hd Hp Hc) as (v & Hv' & Hn). exists v. auto.
    + apply Ag; [by apply due_tick|done..].
Qed.

Lemma advance_to_spec target m w a :
  Rel w a -> timers_live m a ->
  exists m' w' tot a', Timer.advance_to target m w = Some (m', w', tot) /\ advanced target m w a m' w' a'.
Proof.
  intros R Hv. destruct (advance_loop_spec (Timer.ticks_until w target) target 0 m w a R Hv) as (m' & w' & tot & a' & E & A & _).
  - unfold Timer.ticks_until, Timer.kTickDuration, Timer.kMillisecond. zdiv.
  - eauto 10.
Qed.

(** ** Polling leaves the frames alone *)

Section Wake.
Context {K : Type} `{ReactorProps.EpollLaws K} `{LoopKernel K}.

Lemma fire_dir_frames d fd ep r m c r' m' c' : Reactor.fire_dir d fd ep (r, m, c) = Some (r', m', c') -> frames m' = frames m.
Proof.
  unfold Reactor.fire_dir. destruct (_ ≫= _) as [w|]; [|by intros [= _ <- _]]. destruct (Reactor.hits ep d); [|by intros [= _ <- _]].
  destruct (Reactor.fire w r m) as [[[b r1] m1]|] eqn:E; cbn; [|done]. intros [= _ <- _].
  unfold Reactor.fire in E. destruct (claim _ _ m) as [[go m2]|] eqn:Ec; cbn in E; [|done].
  apply claim_dom in Ec as [_ Ef]. destruct go; cbn in E; [|congruence].
  unfold store_res in E. destruct (Reactor.pe_result w) as [q|]; cbn in E.
  - destruct (res_cells m2 !! q); cbn in E; [|done]. by destruct (Reactor.pe_handle w); injection E as _ _ <-.
  - destruct (Reactor.pe_handle w); congruence.
Qed.

Lemma handle_events_frames evs : forall r m c (k : K) r' m' c' k',
  Reactor.handle_events evs (r, m, c, k) = Some (r', m', c', k') -> frames m' = frames m.
Proof.
  induction evs as [|[fd ep] evs IH]; intros r m c k r' m' c' k'; cbn [Reactor.handle_events]; [by intros [= _ <- _ _]|].
  unfold Reactor.handle_event. destruct (Reactor.out_of_table fd r); [apply IH|].
  destruct (Reactor.slots r !! Z.to_nat fd) as [e|]; cbn [mbind option_bind]; [|done]. destruct (Reactor.idle e); [apply IH|].
  destruct (Reactor.fire_dir _ _ _ _) as [[[r1 m1] c1]|] eqn:E1; cbn [mbind option_bind]; [|done].
  destruct (Reactor.fire_dir _ _ _ (r1, m1, c1)) as [[[r2 m2] c2]|] eqn:E2; cbn [mbind option_bind]; [|done].
  intros ->%IH. apply fire_dir_frames in E1, E2. congruence.
Qed.

Lemma poll_frames timeout r m (k : K) res r' m' k' : Reactor.poll timeout r m k = Some (res, r', m', k') -> frames m' = frames m.
Proof.
  unfold Reactor.poll. destruct (Reactor.epoll_wait _ _ _ k) as [[evs|e] k1]; [|by intros [= _ _ <- _]].
  destruct (Reactor.handle_events _ _) as [[[[r1 m1] c1] k2]|] eqn:E; cbn; [|done]. intros [= _ _ <- _]. by eapply handle_events_frames.
Qed.

Lemma fire_dir_settled d fd ep r m c r' m' c' p v :
  Reactor.fire_dir d fd ep (r, m, c) = Some (r', m', c') -> ws_cells m !! p = Some v -> v <> Pending -> ws_cells m' !! p = Some v.
Proof.
  unfold Reactor.fire_dir. destruct (_ ≫= _) as [w|]; [|by intros [= _ <- _]]. destruct (Reactor.hits ep d); [|by intros [= _ <- _]].
  destruct (Reactor.fire w r m) as [[[b r1] m1]|] eqn:E; cbn; [|done]. intros [= _ <- _] Hp Hn.
  unfold Reactor.fire in E. destruct (claim _ _ m) as [[go m2]|] eqn:Ec; cbn in E; [|done].
  pose proof (claim_settled _ _ _ _ _ _ _ Ec Hp Hn) as Hp2. destruct go; cbn in E; [|congruence].
  unfold store_res in E. destruct (Reactor.pe_result w) as [q|]; cbn in E.
  - destruct (res_cells m2 !! q); cbn in E; [|done]. by destruct (Reactor.pe_handle w); injection E as _ _ <-.
  - destruct (Reactor.pe_handle w); congruence.
Qed.

Lemma handle_events_settled evs p v : forall r m c (k : K) r' m' c' k',
  Reactor.handle_events evs (r, m, c, k) = Some (r', m', c', k') -> ws_cells m !! p = Some v -> v <> Pending -> ws_cells m' !! p = Some v.
Proof.
  induction evs as [|[fd ep] evs IH]; intros r m c k r' m' c' k'; cbn [Reactor.handle_events]; [by intros [= _ <- _ _]|].
  unfold Reactor.handle_event. destruct (Reactor.out_of_table fd r); [apply IH|].
  destruct (Reactor.slots r !! Z.to_nat fd) as [e|]; cbn [mbind option_bind]; [|done]. destruct (Reactor.idle e); [apply IH|].
  destruct (Reactor.fire_dir _ _ _ _) as [[[r1 m1] c1]|] eqn:E1; cbn [mbind option_bind]; [|done].
  destruct (Reactor.fire_dir _ _ _ (r1, m1, c1)) as [[[r2 m2] c2]|] eqn:E2; cbn [mbind option_bind]; [|done].
  intros He Hp Hn. eapply IH; [exact He| |done]. eapply fire_dir_settled; [exact E2| |done]. by eapply fire_dir_settled.
Qed.

Lemma poll_settled timeout r m (k : K) res r' m' k' p v :
  Reactor.poll timeout r m k = Some (res, r', m', k') -> ws_cells m !! p = Some v -> v <> Pending -> ws_cells m' !! p = Some v.
Proof.
  unfold Reactor.poll. destruct (Reactor.epoll_wait _ _ _ k) as [[evs|e] k1]; [|by intros [= _ _ <- _]].
  destruct (Reactor.handle_events _ _) as [[[[r1 m1] c1] k2]|] eqn:E; cbn; [|done]. intros [= _ _ <- _]. by eapply handle_events_settled.
Qed.

(** ** One wait of the loop *)

(** The coroutine [h] is suspended on the wait state [p]: whatever can complete
    [p] - at most one waiter of the reactor and one timer - resumes [h]. *)
Record suspended_on (W : World K) (a : Agenda) (p h : nat) : Prop := {
  so_pending : ws_cells (mem W) !! p = Some Pending;
  so_frame : frames (mem W) !! h = Some false;
  so_waiter fd d w : ReactorProps.waiter (reactor (loop W)) fd d = Some w -> Reactor.pe_state w = Some p ->
    Reactor.pe_handle w = Some h /\ Reactor.pe_completion w <> Pending /\ ReactorProps.sole_owner (reactor (loop W)) p fd d;
  so_timer id E e : due a !! id = Some (E, e) -> Timer.te_state e = Some p ->
    Timer.te_handle e = Some h /\ Timer.te_completion e <> Pending /\ sole_timer a p id;
}.

(** Something that completes [p] has happened: its descriptor is among the
    events [evs], or the tick of its timer lies before [t]. *)
Definition occurred (W : World K) (a : Agenda) (evs : list (Z * Z)) (t : Z) (p : nat) : Prop :=
  (exists fd d w, ReactorProps.waiter (reactor (loop W)) fd d = Some w /\ Reactor.pe_state w = Some p /\ ReactorProps.selects evs fd d) \/
  (exists id E e, due a !! id = Some (E, e) /\ Timer.te_state e = Some p /\ Timer.start_time (timer (loop W)) + E * Timer.kMillisecond < t).

(** The waiters' and the timers' pointers are live, and the wheel stands for
    the agenda [a]. *)
Definition waits_live (W : World K) (a : Agenda) : Prop :=
  ReactorProps.valid_waiters (mem W) (reactor (loop W)) /\ Rel (timer (loop W)) a /\ timers_live (mem W) a.

Lemma timers_live_poll m m' a : ReactorProps.same_dom m m' -> frames m' = frames m -> timers_live m a -> timers_live m' a.
Proof.
  intros [Hd _] Hf Hv id E e He. destruct (Hv id E e He) as [Hs Hh]. split.
  - intros p Hp. by apply Hd, Hs.
  - rewrite Hf. apply Hh.
Qed.

Lemma wait_for_events_spec W a now k0 evs k1 :
  clock_now (kern W) = (now, k0) ->
  Reactor.epoll_wait (Reactor.epoll_fd (reactor (loop W))) Reactor.kMaxEventsPerPoll
    (Reactor.timeout_ms (poll_timeout (Timer.next_deadline (timer (loop W))) now)) k0 = (SOk evs, k1) ->
  waits_live W a ->
  exists r m k hs t a' now' k2 W',
    wait_for_events W = Some (Continue, W') /\
    Reactor.poll (poll_timeout (Timer.next_deadline (timer (loop W))) now) (reactor (loop W)) (mem W) k0 =
      Some (Ok (Z.of_nat (length hs)), r, m, k) /\
    ReactorProps.dispatched (ReactorProps.event_hits evs) (2 * length evs) (reactor (loop W)) (mem W) 0 r m (Z.of_nat (length hs)) hs /\
    clock_now k = (now', k2) /\ advanced now' m (timer (loop W)) a (mem W') t a' /\ frames m = frames (mem W) /\
    loop W' = mkLoop (Reactor.set_ready [] r) (Timer.set_ready [] t) (signals (loop W)) (owned_tasks (loop W) ++ cross_core_queue (loop W))
      (ready_queue (loop W) ++ Reactor.ready (reactor (loop W)) ++ hs ++ Timer.ready t ++ (ot_handle <$> cross_core_queue (loop W)))
      (stop_requested (loop W)) (graceful_source (loop W)) (cross_core_fd (loop W)) [].
Proof.
  intros Ec Ew (Hv & R & Ht). destruct (ReactorProps.poll_spec _ _ _ _ _ _ Ew Hv) as (r & m & k & hs & Ep & D).
  pose proof (poll_frames _ _ _ _ _ _ _ _ Ep) as Hf.
  destruct (clock_now k) as [now' k2] eqn:Ec'.
  destruct (advance_to_spec now' m (timer (loop W)) a R) as (m' & t & tot & a' & Ea & A).
  { eapply timers_live_poll; [apply D|done..]. }
  eexists r, m, k, hs, t, a', now', k2, _. split_and!; [|exact Ep|exact D|done| |done|].
  - unfold wait_for_events. rewrite Ec. rewrite Ep. cbn -[Timer.advance_to drain_cross_core]. rewrite Ec'. cbn -[Timer.advance_to drain_cross_core].
    rewrite Ea. cbn -[drain_cross_core]. reflexivity.
  - done.
  - unfold drain_cross_core. cbn. rewrite (ReactorProps.disp_ready _ _ _ _ _ _ _ _ _ D). rewrite <- !app_assoc. reflexivity.
Qed.

(** *** The wait states of the two sources *)

Lemma woken_by_reactor W a evs r m c hs p h :
  ReactorProps.dispatched (ReactorProps.event_hits evs) (2 * length evs) (reactor (loop W)) (mem W) 0 r m c hs ->
  suspended_on W a p h ->
  (exists fd d w, ReactorProps.waiter (reactor (loop W)) fd d = Some w /\ Reactor.pe_state w = Some p /\ ReactorProps.selects evs fd d) ->
  Some h ∈ hs /\ exists v, ws_cells m !! p = Some v /\ v <> Pending.
Proof.
  intros D S (fd & d & w & Hw & Hp & Hs). destruct (so_waiter _ _ _ _ S _ _ _ Hw Hp) as (Hh & Hc & Ho).
  destruct (ReactorProps.disp_hit _ _ _ _ _ _ _ _ _ D fd d w p h) as [Hin Hv]; eauto.
  - by apply ReactorProps.event_hits_selects.
  - apply (so_pending _ _ _ _ S).
Qed.

Lemma kept_by_reactor W a evs r m c hs p h :
  ReactorProps.dispatched (ReactorProps.event_hits evs) (2 * length evs) (reactor (loop W)) (mem W) 0 r m c hs ->
  suspended_on W a p h ->
  ~ (exists fd d w, ReactorProps.waiter (reactor (loop W)) fd d = Some w /\ Reactor.pe_state w = Some p /\ ReactorProps.selects evs fd d) ->
  ws_cells m !! p = Some Pending.
Proof.
  intros D S Hn. rewrite (ReactorProps.disp_other _ _ _ _ _ _ _ _ _ D); [apply (so_pending _ _ _ _ S)|].
  intros fd d w Hw Hh%ReactorProps.event_hits_selects Hp. apply Hn. eauto 10.
Qed.

(** Both sources together: [m] is the memory after the reactor, [m'] after the
    wheel. *)
Lemma woken W a evs r m c hs m' t a' t1 p h :
  ReactorProps.dispatched (ReactorProps.event_hits evs) (2 * length evs) (reactor (loop W)) (mem W) 0 r m c hs ->
  frames m = frames (mem W) -> advanced t1 m (timer (loop W)) a m' t a' ->
  suspended_on W a p h -> occurred W a evs t1 p ->
  (Some h ∈ hs \/ Some h ∈ Timer.ready t) /\ exists v, ws_cells m' !! p = Some v /\ v <> Pending.
Proof.
  intros D Hf A S [Hr|(id & E & e & Hd & Hp & Ht)].
  { destruct (woken_by_reactor _ _ _ _ _ _ _ _ _ D S Hr) as (Hin & v & Hv & Hne). split; [by left|]. exists v.
    split; [|done]. by apply (adv_settled _ _ _ _ _ _ _ A). }
  destruct (so_timer _ _ _ _ S _ _ _ Hd Hp) as (Hh & Hc & Hs).
  pose proof (adv_due _ _ _ _ _ _ _ A id E e p Hd Hp Hs) as Hdue.
  assert (is_Some (ws_cells m !! p)) as [v Hv].
  { apply (ReactorProps.disp_dom _ _ _ _ _ _ _ _ _ D). rewrite (so_pending _ _ _ _ S). eauto. }
  destruct (decide (Some h ∈ hs)) as [Hin|Hni].
  - split; [by left|]. destruct (decide (v = Pending)) as [->|Hne].
    + destruct (Hdue Hv Ht) as [E' _]. eauto.
    + exists v. split; [|done]. by apply (adv_settled _ _ _ _ _ _ _ A).
  - assert (ws_cells m !! p = Some Pending) as Hm.
    { eapply kept_by_reactor; [done..|]. intros Hr. by destruct (woken_by_reactor _ _ _ _ _ _ _ _ _ D S Hr). }
    destruct (Hdue Hm Ht) as [E' Hq]. split; [right|eauto]. apply Hq; [done|]. rewrite Hf. apply (so_frame _ _ _ _ S).
Qed.

Lemma undisturbed W a evs r m c hs m' t a' t1 p h :
  ReactorProps.dispatched (ReactorProps.event_hits evs) (2 * length evs) (reactor (loop W)) (mem W) 0 r m c hs ->
  advanced t1 m (timer (loop W)) a m' t a' ->
  suspended_on W a p h -> ~ occurred W a evs (Timer.current_time t) p -> ws_cells m' !! p = Some Pending.
Proof.
  intros D A S Hn. assert (ws_cells m !! p = Some Pending) as Hm.
  { eapply kept_by_reactor; [done..|]. intros Hr. apply Hn. by left. }
  destruct (decide (map_Exists (fun _ x => Timer.te_state x.2 = Some p) (due a))) as [(id & [E e] & Hd & Hp)|Hno].
  - cbn in Hp. destruct (so_timer _ _ _ _ S _ _ _ Hd Hp) as (_ & _ & Hs).
    rewrite (adv_later _ _ _ _ _ _ _ A id E e p Hd Hp Hs); [done|].
    destruct (Z.le_gt_cases (Timer.current_time t) (Timer.start_time (timer (loop W)) + E * Timer.kMillisecond)); [done|].
    destruct Hn. right. exists id, E, e. split_and!; [done..|lia].
  - rewrite (adv_other _ _ _ _ _ _ _ A); [done|]. intros id E e Hd Hp. apply Hno. by exists id, (E, e).
Qed.

(** ** The next iteration *)

Section Resume.
Variable resume : nat -> World K -> option (World K).

(** The iteration that starts in [W] comes to the handle of [h] in its queue and
    resumes it, or finds its coroutine done. *)
Definition resumes (W : World K) (h : nat) : Prop :=
  exists before after W1, ready_queue (loop W) = before ++ Some h :: after /\
    resume_all resume before (set_loop (set_ready_queue [] (loop W)) W) = Some W1 /\
    (frames (mem W1) !! h = Some true \/ frames (mem W1) !! h = Some false /\ is_Some (resume h W1)).

Lemma resume_all_app q1 q2 W : resume_all resume (q1 ++ q2) W = resume_all resume q1 W ≫= resume_all resume q2.
Proof.
  revert W. induction q1 as [|x q1 IH]; intros W; [done|]. cbn. destruct (resumable x (mem W)) as [go|]; [|done]. cbn.
  destruct x as [f|]; [|apply IH]. destruct go; [|apply IH]. destruct (resume f W) as [W1|]; [|done]. cbn. apply IH.
Qed.

Lemma iteration_resumes W x h : iteration resume W = Some x -> Some h ∈ ready_queue (loop W) -> resumes W h.
Proof.
  unfold iteration. intros E Hin. destruct (resume_all _ _ _) as [W0|] eqn:Er; [|done]. clear E.
  apply list_elem_of_split in Hin as (q1 & q2 & Hq). exists q1, q2. rewrite Hq, resume_all_app in Er.
  destruct (resume_all resume q1 _) as [W1|] eqn:E1; [|done]. exists W1. split; [done|]. split; [done|].
  cbn in Er. destruct (frames (mem W1) !! h) as [[]|] eqn:Ef; cbn in Er; [by left| |done].
  right. split; [done|]. destruct (resume h W1); [eauto|done].
Qed.

End Resume.

(** C15: The loop misses no wake-up.  When the poll of an iteration succeeds and
    the pointers of waiters and timers are live, waiting for events is defined
    and leaves the loop ready to go on: every task submitted from outside is
    owned and queued behind what was queued already; a coroutine suspended on a
    wait state whose descriptor was reported, or whose timer's tick lies before
    the clock reading after the poll, has its wait state settled, is queued, and
    the next iteration resumes it; one for which neither holds, at the wheel's
    new time, still waits.  The wheel is then less than a tick ahead of the clock
    unless it was before. *)
Theorem due_waits_resumed W a now k0 evs k1 :
  clock_now (kern W) = (now, k0) ->
  Reactor.epoll_wait (Reactor.epoll_fd (reactor (loop W))) Reactor.kMaxEventsPerPoll
    (Reactor.timeout_ms (poll_timeout (Timer.next_deadline (timer (loop W))) now)) k0 = (SOk evs, k1) ->
  waits_live W a ->
  exists W' n r m k,
    wait_for_events W = Some (Continue, W') /\
    Reactor.poll (poll_timeout (Timer.next_deadline (timer (loop W))) now) (reactor (loop W)) (mem W) k0 = Some (Ok n, r, m, k) /\
    owned_tasks (loop W') = owned_tasks (loop W) ++ cross_core_queue (loop W) /\ cross_core_queue (loop W') = [] /\
    (exists more, ready_queue (loop W') = ready_queue (loop W) ++ more ++ (ot_handle <$> cross_core_queue (loop W))) /\
    (forall p h, suspended_on W a p h -> occurred W a evs (clock_now k).1 p ->
      (exists v, ws_cells (mem W') !! p = Some v /\ v <> Pending) /\ Some h ∈ ready_queue (loop W') /\
      forall resume x, iteration resume W' = Some x -> resumes resume W' h) /\
    (forall p h, suspended_on W a p h -> ~ occurred W a evs (Timer.current_time (timer (loop W'))) p ->
      ws_cells (mem W') !! p = Some Pending) /\
    (clock_now k).1 <= Timer.current_time (timer (loop W')) /\
    (Timer.current_time (timer (loop W')) = Timer.current_time (timer (loop W)) \/
     Timer.current_time (timer (loop W')) < (clock_now k).1 + Timer.kTickDuration).
Proof.
  intros Ec Ew HL. destruct (wait_for_events_spec W a now k0 evs k1 Ec Ew HL)
    as (r & m & k & hs & t & a' & now' & k2 & W' & E & Ep & D & Ec' & A & Hf & El).
  exists W', (Z.of_nat (length hs)), r, m, k. rewrite Ec'. cbn [fst]. rewrite El. cbn [timer owned_tasks cross_core_queue ready_queue].
  split_and!; try done.
  - exists (Reactor.ready (reactor (loop W)) ++ hs ++ Timer.ready t). by rewrite <- !app_assoc.
  - intros p h S Ho. destruct (woken _ _ _ _ _ _ _ _ _ _ _ _ _ D Hf A S Ho) as [Hin Hv].
    assert (Some h ∈ ready_queue (loop W')) as Hq by (rewrite El; cbn [ready_queue]; rewrite !elem_of_app; tauto).
    split; [done|]. split; [by rewrite El in Hq|]. intros resume x Hx. by eapply iteration_resumes.
  - intros p h S Ho. by eapply undisturbed.
  - apply A.
  - apply (adv_exact _ _ _ _ _ _ _ A).
Qed.

End Wake.

(** ** Witness: a reader, a writer and a sleeper, data arrives and time passes *)

Section Witness.
Import ReactorProps ReactorProps.SimEpoll.

(** The clock stands at five milliseconds. *)
#[local] Instance sim_clock : LoopKernel Sim := {
  eventfd s := (SOk 4, s);
  eventfd_write _ s := (SOk tt, s);
  eventfd_read _ s := s;
  close_fd _ s := s;
  clock_now s := (5000000, s);
}.

Definition sleeper_id : Z := Timer.encode_id 0 1.
Definition sleeper : Timer.TimerEntry := Timer.mkEntry sleeper_id 1000000 (Some 3%nat) (Some 30%nat) Ready.
Definition sleeping : Timer.Wheel :=
  match Timer.schedule_at 1000000 (Some 3%nat) (Some 30%nat) Ready (Timer.make_wheel 0) with
  | Some (_, w) => w
  | None => Timer.make_wheel 0
  end.
Definition sleep_agenda : Agenda := a_schedule 0 sleeper_id sleeper (mkAgenda 0 ∅).

Definition wit_world : World Sim :=
  mkWorld (mkLoop duplex sleeping None [mkOwned (Some 1%nat)] [] false 0 4 [mkOwned (Some 9%nat)])
    (mkMem {[ 10%nat := Pending; 20%nat := Pending; 30%nat := Pending ]} ∅
           {[ 1%nat := false; 2%nat := false; 3%nat := false; 9%nat := false ]}) ∅ ∅ false duplex_k.

Lemma reach_sleeping : TimerProps.reach 0 sleeping sleep_agenda.
Proof. eapply (TimerProps.reach_schedule 0 (Timer.make_wheel 0)); [constructor|reflexivity..|]. by vm_compute. Qed.

Lemma sleep_due id E e : due sleep_agenda !! id = Some (E, e) -> id = sleeper_id /\ E = 1 /\ e = sleeper.
Proof.
  unfold sleep_agenda, a_schedule, due at 1. rewrite lookup_insert. destruct (decide (sleeper_id = id)) as [<-|]; [by intros [= <- <-]|].
  change (due _) with (∅ : gmap Z (Z * Timer.TimerEntry)). by rewrite lookup_empty.
Qed.

Lemma wit_live : waits_live wit_world sleep_agenda.
Proof.
  split; [|split; [apply (reach_Rel 0), reach_sleeping|]].
  - intros fd [] w [-> ->]%waiter_duplex; split; intros p Hp; cbn in Hp; try done; injection Hp as <-; cbn; eauto.
  - intros id E e (-> & -> & ->)%sleep_due. split; intros p Hp; cbn in Hp; injection Hp as <-; cbn; eauto.
Qed.

Lemma wit_suspended p h : (p, h) ∈ [(10%nat, 1%nat); (20%nat, 2%nat); (30%nat, 3%nat)] -> suspended_on wit_world sleep_agenda p h.
Proof.
  intros Hin. repeat (apply elem_of_cons in Hin; destruct Hin as [[= -> ->]|Hin]); [..|by apply not_elem_of_nil in Hin].
  all: split; [reflexivity|reflexivity|intros fd [] w [-> ->]%waiter_duplex Hp; try discriminate Hp; (split; [done|split; [done|]]);
    intros fd' [] w' [-> ->]%waiter_duplex Hp'; by try discriminate Hp'|
    intros id E e (-> & -> & ->)%sleep_due Hp; try discriminate Hp; (split; [done|split; [done|]]);
    intros id' E' e' (-> & _)%sleep_due; done].
Qed.

(** The reader and the sleeper are resumed, the writer waits on. *)
Lemma due_waits_resumed_witness :
  exists W', wait_for_events wit_world = Some (Continue, W') /\
    Some 1%nat ∈ ready_queue (loop W') /\ Some 3%nat ∈ ready_queue (loop W') /\ ws_cells (mem W') !! 20%nat = Some Pending.
Proof.
  destruct (due_waits_resumed wit_world sleep_agenda 5000000 duplex_k [(5, Reactor.EPOLLIN)] (sim_wait 256 duplex_k).2)
    as (W' & n & r & m & k & E & _ & _ & _ & _ & Hw & Hk & _ & Ht); [reflexivity|reflexivity|exact wit_live|].
  exists W'. split; [exact E|]. split_and!.
  - apply (Hw 10%nat 1%nat); [apply wit_suspended; constructor|]. left. exists 5, Reactor.DRead, rd_waiter.
    split_and!; [done..|]. exists Reactor.EPOLLIN. split; [constructor|by left].
  - apply (Hw 30%nat 3%nat); [apply wit_suspended; by do 2 constructor; constructor|]. right. exists sleeper_id, 1, sleeper.
    split; [apply lookup_insert_eq|]. split; [reflexivity|]. vm_compute. reflexivity.
  - apply (Hk 20%nat 2%nat); [apply wit_suspended; by do 2 constructor|].
    intros [(fd & [] & w & [-> ->]%waiter_duplex & Hp & ep & [= ->]%list_elem_of_singleton & Hb)|(id & E' & e & (_ & _ & ->)%sleep_due & Hp & _)].
    + discriminate Hp.
    + by destruct Hb as [|[]].
    + discriminate Hp.
Defined.

End Witness.
End WakeUp.
