(* ===== verification/Fs.v ===== *)
(** * Fs: [fs/metadata.hpp], [fs/detail.hpp], [fs/file.hpp] and [fs/ops.hpp]

    File metadata, offset checks, the synchronous loops over [read], [write],
    [pread] and [pwrite], the [File] handle with its shared descriptor, and the
    asynchronous operations, which run the synchronous ones on the blocking
    pool.  The file system calls and the pool are parameters. *)

From S2P Require Import Prelude Core.

Module Fs.

(** ** Metadata *)

Inductive FileType := Regular | Directory | Symlink | Other.

#[global] Instance FileType_eq_dec : EqDecision FileType.
Proof. solve_decision. Defined.

Record Metadata := mkMetadata { md_size : Z; permissions : Z; type : FileType }.

Definition is_file (m : Metadata) : bool := bool_decide (type m = Regular).
Definition is_dir (m : Metadata) : bool := bool_decide (type m = Directory).
Definition is_symlink (m : Metadata) : bool := bool_decide (type m = Symlink).

(** The two fields of [struct stat] that are used. *)
Record Stat := mkStat { st_mode : Z; st_size : Z }.

Definition S_IFMT : Z := 0xF000.
Definition S_IFREG : Z := 0x8000.
Definition S_IFDIR : Z := 0x4000.
Definition S_IFLNK : Z := 0xA000.

Definition metadata_from_stat (st : Stat) : Metadata :=
  let fmt := Z.land (st_mode st) S_IFMT in
  let type := if fmt =? S_IFREG then Regular
              else if fmt =? S_IFDIR then Directory
              else if fmt =? S_IFLNK then Symlink else Other in
  mkMetadata (if 0 <? st_size st then u64 (st_size st) else 0) (u32 (Z.land (st_mode st) 0xFFF)) type.

(** ** Offsets *)

Definition max_off : Z := 2 ^ 63 - 1.
Definition offset_too_large : SystemError := make_error EINVAL "file offset is too large".

Definition checked_offset (offset : Z) : Result Z :=
  if max_off <? offset then Err offset_too_large else Ok (i64 offset).

Definition checked_offset_add (offset delta : Z) : Result Z :=
  if (max_off <? offset) || (max_off - offset <? delta) then Err offset_too_large
  else Ok (i64 (offset +u[64] delta)%rain).

(** ** Open flags *)

Definition O_RDONLY : Z := 0.
Definition O_WRONLY : Z := 1.
Definition O_RDWR : Z := 2.
Definition O_CREAT : Z := 0x40.
Definition O_EXCL : Z := 0x80.
Definition O_TRUNC : Z := 0x200.
Definition O_APPEND : Z := 0x400.
Definition O_CLOEXEC : Z := 0x80000.

Record OpenOptions := mkOpen {
  opt_read : bool; opt_write : bool; opt_append : bool; opt_truncate : bool;
  opt_create : bool; opt_create_new : bool; opt_mode : Z
}.

Definition default_mode : Z := 0x1A4. (* 0644 *)
Definition read_only : OpenOptions := mkOpen true false false false false false default_mode.
Definition write_only : OpenOptions := mkOpen false true false false false false default_mode.
Definition read_write : OpenOptions := mkOpen true true false false false false default_mode.
Definition create_truncate : OpenOptions := mkOpen false true false true true false default_mode.
Definition append_create : OpenOptions := mkOpen false true true false true false default_mode.

Definition no_access : SystemError := make_error EINVAL "OpenOptions must enable read or write access".

Definition open_flags (o : OpenOptions) : Result Z :=
  let needs_write := opt_write o || opt_append o || opt_truncate o || opt_create o || opt_create_new o in
  let tail flags :=
    let flags := if opt_append o then Z.lor flags O_APPEND else flags in
    let flags := if opt_truncate o then Z.lor flags O_TRUNC else flags in
    let flags := if opt_create o || opt_create_new o then Z.lor flags O_CREAT else flags in
    let flags := if opt_create_new o then Z.lor flags O_EXCL else flags in
    Ok flags in
  if opt_read o && needs_write then tail (Z.lor 0 O_RDWR)
  else if opt_read o then tail (Z.lor 0 O_RDONLY)
  else if needs_write then tail (Z.lor 0 O_WRONLY)
  else Err no_access.

(** ** The kernel interface

    Buffers are byte lists: [sys_read fd len] gives the bytes read, [sys_write
    fd data] the number of bytes taken from the front of [data]. *)

Class FileKernel (K : Type) := {
  sys_open : string -> Z -> Z -> K -> SysRet Z * K;
  sys_close : Z -> K -> SysRet unit * K;
  sys_read : Z -> nat -> K -> SysRet (list Z) * K;
  sys_write : Z -> list Z -> K -> SysRet nat * K;
  sys_pread : Z -> nat -> Z -> K -> SysRet (list Z) * K;
  sys_pwrite : Z -> list Z -> Z -> K -> SysRet nat * K;
  sys_fstat : Z -> K -> SysRet Stat * K;
  sys_stat : string -> K -> SysRet Stat * K;
  sys_lstat : string -> K -> SysRet Stat * K;
  sys_access : string -> K -> SysRet unit * K;
  sys_unlink : string -> K -> SysRet unit * K;
}.

Section Operations.
Context {K : Type} `{FileKernel K}.

(** ** [OwnedFd]: a descriptor, [-1] when released or closed *)

Definition owned_close (fd : Z) (k : K) : Result unit * Z * K :=
  if fd <? 0 then (Ok tt, fd, k)
  else
    match sys_close fd k with
    | (SErr e, k) => (Err (from_errno e), -1, k)
    | (SOk _, k) => (Ok tt, -1, k)
    end.

Definition owned_release (fd : Z) : Z * Z := (fd, -1).

(** The move constructor: the new object's descriptor and the old one's. *)
Definition owned_move_construct (other : Z) : Z * Z := (other, -1).

(** The move assignment closes what it held; the result is the descriptor of
    the target and of the source. *)
Definition owned_move_assign (self other : Z) (k : K) : Z * Z * K :=
  let '(_, _, k) := owned_close self k in (other, -1, k).

(** The destructor of an [OwnedFd] that goes out of scope. *)
Definition owned_destroy (fd : Z) (k : K) : K := (owned_close fd k).2.

Definition open_fd (path : string) (flags mode : Z) (k : K) : Result Z * K :=
  match sys_open path (Z.lor flags O_CLOEXEC) (if Z.land flags O_CREAT =? 0 then 0 else mode) k with
  | (SErr e, k) => (Err (from_errno e), k)
  | (SOk fd, k) => (Ok fd, k)
  end.

(** ** The synchronous operations

    [fuel] bounds the iterations of a loop; [None] when it runs out. *)

Definition write_zero : SystemError := make_error EIO "write returned zero".
Definition pwrite_zero : SystemError := make_error EIO "pwrite returned zero".

Fixpoint write_all_loop (fuel : nat) (fd : Z) (data : list Z) (total : nat) (k : K) : option (Result unit * K) :=
  if bool_decide (total < length data)%nat then
    match fuel with
    | O => None
    | S fuel =>
      match sys_write fd (drop total data) k with
      | (SOk O, k) => Some (Err write_zero, k)
      | (SOk n, k) => write_all_loop fuel fd data (total + n) k
      | (SErr e, k) => if e =? EINTR then write_all_loop fuel fd data total k else Some (Err (from_errno e), k)
      end
    end
  else Some (Ok tt, k).

Definition write_all_fd (fuel : nat) (fd : Z) (data : list Z) (k : K) : option (Result unit * K) :=
  write_all_loop fuel fd data 0 k.

(** The size of the read buffer. *)
Definition kReadBuf : nat := Z.to_nat 8192.

(** The [read] loop of [read_file_sync]. *)
Fixpoint read_all_loop (fuel : nat) (fd : Z) (data : list Z) (k : K) : option (Result (list Z) * K) :=
  match fuel with
  | O => None
  | S fuel =>
    match sys_read fd kReadBuf k with
    | (SOk [], k) => Some (Ok data, k)
    | (SOk bs, k) => read_all_loop fuel fd (data ++ bs) k
    | (SErr e, k) => if e =? EINTR then read_all_loop fuel fd data k else Some (Err (from_errno e), k)
    end
  end.

(** Returning early destroys the [OwnedFd]; the [fstat] only sizes a buffer. *)
Definition read_file_sync (fuel : nat) (path : string) (k : K) : option (Result (list Z) * K) :=
  match open_fd path O_RDONLY 0 k with
  | (Err e, k) => Some (Err e, k)
  | (Ok fd, k) =>
    let '(_, k) := sys_fstat fd k in
    r ← read_all_loop fuel fd [] k;
    match r with
    | (Err e, k) => Some (Err e, owned_destroy fd k)
    | (Ok data, k) =>
      match owned_close fd k with
      | (Err e, _, k) => Some (Err e, k)
      | (Ok _, _, k) => Some (Ok data, k)
      end
    end
  end.

Definition write_file_sync (fuel : nat) (path : string) (data : list Z) (append : bool) (k : K)
  : option (Result unit * K) :=
  let flags := Z.lor (Z.lor O_WRONLY O_CREAT) (if append then O_APPEND else O_TRUNC) in
  match open_fd path flags default_mode k with
  | (Err e, k) => Some (Err e, k)
  | (Ok fd, k) =>
    r ← write_all_fd fuel fd data k;
    match r with
    | (Err e, k) => Some (Err e, owned_destroy fd k)
    | (Ok _, k) => let '(res, _, k) := owned_close fd k in Some (res, k)
    end
  end.

Fixpoint read_at_loop (fuel : nat) (fd offset : Z) (len : nat) (data : list Z) (k : K)
  : option (Result (list Z) * K) :=
  if bool_decide (length data < len)%nat then
    match checked_offset_add offset (Z.of_nat (length data)) with
    | Err e => Some (Err e, k)
    | Ok current =>
      match fuel with
      | O => None
      | S fuel =>
        match sys_pread fd (len - length data) current k with
        | (SOk [], k) => Some (Ok data, k)
        | (SOk bs, k) => read_at_loop fuel fd offset len (data ++ bs) k
        | (SErr e, k) =>
          if e =? EINTR then read_at_loop fuel fd offset len data k else Some (Err (from_errno e), k)
        end
      end
    end
  else Some (Ok data, k).

Definition read_at_fd_sync (fuel : nat) (fd offset : Z) (len : nat) (k : K) : option (Result (list Z) * K) :=
  match checked_offset offset with
  | Err e => Some (Err e, k)
  | Ok _ => read_at_loop fuel fd offset len [] k
  end.

Fixpoint write_at_loop (fuel : nat) (fd offset : Z) (data : list Z) (total : nat) (k : K)
  : option (Result Z * K) :=
  if bool_decide (total < length data)%nat then
    match checked_offset_add offset (Z.of_nat total) with
    | Err e => Some (Err e, k)
    | Ok current =>
      match fuel with
      | O => None
      | S fuel =>
        match sys_pwrite fd (drop total data) current k with
        | (SOk O, k) => Some (Err pwrite_zero, k)
        | (SOk n, k) => write_at_loop fuel fd offset data (total + n) k
        | (SErr e, k) =>
          if e =? EINTR then write_at_loop fuel fd offset data total k else Some (Err (from_errno e), k)
        end
      end
    end
  else Some (Ok (Z.of_nat total), k).

Definition write_at_fd_sync (fuel : nat) (fd offset : Z) (data : list Z) (k : K) : option (Result Z * K) :=
  write_at_loop fuel fd offset data 0 k.

Definition stat_result (r : SysRet Stat * K) : Result Metadata * K :=
  match r with
  | (SErr e, k) => (Err (from_errno e), k)
  | (SOk st, k) => (Ok (metadata_from_stat st), k)
  end.

Definition metadata_fd_sync (fd : Z) (k : K) : Result Metadata * K := stat_result (sys_fstat fd k).

Definition metadata_path_sync (path : string) (follow_symlink : bool) (k : K) : Result Metadata * K :=
  stat_result (if follow_symlink then sys_stat path k else sys_lstat path k).

Definition exists_sync (path : string) (k : K) : Result bool * K :=
  match sys_access path k with
  | (SOk _, k) => (Ok true, k)
  | (SErr e, k) => if e =? ENOENT then (Ok false, k) else (Err (from_errno e), k)
  end.

Definition remove_file_sync (path : string) (k : K) : Result unit * K :=
  match sys_unlink path k with
  | (SErr e, k) => (Err (from_errno e), k)
  | (SOk _, k) => (Ok tt, k)
  end.

(** ** [File]

    A [File] is a [shared_ptr] to a state holding the descriptor: null, or the
    address of a cell. *)

Abbreviation File := (option nat).
Abbreviation Cells := (gmap nat Z).

Definition not_open : SystemError := make_error EBADF "file is not open".
Definition is_closed : SystemError := make_error EBADF "file is closed".

(** [File(OwnedFd)] allocates the state at the fresh address [a]. *)
Definition file_make (a : nat) (fd : Z) (cs : Cells) : File * Cells := (Some a, <[a := fd]> cs).

Definition file_open_sync (a : nat) (path : string) (o : OpenOptions) (cs : Cells) (k : K)
  : Result File * Cells * K :=
  match open_flags o with
  | Err e => (Err e, cs, k)
  | Ok flags =>
    match open_fd path flags (opt_mode o) k with
    | (Err e, k) => (Err e, cs, k)
    | (Ok fd, k) => let '(f, cs) := file_make a fd cs in (Ok f, cs, k)
    end
  end.

(** [File::create] and [File::append]. *)
Definition file_create (a : nat) (path : string) (cs : Cells) (k : K) := file_open_sync a path create_truncate cs k.
Definition file_append (a : nat) (path : string) (cs : Cells) (k : K) := file_open_sync a path append_create cs k.

(** The guard of every operation that uses the descriptor. *)
Definition with_fd {T} (f : File) (cs : Cells) (op : Z -> K -> option (Result T * K)) (k : K)
  : option (Result T * K) :=
  match f with
  | None => Some (Err not_open, k)
  | Some a =>
    fd ← cs !! a;
    if fd <? 0 then Some (Err is_closed, k) else op fd k
  end.

Definition file_read_at (fuel : nat) (f : File) (cs : Cells) (offset : Z) (len : nat) (k : K) :=
  with_fd f cs (fun fd => read_at_fd_sync fuel fd offset len) k.
Definition file_write_at (fuel : nat) (f : File) (cs : Cells) (offset : Z) (data : list Z) (k : K) :=
  with_fd f cs (fun fd => write_at_fd_sync fuel fd offset data) k.
(** [write_string_at]: the bytes of the string, whatever they are. *)
Definition string_bytes (s : string) : list Z := map (fun c => Z.of_nat (Ascii.nat_of_ascii c)) (String.list_ascii_of_string s).
Definition file_write_string_at (fuel : nat) (f : File) (cs : Cells) (offset : Z) (data : string) (k : K) :=
  with_fd f cs (fun fd => write_at_fd_sync fuel fd offset (string_bytes data)) k.
Definition file_metadata (f : File) (cs : Cells) (k : K) :=
  with_fd f cs (fun fd k => Some (metadata_fd_sync fd k)) k.

(** [State::close]: the descriptor is given up before it is closed. *)
Definition state_close (fd : Z) (k : K) : Result unit * Z * K :=
  if fd <? 0 then (Ok tt, fd, k)
  else
    match sys_close fd k with
    | (SErr e, k) => (Err (from_errno e), -1, k)
    | (SOk _, k) => (Ok tt, -1, k)
    end.

Definition file_close (f : File) (cs : Cells) (k : K) : option (Result unit * Cells * K) :=
  match f with
  | None => Some (Ok tt, cs, k)
  | Some a =>
    fd ← cs !! a;
    let '(res, fd, k) := state_close fd k in
    Some (res, <[a := fd]> cs, k)
  end.

(** [~State], when the last copy of the file goes. *)
Definition state_destroy (fd : Z) (k : K) : K := (state_close fd k).2.

Definition file_fd (f : File) (cs : Cells) : option Z :=
  match f with None => Some (-1) | Some a => cs !! a end.
Definition file_valid (f : File) (cs : Cells) : option bool :=
  match f with None => Some false | Some a => fd ← cs !! a; Some (0 <=? fd) end.

(** ** The asynchronous operations

    [spawn_blocking] runs a closure on the pool and gives its result, or the
    error of the pool or of the wait. *)

Variable spawn_blocking : forall T, (K -> option (T * K)) -> K -> option (Result T * K).
Variables g_reactor g_thread_pool : bool.

Definition needs_loop : SystemError := make_error EPERM "fs operation requires a running EventLoop".
Definition needs_pool : SystemError := make_error EPERM "fs operation requires Runtime blocking pool".

Definition spawn_blocking_result {T} (work : K -> option (Result T * K)) (k : K) : option (Result T * K) :=
  if negb g_reactor then Some (Err needs_loop, k)
  else if negb g_thread_pool then Some (Err needs_pool, k)
  else
    nested ← spawn_blocking (Result T) work k;
    match nested with
    | (Err e, k) => Some (Err e, k)
    | (Ok r, k) => Some (r, k)
    end.

Definition read (fuel : nat) (path : string) := spawn_blocking_result (read_file_sync fuel path).

(** Strings and byte vectors are the same byte lists here; [read_to_string]
    copies the bytes. *)
Definition read_to_string (fuel : nat) (path : string) (k : K) : option (Result (list Z) * K) :=
  r ← read fuel path k;
  match r with
  | (Err e, k) => Some (Err e, k)
  | (Ok bytes, k) => Some (Ok bytes, k)
  end.

Definition write (fuel : nat) (path : string) (data : list Z) :=
  spawn_blocking_result (write_file_sync fuel path data false).
Definition append (fuel : nat) (path : string) (data : list Z) :=
  spawn_blocking_result (write_file_sync fuel path data true).
Definition exists_ (path : string) := spawn_blocking_result (fun k => Some (exists_sync path k)).
Definition metadata (path : string) := spawn_blocking_result (fun k => Some (metadata_path_sync path true k)).
Definition symlink_metadata (path : string) := spawn_blocking_result (fun k => Some (metadata_path_sync path false k)).
Definition remove_file (path : string) := spawn_blocking_result (fun k => Some (remove_file_sync path k)).

End Operations.
End Fs.
