(* ===== verification/FsProps.v ===== *)
(** * FsProps: what is read is what was written *)

From S2P Require Import Prelude Core Fs.

Module FsProps.
Import Fs.

(** ** The file system behind the descriptors

    [view k]: the contents of the files by path, and for each open descriptor
    its path, position and append mode.  [patience k] bounds the number of calls
    that can still be interrupted by a signal. *)

Record FsView := mkView { files : gmap string (list Z); fds : gmap Z (string * nat * bool) }.

(** Writing [bs] at [off]; a gap reads as zeros. *)
Definition overwrite (off : nat) (bs c : list Z) : list Z :=
  take off c ++ replicate (off - length c) 0 ++ bs ++ drop (off + length bs) c.

Definition has (flags bit : Z) : bool := negb (Z.land flags bit =? 0).

Definition opened (path : string) (flags fd : Z) (v : FsView) : FsView :=
  mkView (if has flags O_TRUNC || bool_decide (files v !! path = None)
          then <[path := []]> (files v) else files v)
         (<[fd := (path, O, has flags O_APPEND)]> (fds v)).

Class FileLaws (K : Type) `{FileKernel K} := {
  view : K -> FsView;
  patience : K -> nat;
  (** open(2) *)
  open_ok path flags mode k fd k' : sys_open path flags mode k = (SOk fd, k') ->
    0 <= fd /\ fds (view k) !! fd = None /\ view k' = opened path flags fd (view k) /\
    patience k' = patience k /\ (has flags O_CREAT = false -> is_Some (files (view k) !! path));
  open_err path flags mode k e k' : sys_open path flags mode k = (SErr e, k') ->
    view k' = view k /\ patience k' = patience k;
  (** close(2): the descriptor is gone, whatever is returned *)
  close_view fd k r k' : sys_close fd k = (r, k') ->
    view k' = mkView (files (view k)) (delete fd (fds (view k))) /\ patience k' = patience k;
  fstat_view fd k r k' : sys_fstat fd k = (r, k') -> view k' = view k /\ patience k' = patience k;
  (** read(2) and pread(2): a prefix of what is there, empty only at the end *)
  read_ok fd len k bs k' : sys_read fd len k = (SOk bs, k') ->
    exists path pos app c, fds (view k) !! fd = Some (path, pos, app) /\ files (view k) !! path = Some c /\
      bs `prefix_of` drop pos c /\ (length bs <= len)%nat /\ (bs = [] -> len = O \/ drop pos c = []) /\
      view k' = mkView (files (view k)) (<[fd := (path, (pos + length bs)%nat, app)]> (fds (view k))) /\
      patience k' = patience k;
  pread_ok fd len off k bs k' : sys_pread fd len off k = (SOk bs, k') ->
    exists path pos app c, fds (view k) !! fd = Some (path, pos, app) /\ files (view k) !! path = Some c /\
      bs `prefix_of` drop (Z.to_nat off) c /\ (length bs <= len)%nat /\
      (bs = [] -> len = O \/ drop (Z.to_nat off) c = []) /\ view k' = view k /\ patience k' = patience k;
  (** write(2) and pwrite(2): the first bytes, at the position or at the end *)
  write_ok fd data k n k' : sys_write fd data k = (SOk n, k') ->
    exists path pos app c, fds (view k) !! fd = Some (path, pos, app) /\ files (view k) !! path = Some c /\
      (n <= length data)%nat /\
      (let at_ := if (app : bool) then length c else pos in
       view k' = mkView (<[path := overwrite at_ (take n data) c]> (files (view k)))
                        (<[fd := (path, (at_ + n)%nat, app)]> (fds (view k)))) /\
      patience k' = patience k;
  pwrite_ok fd data off k n k' : sys_pwrite fd data off k = (SOk n, k') ->
    exists path pos c, fds (view k) !! fd = Some (path, pos, false) /\ files (view k) !! path = Some c /\
      (n <= length data)%nat /\
      view k' = mkView (<[path := overwrite (Z.to_nat off) (take n data) c]> (files (view k))) (fds (view k)) /\
      patience k' = patience k;
  (** a failed call changes nothing, and interruptions run out *)
  read_err fd len k e k' : sys_read fd len k = (SErr e, k') ->
    view k' = view k /\ (patience k' <= patience k)%nat /\ (e = EINTR -> (patience k' < patience k)%nat);
  pread_err fd len off k e k' : sys_pread fd len off k = (SErr e, k') ->
    view k' = view k /\ (patience k' <= patience k)%nat /\ (e = EINTR -> (patience k' < patience k)%nat);
  write_err fd data k e k' : sys_write fd data k = (SErr e, k') ->
    view k' = view k /\ (patience k' <= patience k)%nat /\ (e = EINTR -> (patience k' < patience k)%nat);
  pwrite_err fd data off k e k' : sys_pwrite fd data off k = (SErr e, k') ->
    view k' = view k /\ (patience k' <= patience k)%nat /\ (e = EINTR -> (patience k' < patience k)%nat);
}.

(** ** Overwriting *)

Lemma overwrite_app off b1 b2 c :
  overwrite (off + length b1) b2 (overwrite off b1 c) = overwrite off (b1 ++ b2) c.
Proof.
  assert (length (take off c ++ replicate (off - length c) 0) = off) as Hl.
  { rewrite length_app, length_take, length_replicate. lia. }
  set (pre := take off c ++ replicate (off - length c) 0) in *.
  assert (forall bs, overwrite off bs c = (pre ++ bs) ++ drop (off + length bs) c) as Ho.
  { intros bs. unfold overwrite, pre. by rewrite <- !app_assoc. }
  assert (length (pre ++ b1) = off + length b1)%nat as Hl1 by (rewrite length_app; lia).
  rewrite !Ho. unfold overwrite at 1.
  rewrite take_app_length' by done.
  rewrite (proj2 (Nat.sub_0_le _ _)) by (rewrite length_app; lia). cbn [replicate].
  rewrite app_nil_l, length_app, app_assoc, drop_app_ge by lia.
  rewrite Hl1, drop_drop, <- !app_assoc. do 4 f_equal. lia.
Qed.

Lemma overwrite_nil off c : (off <= length c)%nat -> overwrite off [] c = c.
Proof.
  intros Hl. unfold overwrite. cbn. replace (off - length c)%nat with O by lia. cbn.
  rewrite Nat.add_0_r. apply take_drop.
Qed.

Lemma read_overwrite off bs c : take (length bs) (drop off (overwrite off bs c)) = bs.
Proof.
  assert (length (take off c ++ replicate (off - length c) 0) = off) as Hl.
  { rewrite length_app, length_take, length_replicate. lia. }
  unfold overwrite. rewrite app_assoc, drop_app_length' by done. by rewrite take_app_length.
Qed.

Lemma overwrite_whole bs : overwrite 0 bs [] = bs.
Proof. unfold overwrite. cbn. by rewrite drop_nil, app_nil_r. Qed.

Lemma overwrite_end bs c : overwrite (length c) bs c = c ++ bs.
Proof.
  unfold overwrite. rewrite firstn_all, Nat.sub_diag, drop_ge by lia. cbn. by rewrite app_nil_r.
Qed.

(** ** Offsets *)

(** [checked_offset_add] succeeds exactly when the sum is representable as
    an [off_t], and then gives the sum: neither the unsigned addition nor the
    conversion to the signed type wraps. *)
Theorem checked_offset_add_exact offset delta :
  0 <= offset < 2 ^ 64 -> 0 <= delta < 2 ^ 64 ->
  (offset + delta <= max_off -> checked_offset_add offset delta = Ok (offset + delta)) /\
  (max_off < offset + delta -> checked_offset_add offset delta = Err offset_too_large).
Proof.
  intros Ho Hd. unfold checked_offset_add, max_off. split; intros Hs.
  - destruct (Z.ltb_spec (2 ^ 63 - 1) offset); [lia|]. destruct (Z.ltb_spec (2 ^ 63 - 1 - offset) delta); [lia|].
    cbn [orb]. by autorewrite with rain.
  - destruct (Z.ltb_spec (2 ^ 63 - 1) offset); [done|]. destruct (Z.ltb_spec (2 ^ 63 - 1 - offset) delta); [done|lia].
Qed.

Lemma checked_offset_add_exact_witness : checked_offset_add (2 ^ 63 - 5) 4 = Ok (2 ^ 63 - 1) /\
  checked_offset_add (2 ^ 63 - 5) 5 = Err offset_too_large.
Proof.
  split.
  - apply (checked_offset_add_exact (2 ^ 63 - 5) 4); [lia|lia|]. unfold max_off. lia.
  - apply (checked_offset_add_exact (2 ^ 63 - 5) 5); [lia|lia|]. unfold max_off. lia.
Defined.

(** ** The loops *)

Section Loops.
Context {K : Type} `{FileLaws K}.

Lemma take_drop_join {A} (l : list A) i n m :
  take n (drop i l) ++ take m (drop (i + n) l) = take (n + m) (drop i l).
Proof. rewrite <- drop_drop, take_take_drop. done. Qed.

Lemma overwrite_length off bs c : (off + length bs <= length (overwrite off bs c))%nat.
Proof. unfold overwrite. rewrite !length_app, length_take, length_replicate. lia. Qed.

Lemma overwrite_end_length app pos bs (c : list Z) :
  let at_ := if (app : bool) then length c else pos in
  (if app then length (overwrite at_ bs c) else (at_ + length bs)%nat) = (at_ + length bs)%nat.
Proof. destruct app; [|done]. cbn. rewrite overwrite_end, length_app. done. Qed.

(** An error a loop gives up with: not an interruption. *)
Definition gives_up {T} (zero : SystemError) (r : Result T) : Prop :=
  exists e, r = Err e /\ (e = zero \/ exists errno, errno <> EINTR /\ e = from_errno errno).

(** [write_all_fd] writes a prefix of the data in order, all of it on success. *)
Lemma write_all_loop_spec fuel fd data total (k : K) path pos app c :
  fds (view k) !! fd = Some (path, pos, app) -> files (view k) !! path = Some c -> (pos <= length c)%nat ->
  (total <= length data)%nat -> (length data - total + patience k <= fuel)%nat ->
  let at_ := if (app : bool) then length c else pos in
  exists r k' n pos', write_all_loop fuel fd data total k = Some (r, k') /\
    (total + n <= length data)%nat /\
    view k' = mkView (<[path := overwrite at_ (take n (drop total data)) c]> (files (view k)))
                     (<[fd := (path, pos', app)]> (fds (view k))) /\
    (r = Ok tt /\ (total + n)%nat = length data \/ gives_up write_zero r).
Proof.
  revert total k pos c. induction fuel as [fuel IH] using lt_wf_ind. intros total k pos c Hfd Hc Hpos Htot Hfuel at_.
  assert (forall k', view k' = view k -> view k' =
    mkView (<[path := overwrite at_ (take 0 (drop total data)) c]> (files (view k)))
           (<[fd := (path, pos, app)]> (fds (view k)))) as Hsame.
  { intros k' ->. cbn [take]. rewrite overwrite_nil by (destruct app; cbn; lia).
    rewrite (insert_id (files _)), (insert_id (fds _)) by done. by destruct (view k). }
  assert (forall g, write_all_loop g fd data total k =
    if bool_decide (total < length data)%nat then
      match g with
      | O => None
      | S g => match sys_write fd (drop total data) k with
        | (SOk O, k) => Some (Err write_zero, k)
        | (SOk n, k) => write_all_loop g fd data (total + n) k
        | (SErr e, k) => if e =? EINTR then write_all_loop g fd data total k else Some (Err (from_errno e), k)
        end
      end
    else Some (Ok tt, k)) as -> by by destruct g.
  case_bool_decide as Hlt.
  2:{ exists (Ok tt), k, O, pos. split_and!; [done|lia|by apply Hsame|left; split; [done|lia]]. }
  destruct fuel as [|fuel]; [lia|].
  destruct (sys_write fd (drop total data) k) as [[n|e] k1] eqn:Ew.
  - destruct (write_ok _ _ _ _ _ Ew) as (path' & pos' & app' & c' & Hfd' & Hc' & Hn & Hv & Hpat).
    rewrite Hfd in Hfd'. injection Hfd' as <- <- <-. rewrite Hc in Hc'. injection Hc' as <-.
    rewrite length_drop in Hn. fold at_ in Hv.
    destruct n as [|n].
    { exists (Err write_zero), k1, O, (at_ + 0)%nat. split_and!; [done|lia|exact Hv|]. right. eexists. eauto. }
    destruct (IH fuel ltac:(lia) (total + S n)%nat k1 (at_ + S n)%nat (overwrite at_ (take (S n) (drop total data)) c))
      as (r & k' & n2 & pos2 & E & Hle & Hv2 & Hres).
    + rewrite Hv. cbn. by rewrite lookup_insert_eq.
    + rewrite Hv. cbn. by rewrite lookup_insert_eq.
    + pose proof (overwrite_length at_ (take (S n) (drop total data)) c) as Hl.
      rewrite length_take, length_drop in Hl. lia.
    + lia.
    + lia.
    + exists r, k', (S n + n2)%nat, pos2. split_and!; [done|lia| |].
      * rewrite Hv2, Hv. cbn [files fds]. rewrite !insert_insert_eq. f_equal. f_equal.
        rewrite <- take_drop_join, <- overwrite_app.
        assert (length (take (S n) (drop total data)) = S n) as Hlen by (rewrite length_take, length_drop; lia).
        rewrite Hlen. f_equal.
        pose proof (overwrite_end_length app pos (take (S n) (drop total data)) c) as Hat. cbv zeta in Hat.
        fold at_ in Hat. rewrite Hlen in Hat. destruct app; done.
      * destruct Hres as [[-> Hn2]|Hg]; [left; split; [done|lia]|by right].
  - destruct (write_err _ _ _ _ _ Ew) as (Hv & Hp & Hi). destruct (Z.eqb_spec e EINTR) as [->|Hne].
    + destruct (IH fuel ltac:(lia) total k1 pos c) as (r & k' & n2 & pos2 & E & Hle & Hv2 & Hres);
        rewrite ?Hv; try done; [specialize (Hi eq_refl); lia|].
      exists r, k', n2, pos2. rewrite Hv in Hv2. done.
    + exists (Err (from_errno e)), k1, O, pos. split_and!; [done|lia|by apply Hsame|]. right. eexists.
      split; [done|]. right. eauto.
Qed.

(** [read_file_sync]'s loop reads from the position to the end. *)
Lemma read_all_loop_spec fuel fd data (k : K) path pos app c :
  fds (view k) !! fd = Some (path, pos, app) -> files (view k) !! path = Some c ->
  (length c - pos + patience k < fuel)%nat ->
  exists r k' pos', read_all_loop fuel fd data k = Some (r, k') /\
    view k' = mkView (files (view k)) (<[fd := (path, pos', app)]> (fds (view k))) /\
    (r = Ok (data ++ drop pos c) \/ exists errno, errno <> EINTR /\ r = Err (from_errno errno)).
Proof.
  revert data k pos. induction fuel as [|fuel IH]; intros data k pos Hfd Hc Hfuel; [lia|]. cbn [read_all_loop].
  destruct (sys_read fd kReadBuf k) as [[bs|e] k1] eqn:Er.
  - destruct (read_ok _ _ _ _ _ Er) as (path' & pos' & app' & c' & Hfd' & Hc' & [rest Hpre] & Hlen & Hnil & Hv & Hpat).
    rewrite Hfd in Hfd'. injection Hfd' as <- <- <-. rewrite Hc in Hc'. injection Hc' as <-.
    destruct bs as [|b bs].
    + destruct (Hnil eq_refl) as [Hz|Hend]; [done|].
      exists (Ok data), k1, (pos + 0)%nat. split_and!; [done|exact Hv|]. left. by rewrite Hend, app_nil_r.
    + assert (length (drop pos c) = length (b :: bs) + length rest)%nat as Hl by (by rewrite Hpre, length_app).
      rewrite length_drop in Hl.
      destruct (IH (data ++ b :: bs) k1 (pos + length (b :: bs))%nat) as (r & k' & pos2 & E & Hv2 & Hres).
      * rewrite Hv. cbn. by rewrite lookup_insert_eq.
      * by rewrite Hv.
      * cbn [length] in *. lia.
      * exists r, k', pos2. split_and!; [exact E| |].
        -- rewrite Hv2, Hv. cbn [files fds]. by rewrite insert_insert_eq.
        -- destruct Hres as [->|Hg]; [left|by right]. rewrite <- app_assoc. do 2 f_equal.
           rewrite <- drop_drop, Hpre, drop_app_length. done.
  - destruct (read_err _ _ _ _ _ Er) as (Hv & Hp & Hi). destruct (Z.eqb_spec e EINTR) as [->|Hne].
    + destruct (IH data k1 pos) as (r & k' & pos2 & E & Hv2 & Hres); rewrite ?Hv; try done.
      { specialize (Hi eq_refl). lia. }
      exists r, k', pos2. rewrite Hv in Hv2. done.
    + exists (Err (from_errno e)), k1, pos. split_and!; [done| |right; eauto].
      rewrite Hv, (insert_id (fds _)) by done. by destruct (view k).
Qed.

(** ** Whole files *)

Lemma owned_close_spec fd (k : K) res fd' k' :
  0 <= fd -> owned_close fd k = (res, fd', k') ->
  fd' = -1 /\ view k' = mkView (files (view k)) (delete fd (fds (view k))) /\ patience k' = patience k.
Proof.
  intros Hfd. unfold owned_close. destruct (Z.ltb_spec fd 0); [lia|].
  destruct (sys_close fd k) as [[]] eqn:E; intros [= _ <- <-]; by destruct (close_view _ _ _ _ E).
Qed.

Lemma owned_destroy_spec fd (k : K) :
  0 <= fd -> view (owned_destroy fd k) = mkView (files (view k)) (delete fd (fds (view k))).
Proof.
  intros Hfd. unfold owned_destroy. destruct (owned_close fd k) as [[res fd'] k'] eqn:E.
  by destruct (owned_close_spec _ _ _ _ _ Hfd E) as (_ & ? & _).
Qed.

Lemma delete_reopened (D : gmap Z (string * nat * bool)) fd x y :
  D !! fd = None -> delete fd (<[fd := x]> (<[fd := y]> D)) = D.
Proof. intros Hn. rewrite insert_insert_eq. by apply delete_insert_id. Qed.

Definition write_flags (append : bool) : Z := Z.lor (Z.lor O_WRONLY O_CREAT) (if append then O_APPEND else O_TRUNC).

(** What the file holds after a successful [write] or [append]. *)
Definition new_content (append : bool) (old : option (list Z)) (data : list Z) : list Z :=
  (if append then default [] old else []) ++ data.

Lemma opened_for_write append path fd (v : FsView) :
  opened path (Z.lor (write_flags append) O_CLOEXEC) fd v =
  mkView (<[path := if append then default [] (files v !! path) else []]> (files v))
         (<[fd := (path, O, append)]> (fds v)).
Proof.
  unfold opened. destruct append; cbn [has write_flags].
  - change (has _ O_TRUNC) with false. change (has _ O_APPEND) with true. cbn [orb].
    case_bool_decide as Hn; [by rewrite Hn|]. destruct (files v !! path) as [c|] eqn:E; [|done].
    change (default [] (Some c)) with c. by rewrite (insert_id (files v)).
  - change (has _ O_TRUNC) with true. change (has _ O_APPEND) with false. done.
Qed.

Lemma write_file_spec fuel path data append (k : K) :
  (length data + patience k <= fuel)%nat ->
  exists r k', write_file_sync fuel path data append k = Some (r, k') /\
    fds (view k') = fds (view k) /\
    (r = Ok tt -> files (view k') = <[path := new_content append (files (view k) !! path) data]> (files (view k))).
Proof.
  intros Hfuel. unfold write_file_sync, open_fd. fold (write_flags append).
  destruct (sys_open _ _ _ k) as [[fd|e] k1] eqn:Eo.
  2:{ destruct (open_err _ _ _ _ _ _ Eo) as [Hv _]. eexists _, k1. split_and!; [done|by rewrite Hv|done]. }
  destruct (open_ok _ _ _ _ _ _ Eo) as (Hfd & Hfree & Hv & Hp & _). rewrite opened_for_write in Hv.
  set (base := if append then default [] (files (view k) !! path) else []) in Hv.
  destruct (write_all_loop_spec fuel fd data 0 k1 path 0 append base) as (r & k2 & n & pos & E & Hn & Hv2 & Hr);
    [rewrite Hv; cbn; by rewrite lookup_insert_eq|rewrite Hv; cbn; by rewrite lookup_insert_eq|lia|lia|lia|].
  unfold write_all_fd. rewrite E. cbn [mbind option_bind].
  rewrite Hv in Hv2. cbn [files fds] in Hv2. rewrite (insert_insert_eq (fds _)) in Hv2.
  destruct Hr as [[-> Hlen]|(er & -> & _)].
  - destruct (owned_close fd k2) as [[res fd'] k3] eqn:Ec.
    destruct (owned_close_spec _ _ _ _ _ Hfd Ec) as (_ & Hv3 & _). exists res, k3. split; [done|].
    rewrite Hv3, Hv2. cbn [files fds]. split; [by apply delete_insert_id|]. intros _. rewrite insert_insert_eq. f_equal.
    rewrite drop_0, (take_ge data n) by lia. unfold new_content. fold base.
    destruct append; [by rewrite overwrite_end|]. apply overwrite_whole.
  - exists (Err er), (owned_destroy fd k2). split; [done|]. split; [|done].
    rewrite owned_destroy_spec, Hv2 by done. cbn. by apply delete_insert_id.
Qed.

Lemma read_file_spec fuel path (k : K) :
  (length (default [] (files (view k) !! path)) + patience k < fuel)%nat ->
  exists r k', read_file_sync fuel path k = Some (r, k') /\ view k' = view k /\
    (forall bs, r = Ok bs -> files (view k) !! path = Some bs).
Proof.
  intros Hfuel. unfold read_file_sync, open_fd.
  destruct (sys_open _ _ _ k) as [[fd|e] k1] eqn:Eo.
  2:{ destruct (open_err _ _ _ _ _ _ Eo) as [Hv _]. eexists _, k1. done. }
  destruct (open_ok _ _ _ _ _ _ Eo) as (Hfd & Hfree & Hv & Hp & Hex). destruct (Hex eq_refl) as [c Hc].
  assert (view k1 = mkView (files (view k)) (<[fd := (path, O, false)]> (fds (view k)))) as Hv1.
  { rewrite Hv. unfold opened. rewrite Hc. done. }
  destruct (sys_fstat fd k1) as [st k2] eqn:Es. destruct (fstat_view _ _ _ _ Es) as [Hv2 Hp2]. rewrite Hv1 in Hv2.
  rewrite Hc in Hfuel. cbn in Hfuel.
  destruct (read_all_loop_spec fuel fd [] k2 path 0 false c) as (r & k3 & pos & E & Hv3 & Hr);
    [rewrite Hv2; cbn; by rewrite lookup_insert_eq|by rewrite Hv2|lia|].
  rewrite E. cbn [mbind option_bind]. rewrite Hv2 in Hv3. cbn [files fds] in Hv3.
  assert (forall kk, view kk = mkView (files (view k3)) (delete fd (fds (view k3))) -> view kk = view k) as Hback.
  { intros kk ->. rewrite Hv3. cbn. rewrite delete_reopened by done. by destruct (view k). }
  destruct Hr as [->|(errno & _ & ->)].
  - destruct (owned_close fd k3) as [[res fd'] k4] eqn:Ec.
    destruct (owned_close_spec _ _ _ _ _ Hfd Ec) as (_ & Hv4 & _). apply Hback in Hv4.
    destruct res as [[]|er]; eexists _, k4; (split_and!; [done|done|]); [|done].
    intros bs [= <-]. done.
  - eexists _, (owned_destroy fd k3). split_and!; [done| |done]. apply Hback, owned_destroy_spec. done.
Qed.


(** ** Positioned reads and writes *)

Lemma offset_of offset n :
  0 <= offset -> offset + Z.of_nat n <= max_off ->
  checked_offset_add offset (Z.of_nat n) = Ok (offset + Z.of_nat n).
Proof.
  intros Ho Hs. unfold checked_offset_add. unfold max_off in *.
  destruct (Z.ltb_spec (2 ^ 63 - 1) offset); [lia|]. destruct (Z.ltb_spec (2 ^ 63 - 1 - offset) (Z.of_nat n)); [lia|].
  cbn [orb]. by autorewrite with rain.
Qed.

Lemma read_at_loop_spec fuel fd offset len data (k : K) path pos app c :
  fds (view k) !! fd = Some (path, pos, app) -> files (view k) !! path = Some c ->
  0 <= offset -> offset + Z.of_nat len <= max_off -> (length data <= len)%nat ->
  (len - length data + patience k < fuel)%nat ->
  exists r k', read_at_loop fuel fd offset len data k = Some (r, k') /\ view k' = view k /\
    (r = Ok (data ++ take (len - length data) (drop (Z.to_nat offset + length data) c)) \/
     exists errno, errno <> EINTR /\ r = Err (from_errno errno)).
Proof.
  revert data k. induction fuel as [|fuel IH]; intros data k Hfd Hc Ho Hmax Hlen Hfuel; [lia|]. cbn [read_at_loop].
  case_bool_decide as Hlt.
  2:{ exists (Ok data), k. split_and!; [done..|]. left. replace (len - length data)%nat with O by lia.
      cbn. by rewrite app_nil_r. }
  rewrite offset_of by lia.
  destruct (sys_pread _ _ _ k) as [[bs|e] k1] eqn:Er.
  - destruct (pread_ok _ _ _ _ _ _ Er) as (path' & pos' & app' & c' & Hfd' & Hc' & [rest Hpre] & Hl & Hnil & Hv & Hpat).
    rewrite Hfd in Hfd'. injection Hfd' as <- <- <-. rewrite Hc in Hc'. injection Hc' as <-.
    rewrite Z2Nat.inj_add, Nat2Z.id in Hpre, Hnil by lia.
    destruct bs as [|b bs].
    + destruct (Hnil eq_refl) as [Hz|Hend]; [lia|].
      exists (Ok data), k1. split_and!; [done..|]. left. by rewrite Hend, take_nil, app_nil_r.
    + destruct (IH (data ++ b :: bs) k1) as (r & k' & E & Hv2 & Hres); rewrite ?Hv; try done.
      * rewrite length_app. lia.
      * rewrite length_app. cbn [length] in *. lia.
      * exists r, k'. split_and!; [exact E|congruence|]. destruct Hres as [->|Hg]; [left|by right].
        rewrite <- app_assoc. f_equal. f_equal. rewrite length_app.
        rewrite (Nat.add_assoc (Z.to_nat offset)), <- drop_drop, Hpre, drop_app_length.
        rewrite take_app_ge by lia. f_equal. f_equal. lia.
  - destruct (pread_err _ _ _ _ _ _ Er) as (Hv & Hp & Hi). destruct (Z.eqb_spec e EINTR) as [->|Hne].
    + destruct (IH data k1) as (r & k' & E & Hv2 & Hres); rewrite ?Hv; try done.
      { specialize (Hi eq_refl). lia. }
      exists r, k'. rewrite Hv in Hv2. done.
    + exists (Err (from_errno e)), k1. split_and!; [done..|right; eauto].
Qed.

Lemma write_at_loop_spec fuel fd offset data total (k : K) path pos c :
  fds (view k) !! fd = Some (path, pos, false) -> files (view k) !! path = Some c ->
  0 <= offset -> offset + Z.of_nat (length data) <= max_off -> (total <= length data)%nat ->
  (length data - total + patience k <= fuel)%nat -> (Z.to_nat offset + total <= length c \/ total < length data)%nat ->
  exists r k' n, write_at_loop fuel fd offset data total k = Some (r, k') /\ (total + n <= length data)%nat /\
    (n = O /\ view k' = view k \/
     view k' = mkView (<[path := overwrite (Z.to_nat offset + total) (take n (drop total data)) c]> (files (view k)))
                      (fds (view k))) /\
    (r = Ok (Z.of_nat (length data)) /\ (total + n)%nat = length data \/ gives_up pwrite_zero r).
Proof.
  revert total k c. induction fuel as [fuel IH] using lt_wf_ind. intros total k c Hfd Hc Ho Hmax Htot Hfuel Hin.
  assert (forall g, write_at_loop g fd offset data total k =
    if bool_decide (total < length data)%nat then
      match checked_offset_add offset (Z.of_nat total) with
      | Err e => Some (Err e, k)
      | Ok current =>
        match g with
        | O => None
        | S g => match sys_pwrite fd (drop total data) current k with
          | (SOk O, k) => Some (Err pwrite_zero, k)
          | (SOk n, k) => write_at_loop g fd offset data (total + n) k
          | (SErr e, k) => if e =? EINTR then write_at_loop g fd offset data total k else Some (Err (from_errno e), k)
          end
        end
      end
    else Some (Ok (Z.of_nat total), k)) as -> by by destruct g.
  case_bool_decide as Hlt.
  2:{ exists (Ok (Z.of_nat total)), k, O. split_and!; [done|lia|by left|left; split; [|lia]].
      f_equal. lia. }
  rewrite offset_of by lia. destruct fuel as [|fuel]; [lia|].
  destruct (sys_pwrite _ _ _ k) as [[n|e] k1] eqn:Ew.
  - destruct (pwrite_ok _ _ _ _ _ _ Ew) as (path' & pos' & c' & Hfd' & Hc' & Hn & Hv & Hpat).
    rewrite Hfd in Hfd'. injection Hfd' as <- <-. rewrite Hc in Hc'. injection Hc' as <-.
    rewrite length_drop in Hn. rewrite Z2Nat.inj_add, Nat2Z.id in Hv by lia.
    destruct n as [|n].
    { exists (Err pwrite_zero), k1, O. split_and!; [done|lia|by right|]. right. eexists. eauto. }
    assert (length (take (S n) (drop total data)) = S n) as Hlen by (rewrite length_take, length_drop; lia).
    destruct (IH fuel ltac:(lia) (total + S n)%nat k1
      (overwrite (Z.to_nat offset + total) (take (S n) (drop total data)) c)) as (r & k' & n2 & E & Hle & Hv2 & Hres);
      rewrite ?Hv; cbn [fds files]; rewrite ?lookup_insert_eq; try done; try lia.
    { left. pose proof (overwrite_length (Z.to_nat offset + total) (take (S n) (drop total data)) c). lia. }
    exists r, k', (S n + n2)%nat. split_and!; [done|lia| |].
    + right. rewrite <- take_drop_join, <- overwrite_app, Hlen.
      destruct Hv2 as [[-> Hv2]|Hv2]; rewrite Hv2, Hv; cbn [files fds].
      * f_equal. f_equal. rewrite overwrite_nil; [done|].
        pose proof (overwrite_length (Z.to_nat offset + total) (take (S n) (drop total data)) c). lia.
      * rewrite insert_insert_eq. do 3 f_equal. lia.
    + destruct Hres as [[-> Hn2]|Hg]; [left; split; [done|lia]|by right].
  - destruct (pwrite_err _ _ _ _ _ _ Ew) as (Hv & Hp & Hi). destruct (Z.eqb_spec e EINTR) as [->|Hne].
    + destruct (IH fuel ltac:(lia) total k1 c) as (r & k' & n2 & E & Hle & Hv2 & Hres);
        rewrite ?Hv; try done; [specialize (Hi eq_refl); lia|].
      exists r, k', n2. rewrite Hv in Hv2. done.
    + exists (Err (from_errno e)), k1, O. split_and!; [done|lia|by left|]. right. eexists. split; [done|]. right. eauto.
Qed.

(** Positioned access: on an open descriptor, within the offset range,
    [write_at_fd_sync] terminates, writes at the offset and nowhere else, and on
    success has written everything; a following [read_at_fd_sync] of the same
    range terminates and, when it succeeds, returns the data. *)
Theorem positioned_roundtrip fuel fd offset data (k : K) path pos c :
  fds (view k) !! fd = Some (path, pos, false) -> files (view k) !! path = Some c ->
  0 <= offset -> offset + Z.of_nat (length data) <= max_off -> (0 < length data)%nat ->
  (length data + patience k <= fuel)%nat ->
  exists r k1, write_at_fd_sync fuel fd offset data k = Some (r, k1) /\
    (forall n, r = Ok n -> n = Z.of_nat (length data) /\
       view k1 = mkView (<[path := overwrite (Z.to_nat offset) data c]> (files (view k))) (fds (view k)) /\
       forall fuel', (length data + patience k1 < fuel')%nat ->
         exists r' k2, read_at_fd_sync fuel' fd offset (length data) k1 = Some (r', k2) /\ view k2 = view k1 /\
           (forall bs, r' = Ok bs -> bs = data)).
Proof.
  intros Hfd Hc Ho Hmax Hpos Hfuel. unfold write_at_fd_sync.
  destruct (write_at_loop_spec fuel fd offset data 0 k path pos c) as (r & k1 & n & E & Hn & Hv & Hr); [done..|lia|lia|lia|].
  exists r, k1. split; [done|]. intros n' ->. destruct Hr as [[[= ->] Hn']|(e & He & _)]; [|done].
  split; [done|]. destruct Hv as [[-> _]|Hv]; [lia|].
  rewrite drop_0, Nat.add_0_r, (take_ge data n) in Hv by lia. split; [exact Hv|]. intros fuel' Hf'.
  unfold read_at_fd_sync, checked_offset. destruct (Z.ltb_spec max_off offset); [lia|].
  destruct (read_at_loop_spec fuel' fd offset (length data) [] k1 path pos false (overwrite (Z.to_nat offset) data c))
    as (r' & k2 & E' & Hv' & Hr'); rewrite ?Hv; cbn [fds files length]; rewrite ?lookup_insert_eq; try done; try lia.
  exists r', k2. rewrite <- Hv. split_and!; [done..|]. intros bs ->. destruct Hr' as [[= ->]|(e & _ & [=])].
  cbn [length app]. rewrite Nat.sub_0_r, Nat.add_0_r. apply read_overwrite.
Qed.

End Loops.

(** ** Closing a [File] *)

(** A [File] is closed once, for all its copies: after [close] the
    descriptor of the shared state is [-1], every further operation fails with
    [EBADF] without a system call, and a further [close] succeeds without one. *)
Theorem file_close_once {K} `{FileKernel K} f a cs (k : K) res cs' k' :
  f = Some a -> file_close f cs k = Some (res, cs', k') ->
  file_valid f cs' = Some false /\
  (forall k1, file_close f cs' k1 = Some (Ok tt, cs', k1)) /\
  (forall k1 fuel offset len, file_read_at fuel f cs' offset len k1 = Some (Err is_closed, k1)) /\
  (forall k1 fuel offset data, file_write_at fuel f cs' offset data k1 = Some (Err is_closed, k1)) /\
  (forall k1, file_metadata f cs' k1 = Some (Err is_closed, k1)) /\
  (forall b, b <> a -> cs' !! b = cs !! b).
Proof.
  intros -> E. unfold file_close in E. destruct (cs !! a) as [fd|] eqn:Ea; [|done]. cbn [mbind option_bind] in E.
  assert (exists fd', cs' = <[a := fd']> cs /\ fd' < 0) as (fd' & -> & Hneg).
  { unfold state_close in E. destruct (Z.ltb_spec fd 0); [injection E as <- <- <-; eauto|].
    destruct (sys_close fd k) as [[]]; injection E as <- <- <-; eexists; split; eauto; lia. }
  unfold file_valid, file_close, file_read_at, file_write_at, file_metadata, with_fd.
  rewrite lookup_insert_eq. cbn [mbind option_bind]. unfold state_close.
  rewrite (proj2 (Z.ltb_lt fd' 0) Hneg), (proj2 (Z.leb_gt 0 fd') Hneg).
  split_and!; try done.
  - intros k1. by rewrite insert_insert_eq.
  - intros b Hb. by rewrite lookup_insert_ne.
Qed.

(** ** A concrete file system

    Calls transfer at most two bytes; the first [sim_patience] are interrupted. *)

Module SimFs.

Record Sim := mkSim { sim_view : FsView; sim_patience : nat; next_fd : Z }.

Definition set_view (v : FsView) (s : Sim) : Sim := mkSim v (sim_patience s) (next_fd s).

(** Either an interruption or the call, on the open file. *)
Definition on_file {A} (fd : Z) (s : Sim) (f : string -> nat -> bool -> list Z -> SysRet A * Sim) : SysRet A * Sim :=
  match sim_patience s with
  | S p => (SErr EINTR, mkSim (sim_view s) p (next_fd s))
  | O =>
    match fds (sim_view s) !! fd with
    | None => (SErr EBADF, s)
    | Some (path, pos, app) =>
      match files (sim_view s) !! path with
      | None => (SErr EBADF, s)
      | Some c => f path pos app c
      end
    end
  end.

Definition sim_read (fd : Z) (len : nat) (s : Sim) : SysRet (list Z) * Sim :=
  on_file fd s (fun path pos app c =>
    let bs := take (len `min` 2) (drop pos c) in
    (SOk bs, set_view (mkView (files (sim_view s)) (<[fd := (path, (pos + length bs)%nat, app)]> (fds (sim_view s)))) s)).

Definition sim_pread (fd : Z) (len : nat) (off : Z) (s : Sim) : SysRet (list Z) * Sim :=
  on_file fd s (fun path pos app c => (SOk (take (len `min` 2) (drop (Z.to_nat off) c)), s)).

Definition sim_write (fd : Z) (data : list Z) (s : Sim) : SysRet nat * Sim :=
  on_file fd s (fun path pos app c =>
    let n := (length data `min` 2)%nat in
    let at_ := if (app : bool) then length c else pos in
    (SOk n, set_view (mkView (<[path := overwrite at_ (take n data) c]> (files (sim_view s)))
                             (<[fd := (path, (at_ + n)%nat, app)]> (fds (sim_view s)))) s)).

Definition sim_pwrite (fd : Z) (data : list Z) (off : Z) (s : Sim) : SysRet nat * Sim :=
  on_file fd s (fun path pos app c =>
    let n := (length data `min` 2)%nat in
    if (app : bool) then (SErr EINVAL, s)
    else (SOk n, set_view (mkView (<[path := overwrite (Z.to_nat off) (take n data) c]> (files (sim_view s)))
                                  (fds (sim_view s))) s)).

Definition sim_open (path : string) (flags mode : Z) (s : Sim) : SysRet Z * Sim :=
  let fd := next_fd s in
  if (fd <? 0) || bool_decide (is_Some (fds (sim_view s) !! fd)) then (SErr 24, s)
  else if negb (has flags O_CREAT) && bool_decide (files (sim_view s) !! path = None) then (SErr ENOENT, s)
  else (SOk fd, mkSim (opened path flags fd (sim_view s)) (sim_patience s) (fd + 1)).

Definition sim_close (fd : Z) (s : Sim) : SysRet unit * Sim :=
  (SOk tt, set_view (mkView (files (sim_view s)) (delete fd (fds (sim_view s)))) s).

#[export] Instance sim_kernel : FileKernel Sim := {
  sys_open := sim_open; sys_close := sim_close; sys_read := sim_read; sys_write := sim_write;
  sys_pread := sim_pread; sys_pwrite := sim_pwrite;
  sys_fstat _ s := (SErr EBADF, s); sys_stat _ s := (SErr ENOENT, s); sys_lstat _ s := (SErr ENOENT, s);
  sys_access _ s := (SErr ENOENT, s); sys_unlink _ s := (SErr ENOENT, s);
}.

(** A call on an open file succeeds on it or fails and changes nothing. *)
Lemma on_file_ok {A} fd s f (a : A) s' :
  on_file fd s f = (SOk a, s') ->
  exists path pos app c, fds (sim_view s) !! fd = Some (path, pos, app) /\ files (sim_view s) !! path = Some c /\
    f path pos app c = (SOk a, s').
Proof.
  unfold on_file. destruct (sim_patience s); [|done].
  destruct (fds (sim_view s) !! fd) as [[[path pos] app]|]; [|done].
  destruct (files (sim_view s) !! path) as [c|] eqn:Ec; [|done]. intros E. by exists path, pos, app, c.
Qed.

Lemma on_file_err {A} fd s f e s' :
  (forall path pos app c e' s1, f path pos app c = (@SErr A e', s1) -> s1 = s /\ e' <> EINTR) ->
  on_file fd s f = (@SErr A e, s') ->
  sim_view s' = sim_view s /\ (sim_patience s' <= sim_patience s)%nat /\
  (e = EINTR -> (sim_patience s' < sim_patience s)%nat).
Proof.
  intros Hf. unfold on_file. destruct (sim_patience s) as [|p] eqn:Ep.
  - destruct (fds (sim_view s) !! fd) as [[[path pos] app]|]; [|intros [= <- <-]; rewrite Ep; split_and!; [done|lia|done]].
    destruct (files (sim_view s) !! path) as [c|]; [|intros [= <- <-]; rewrite Ep; split_and!; [done|lia|done]].
    intros E. destruct (Hf _ _ _ _ _ _ E) as [-> Hn]. rewrite Ep. split_and!; [done|lia|done].
  - intros [= <- <-]. cbn. split_and!; [done|lia|lia].
Qed.

Lemma take_prefix {A} n (l : list A) : take n l `prefix_of` l.
Proof. exists (drop n l). by rewrite take_drop. Qed.

Lemma take_min2_nil {A} len (l : list A) : take (len `min` 2) l = [] -> len = O \/ l = [].
Proof. destruct len as [|[|len]], l as [|x [|y l]]; cbn; try done; eauto. Qed.

#[export] Program Instance sim_laws : FileLaws Sim := { view := sim_view; patience := sim_patience }.
Next Obligation.
  cbn. intros path flags mode s fd s'. unfold sim_open.
  destruct (Z.ltb_spec (next_fd s) 0); [done|]. cbn [orb]. case_bool_decide as Hs; [done|].
  destruct (negb _ && _) eqn:Ec; [done|]. intros [= <- <-]. cbn. split_and!; [done| |done..|].
  - apply eq_None_not_Some. done.
  - intros Hcr. rewrite Hcr in Ec. cbn in Ec. apply bool_decide_eq_false in Ec. by apply not_eq_None_Some.
Qed.
Next Obligation.
  cbn. intros path flags mode s e s'. unfold sim_open. destruct (_ || _); [by intros [= _ <-]|].
  destruct (_ && _); [by intros [= _ <-]|done].
Qed.
Next Obligation. cbn. by intros fd s r s' [= <- <-]. Qed.
Next Obligation. cbn. by intros fd s r s' [= <- <-]. Qed.
Next Obligation.
  cbn. intros fd len s bs s' (path & pos & app & c & Hfd & Hc & E)%on_file_ok. injection E as <- <-.
  exists path, pos, app, c. split_and!; [done..|apply take_prefix|rewrite length_take; lia|apply take_min2_nil|done|done].
Qed.
Next Obligation.
  cbn. intros fd len off s bs s' (path & pos & app & c & Hfd & Hc & E)%on_file_ok. injection E as <- <-.
  exists path, pos, app, c. split_and!; [done..|apply take_prefix|rewrite length_take; lia|apply take_min2_nil|done|done].
Qed.
Next Obligation.
  cbn. intros fd data s n s' (path & pos & app & c & Hfd & Hc & E)%on_file_ok. injection E as <- <-.
  exists path, pos, app, c. split_and!; [done..|lia|done|done].
Qed.
Next Obligation.
  cbn. intros fd data off s n s' (path & pos & app & c & Hfd & Hc & E)%on_file_ok. destruct app; [done|].
  injection E as <- <-. exists path, pos, c. split_and!; [done..|lia|done|done].
Qed.
Next Obligation. cbn. intros fd len s e s'. by apply on_file_err. Qed.
Next Obligation. cbn. intros fd len off s e s'. by apply on_file_err. Qed.
Next Obligation. cbn. intros fd data s e s'. by apply on_file_err. Qed.
Next Obligation.
  cbn. intros fd data off s e s'. apply on_file_err. intros path pos [] c e' s1; by intros [= <- <-].
Qed.

End SimFs.

(** ** Witnesses: five bytes through calls that move two, three interrupted *)

Section Witness.
Import SimFs.

Definition wit_fs : Sim := mkSim (mkView {[ "old" := [7; 8] ]} ∅) 3 0.


Definition wit_open : Sim := mkSim (mkView {[ "f" := [9; 9; 9; 9] ]} {[ 3 := ("f", 0%nat, false) ]}) 2 4.

Lemma positioned_roundtrip_witness :
  exists k1, write_at_fd_sync 9 3 2 [1; 2; 3] wit_open = Some (Ok 3, k1) /\
    files (view k1) !! "f" = Some [9; 9; 1; 2; 3].
Proof.
  destruct (positioned_roundtrip 9 3 2 [1; 2; 3] wit_open "f" 0 [9; 9; 9; 9]) as (r & k1 & E & Hok);
    [reflexivity|reflexivity|lia|unfold max_off; cbn; lia|cbn; lia|cbn; lia|].
  assert (r = Ok 3) as ->. { vm_compute in E. injection E as <- _. reflexivity. }
  exists k1. split; [exact E|]. destruct (Hok 3 eq_refl) as (_ & Hv & _). rewrite Hv. reflexivity.
Defined.

Lemma file_close_once_witness :
  exists cs' k', file_close (Some 0%nat) {[ 0%nat := 3 ]} wit_open = Some (Ok tt, cs', k') /\
    file_read_at 5 (Some 0%nat) cs' 0 4 k' = Some (Err is_closed, k').
Proof.
  destruct (file_close (Some 0%nat) {[ 0%nat := 3 ]} wit_open) as [[[res cs'] k']|] eqn:E; [|vm_compute in E; discriminate E].
  assert (res = Ok tt) as ->. { vm_compute in E. injection E as <- _ _. reflexivity. }
  exists cs', k'. split; [reflexivity|].
  apply (file_close_once (Some 0%nat) 0%nat {[ 0%nat := 3 ]} wit_open (Ok tt) cs' k' eq_refl E).
Defined.

End Witness.
End FsProps.
