(* ===== verification/Address.v ===== *)
(** * Address: [net/address.hpp]

    [SocketAddress] as the 128 bytes of its [sockaddr_storage] on a
    little-endian host: the family at bytes 0-1, the port in network order at
    bytes 2-3, the IPv4 address at 4-7, the IPv6 address at 8-23.  The text
    conversions [inet_pton] and [inet_ntop] are parameters. *)

From stdpp Require Import pretty.
From S2P Require Import Prelude Core.

Module Address.

Definition AF_INET : Z := 2.
Definition AF_INET6 : Z := 10.
Definition storage_size : nat := 128.

(** [storage_] *)
Abbreviation SocketAddress := (list Z).

(** [SocketAddress()]: all zeros. *)
Definition empty : SocketAddress := replicate storage_size 0.

(** *** Loads and stores *)

Definition byte (s : SocketAddress) (i : nat) : Z := default 0 (s !! i).
Definition load16 (s : SocketAddress) (i : nat) : Z := byte s i + 256 * byte s (S i).

(** Overwrites the bytes from [i] on. *)
Definition store (i : nat) (bs : list Z) (s : SocketAddress) : SocketAddress :=
  take i s ++ bs ++ drop (i + length bs) s.
Definition store16 (i : nat) (v : Z) (s : SocketAddress) : SocketAddress := store i [v mod 256; v / 256 mod 256] s.

(** Byte order: on a little-endian host both conversions swap. *)
Definition htons (v : Z) : Z := (v mod 256) * 256 + v / 256 mod 256.
Definition ntohs (v : Z) : Z := htons v.

(** [htonl] of a constant, as the bytes it leaves in memory. *)
Definition htonl_bytes (v : Z) : list Z := [v / 2 ^ 24 mod 256; v / 2 ^ 16 mod 256; v / 2 ^ 8 mod 256; v mod 256].

Definition INADDR_ANY : Z := 0.
Definition INADDR_LOOPBACK : Z := 0x7F000001.

(** *** Factories *)

Definition v4_header (port : Z) : SocketAddress := store16 2 (htons port) (store16 0 AF_INET empty).
Definition v6_header (port : Z) : SocketAddress := store16 2 (htons port) (store16 0 AF_INET6 empty).

Definition any (port : Z) : SocketAddress := store 4 (htonl_bytes INADDR_ANY) (v4_header port).
Definition loopback (port : Z) : SocketAddress := store 4 (htonl_bytes INADDR_LOOPBACK) (v4_header port).

(** [std::memcpy(dst, src, n)] on two objects, each the list of its bytes: the
    new bytes of [dst].  Reading past [src] or writing past [dst] is undefined:
    [None]. *)
Definition memcpy (dst src : list Z) (n : nat) : option (list Z) :=
  if (n <=? length src)%nat && (n <=? length dst)%nat then Some (take n src ++ drop n dst) else None.

(** [len] is a [socklen_t]; [raw] the bytes of the kernel's [sockaddr_storage]. *)
Definition from_raw (raw : list Z) (len : Z) : option SocketAddress :=
  let n := (Z.to_nat len `min` length empty)%nat in memcpy empty raw n.

(** *** Accessors *)

Definition family (s : SocketAddress) : Z := load16 s 0.

Definition port (s : SocketAddress) : Z :=
  if family s =? AF_INET then ntohs (load16 s 2)
  else if family s =? AF_INET6 then ntohs (load16 s 2)
  else 0.

Definition sockaddr_len (s : SocketAddress) : Z := if family s =? AF_INET6 then 28 else 16.

Definition v4_addr (s : SocketAddress) : list Z := take 4 (drop 4 s).
Definition v6_addr (s : SocketAddress) : list Z := take 16 (drop 8 s).

(** [inet_pton(af, text)] gives the address bytes or rejects the text. *)
Class Inet := {
  inet_pton : Z -> string -> option (list Z);
  inet_ntop : Z -> list Z -> string;
}.

Section Text.
Context `{Inet}.

(** The message of the source ends with the offending text. *)
Definition invalid_v4 (ip : string) : SystemError := make_error EINVAL (String.append "invalid IPv4 address: " ip).
Definition invalid_v6 (ip : string) : SystemError := make_error EINVAL (String.append "invalid IPv6 address: " ip).

Definition from_ipv4 (ip : string) (port : Z) : Result SocketAddress :=
  match inet_pton AF_INET ip with
  | Some a => Ok (store 4 a (v4_header port))
  | None => Err (invalid_v4 ip)
  end.

Definition from_ipv6 (ip : string) (port : Z) : Result SocketAddress :=
  match inet_pton AF_INET6 ip with
  | Some a => Ok (store 8 a (v6_header port))
  | None => Err (invalid_v6 ip)
  end.

Definition ip_string (s : SocketAddress) : string :=
  if family s =? AF_INET then inet_ntop AF_INET (v4_addr s)
  else if family s =? AF_INET6 then inet_ntop AF_INET6 (v6_addr s)
  else "".

(** [std::format]'s decimal of the port is [pretty]. *)
Definition to_string (s : SocketAddress) : string :=
  if family s =? AF_INET6
  then String.append "[" (String.append (ip_string s) (String.append "]:" (pretty (port s))))
  else String.append (ip_string s) (String.append ":" (pretty (port s))).

Definition equal (s t : SocketAddress) : bool :=
  (family s =? family t) && (port s =? port t) && bool_decide (ip_string s = ip_string t).

(** ** Correctness *)

(** What the C library documents of the text conversions. *)
Class InetLaws := {
  pton_bytes af text a : inet_pton af text = Some a ->
    length a = (if af =? AF_INET then 4%nat else 16%nat) /\ Forall (fun b => 0 <= b < 256) a;
  pton_ntop af a :
    length a = (if af =? AF_INET then 4%nat else 16%nat) -> Forall (fun b => 0 <= b < 256) a ->
    inet_pton af (inet_ntop af a) = Some a;
}.

Lemma store_length i bs s : (i + length bs <= length s)%nat -> length (store i bs s) = length s.
Proof. intros Hl. unfold store. rewrite !length_app, length_take, length_drop. lia. Qed.

Lemma store_lookup i bs s j :
  (i + length bs <= length s)%nat ->
  store i bs s !! j = if decide (i <= j < i + length bs)%nat then bs !! (j - i)%nat else s !! j.
Proof.
  intros Hl. unfold store. assert (length (take i s) = i) as Ht by (rewrite length_take; lia).
  case_decide as Hj.
  - rewrite lookup_app_r, Ht, lookup_app_l by lia. done.
  - destruct (decide (j < i)%nat).
    + rewrite lookup_app_l by lia. by rewrite lookup_take_lt.
    + rewrite !lookup_app_r by lia. rewrite Ht, lookup_drop. f_equal. lia.
Qed.

Lemma htons_involutive v : 0 <= v < 2 ^ 16 -> ntohs (htons v) = v.
Proof. intros Hv. unfold ntohs, htons. zdiv. Qed.

Lemma htons_bytes v : 0 <= v < 2 ^ 16 -> htons v mod 256 + 256 * (htons v / 256 mod 256) = htons v.
Proof.
  intros Hv. assert (0 <= htons v < 65536) as Hh by (unfold htons; zdiv). revert Hh. generalize (htons v). intros h Hh. zdiv.
Qed.

Lemma v4_header_spec p : 0 <= p < 2 ^ 16 ->
  length (v4_header p) = storage_size /\ family (v4_header p) = AF_INET /\ load16 (v4_header p) 2 = htons p.
Proof.
  intros Hp. split; [done|]. split; [done|]. unfold load16, byte, v4_header, store16.
  rewrite !store_lookup by (cbn; lia). by apply htons_bytes.
Qed.

Lemma v6_header_spec p : 0 <= p < 2 ^ 16 ->
  length (v6_header p) = storage_size /\ family (v6_header p) = AF_INET6 /\ load16 (v6_header p) 2 = htons p.
Proof.
  intros Hp. split; [done|]. split; [done|]. unfold load16, byte, v6_header, store16.
  rewrite !store_lookup by (cbn; lia). by apply htons_bytes.
Qed.

(** Storing an address past the header keeps family and port. *)
Lemma load16_store_after i bs s j :
  (S j < i)%nat -> (i + length bs <= length s)%nat -> load16 (store i bs s) j = load16 s j.
Proof. intros Hj Hl. unfold load16, byte. rewrite !store_lookup by done. by rewrite !decide_False by lia. Qed.

Lemma store_slice i bs s :
  (i + length bs <= length s)%nat -> take (length bs) (drop i (store i bs s)) = bs.
Proof.
  intros Hl. unfold store. rewrite drop_app_length' by (rewrite length_take; lia). apply take_app_length.
Qed.

(** C39: printing and parsing an address are inverse: a [SocketAddress] built
    from text has the family and port it was given, and parsing its printed IP
    with its port gives back the same 128 bytes, for IPv4 and IPv6. *)
Theorem address_roundtrip `{InetLaws} p ip s :
  0 <= p < 2 ^ 16 ->
  (from_ipv4 ip p = Ok s ->
     family s = AF_INET /\ port s = p /\ sockaddr_len s = 16 /\ from_ipv4 (ip_string s) (port s) = Ok s) /\
  (from_ipv6 ip p = Ok s ->
     family s = AF_INET6 /\ port s = p /\ sockaddr_len s = 28 /\ from_ipv6 (ip_string s) (port s) = Ok s).
Proof.
  intros Hp. split; intros E.
  - unfold from_ipv4 in E. destruct (inet_pton AF_INET ip) as [a|] eqn:Ea; [|done]. injection E as <-.
    destruct (pton_bytes _ _ _ Ea) as [Hl Hby]. cbn in Hl. destruct (v4_header_spec p Hp) as (H1 & H2 & H3).
    assert (4 + length a <= length (v4_header p))%nat as Hb by (rewrite H1, Hl; unfold storage_size; lia).
    assert (family (store 4 a (v4_header p)) = AF_INET) as Hf.
    { unfold family. by rewrite load16_store_after by (done || lia). }
    assert (port (store 4 a (v4_header p)) = p) as Hpt.
    { unfold port. rewrite Hf, Z.eqb_refl, load16_store_after, H3 by (done || lia).
      by apply htons_involutive. }
    split_and!; [done..| |].
    + unfold sockaddr_len. by rewrite Hf.
    + unfold ip_string, from_ipv4, v4_addr. rewrite Hf, Z.eqb_refl, <- Hl at 1.
      rewrite store_slice, pton_ntop by done. by rewrite Hpt.
  - unfold from_ipv6 in E. destruct (inet_pton AF_INET6 ip) as [a|] eqn:Ea; [|done]. injection E as <-.
    destruct (pton_bytes _ _ _ Ea) as [Hl Hby]. cbn in Hl. destruct (v6_header_spec p Hp) as (H1 & H2 & H3).
    assert (8 + length a <= length (v6_header p))%nat as Hb by (rewrite H1, Hl; unfold storage_size; lia).
    assert (family (store 8 a (v6_header p)) = AF_INET6) as Hf.
    { unfold family. by rewrite load16_store_after by (done || lia). }
    assert (port (store 8 a (v6_header p)) = p) as Hpt.
    { unfold port. rewrite Hf. cbn [Z.eqb AF_INET6 AF_INET Pos.eqb]. rewrite load16_store_after, H3 by (done || lia).
      by apply htons_involutive. }
    split_and!; [done..| |].
    + unfold sockaddr_len. by rewrite Hf.
    + unfold ip_string, from_ipv6, v6_addr. rewrite Hf. cbn [Z.eqb AF_INET6 AF_INET Pos.eqb].
      rewrite <- Hl at 1. rewrite store_slice, pton_ntop by done. by rewrite Hpt.
Qed.

Lemma memcpy_spec dst src n :
  (n <= length src)%nat -> (n <= length dst)%nat ->
  exists s, memcpy dst src n = Some s /\ length s = length dst /\
    forall i, s !! i = if decide (i < n)%nat then src !! i else dst !! i.
Proof.
  intros Hs Hd. exists (store 0 (take n src) dst). assert (length (take n src) = n) as Hn by (rewrite length_take; lia).
  unfold memcpy. rewrite !(proj2 (Nat.leb_le _ _)) by done. split_and!.
  - cbn. unfold store. cbn. by rewrite Hn.
  - apply store_length. by rewrite Hn.
  - intros i. rewrite store_lookup, Hn by (cbn; by rewrite Hn). cbn. rewrite Nat.sub_0_r.
    destruct (decide (i < n)%nat); [|by rewrite decide_False by lia]. by rewrite decide_True, lookup_take_lt by lia.
Qed.

(** Agreement on the bytes below [m] carries over to what is read there. *)
Lemma agree_below m (s t : SocketAddress) :
  (forall i, (i < m)%nat -> s !! i = t !! i) ->
  (forall i, (S i < m)%nat -> load16 s i = load16 t i) /\
  (forall i n, (i + n <= m)%nat -> take n (drop i s) = take n (drop i t)).
Proof.
  intros Hs. split.
  - intros i Hi. unfold load16, byte. by rewrite !Hs by lia.
  - intros i n Hin. apply list_eq. intros j. destruct (decide (j < n)%nat) as [Hj|Hj].
    + by rewrite !lookup_take_lt, !lookup_drop, Hs by lia.
    + by rewrite !lookup_take_ge by lia.
Qed.

(** C40: [from_raw] reads and writes inside the two 128-byte objects whatever
    length the kernel reports, larger ones included (the copy is defined: it
    never reads past [raw] nor writes past [storage_]); byte [i] of the result
    is the kernel's below the reported length and zero from there on; when the
    length covers the address of the family (16 bytes for IPv4, 28 for IPv6),
    family, port and IP are the kernel's. *)
Theorem from_raw_clamped raw len :
  length raw = storage_size -> 0 <= len ->
  exists s, from_raw raw len = Some s /\
  length s = storage_size /\
  (forall i, (i < storage_size)%nat -> byte s i = if Z.of_nat i <? len then byte raw i else 0) /\
  (family raw = AF_INET /\ 16 <= len \/ family raw = AF_INET6 /\ 28 <= len ->
     family s = family raw /\ port s = port raw /\ ip_string s = ip_string raw).
Proof.
  intros Hr Hl. change storage_size with (length empty) in *.
  destruct (memcpy_spec empty raw (Z.to_nat len `min` length empty)) as (s & Es & Hls & Hs); [lia..|].
  exists s. split; [done|]. split; [done|]. split.
  - intros i Hi. unfold byte. rewrite Hs. destruct (Z.ltb_spec (Z.of_nat i) len).
    + by rewrite decide_True by lia.
    + rewrite decide_False by lia. unfold empty. by rewrite lookup_replicate_2.
  - intros Hfam. assert (16 <= len) as Hlen by lia.
    destruct (agree_below (Z.to_nat len `min` length empty) s raw) as [Hld Hsl].
    { intros i Hi. by rewrite Hs, decide_True. }
    assert (length empty = 128%nat) as He by done. rewrite He in *.
    assert (family s = family raw) as Hf by (apply Hld; lia).
    split_and!; [done| |].
    + unfold port. rewrite Hf, (Hld 2%nat) by lia. done.
    + unfold ip_string, v4_addr, v6_addr. rewrite Hf. destruct Hfam as [[-> _]|[-> ?]]; cbn [Z.eqb AF_INET AF_INET6 Pos.eqb].
      * f_equal. apply Hsl; lia.
      * f_equal. apply Hsl; lia.
Qed.

End Text.

(** ** Witnesses: a text form with one character per byte *)

Section Witness.

Fixpoint encode_bytes (bs : list Z) : string :=
  match bs with
  | [] => ""
  | b :: bs => String.String (Ascii.ascii_of_nat (Z.to_nat b)) (encode_bytes bs)
  end.

Fixpoint decode_bytes (s : string) : list Z :=
  match s with
  | String.EmptyString => []
  | String.String c s => Z.of_nat (Ascii.nat_of_ascii c) :: decode_bytes s
  end.

Lemma decode_encode bs : Forall (fun b => 0 <= b < 256) bs -> decode_bytes (encode_bytes bs) = bs.
Proof.
  induction 1 as [|b bs Hb _ IH]; [done|]. cbn. rewrite IH, Ascii.nat_ascii_embedding by lia. f_equal. lia.
Qed.

Lemma decode_range s : Forall (fun b => 0 <= b < 256) (decode_bytes s).
Proof.
  induction s as [|c s IH]; constructor; [|done]. pose proof (Ascii.nat_ascii_bounded c). lia.
Qed.

#[local] Instance toy_inet : Inet := {
  inet_pton af text :=
    let a := decode_bytes text in
    if bool_decide (length a = if af =? AF_INET then 4%nat else 16%nat) then Some a else None;
  inet_ntop _ a := encode_bytes a;
}.

#[local] Instance toy_laws : InetLaws.
Proof.
  split.
  - intros af text a. cbn. case_bool_decide as Hl; [|done]. intros [= <-]. split; [done|apply decode_range].
  - intros af a Hl Hb. cbn. rewrite decode_encode by done. by rewrite bool_decide_true.
Defined.

Lemma address_roundtrip_witness :
  exists s, from_ipv4 "abcd" 8080 = Ok s /\ port s = 8080 /\ from_ipv4 (ip_string s) (port s) = Ok s.
Proof.
  destruct (from_ipv4 "abcd" 8080) as [s|e] eqn:E; [|vm_compute in E; discriminate E].
  exists s. split; [reflexivity|].
  destruct (proj1 (address_roundtrip 8080 "abcd" s ltac:(lia)) E) as (_ & Hp & _ & Hr). split; [exact Hp|exact Hr].
Defined.

(** The kernel's length exceeds the storage: a copy of that length would be
    undefined. *)
Lemma from_raw_clamped_witness :
  memcpy empty (loopback 80) 200 = None /\
  exists s, from_raw (loopback 80) 200 = Some s /\ length s = storage_size /\ port s = 80.
Proof.
  split; [reflexivity|].
  destruct (from_raw_clamped (loopback 80) 200 eq_refl ltac:(lia)) as (s & Es & Hl & _ & Hacc).
  exists s. split; [exact Es|]. split; [exact Hl|]. destruct Hacc as (_ & Hp & _); [left; split; [reflexivity|lia]|].
  rewrite Hp. reflexivity.
Defined.

End Witness.
End Address.
