(* ===== verification/Net.v ===== *)
(** * Net: sockets and streams

    [net/socket_fd_ops.hpp], [net/listener_socket_ops.hpp],
    [net/stream_io_ops.hpp], [net/tcp_stream.hpp], [net/tcp_listener.hpp] and
    the system calls of the connect, accept, read and write awaiters.

    The coroutines are written in direct style: [co_await] of a readiness
    awaiter is the parameter [wait_ready] (or [wait_ready_for] with a timeout),
    whose outcomes are the ways the wait can be settled. *)

From S2P Require Import Prelude Core Reactor Awaiters Address.

Module Net.
Import Reactor Address.

(** How a wait ended: see [Awaiters] for the race that decides it. *)
Inductive WaitOutcome := WaitReady | WaitTimedOut | WaitCancelled | WaitFailed (e : SystemError).

Class IoEnv (K : Type) := {
  sk_read : Z -> nat -> K -> SysRet (list Z) * K;
  sk_write : Z -> list Z -> K -> SysRet nat * K;
  sk_sendfile : Z -> Z -> Z -> nat -> K -> SysRet nat * K;
  sk_now : K -> Z * K;
  wait_ready : Dir -> Z -> K -> WaitOutcome * K;
  wait_ready_for : Dir -> Z -> Z -> K -> WaitOutcome * K;
}.

Class SocketKernel (K : Type) := {
  sk_socket : Z -> K -> SysRet Z * K;
  sk_setsockopt : Z -> Z -> Z -> Z -> K -> SysRet unit * K;
  sk_getsockopt_error : Z -> K -> SysRet Z * K;
  sk_bind : Z -> SocketAddress -> K -> SysRet unit * K;
  sk_listen : Z -> Z -> K -> SysRet unit * K;
  sk_connect : Z -> SocketAddress -> K -> SysRet unit * K;
  sk_accept4 : Z -> K -> SysRet (Z * list Z * Z) * K;
  sk_getpeername : Z -> K -> SysRet (list Z * Z) * K;
  sk_getsockname : Z -> K -> SysRet (list Z * Z) * K;
  sk_shutdown : Z -> Z -> K -> SysRet unit * K;
  sk_getfl : Z -> K -> SysRet Z * K;
  sk_setfl : Z -> Z -> K -> SysRet unit * K;
  sk_close : Z -> K -> SysRet unit * K;
}.

(** ** Waiting *)

(** [await_resume] of [ReadReadyAwaiter] and [WriteReadyAwaiter]; without a
    timer they are never timed out. *)
Definition ready_result (o : WaitOutcome) : Result unit :=
  match o with
  | WaitCancelled => Err Awaiters.io_cancelled_error
  | WaitFailed e => Err e
  | WaitReady | WaitTimedOut => Ok tt
  end.

(** [TimedReadyAwaiter::await_resume] *)
Definition timed_result (d : Dir) (o : WaitOutcome) : Result unit :=
  match o with
  | WaitCancelled => Err Awaiters.io_cancelled_error
  | WaitTimedOut => Err (Awaiters.timed_out_error d)
  | WaitFailed e => Err e
  | WaitReady => Ok tt
  end.

Section Stream.
Context {K : Type} `{IoEnv K}.

(** ** The retry loops

    The body shared by [read_some], [write_some] and [send_file_some]: retry
    when interrupted, wait when the call would block.  [fuel] bounds the calls. *)

Fixpoint retry {A} (fuel : nat) (call : K -> SysRet A * K) (d : Dir) (fd : Z) (k : K) : option (Result A * K) :=
  match fuel with
  | O => None
  | S fuel =>
    match call k with
    | (SOk a, k) => Some (Ok a, k)
    | (SErr e, k) =>
      if e =? EINTR then retry fuel call d fd k
      else if e =? EAGAIN then
        let '(o, k) := wait_ready d fd k in
        match ready_result o with
        | Err er => Some (Err er, k)
        | Ok _ => retry fuel call d fd k
        end
      else Some (Err (from_errno e), k)
    end
  end.

Fixpoint retry_until {A} (fuel : nat) (call : K -> SysRet A * K) (d : Dir) (fd deadline : Z) (expired : SystemError)
    (k : K) : option (Result A * K) :=
  match fuel with
  | O => None
  | S fuel =>
    match call k with
    | (SOk a, k) => Some (Ok a, k)
    | (SErr e, k) =>
      if e =? EINTR then retry_until fuel call d fd deadline expired k
      else if e =? EAGAIN then
        let '(now, k) := sk_now k in
        if deadline <=? now then Some (Err expired, k)
        else
          let '(o, k) := wait_ready_for d fd (deadline - now) k in
          match timed_result d o with
          | Err er => Some (Err er, k)
          | Ok _ => retry_until fuel call d fd deadline expired k
          end
      else Some (Err (from_errno e), k)
    end
  end.

(** [g_timer]: the thread has a timer wheel. *)
Definition with_timeout {A} (g_timer : bool) (no_timer : SystemError) (timeout : Z)
    (untimed : K -> option (Result A * K)) (until : Z -> K -> option (Result A * K)) (k : K) : option (Result A * K) :=
  if timeout <=? 0 then untimed k
  else if negb g_timer then Some (Err no_timer, k)
  else let '(now, k) := sk_now k in until (now + timeout) k.

Definition read_some (fuel : nat) (fd : Z) (len : nat) : K -> option (Result (list Z) * K) :=
  retry fuel (sk_read fd len) DRead fd.

Definition read_some_with_timeout (fuel : nat) (g_timer : bool) (fd : Z) (len : nat) (timeout : Z) :
    K -> option (Result (list Z) * K) :=
  with_timeout g_timer (make_error EPERM "read_with_timeout requires event loop timer") timeout
    (read_some fuel fd len)
    (fun deadline => retry_until fuel (sk_read fd len) DRead fd deadline (make_error ETIMEDOUT "read timeout")).

Definition write_some (fuel : nat) (fd : Z) (data : list Z) : K -> option (Result nat * K) :=
  retry fuel (sk_write fd data) DWrite fd.

Definition write_some_with_timeout (fuel : nat) (g_timer : bool) (fd : Z) (data : list Z) (timeout : Z) :
    K -> option (Result nat * K) :=
  with_timeout g_timer (make_error EPERM "write_with_timeout requires event loop timer") timeout
    (write_some fuel fd data)
    (fun deadline => retry_until fuel (sk_write fd data) DWrite fd deadline (make_error ETIMEDOUT "write timeout")).

Definition send_file_some (fuel : nat) (fd in_fd offset : Z) (count : nat) : K -> option (Result nat * K) :=
  retry fuel (sk_sendfile fd in_fd offset count) DWrite fd.

Definition send_file_some_with_timeout (fuel : nat) (g_timer : bool) (fd in_fd offset : Z) (count : nat) (timeout : Z) :
    K -> option (Result nat * K) :=
  with_timeout g_timer (make_error EPERM "send_file_with_timeout requires event loop timer") timeout
    (send_file_some fuel fd in_fd offset count)
    (fun deadline =>
       retry_until fuel (sk_sendfile fd in_fd offset count) DWrite fd deadline (make_error ETIMEDOUT "sendfile timeout")).

(** ** Writing everything

    [fi] is the fuel of each inner retry loop. *)

Definition connection_closed : SystemError := make_error EPIPE "write_all: connection closed".
Definition connection_closed_timed : SystemError := make_error EPIPE "write_all_with_timeout: connection closed".
Definition write_all_timeout : SystemError := make_error ETIMEDOUT "write_all timeout".

Fixpoint write_all_loop (fuel fi : nat) (fd : Z) (data : list Z) (total : nat) (k : K) : option (Result nat * K) :=
  if bool_decide (total < length data)%nat then
    match fuel with
    | O => None
    | S fuel =>
      r ← write_some fi fd (drop total data) k;
      match r with
      | (Err e, k) => Some (Err e, k)
      | (Ok O, k) => Some (Err connection_closed, k)
      | (Ok n, k) => write_all_loop fuel fi fd data (total + n) k
      end
    end
  else Some (Ok total, k).

Definition write_all (fuel fi : nat) (fd : Z) (data : list Z) (k : K) : option (Result nat * K) :=
  write_all_loop fuel fi fd data 0 k.

Fixpoint write_all_until (fuel fi : nat) (g_timer : bool) (fd : Z) (data : list Z) (deadline : Z) (total : nat) (k : K)
  : option (Result nat * K) :=
  if bool_decide (total < length data)%nat then
    match fuel with
    | O => None
    | S fuel =>
      let '(now, k) := sk_now k in
      if deadline <=? now then Some (Err write_all_timeout, k)
      else
        r ← write_some_with_timeout fi g_timer fd (drop total data) (deadline - now) k;
        match r with
        | (Err e, k) => Some (Err e, k)
        | (Ok O, k) => Some (Err connection_closed_timed, k)
        | (Ok n, k) => write_all_until fuel fi g_timer fd data deadline (total + n) k
        end
    end
  else Some (Ok total, k).

Definition write_all_with_timeout (fuel fi : nat) (g_timer : bool) (fd : Z) (data : list Z) (timeout : Z) (k : K)
  : option (Result nat * K) :=
  if timeout <=? 0 then write_all fuel fi fd data k
  else let '(now, k) := sk_now k in write_all_until fuel fi g_timer fd data (now + timeout) 0 k.

(** ** Sending a file *)

Definition sendfile_eof : SystemError := make_error EIO "sendfile reached EOF before requested byte count".
Definition sendfile_timeout : SystemError := make_error ETIMEDOUT "sendfile timeout".

(** [sendfile] advances [offset] by what it sent. *)
Fixpoint send_file_all_loop (fuel fi : nat) (g_timer : bool) (fd in_fd offset : Z) (count : nat) (timeout deadline : Z)
    (total : nat) (k : K) : option (Result nat * K) :=
  if bool_decide (total < count)%nat then
    match fuel with
    | O => None
    | S fuel =>
      let step (r : Result nat * K) :=
        match r with
        | (Err e, k) => Some (Err e, k)
        | (Ok O, k) => Some (Err sendfile_eof, k)
        | (Ok n, k) =>
          send_file_all_loop fuel fi g_timer fd in_fd (offset + Z.of_nat n) count timeout deadline (total + n) k
        end in
      if 0 <? timeout then
        let '(now, k) := sk_now k in
        if deadline <=? now then Some (Err sendfile_timeout, k)
        else r ← send_file_some_with_timeout fi g_timer fd in_fd offset (count - total) (deadline - now) k; step r
      else r ← send_file_some fi fd in_fd offset (count - total) k; step r
    end
  else Some (Ok total, k).

Definition send_file_all_with_timeout (fuel fi : nat) (g_timer : bool) (fd in_fd offset : Z) (count : nat) (timeout : Z)
    (k : K) : option (Result nat * K) :=
  let '(now, k) := sk_now k in
  send_file_all_loop fuel fi g_timer fd in_fd offset count timeout (now + timeout) 0 k.

(** ** [ReadAwaiter] and [WriteAwaiter] of [async/io_reactor.hpp]

    One attempt, then one wait, then a loop that only retries interruptions. *)

Fixpoint after_ready {A} (fuel : nat) (call : K -> SysRet A * K) (would_block : SystemError) (k : K)
  : option (Result A * K) :=
  match fuel with
  | O => None
  | S fuel =>
    match call k with
    | (SOk a, k) => Some (Ok a, k)
    | (SErr e, k) =>
      if e =? EINTR then after_ready fuel call would_block k
      else if e =? EAGAIN then Some (Err would_block, k)
      else Some (Err (from_errno e), k)
    end
  end.

Definition attempt_then_wait {A} (fuel : nat) (call : K -> SysRet A * K) (d : Dir) (fd : Z) (would_block : SystemError)
    (k : K) : option (Result A * K) :=
  match call k with
  | (SOk a, k) => Some (Ok a, k)
  | (SErr e, k) =>
    if e =? EAGAIN then
      let '(o, k) := wait_ready d fd k in
      match ready_result o with
      | Err er => Some (Err er, k)
      | Ok _ => after_ready fuel call would_block k
      end
    else Some (Err (from_errno e), k)
  end.

Definition async_read (fuel : nat) (fd : Z) (len : nat) : K -> option (Result (list Z) * K) :=
  attempt_then_wait fuel (sk_read fd len) DRead fd (make_error EAGAIN "read would block after readiness notification").
Definition async_write (fuel : nat) (fd : Z) (data : list Z) : K -> option (Result nat * K) :=
  attempt_then_wait fuel (sk_write fd data) DWrite fd (make_error EAGAIN "write would block after readiness notification").

End Stream.

(** ** Sockets *)

Section Sockets.
Context {K : Type} `{SocketKernel K} `{EpollKernel K} `{IoEnv K}.

Definition O_NONBLOCK : Z := 0x800.
Definition SOL_SOCKET : Z := 1.
Definition SO_REUSEADDR : Z := 2.
Definition SO_KEEPALIVE : Z := 9.
Definition SO_REUSEPORT : Z := 15.
Definition IPPROTO_TCP : Z := 6.
Definition TCP_NODELAY : Z := 1.

Definition lift {A} (r : SysRet A * K) : Result A * K :=
  match r with (SErr e, k) => (Err (from_errno e), k) | (SOk a, k) => (Ok a, k) end.

Definition ensure_nonblocking (fd : Z) (k : K) : Result unit * K :=
  match sk_getfl fd k with
  | (SErr e, k) => (Err (from_errno e), k)
  | (SOk flags, k) =>
    if Z.land flags O_NONBLOCK =? 0 then lift (sk_setfl fd (Z.lor flags O_NONBLOCK) k) else (Ok tt, k)
  end.

Definition set_nodelay (fd : Z) (enable : bool) (k : K) : Result unit * K :=
  lift (sk_setsockopt fd IPPROTO_TCP TCP_NODELAY (if enable then 1 else 0) k).
Definition set_keepalive (fd : Z) (enable : bool) (k : K) : Result unit * K :=
  lift (sk_setsockopt fd SOL_SOCKET SO_KEEPALIVE (if enable then 1 else 0) k).

(** The address is [None] where copying it out of the kernel's storage would be
    undefined. *)
Definition raw_address (r : SysRet (list Z * Z) * K) : Result (option SocketAddress) * K :=
  match r with
  | (SErr e, k) => (Err (from_errno e), k)
  | (SOk (storage, len), k) => (Ok (from_raw storage len), k)
  end.
Definition peer_address (fd : Z) (k : K) := raw_address (sk_getpeername fd k).
Definition local_address (fd : Z) (k : K) := raw_address (sk_getsockname fd k).

Definition shutdown_socket (fd how : Z) (k : K) : Result unit * K := lift (sk_shutdown fd how k).

(** [close_fd(reactor, fd)]: the first of the two errors is reported; the
    descriptor becomes [-1]. *)
Definition close_fd (reactor : option Reactor) (fd : Z) (k : K) : Result unit * option Reactor * Z * K :=
  if fd <? 0 then (Ok tt, reactor, fd, k)
  else
    let '(first_error, reactor, k) :=
      match reactor with
      | None => (None, None, k)
      | Some r =>
        match Reactor.remove fd r k with
        | (Err e, r, k) => (Some e, Some r, k)
        | (Ok _, r, k) => (None, Some r, k)
        end
      end in
    match sk_close fd k, first_error with
    | (_, k), Some e => (Err e, reactor, -1, k)
    | (SErr e, k), None => (Err (from_errno e), reactor, -1, k)
    | (SOk _, k), None => (Ok tt, reactor, -1, k)
    end.

Record ListenOptions := mkListen { backlog : Z; reuse_addr : bool; reuse_port : bool }.
Definition default_listen : ListenOptions := mkListen 128 true true.

(** Close the socket and report the error. *)
Definition fail_closing {A} (fd e : Z) (k : K) : Result A * K := (Err (from_errno e), (sk_close fd k).2).

Definition bind_listener_socket (addr : SocketAddress) (opts : ListenOptions) (k : K) : Result Z * K :=
  match sk_socket (family addr) k with
  | (SErr e, k) => (Err (from_errno e), k)
  | (SOk fd, k) =>
    let opt (enabled : bool) (name : Z) (k : K) :=
      if enabled then sk_setsockopt fd SOL_SOCKET name 1 k else (SOk tt, k) in
    match opt (reuse_addr opts) SO_REUSEADDR k with
    | (SErr e, k) => fail_closing fd e k
    | (SOk _, k) =>
      match opt (reuse_port opts) SO_REUSEPORT k with
      | (SErr e, k) => fail_closing fd e k
      | (SOk _, k) =>
        match sk_bind fd addr k with
        | (SErr e, k) => fail_closing fd e k
        | (SOk _, k) =>
          match sk_listen fd (i32 (backlog opts)) k with
          | (SErr e, k) => fail_closing fd e k
          | (SOk _, k) => (Ok fd, k)
          end
        end
      end
    end
  end.

(** ** [TcpStream] and [TcpListener], as their descriptors *)

Definition from_fd (fd : Z) (k : K) : Result Z * K :=
  match ensure_nonblocking fd k with (Err e, k) => (Err e, k) | (Ok _, k) => (Ok fd, k) end.

(** [from_fd], closing the descriptor when it fails. *)
Definition adopt_fd (fd : Z) (k : K) : Result Z * K :=
  match from_fd fd k with
  | (Err e, k) => (Err e, (sk_close fd k).2)
  | (Ok fd, k) => (Ok fd, k)
  end.

(** [ConnectAwaiter]: wait for writability, then ask for the outcome. *)
Definition connect_await (fd : Z) (k : K) : Result unit * K :=
  let '(o, k) := wait_ready DWrite fd k in
  match ready_result o with
  | Err e => (Err e, k)
  | Ok _ =>
    match sk_getsockopt_error fd k with
    | (SErr e, k) => (Err (from_errno e), k)
    | (SOk err, k) => if err =? 0 then (Ok tt, k) else (Err (make_error err "connect failed"), k)
    end
  end.

Definition connect (reactor : Reactor) (addr : SocketAddress) (k : K) : Result Z * Reactor * K :=
  match sk_socket (family addr) k with
  | (SErr e, k) => (Err (from_errno e), reactor, k)
  | (SOk fd, k) =>
    match sk_connect fd addr k with
    | (SOk _, k) => let '(res, k) := adopt_fd fd k in (res, reactor, k)
    | (SErr e, k) =>
      if negb (e =? EINPROGRESS) then let '(res, k) := fail_closing fd e k in (res, reactor, k)
      else
        match connect_await fd k with
        | (Err e, k) =>
          let '(_, reactor, k) := Reactor.remove fd reactor k in
          (Err e, reactor, (sk_close fd k).2)
        | (Ok _, k) => (Ok fd, reactor, k)
        end
    end
  end.

Definition accept_cancelled : SystemError := make_error ECANCELED "accept cancelled (graceful shutdown)".

(** [AcceptAwaiter]: an eager [accept4]; if it fails for any reason, wait for
    readability and try once more. *)
Definition accept_await (listen_fd : Z) (k : K) : Result (Z * option SocketAddress) * K :=
  match sk_accept4 listen_fd k with
  | (SOk (fd, peer, len), k) => (Ok (fd, from_raw peer len), k)
  | (SErr _, k) =>
    let '(o, k) := wait_ready DRead listen_fd k in
    match o with
    | WaitCancelled => (Err accept_cancelled, k)
    | WaitFailed e => (Err e, k)
    | WaitReady | WaitTimedOut =>
      match sk_accept4 listen_fd k with
      | (SErr e, k) => (Err (from_errno e), k)
      | (SOk (fd, peer, len), k) => (Ok (fd, from_raw peer len), k)
      end
    end
  end.

Definition accept (listen_fd : Z) (k : K) : Result (Z * option SocketAddress) * K :=
  match accept_await listen_fd k with
  | (Err e, k) => (Err e, k)
  | (Ok (conn_fd, peer), k) =>
    match adopt_fd conn_fd k with
    | (Err e, k) => (Err e, k)
    | (Ok fd, k) => (Ok (fd, peer), k)
    end
  end.

Definition valid (fd : Z) : bool := 0 <=? fd.

(** Move assignment: close what was held, take the other's descriptor. *)
Definition move_assign (reactor : option Reactor) (self other : Z) (k : K) : option Reactor * Z * Z * K :=
  let '(_, reactor, _, k) := close_fd reactor self k in (reactor, other, -1, k).

(** The move constructors: the new object's descriptor and the old one's. *)
Definition move_construct (other : Z) : Z * Z := (other, -1).

(** The destructors. *)
Definition destroy (reactor : option Reactor) (fd : Z) (k : K) : option Reactor * K :=
  let '(_, reactor, _, k) := close_fd reactor fd k in (reactor, k).

(** ** [TcpStream] objects

    The reactor a stream points to is the loop's; the operations take the
    descriptor by value when they are called. *)

Record TcpStream := mkStream { fd_ : Z; reactor_ : option nat }.

(** The private constructor, the move constructor and the close of an object. *)
Definition make_stream (fd : Z) (reactor : nat) : TcpStream := mkStream fd (Some reactor).
Definition stream_move_construct (other : TcpStream) : TcpStream * TcpStream :=
  (other, mkStream (move_construct (fd_ other)).2 (reactor_ other)).
Definition stream_fd (s : TcpStream) : Z := fd_ s.
Definition stream_valid (s : TcpStream) : bool := valid (fd_ s).

Definition stream_close (reactor : option Reactor) (s : TcpStream) (k : K) : Result unit * option Reactor * TcpStream * K :=
  let '(res, reactor, fd, k) := close_fd reactor (fd_ s) k in (res, reactor, mkStream fd (reactor_ s), k).

Definition stream_move_assign (reactor : option Reactor) (self other : TcpStream) (k : K)
  : option Reactor * TcpStream * TcpStream * K :=
  let '(reactor, fd, rest, k) := move_assign reactor (fd_ self) (fd_ other) k in
  (reactor, mkStream fd (reactor_ other), mkStream rest (reactor_ other), k).
Definition stream_destroy (reactor : option Reactor) (s : TcpStream) (k : K) : option Reactor * K := destroy reactor (fd_ s) k.

Definition stream_read (fuel : nat) (s : TcpStream) (len : nat) := read_some fuel (fd_ s) len.
Definition stream_read_with_timeout (fuel : nat) (g_timer : bool) (s : TcpStream) (len : nat) (timeout : Z) :=
  read_some_with_timeout fuel g_timer (fd_ s) len timeout.
Definition stream_write (fuel : nat) (s : TcpStream) (data : list Z) := write_some fuel (fd_ s) data.
Definition stream_write_with_timeout (fuel : nat) (g_timer : bool) (s : TcpStream) (data : list Z) (timeout : Z) :=
  write_some_with_timeout fuel g_timer (fd_ s) data timeout.
Definition stream_write_all (fuel fi : nat) (s : TcpStream) (data : list Z) := write_all fuel fi (fd_ s) data.
Definition stream_write_all_with_timeout (fuel fi : nat) (g_timer : bool) (s : TcpStream) (data : list Z) (timeout : Z) :=
  write_all_with_timeout fuel fi g_timer (fd_ s) data timeout.
Definition stream_send_file (fuel : nat) (s : TcpStream) (in_fd offset : Z) (count : nat) :=
  send_file_some fuel (fd_ s) in_fd offset count.
Definition stream_send_file_with_timeout (fuel : nat) (g_timer : bool) (s : TcpStream) (in_fd offset : Z) (count : nat) (timeout : Z) :=
  send_file_some_with_timeout fuel g_timer (fd_ s) in_fd offset count timeout.
Definition stream_send_file_all_with_timeout (fuel fi : nat) (g_timer : bool) (s : TcpStream) (in_fd offset : Z) (count : nat) (timeout : Z) :=
  send_file_all_with_timeout fuel fi g_timer (fd_ s) in_fd offset count timeout.
Definition stream_set_nodelay (s : TcpStream) (enable : bool) := set_nodelay (fd_ s) enable.
Definition stream_set_keepalive (s : TcpStream) (enable : bool) := set_keepalive (fd_ s) enable.
Definition stream_peer_address (s : TcpStream) := peer_address (fd_ s).
Definition stream_local_address (s : TcpStream) := local_address (fd_ s).
Definition stream_shutdown (s : TcpStream) (how : Z) := shutdown_socket (fd_ s) how.

(** ** [TcpListener]'s own operations *)

Definition listener_bind (addr : SocketAddress) (opts : ListenOptions) (k : K) : Result Z * K :=
  match bind_listener_socket addr opts k with
  | (Err e, k) => (Err e, k)
  | (Ok fd, k) => (Ok fd, k)
  end.

Definition listener_move_construct (other : Z) : Z * Z := (other, -1).

Definition listener_move_assign (reactor : option Reactor) (self other : Z) (k : K) : option Reactor * Z * Z * K :=
  let '(_, reactor, _, k) := close_fd reactor self k in (reactor, other, -1, k).

Definition listener_destroy (reactor : option Reactor) (fd : Z) (k : K) : option Reactor * K :=
  let '(_, reactor, _, k) := close_fd reactor fd k in (reactor, k).

End Sockets.
End Net.
