(* ===== verification/NetProps.v ===== *)
(** * NetProps: nothing is lost on a stream, no descriptor leaks *)

From S2P Require Import Prelude Core Reactor Address Net.

Module NetProps.
Import Net.

(** ** What the loops rely on

    [sent] and [consumed] are the bytes a descriptor has accepted and given;
    [source] the content of a file; [patience] bounds the calls that can still
    be interrupted or find the descriptor not ready. *)

Class StreamView (K : Type) := {
  sent : K -> Z -> list Z;
  consumed : K -> Z -> list Z;
  source : K -> Z -> list Z;
  patience : K -> nat;
}.

(** Nothing happened to descriptor [fd]. *)
Definition quiet {K} `{StreamView K} (fd : Z) (k k' : K) : Prop :=
  sent k' fd = sent k fd /\ consumed k' fd = consumed k fd /\ source k' = source k /\
  (patience k' <= patience k)%nat.

(** A failed call leaves the descriptor alone; only finitely many fail with a
    reason to retry. *)
Definition failed {K} `{StreamView K} (fd e : Z) (k k' : K) : Prop :=
  quiet fd k k' /\ (e = EINTR \/ e = EAGAIN -> (patience k' < patience k)%nat).

Class StreamLaws (K : Type) `{IoEnv K} `{StreamView K} := {
  read_ok fd len k bs k' : sk_read fd len k = (SOk bs, k') ->
    (length bs <= len)%nat /\ consumed k' fd = consumed k fd ++ bs /\ sent k' fd = sent k fd /\
    source k' = source k /\ (patience k' <= patience k)%nat;
  read_err fd len k e k' : sk_read fd len k = (SErr e, k') -> failed fd e k k';
  write_ok fd data k n k' : sk_write fd data k = (SOk n, k') ->
    (n <= length data)%nat /\ sent k' fd = sent k fd ++ take n data /\ consumed k' fd = consumed k fd /\
    source k' = source k /\ (patience k' <= patience k)%nat;
  write_err fd data k e k' : sk_write fd data k = (SErr e, k') -> failed fd e k k';
  sendfile_ok fd in_fd off count k n k' : sk_sendfile fd in_fd off count k = (SOk n, k') ->
    (n <= count)%nat /\ (Z.to_nat off + n <= length (source k in_fd) \/ n = 0)%nat /\
    sent k' fd = sent k fd ++ take n (drop (Z.to_nat off) (source k in_fd)) /\
    consumed k' fd = consumed k fd /\ source k' = source k /\ (patience k' <= patience k)%nat;
  sendfile_err fd in_fd off count k e k' : sk_sendfile fd in_fd off count k = (SErr e, k') -> failed fd e k k';
  now_quiet fd k t k' : sk_now k = (t, k') -> quiet fd k k';
  (** a descriptor direction has one waiter: nobody else uses it meanwhile *)
  wait_quiet d fd k o k' : wait_ready d fd k = (o, k') -> quiet fd k k';
  wait_for_quiet d fd t k o k' : wait_ready_for d fd t k = (o, k') -> quiet fd k k';
}.

Section Laws.
Context {K : Type} `{StreamLaws K}.

#[export] Instance quiet_preorder fd : PreOrder (quiet (K := K) fd).
Proof.
  split; [intros k; split_and!; done|]. intros k1 k2 k3 (? & ? & ? & ?) (? & ? & ? & ?).
  split_and!; [congruence..|lia].
Qed.

(** ** The retry loops *)

(** [Q k a k']: what a successful call does; it may be preceded by quiet steps. *)
Record call_spec {A} (fd : Z) (call : K -> SysRet A * K) (Q : K -> A -> K -> Prop) : Prop := {
  call_ok k a k' : call k = (SOk a, k') -> Q k a k' /\ (patience k' <= patience k)%nat;
  call_err k e k' : call k = (SErr e, k') -> failed fd e k k';
  call_quiet k k1 a k' : quiet fd k k1 -> Q k1 a k' -> Q k a k';
}.

Definition loop_result {A} (fd : Z) (Q : K -> A -> K -> Prop) (k : K) (r : Result A) (k' : K) : Prop :=
  (patience k' <= patience k)%nat /\
  ((exists a, r = Ok a /\ Q k a k') \/ (exists e, r = Err e /\ quiet fd k k')).

Lemma loop_result_quiet {A} fd call (Q : K -> A -> K -> Prop) k k1 r k' :
  call_spec fd call Q -> quiet fd k k1 -> loop_result fd Q k1 r k' -> loop_result fd Q k r k'.
Proof.
  intros C Hq [Hp Hr]. split; [destruct Hq as (_ & _ & _ & ?); lia|].
  destruct Hr as [(a & -> & HQ)|(e & -> & Hq')]; [left|right].
  - exists a. split; [done|]. by eapply call_quiet.
  - exists e. split; [done|]. by transitivity k1.
Qed.

Lemma loop_result_err {A} fd (Q : K -> A -> K -> Prop) k e k' : quiet fd k k' -> loop_result fd Q k (Err e) k'.
Proof. intros Hq. split; [apply Hq|]. right. eauto. Qed.

Lemma retry_spec {A} fuel d fd call (Q : K -> A -> K -> Prop) k :
  call_spec fd call Q -> (patience k < fuel)%nat ->
  exists r k', retry fuel call d fd k = Some (r, k') /\ loop_result fd Q k r k'.
Proof.
  intros C. revert k. induction fuel as [|fuel IH]; intros k Hf; [lia|]. cbn [retry].
  destruct (call k) as [[a|e] k1] eqn:E.
  - destruct (call_ok _ _ _ C _ _ _ E) as [HQ Hp]. exists (Ok a), k1. split; [done|]. split; [done|]. left. eauto.
  - destruct (call_err _ _ _ C _ _ _ E) as [Hq Hlt].
    destruct (Z.eqb_spec e EINTR) as [->|Hn1].
    { destruct (IH k1) as (r & k' & E' & Hr); [specialize (Hlt ltac:(by left)); lia|].
      exists r, k'. split; [done|]. by eapply loop_result_quiet. }
    destruct (Z.eqb_spec e EAGAIN) as [->|Hn2].
    2:{ exists (Err (from_errno e)), k1. split; [done|]. by apply loop_result_err. }
    specialize (Hlt ltac:(by right)). destruct (wait_ready d fd k1) as [o k2] eqn:Ew. apply wait_quiet in Ew as Hw.
    assert (quiet fd k k2) as Hq2 by by transitivity k1.
    destruct (ready_result o) as [u|er].
    + destruct (IH k2) as (r & k' & E' & Hr); [destruct Hw as (_ & _ & _ & ?); lia|].
      exists r, k'. split; [done|]. by eapply loop_result_quiet.
    + exists (Err er), k2. split; [done|]. by apply loop_result_err.
Qed.

Lemma retry_until_spec {A} fuel d fd deadline expired call (Q : K -> A -> K -> Prop) k :
  call_spec fd call Q -> (patience k < fuel)%nat ->
  exists r k', retry_until fuel call d fd deadline expired k = Some (r, k') /\ loop_result fd Q k r k'.
Proof.
  intros C. revert k. induction fuel as [|fuel IH]; intros k Hf; [lia|]. cbn [retry_until].
  destruct (call k) as [[a|e] k1] eqn:E.
  - destruct (call_ok _ _ _ C _ _ _ E) as [HQ Hp]. exists (Ok a), k1. split; [done|]. split; [done|]. left. eauto.
  - destruct (call_err _ _ _ C _ _ _ E) as [Hq Hlt].
    destruct (Z.eqb_spec e EINTR) as [->|Hn1].
    { destruct (IH k1) as (r & k' & E' & Hr); [specialize (Hlt ltac:(by left)); lia|].
      exists r, k'. split; [done|]. by eapply loop_result_quiet. }
    destruct (Z.eqb_spec e EAGAIN) as [->|Hn2].
    2:{ exists (Err (from_errno e)), k1. split; [done|]. by apply loop_result_err. }
    specialize (Hlt ltac:(by right)). destruct (sk_now k1) as [now k2] eqn:En. apply (now_quiet fd) in En as Hn.
    assert (quiet fd k k2) as Hq2 by by transitivity k1.
    destruct (deadline <=? now). { exists (Err expired), k2. split; [done|]. by apply loop_result_err. }
    destruct (wait_ready_for _ _ _ k2) as [o k3] eqn:Ew. apply wait_for_quiet in Ew as Hw.
    assert (quiet fd k k3) as Hq3 by by transitivity k2.
    destruct (timed_result d o) as [u|er].
    + destruct (IH k3) as (r & k' & E' & Hr);
        [destruct Hw as (_ & _ & _ & ?); destruct Hn as (_ & _ & _ & ?); lia|].
      exists r, k'. split; [done|]. by eapply loop_result_quiet.
    + exists (Err er), k3. split; [done|]. by apply loop_result_err.
Qed.

Lemma with_timeout_spec {A} fuel g_timer no_timer timeout d fd expired call (Q : K -> A -> K -> Prop) k :
  call_spec fd call Q -> (patience k < fuel)%nat ->
  exists r k', with_timeout g_timer no_timer timeout (retry fuel call d fd)
      (fun deadline => retry_until fuel call d fd deadline expired) k = Some (r, k') /\ loop_result fd Q k r k'.
Proof.
  intros C Hf. unfold with_timeout. destruct (timeout <=? 0); [by apply retry_spec|].
  destruct g_timer; cbn [negb].
  2:{ exists (Err no_timer), k. split; [done|]. by apply loop_result_err. }
  destruct (sk_now k) as [now k1] eqn:En. apply (now_quiet fd) in En as Hn.
  destruct (retry_until_spec fuel d fd (now + timeout) expired call Q k1 C) as (r & k' & E & Hr).
  { destruct Hn as (_ & _ & _ & ?). lia. }
  exists r, k'. split; [done|]. by eapply loop_result_quiet.
Qed.

(** *** The three calls *)

Definition did_read (fd : Z) (len : nat) (k : K) (bs : list Z) (k' : K) : Prop :=
  (length bs <= len)%nat /\ consumed k' fd = consumed k fd ++ bs /\ sent k' fd = sent k fd.
Definition did_write (fd : Z) (data : list Z) (k : K) (n : nat) (k' : K) : Prop :=
  (n <= length data)%nat /\ sent k' fd = sent k fd ++ take n data.
Definition did_send (fd in_fd off : Z) (count : nat) (k : K) (n : nat) (k' : K) : Prop :=
  (n <= count)%nat /\ (Z.to_nat off + n <= length (source k in_fd) \/ n = 0)%nat /\
  sent k' fd = sent k fd ++ take n (drop (Z.to_nat off) (source k in_fd)) /\ source k' = source k.

Lemma read_call fd len : call_spec fd (sk_read fd len) (did_read fd len).
Proof.
  split.
  - intros k bs k' (? & ? & ? & ? & ?)%read_ok. done.
  - intros k e k'. apply read_err.
  - intros k k1 bs k' (E1 & E2 & _) (? & Hc & Hs). split_and!; congruence.
Qed.

Lemma write_call fd data : call_spec fd (sk_write fd data) (did_write fd data).
Proof.
  split.
  - intros k n k' (? & ? & ? & ? & ?)%write_ok. done.
  - intros k e k'. apply write_err.
  - intros k k1 n k' (E1 & _) (? & Hs). split; congruence.
Qed.

Lemma send_call fd in_fd off count : call_spec fd (sk_sendfile fd in_fd off count) (did_send fd in_fd off count).
Proof.
  split.
  - intros k n k' (? & ? & ? & ? & ? & ?)%sendfile_ok. done.
  - intros k e k'. apply sendfile_err.
  - intros k k1 n k' (E1 & _ & E2 & _) (? & Hl & Hs & Hs'). unfold did_send. rewrite <- E2. split_and!; congruence.
Qed.

(** Reading loses nothing: with or without a timeout the read terminates;
    on success the bytes returned are exactly the bytes taken from the stream,
    and on every failure (timeout, cancellation, no timer, error) nothing was
    taken. *)
Theorem read_loses_nothing fuel g_timer fd len timeout (k : K) :
  (patience k < fuel)%nat ->
  exists r k', read_some_with_timeout fuel g_timer fd len timeout k = Some (r, k') /\
    match r with
    | Ok bs => (length bs <= len)%nat /\ consumed k' fd = consumed k fd ++ bs
    | Err _ => consumed k' fd = consumed k fd
    end.
Proof.
  intros Hf. unfold read_some_with_timeout, read_some.
  destruct (with_timeout_spec fuel g_timer (make_error EPERM "read_with_timeout requires event loop timer") timeout
    Reactor.DRead fd (make_error ETIMEDOUT "read timeout") _ _ k (read_call fd len) Hf) as (r & k' & E & _ & Hr).
  exists r, k'. split; [exact E|]. destruct Hr as [(bs & -> & ? & ? & _)|(e & -> & _ & ? & _)]; done.
Qed.

(** ** Writing everything *)

(** Progress of the outer loops: [n] more bytes of [data] are on the stream. *)
Definition wrote (fd : Z) (data : list Z) (total : nat) (k : K) (r : Result nat) (k' : K) : Prop :=
  exists n, (total + n <= length data)%nat /\ sent k' fd = sent k fd ++ take n (drop total data) /\
    (r = Ok (length data) /\ (total + n)%nat = length data \/ exists e, r = Err e).

Lemma wrote_none fd data total (k k' : K) e :
  (total <= length data)%nat -> sent k' fd = sent k fd -> wrote fd data total k (Err e) k'.
Proof. intros Hl Hs. exists O. cbn. rewrite app_nil_r. split_and!; [lia|done|eauto]. Qed.

Lemma wrote_step fd data total (k k1 : K) n r k' :
  (S n <= length (drop total data))%nat -> sent k1 fd = sent k fd ++ take (S n) (drop total data) ->
  wrote fd data (total + S n) k1 r k' -> wrote fd data total k r k'.
Proof.
  intros Hn Hs (n2 & Hl & Hs2 & Hr). rewrite length_drop in Hn. exists (S n + n2)%nat. split_and!; [lia| |].
  - rewrite Hs2, Hs, <- app_assoc. f_equal. by rewrite <- drop_drop, take_take_drop.
  - destruct Hr as [[-> Hl']|Hr]; [left; split; [done|lia]|by right].
Qed.

Lemma stream_write_all_spec fuel fi fd data total (k : K) :
  (total <= length data)%nat -> (length data - total <= fuel)%nat -> (patience k < fi)%nat ->
  exists r k', write_all_loop fuel fi fd data total k = Some (r, k') /\ wrote fd data total k r k'.
Proof.
  revert total k. induction fuel as [|fuel IH]; intros total k Ht Hf Hp; cbn [write_all_loop].
  { rewrite bool_decide_false by lia. exists (Ok total), k. split; [done|]. exists O. cbn. rewrite app_nil_r.
    split_and!; [lia|done|left; split; [f_equal|]; lia]. }
  case_bool_decide as Hlt.
  2:{ exists (Ok total), k. split; [done|]. exists O. cbn. rewrite app_nil_r.
      split_and!; [lia|done|left; split; [f_equal|]; lia]. }
  destruct (retry_spec fi Reactor.DWrite fd _ _ k (write_call fd (drop total data)) Hp) as (r & k1 & E & Hp1 & Hr).
  unfold write_some. rewrite E. cbn [mbind option_bind].
  destruct Hr as [(n & -> & Hn & Hs)|(e & -> & Hq)].
  2:{ exists (Err e), k1. split; [done|]. apply wrote_none; [lia|apply Hq]. }
  destruct n as [|n].
  { exists (Err connection_closed), k1. split; [done|]. cbn in Hs. rewrite app_nil_r in Hs. by apply wrote_none; [lia|]. }
  assert (S n <= length data - total)%nat by (by rewrite length_drop in Hn).
  destruct (IH (total + S n)%nat k1) as (r & k' & E' & Hw); [lia..|].
  exists r, k'. split; [exact E'|]. by eapply wrote_step.
Qed.

Lemma write_all_until_spec fuel fi g_timer fd data deadline total (k : K) :
  (total <= length data)%nat -> (length data - total <= fuel)%nat -> (patience k < fi)%nat ->
  exists r k', write_all_until fuel fi g_timer fd data deadline total k = Some (r, k') /\ wrote fd data total k r k'.
Proof.
  revert total k. induction fuel as [|fuel IH]; intros total k Ht Hf Hp; cbn [write_all_until].
  { rewrite bool_decide_false by lia. exists (Ok total), k. split; [done|]. exists O. cbn. rewrite app_nil_r.
    split_and!; [lia|done|left; split; [f_equal|]; lia]. }
  case_bool_decide as Hlt.
  2:{ exists (Ok total), k. split; [done|]. exists O. cbn. rewrite app_nil_r.
      split_and!; [lia|done|left; split; [f_equal|]; lia]. }
  destruct (sk_now k) as [now k0] eqn:En. apply (now_quiet fd) in En as (Hs0 & _ & _ & Hp0).
  destruct (deadline <=? now).
  { exists (Err write_all_timeout), k0. split; [done|]. by apply wrote_none; [lia|]. }
  destruct (with_timeout_spec fi g_timer (make_error EPERM "write_with_timeout requires event loop timer") (deadline - now)
    Reactor.DWrite fd (make_error ETIMEDOUT "write timeout") _ _ k0 (write_call fd (drop total data))) as (r & k1 & E & Hp1 & Hr);
    [lia|].
  unfold write_some_with_timeout, write_some. rewrite E. cbn [mbind option_bind].
  destruct Hr as [(n & -> & Hn & Hs)|(e & -> & Hq)].
  2:{ exists (Err e), k1. split; [done|]. apply wrote_none; [lia|]. destruct Hq as (-> & _). done. }
  rewrite Hs0 in Hs. destruct n as [|n].
  { exists (Err connection_closed_timed), k1. split; [done|]. cbn in Hs. rewrite app_nil_r in Hs. by apply wrote_none; [lia|]. }
  assert (S n <= length data - total)%nat by (by rewrite length_drop in Hn).
  destruct (IH (total + S n)%nat k1) as (r & k' & E' & Hw); [lia..|].
  exists r, k'. split; [exact E'|]. by eapply wrote_step.
Qed.

(** C24: [write_all_with_timeout] (and [write_all], its case of no timeout)
    terminates and puts a prefix of the data on the stream, in order and without
    repetition; it succeeds only when that prefix is everything. *)
Theorem write_all_in_order fuel fi g_timer fd data timeout (k : K) :
  (length data <= fuel)%nat -> (patience k < fi)%nat ->
  exists r k' n, write_all_with_timeout fuel fi g_timer fd data timeout k = Some (r, k') /\
    (n <= length data)%nat /\ sent k' fd = sent k fd ++ take n data /\
    (r = Ok (length data) /\ n = length data \/ exists e, r = Err e).
Proof.
  intros Hf Hp. unfold write_all_with_timeout, write_all. destruct (timeout <=? 0).
  - destruct (stream_write_all_spec fuel fi fd data 0 k) as (r & k' & E & n & Hn & Hs & Hr); [lia..|].
    exists r, k', n. split_and!; [done|lia|done|done].
  - destruct (sk_now k) as [now k0] eqn:En. apply (now_quiet fd) in En as (Hs0 & _ & _ & Hp0).
    destruct (write_all_until_spec fuel fi g_timer fd data (now + timeout) 0 k0) as (r & k' & E & n & Hn & Hs & Hr); [lia..|].
    exists r, k', n. split_and!; [done|lia|by rewrite Hs, Hs0|done].
Qed.

(** ** Sending a file *)

Definition sent_file (fd in_fd offset : Z) (count total : nat) (k : K) (r : Result nat) (k' : K) : Prop :=
  exists n, (total + n <= count)%nat /\
    sent k' fd = sent k fd ++ take n (drop (Z.to_nat offset) (source k in_fd)) /\
    (r = Ok count /\ (total + n)%nat = count /\
       (Z.to_nat offset + n <= length (source k in_fd) \/ n = 0)%nat \/ exists e, r = Err e).

Lemma sent_file_none fd in_fd offset count total (k k' : K) e :
  (total <= count)%nat -> sent k' fd = sent k fd -> sent_file fd in_fd offset count total k (Err e) k'.
Proof. intros Hl Hs. exists O. cbn. rewrite app_nil_r. split_and!; [lia|done|eauto]. Qed.

Lemma sent_file_step fd in_fd offset count total (k k1 : K) n r k' :
  0 <= offset -> did_send fd in_fd offset (count - total) k (S n) k1 -> (total < count)%nat ->
  sent_file fd in_fd (offset + Z.of_nat (S n)) count (total + S n) k1 r k' ->
  sent_file fd in_fd offset count total k r k'.
Proof.
  intros Ho (Hn & Hl & Hs & Hsrc) Hlt (n2 & Hl2 & Hs2 & Hr). exists (S n + n2)%nat. split_and!; [lia| |].
  - rewrite Hs2, Hs, Hsrc, <- app_assoc. f_equal.
    rewrite Z2Nat.inj_add, Nat2Z.id, <- drop_drop, take_take_drop by lia. done.
  - destruct Hr as [(-> & Hl' & Hle)|Hr]; [left|by right]. split_and!; [done|lia|].
    rewrite Hsrc, Z2Nat.inj_add, Nat2Z.id in Hle by lia. lia.
Qed.

Lemma send_file_all_spec fuel fi g_timer fd in_fd offset count timeout deadline total (k : K) :
  0 <= offset -> (total <= count)%nat -> (count - total <= fuel)%nat -> (patience k < fi)%nat ->
  exists r k', send_file_all_loop fuel fi g_timer fd in_fd offset count timeout deadline total k = Some (r, k') /\
    sent_file fd in_fd offset count total k r k'.
Proof.
  revert offset total k. induction fuel as [|fuel IH]; intros offset total k Ho Ht Hf Hp; cbn [send_file_all_loop].
  { rewrite bool_decide_false by lia. exists (Ok total), k. split; [done|]. exists O. cbn. rewrite app_nil_r.
    split_and!; [lia|done|left; split_and!; [f_equal| |]; lia]. }
  case_bool_decide as Hlt.
  2:{ exists (Ok total), k. split; [done|]. exists O. cbn. rewrite app_nil_r.
      split_and!; [lia|done|left; split_and!; [f_equal| |]; lia]. }
  set (step := fun r : Result nat * K => _).
  assert (forall k0 r k1, sent k0 fd = sent k fd -> source k0 = source k -> (patience k1 <= patience k)%nat ->
    ((exists n, r = Ok n /\ did_send fd in_fd offset (count - total) k0 n k1) \/ (exists e, r = Err e /\ quiet fd k0 k1)) ->
    exists r' k', step (r, k1) = Some (r', k') /\ sent_file fd in_fd offset count total k r' k') as Hstep.
  { intros k0 r k1 Hs0 Hsrc0 Hp1 [(n & -> & Hd)|(e & -> & Hq)]; unfold step.
    2:{ exists (Err e), k1. split; [done|]. apply sent_file_none; [lia|]. destruct Hq as (-> & _). done. }
    assert (did_send fd in_fd offset (count - total) k n k1) as Hd'.
    { unfold did_send in *. rewrite <- Hs0, <- Hsrc0. done. }
    destruct n as [|n].
    { exists (Err sendfile_eof), k1. split; [done|]. apply sent_file_none; [lia|].
      destruct Hd' as (_ & _ & -> & _). by rewrite app_nil_r. }
    destruct (IH (offset + Z.of_nat (S n)) (total + S n)%nat k1) as (r & k' & E & Hw);
      [lia|destruct Hd' as (? & _); lia..|lia|].
    exists r, k'. split; [exact E|]. by eapply sent_file_step. }
  destruct (0 <? timeout).
  - destruct (sk_now k) as [now k0] eqn:En. apply (now_quiet fd) in En as (Hs0 & _ & Hsrc0 & Hp0).
    destruct (deadline <=? now).
    { exists (Err sendfile_timeout), k0. split; [done|]. by apply sent_file_none; [lia|]. }
    destruct (with_timeout_spec fi g_timer (make_error EPERM "send_file_with_timeout requires event loop timer")
      (deadline - now) Reactor.DWrite fd (make_error ETIMEDOUT "sendfile timeout") _ _ k0
      (send_call fd in_fd offset (count - total))) as (r & k1 & E & Hp1 & Hr); [lia|].
    unfold send_file_some_with_timeout, send_file_some. rewrite E. cbn [mbind option_bind].
    apply (Hstep k0); [done|done|lia|done].
  - destruct (retry_spec fi Reactor.DWrite fd _ _ k (send_call fd in_fd offset (count - total)) Hp) as (r & k1 & E & Hp1 & Hr).
    unfold send_file_some. rewrite E. cbn [mbind option_bind]. by apply (Hstep k).
Qed.

(** [send_file_all_with_timeout] terminates and sends a contiguous piece of
    the file starting at the offset; it succeeds only when the whole requested
    range was in the file and has been sent. *)
Theorem send_file_in_order fuel fi g_timer fd in_fd offset count timeout (k : K) :
  0 <= offset -> (count <= fuel)%nat -> (patience k < fi)%nat ->
  exists r k' n, send_file_all_with_timeout fuel fi g_timer fd in_fd offset count timeout k = Some (r, k') /\
    (n <= count)%nat /\ sent k' fd = sent k fd ++ take n (drop (Z.to_nat offset) (source k in_fd)) /\
    (r = Ok count /\ n = count /\ (Z.to_nat offset + n <= length (source k in_fd) \/ n = 0)%nat \/ exists e, r = Err e).
Proof.
  intros Ho Hf Hp. unfold send_file_all_with_timeout.
  destruct (sk_now k) as [now k0] eqn:En. apply (now_quiet fd) in En as (Hs0 & _ & Hsrc0 & Hp0).
  destruct (send_file_all_spec fuel fi g_timer fd in_fd offset count timeout (now + timeout) 0 k0)
    as (r & k' & E & n & Hn & Hs & Hr); [lia..|].
  exists r, k', n. rewrite <- Hsrc0, <- Hs0. split_and!; [done|lia|done|done].
Qed.

End Laws.

(** ** Descriptors *)

Class FdLaws (K : Type) `{SocketKernel K} `{Reactor.EpollKernel K} `{IoEnv K} := {
  open_fds : K -> gset Z;
  socket_ok af k fd k' : sk_socket af k = (SOk fd, k') -> (fd ∉ open_fds k) /\ open_fds k' = {[fd]} ∪ open_fds k;
  socket_err af k e k' : sk_socket af k = (SErr e, k') -> open_fds k' = open_fds k;
  accept_ok fd k c k' : sk_accept4 fd k = (SOk c, k') -> (fst (fst c) ∉ open_fds k) /\ open_fds k' = {[ fst (fst c) ]} ∪ open_fds k;
  accept_err fd k e k' : sk_accept4 fd k = (SErr e, k') -> open_fds k' = open_fds k;
  close_fds fd k : open_fds (sk_close fd k).2 = open_fds k ∖ {[fd]};
  setsockopt_fds fd l n v k : open_fds (sk_setsockopt fd l n v k).2 = open_fds k;
  getsockopt_fds fd k : open_fds (sk_getsockopt_error fd k).2 = open_fds k;
  bind_fds fd a k : open_fds (sk_bind fd a k).2 = open_fds k;
  listen_fds fd n k : open_fds (sk_listen fd n k).2 = open_fds k;
  connect_fds fd a k : open_fds (sk_connect fd a k).2 = open_fds k;
  getfl_fds fd k : open_fds (sk_getfl fd k).2 = open_fds k;
  setfl_fds fd n k : open_fds (sk_setfl fd n k).2 = open_fds k;
  epoll_fds ep op fd ev k : open_fds (Reactor.epoll_ctl ep op fd ev k).2 = open_fds k;
  wait_fds d fd k : open_fds (wait_ready d fd k).2 = open_fds k;
}.

Section Leaks.
Context {K : Type} `{FdLaws K}.

(** A call that makes a descriptor: it is new and the only one added, or the
    call failed and none was. *)
Definition makes_fd {A} (fd_of : A -> Z) (k : K) (res : Result A) (k' : K) : Prop :=
  match res with
  | Ok a => (fd_of a ∉ open_fds k) /\ open_fds k' = {[fd_of a]} ∪ open_fds k
  | Err _ => open_fds k' = open_fds k
  end.

Lemma close_new fd (k k1 : K) :
  fd ∉ open_fds k -> open_fds k1 = {[fd]} ∪ open_fds k -> open_fds (sk_close fd k1).2 = open_fds k.
Proof. intros Hn E. rewrite close_fds, E. set_solver. Qed.

Lemma adopt_fd_fds fd (k : K) :
  open_fds (adopt_fd fd k).2 = match (adopt_fd fd k).1 with Ok _ => open_fds k | Err _ => open_fds k ∖ {[fd]} end /\
  (forall fd', (adopt_fd fd k).1 = Ok fd' -> fd' = fd).
Proof.
  unfold adopt_fd, from_fd, ensure_nonblocking. pose proof (getfl_fds fd k) as G1.
  destruct (sk_getfl fd k) as [[flags|e] k1]; cbn in G1.
  - destruct (_ =? 0).
    + pose proof (setfl_fds fd (Z.lor flags O_NONBLOCK) k1) as G2.
      destruct (sk_setfl fd _ k1) as [[[]|e] k2]; cbn in *; [|rewrite close_fds, G2, G1; done].
      split; [congruence|]. by intros fd' [= <-].
    + cbn. split; [done|]. by intros fd' [= <-].
  - cbn. rewrite close_fds, G1. done.
Qed.

Lemma remove_fds fd r (k : K) res r' k' : Reactor.remove fd r k = (res, r', k') -> open_fds k' = open_fds k.
Proof.
  unfold Reactor.remove. destruct (fd <? 0); [by intros [= _ _ <-]|].
  pose proof (epoll_fds (Reactor.epoll_fd r) Reactor.EPOLL_CTL_DEL fd 0 k) as G4.
  destruct (Reactor.epoll_ctl _ _ _ _ k) as [[]]; cbn in G4; [by intros [= _ _ <-]|].
  destruct (_ && _); by intros [= _ _ <-].
Qed.

Lemma bind_fds_ok addr opts (k : K) res k' :
  bind_listener_socket addr opts k = (res, k') -> makes_fd (fun fd => fd) k res k'.
Proof.
  unfold bind_listener_socket, fail_closing. destruct (sk_socket (Address.family addr) k) as [[fd|e] k1] eqn:Es.
  2:{ intros [= <- <-]. by eapply socket_err. }
  destruct (socket_ok _ _ _ _ Es) as [Hn E1].
  assert (forall (b : bool) name kk,
    open_fds (if b then sk_setsockopt fd SOL_SOCKET name 1 kk else (SOk tt, kk)).2 = open_fds kk) as Hopt.
  { intros [] name kk; [apply setsockopt_fds|done]. }
  cbv zeta beta. pose proof (Hopt (reuse_addr opts) SO_REUSEADDR k1) as G2.
  destruct (if reuse_addr opts then sk_setsockopt fd SOL_SOCKET SO_REUSEADDR 1 k1 else (SOk tt, k1)) as [[[]|e] k2];
    cbn in G2; rewrite E1 in G2.
  2:{ intros [= <- <-]. cbn. by apply close_new. }
  pose proof (Hopt (reuse_port opts) SO_REUSEPORT k2) as G3.
  destruct (if reuse_port opts then sk_setsockopt fd SOL_SOCKET SO_REUSEPORT 1 k2 else (SOk tt, k2)) as [[[]|e] k3];
    cbn in G3; rewrite G2 in G3.
  2:{ intros [= <- <-]. cbn. by apply close_new. }
  pose proof (bind_fds fd addr k3) as G4. destruct (sk_bind fd addr k3) as [[[]|e] k4]; cbn in G4; rewrite G3 in G4.
  2:{ intros [= <- <-]. cbn. by apply close_new. }
  pose proof (listen_fds fd (i32 (backlog opts)) k4) as G5.
  destruct (sk_listen fd _ k4) as [[[]|e] k5]; cbn in G5; rewrite G4 in G5; intros [= <- <-]; cbn; [done|].
  by apply close_new.
Qed.

Lemma connect_fds_ok r addr (k : K) res r' k' : connect r addr k = (res, r', k') -> makes_fd (fun fd => fd) k res k'.
Proof.
  unfold connect, fail_closing. destruct (sk_socket (Address.family addr) k) as [[fd|e] k1] eqn:Es.
  2:{ intros [= <- _ <-]. by eapply socket_err. }
  destruct (socket_ok _ _ _ _ Es) as [Hn E1].
  pose proof (connect_fds fd addr k1) as G2. destruct (sk_connect fd addr k1) as [[[]|e] k2]; cbn in G2; rewrite E1 in G2.
  - destruct (adopt_fd_fds fd k2) as [G3 G3']. destruct (adopt_fd fd k2) as [[fd'|e] k3]; cbn in *; intros [= <- _ <-]; cbn.
    + rewrite (G3' fd' eq_refl), G3. done.
    + rewrite G3, G2. set_solver.
  - destruct (e =? EINPROGRESS); cbn [negb]; [|intros [= <- _ <-]; cbn; by apply close_new].
    assert (open_fds (connect_await fd k2).2 = open_fds k2) as G3.
    { unfold connect_await. pose proof (wait_fds Reactor.DWrite fd k2) as Hw.
      destruct (wait_ready Reactor.DWrite fd k2) as [o k3]; cbn in Hw. destruct (ready_result o); [|done].
      pose proof (getsockopt_fds fd k3) as Hg. destruct (sk_getsockopt_error fd k3) as [[err|e'] k4]; cbn in *; [|congruence].
      destruct (err =? 0); cbn; congruence. }
    destruct (connect_await fd k2) as [[[]|e'] k3]; cbn in G3; rewrite G2 in G3.
    + by intros [= <- _ <-].
    + destruct (Reactor.remove fd r k3) as [[x r1] k4] eqn:Er. apply remove_fds in Er as G4. rewrite G3 in G4.
      intros [= <- _ <-]. cbn. by apply close_new.
Qed.

Lemma accept_await_fds lfd (k : K) res k' : accept_await lfd k = (res, k') -> makes_fd fst k res k'.
Proof.
  unfold accept_await. destruct (sk_accept4 lfd k) as [[[[fd peer] len]|e] k1] eqn:E1.
  { intros [= <- <-]. cbn. by apply accept_ok in E1. }
  apply accept_err in E1. pose proof (wait_fds Reactor.DRead lfd k1) as Hw.
  destruct (wait_ready Reactor.DRead lfd k1) as [o k2]; cbn in Hw. rewrite E1 in Hw.
  assert (forall r kk, match sk_accept4 lfd k2 with
    | (SErr e, k) => (Err (from_errno e), k)
    | (SOk (fd, peer, len), k) => (Ok (fd, Address.from_raw peer len), k) end = (r, kk) -> makes_fd fst k r kk) as Hacc.
  { intros r kk. destruct (sk_accept4 lfd k2) as [[[[fd peer] len]|e'] k3] eqn:E2; intros [= <- <-]; cbn.
    - apply accept_ok in E2. cbn in E2. by rewrite Hw in E2.
    - apply accept_err in E2. congruence. }
  destruct o; [apply Hacc|apply Hacc|by intros [= <- <-]|by intros [= <- <-]].
Qed.

Lemma accept_fds_ok lfd (k : K) res k' : accept lfd k = (res, k') -> makes_fd fst k res k'.
Proof.
  unfold accept. destruct (accept_await lfd k) as [[[fd peer]|e] k1] eqn:E1; apply accept_await_fds in E1 as G1; cbn in G1.
  2:{ by intros [= <- <-]. }
  destruct G1 as [Hn E]. destruct (adopt_fd_fds fd k1) as [G3 G3'].
  destruct (adopt_fd fd k1) as [[fd'|e] k2]; cbn in *; intros [= <- <-]; cbn.
  - rewrite (G3' fd' eq_refl), G3. done.
  - rewrite G3, E. set_solver.
Qed.

(** C25: no socket leaks: [TcpListener::bind], [TcpStream::connect] and
    [TcpListener::accept] either return a new descriptor, the only one added to
    the process, or fail and leave the descriptor table as it was, on every
    error path (socket options, bind, listen, connect, readiness, cancellation,
    non-blocking mode); [close_fd] removes exactly the descriptor and forgets it,
    whatever the reactor or [close] report. *)
Theorem sockets_not_leaked (k : K) :
  (forall addr opts res k', bind_listener_socket addr opts k = (res, k') -> makes_fd (fun fd => fd) k res k') /\
  (forall r addr res r' k', connect r addr k = (res, r', k') -> makes_fd (fun fd => fd) k res k') /\
  (forall lfd res k', accept lfd k = (res, k') -> makes_fd fst k res k') /\
  (forall r fd res r' fd' k', 0 <= fd -> close_fd r fd k = (res, r', fd', k') ->
     open_fds k' = open_fds k ∖ {[fd]} /\ fd' = -1).
Proof.
  split_and!; [intros *; apply bind_fds_ok|intros *; apply connect_fds_ok|intros *; apply accept_fds_ok|].
  intros r fd res r' fd' k' Hfd. unfold close_fd. destruct (Z.ltb_spec fd 0); [lia|].
  assert (forall (fe : option SystemError) (rr : option Reactor.Reactor) (kk : K), open_fds kk = open_fds k ->
    match sk_close fd kk, fe with
    | (_, k), Some e => (Err e, rr, -1, k)
    | (SErr e, k), None => (Err (from_errno e), rr, -1, k)
    | (SOk _, k), None => (Ok tt, rr, -1, k)
    end = (res, r', fd', k') -> open_fds k' = open_fds k ∖ {[fd]} /\ fd' = -1) as Hc.
  { intros fe rr kk Hk. pose proof (close_fds fd kk) as Hx. destruct (sk_close fd kk) as [[] k1]; cbn in Hx; rewrite Hk in Hx;
      destruct fe; intros [= _ _ <- <-]; done. }
  destruct r as [r|]; [|by apply (Hc None None k)].
  destruct (Reactor.remove fd r k) as [[[[]|e] r1] k1] eqn:Er; apply remove_fds in Er;
    [by apply (Hc None (Some r1) k1)|by apply (Hc (Some e) (Some r1) k1)].
Qed.

End Leaks.

(** ** A concrete environment

    One byte per call; the first [sim_patience] calls would block.  Sockets
    count up; every option call succeeds, [listen] fails. *)

Module SimNet.

Record Sim := mkSim { out : list Z; inp : list Z; taken : list Z; file : list Z; sim_patience : nat; opened : gset Z }.

(** Either the call would block or it is made. *)
Definition attempt {A} (s : Sim) (f : SysRet A * Sim) : SysRet A * Sim :=
  match sim_patience s with
  | S p => (SErr EAGAIN, mkSim (out s) (inp s) (taken s) (file s) p (opened s))
  | O => f
  end.

Definition emit (bs : list Z) (s : Sim) : Sim := mkSim (out s ++ bs) (inp s) (taken s) (file s) (sim_patience s) (opened s).

#[export] Instance sim_env : IoEnv Sim := {
  sk_read fd len s :=
    let bs := take (len `min` 1) (inp s) in
    attempt s (SOk bs, mkSim (out s) (drop (length bs) (inp s)) (taken s ++ bs) (file s) (sim_patience s) (opened s));
  sk_write fd data s := let n := (length data `min` 1)%nat in attempt s (SOk n, emit (take n data) s);
  sk_sendfile fd in_fd off count s :=
    let bs := take (count `min` 1) (drop (Z.to_nat off) (file s)) in attempt s (SOk (length bs), emit bs s);
  sk_now s := (0, s);
  wait_ready _ _ s := (WaitReady, s);
  wait_ready_for _ _ _ s := (WaitReady, s);
}.

#[export] Instance sim_stream : StreamView Sim := {
  sent s _ := out s; consumed s _ := taken s; source s _ := file s; patience := sim_patience;
}.

Lemma attempt_err {A} s (a : A) s1 fd e s' : attempt s (SOk a, s1) = (SErr e, s') -> failed fd e s s'.
Proof.
  unfold attempt. destruct (sim_patience s) as [|p] eqn:Ep; [done|]. intros [= <- <-].
  split; [split_and!; cbn; rewrite ?Ep; try done; lia|]. intros _. cbn. rewrite Ep. lia.
Qed.

#[export] Instance sim_laws : StreamLaws Sim.
Proof.
  split.
  - intros fd len s bs s'. cbn. unfold attempt. destruct (sim_patience s) eqn:Ep; [|done]. intros [= <- <-]. cbn.
    rewrite ?Ep, length_take. split_and!; try done; lia.
  - intros fd len s e s' E. exact (attempt_err _ _ _ _ _ _ E).
  - intros fd data s n s'. cbn. unfold attempt. destruct (sim_patience s) eqn:Ep; [|done]. intros [= <- <-]. cbn.
    rewrite ?Ep. split_and!; try done; lia.
  - intros fd data s e s' E. exact (attempt_err _ _ _ _ _ _ E).
  - intros fd in_fd off count s n s'. cbn. unfold attempt. destruct (sim_patience s) eqn:Ep; [|done].
    intros [= <- <-]. cbn. rewrite ?Ep, length_take, length_drop. split_and!; try done; try lia.
    f_equal. apply list_eq. intros j.
    destruct (decide (j < (count `min` 1) `min` (length (file s) - Z.to_nat off))%nat).
    + rewrite !lookup_take_lt by lia. done.
    + rewrite (lookup_take_ge _ ((_ `min` _) `min` _)) by lia.
      destruct (decide (j < count `min` 1)%nat); [|by rewrite lookup_take_ge by lia].
      rewrite lookup_take_lt by lia. apply lookup_ge_None. rewrite length_drop. lia.
  - intros fd in_fd off count s e s' E. exact (attempt_err _ _ _ _ _ _ E).
  - intros fd s t s' [= _ <-]. reflexivity.
  - intros d fd s o s' [= _ <-]. reflexivity.
  - intros d fd t s o s' [= _ <-]. reflexivity.
Defined.

Definition set_opened (o : gset Z) (s : Sim) : Sim := mkSim (out s) (inp s) (taken s) (file s) (sim_patience s) o.

#[export] Instance sim_sockets : SocketKernel Sim := {
  sk_socket _ s := if bool_decide (7 ∈ opened s) then (SErr 24, s) else (SOk 7, set_opened ({[7]} ∪ opened s) s);
  sk_setsockopt _ _ _ _ s := (SOk tt, s);
  sk_getsockopt_error _ s := (SOk 0, s);
  sk_bind _ _ s := (SOk tt, s);
  sk_listen _ _ s := (SErr 98, s);
  sk_connect _ _ s := (SErr EINPROGRESS, s);
  sk_accept4 _ s := (SErr EAGAIN, s);
  sk_getpeername _ s := (SErr EBADF, s);
  sk_getsockname _ s := (SErr EBADF, s);
  sk_shutdown _ _ s := (SOk tt, s);
  sk_getfl _ s := (SOk 0, s);
  sk_setfl _ _ s := (SOk tt, s);
  sk_close fd s := (SOk tt, set_opened (opened s ∖ {[fd]}) s);
}.

#[export] Instance sim_epoll : Reactor.EpollKernel Sim := {
  Reactor.epoll_create1 s := (SOk 3, s);
  Reactor.epoll_ctl _ _ _ _ s := (SOk tt, s);
  Reactor.epoll_wait _ _ _ s := (SOk [], s);
  Reactor.epoll_close _ s := (SOk tt, s);
}.

#[export] Program Instance sim_fds : FdLaws Sim := { open_fds := opened }.
Next Obligation. cbn. intros _ s fd s'. case_bool_decide; [done|]. by intros [= <- <-]. Qed.
Next Obligation. cbn. intros _ s e s'. case_bool_decide; [|done]. by intros [= _ <-]. Qed.
Next Obligation. done. Qed.
Next Obligation. cbn. by intros _ s e s' [= _ <-]. Qed.
Next Obligation. done. Qed.
Next Obligation. done. Qed.
Next Obligation. done. Qed.
Next Obligation. done. Qed.
Next Obligation. done. Qed.
Next Obligation. done. Qed.
Next Obligation. done. Qed.
Next Obligation. done. Qed.
Next Obligation. done. Qed.
Next Obligation. done. Qed.

End SimNet.

Section Witness.
Import SimNet.

Definition wit_net : Sim := mkSim [] [4; 5; 6] [] [1; 2; 3; 4] 2 ∅.

Lemma read_loses_nothing_witness :
  exists k', read_some_with_timeout 5 true 9 8 100 wit_net = Some (Ok [4], k') /\ consumed k' 9 = [4].
Proof.
  destruct (read_loses_nothing 5 true 9 8 100 wit_net) as (r & k' & E & Hr); [cbn; lia|].
  assert (r = Ok [4]) as ->. { vm_compute in E. injection E as <- _. reflexivity. }
  exists k'. split; [exact E|]. destruct Hr as [_ Hr]. exact Hr.
Defined.

Lemma write_all_in_order_witness :
  exists k', write_all_with_timeout 3 5 true 9 [1; 2; 3] 100 wit_net = Some (Ok 3%nat, k') /\ sent k' 9 = [1; 2; 3].
Proof.
  destruct (write_all_in_order 3 5 true 9 [1; 2; 3] 100 wit_net) as (r & k' & n & E & Hn & Hs & Hr); [cbn; lia|cbn; lia|].
  assert (r = Ok 3%nat) as ->. { vm_compute in E. injection E as <- _. reflexivity. }
  exists k'. split; [exact E|]. destruct Hr as [[_ ->]|[e He]]; [exact Hs|discriminate He].
Defined.

Lemma send_file_in_order_witness :
  exists k', send_file_all_with_timeout 2 5 true 9 8 1 2 100 wit_net = Some (Ok 2%nat, k') /\ sent k' 9 = [2; 3].
Proof.
  destruct (send_file_in_order 2 5 true 9 8 1 2 100 wit_net) as (r & k' & n & E & Hn & Hs & Hr); [lia|lia|cbn; lia|].
  assert (r = Ok 2%nat) as ->. { vm_compute in E. injection E as <- _. reflexivity. }
  exists k'. split; [exact E|]. destruct Hr as [(_ & -> & _)|[e He]]; [exact Hs|discriminate He].
Defined.

Lemma sockets_not_leaked_witness :
  exists e k', bind_listener_socket (Address.any 80) default_listen wit_net = (Err e, k') /\ open_fds k' = ∅.
Proof.
  destruct (bind_listener_socket (Address.any 80) default_listen wit_net) as [[fd|e] k'] eqn:E;
    [vm_compute in E; discriminate E|].
  exists e, k'. split; [reflexivity|].
  destruct (sockets_not_leaked wit_net) as [Hb _]. exact (Hb _ _ _ _ E).
Defined.

End Witness.
End NetProps.
