(* ===== verification/Waits.v ===== *)
(** * Waits: the awaiters behind the waits of the socket operations

    [Net.v] writes the socket coroutines over the abstract waits [wait_ready] and
    [wait_ready_for] with their outcomes; [Awaiters.v] has the awaiter objects with
    registration, race and resumption.  Here the second implement the first. *)

From S2P Require Import Prelude Core TimerWheel TimerInv TimerSpec Reactor ReactorProps World Awaiters AwaiterProps Net.

Module Waits.
Import ReactorProps Awaiters AwaiterProps Net.

Section Waits.
Context {K : Type} `{Reactor.EpollKernel K}.

(** Who settled the wait. *)
Definition of_state (v : WaitState) : WaitOutcome :=
  match v with Cancelled => WaitCancelled | TimedOut => WaitTimedOut | Ready | Pending => WaitReady end.

(** An awaiter that was not registered leaves nothing behind. *)
Lemma register_refused d aw h (W W1 : World K) e :
  register_waiter d aw h W = (Err e, W1) ->
  mem W1 = mem W /\ timer (loop W1) = timer (loop W) /\
  forall fd d', waiter (reactor (loop W1)) fd d' = waiter (reactor (loop W)) fd d'.
Proof.
  unfold register_waiter. destruct (Reactor.register _ _ _ _ _) as [[res r] k] eqn:E. intros [= -> <-].
  apply register_frame in E as [_ Hw]. split_and!; [done|done|]. intros fd d'. cbn. by rewrite Hw.
Qed.

(** The registration's outcome depends on the reactor and the kernel only. *)
Lemma register_waiter_refusal d aw h (W : World K) :
  (register_waiter d aw h W).1 =
  match refusal d (aw_fd aw) (reactor (loop W)) (kern W) with Some e => Err e | None => Ok tt end.
Proof.
  unfold register_waiter. rewrite <- (register_refusal d (aw_fd aw) (Reactor.mkPending h (Some (aw_readiness aw)) (Some (aw_state aw)) Ready)).
  by destruct (Reactor.register _ _ _ _ _) as [[res r] k].
Qed.

Lemma register_waiter_err d aw h (W W1 : World K) e :
  register_waiter d aw h W = (Err e, W1) -> refusal d (aw_fd aw) (reactor (loop W)) (kern W) = Some e.
Proof.
  intros E. pose proof (register_waiter_refusal d aw h W) as Hr. rewrite E in Hr. cbn in Hr.
  destruct (refusal _ _ _ _); congruence.
Qed.

(** Other handles may have been taken out of the loop's queue already. *)
Section Beside.
Variable extra : list handle.

Lemma io_refused a aw (W W1 : World K) :
  fresh_with extra a W -> of_awaiter a aw -> io_await_suspend (w_dir a) aw (Some (w_handle a)) W = Some (false, W1) ->
  exists e, refusal (w_dir a) (w_fd a) (reactor (loop W)) (kern W) = Some e /\
    exists W', io_await_resume aw W1 = Some (ready_result (WaitFailed e), W') /\ unreferenced a W'.
Proof.
  intros F (Ef & Es & Er) E. unfold io_await_suspend in E. destruct (register_waiter _ _ _ _) as [[[]|e] W0] eqn:E0.
  { by destruct (emplace_callback _ _ _). }
  injection E as <-. exists e. split; [rewrite <- Ef; by eapply register_waiter_err|]. destruct (register_refused _ _ _ _ _ _ E0) as (Em & Et & Hw).
  unfold io_await_resume. set (W2 := store_readiness aw (Err e) W0). pose proof (reset_uncalled (aw_state aw) W2) as Uc.
  set (W3 := reset_callback (aw_state aw) W2) in *. change (mem W3) with (set_res (aw_readiness aw) (Err e) (mem W0)).
  cbn [set_res ws_cells res_cells]. pose proof (fresh_state _ _ _ F) as Hs. unfold settled_by in Hs. rewrite Em, Es, Hs.
  cbn [mbind option_bind]. rewrite decide_False by done. rewrite lookup_insert_eq. cbn [mbind option_bind]. eexists. split; [done|].
  destruct (fresh_unwatched _ _ _ F) as [U1 U2]. split; [split; cbn|by rewrite <- Es].
  - intros fd d x. rewrite Hw. apply U1.
  - rewrite Et. apply U2.
Qed.

(** Resuming a settled wait is defined and says who settled it. *)
Lemma io_settled a aw (W : World K) v :
  WInv_with extra a W -> w_kind a = KIo -> of_awaiter a aw -> settled_by a (mem W) v -> v <> Pending ->
  v <> TimedOut /\ exists W', io_await_resume aw W = Some (ready_result (of_state v), W') /\ unreferenced a W'.
Proof.
  intros I Hk (_ & Es & Er) Hv Hp. assert (v <> TimedOut) as Ht.
  { intros ->. apply (inv_timed _ _ _ _ _ I) in Hv. congruence. }
  split; [done|]. destruct (io_await_resume aw W) as [[res W']|] eqn:E.
  - destruct (io_resume_spec extra a aw W res W' v I Hk Es Er Hv Hp E) as (U & _ & ->). exists W'. split; [|done].
    unfold outcome. rewrite Hk. by destruct v.
  - exfalso. unfold io_await_resume in E. cbn [reset_callback mem set_stops] in E. unfold settled_by in Hv. rewrite Es, Hv in E.
    cbn [mbind option_bind] in E. destruct v; try done. rewrite Er, (inv_result _ _ _ _ _ I) in E; [done|by unfold w_io; rewrite Hk|done].
Qed.

Lemma timed_settled a aw (W : World K) v :
  WInv_with extra a W -> w_kind a = KTimed -> of_awaiter a aw -> settled_by a (mem W) v -> v <> Pending ->
  exists W', timed_await_resume (w_dir a) (w_timer a) aw W = Some (timed_result (w_dir a) (of_state v), W') /\ unreferenced a W'.
Proof.
  intros I Hk (Ef & Es & Er) Hv Hp. destruct (timed_await_resume _ _ aw W) as [[res W']|] eqn:E.
  - destruct (timed_resume_spec extra a aw W res W' v I Hk Ef Es Er Hv Hp E) as (U & _ & ->). exists W'. split; [|done].
    unfold outcome. rewrite Hk. by destruct v.
  - exfalso. unfold timed_await_resume in E. cbn [reset_callback mem set_stops] in E. unfold settled_by in Hv. rewrite Es, Hv in E.
    cbn [mbind option_bind] in E. destruct v; try done. cbn in E.
    rewrite Er, (inv_result _ _ _ _ _ I) in E; [done|by unfold w_io; rewrite Hk|done].
Qed.

(** A timed wait that does not suspend: no time is left, or it was refused and its
    timer is taken back. *)
Lemma timed_refused a aw timeout (W W1 : World K) :
  fresh_with extra a W -> of_awaiter a aw ->
  timed_await_suspend (w_dir a) timeout aw (Some (w_handle a)) W = Some (false, w_timer a, W1) ->
  exists o W', timed_await_resume (w_dir a) (w_timer a) aw W1 = Some (timed_result (w_dir a) o, W') /\ unreferenced a W' /\
    if timeout <=? 0 then o = WaitTimedOut
    else exists e, refusal (w_dir a) (w_fd a) (reactor (loop W)) (kern W) = Some e /\ o = WaitFailed e.
Proof.
  intros F (Ef & Es & Er) E. pose proof (fresh_state _ _ _ F) as Hs. destruct (fresh_unwatched _ _ _ F) as [U1 U2].
  destruct (fresh_wheel _ _ _ F) as [Hwf Hroom]. unfold settled_by in Hs. unfold timed_await_suspend in E.
  destruct (timeout <=? 0) eqn:Et.
  - injection E as _ <-. exists WaitTimedOut. unfold timed_await_resume.
    match goal with |- context [reset_callback ?p ?w] => pose proof (reset_uncalled p w) as Uc; set (V := reset_callback p w) in * end.
    change (mem V) with (set_ws (aw_state aw) TimedOut (mem W)). cbn [set_ws ws_cells]. rewrite lookup_insert_eq. cbn [mbind option_bind].
    rewrite decide_False, decide_True by done. eexists. split; [done|]. split; [|done].
    split; [|rewrite <- Es; by apply uncalled_deregister].
    destruct (reactor_deregister_spec (aw_fd aw) (Reactor.dir_event (w_dir a)) V) as (_ & Etm & _ & _ & _ & Hw).
    split; [intros fd d x; rewrite Hw; case_decide; [done|apply U1]|rewrite Etm; apply U2].
  - destruct (Timer.schedule _ _ _ _ _) as [[id t]|] eqn:E1; [|done]. cbn [mbind option_bind] in E.
    destruct (register_waiter _ _ _ _) as [[[]|e] W0] eqn:E0; [by destruct (emplace_callback _ _ _)|].
    injection E as -> <-. destruct (register_refused _ _ _ _ _ _ E0) as (Em & Etm & Hw). cbn in Em, Etm, Hw.
    unfold Timer.schedule in E1. destruct (schedule_lookup _ _ _ _ _ _ _ Hwf Hroom E1) as [_ Hl].
    set (V := timer_cancel (w_timer a) W0). destruct (timer_cancel_spec (w_timer a) W0) as (Vm & Vr & _ & _ & _ & Vl). fold V in Vm, Vr, Vl.
    apply register_waiter_err in E0 as Hre. cbn in Hre. rewrite Ef in Hre.
    exists (WaitFailed e). unfold timed_await_resume.
    match goal with |- context [reset_callback ?p ?w] => pose proof (reset_uncalled p w) as Uc; set (V1 := reset_callback p w) in * end.
    assert (mem V1 = set_res (aw_readiness aw) (Err e) (mem W)) as Em1 by (cbn; by rewrite Em).
    destruct (timer_cancel_spec (w_timer a) V1) as (Xm & Xr & _ & _ & _ & Xl).
    rewrite Em1, Es. cbn [set_res ws_cells]. rewrite Hs. cbn [mbind option_bind]. rewrite !decide_False by done.
    rewrite Xm, Em1. cbn [set_res res_cells]. rewrite lookup_insert_eq. cbn [mbind option_bind]. eexists. split; [done|]. split; [|eauto].
    split; [|by rewrite <- Es]. split; [intros fd d x; rewrite Xr; change (reactor (loop V1)) with (reactor (loop V)); rewrite Vr, Hw; apply U1|].
    intros i x. rewrite Xl. change (timer (loop V1)) with (timer (loop V)). case_decide; [done|]. rewrite Vl, decide_False, Etm, Hl, decide_False by done.
    apply U2.
Qed.

Lemma sleep_settled a aw (W : World K) v :
  WInv_with extra a W -> w_kind a = KSleep -> of_awaiter a aw -> settled_by a (mem W) v -> v <> Pending ->
  exists W', sleep_await_resume aw W = Some (outcome a v, W') /\ unreferenced a W'.
Proof.
  intros I Hk (_ & Es & _) Hv Hp. destruct (sleep_await_resume aw W) as [[res W']|] eqn:E.
  - destruct (sleep_resume_spec extra a aw W res W' v I Hk Es Hv Hp E) as (U & _ & ->). by exists W'.
  - exfalso. unfold sleep_await_resume in E. cbn [reset_callback mem set_stops] in E. unfold settled_by in Hv. rewrite Es, Hv in E.
    cbn [mbind option_bind] in E. by case_decide.
Qed.

End Beside.


End Waits.

(** ** Witness: a read with a timeout, as it is constructed

    Data arrives before the timeout passes; and a read with no time left. *)

Section Witness.
Import SimEpoll.

Definition bare_world : World Sim :=
  mkWorld (mkLoop (Reactor.mkReactor 3 [] []) (Timer.make_wheel 0) None [] [] false 0 4 [])
          (mkMem ∅ ∅ {[ 1%nat := false ]}) ∅ ∅ true (mkSim ∅ [(5, Reactor.EPOLLIN)]).

Definition wit_made : Awaiter * World Sim := make_timed 5 10 11 bare_world.

Lemma wit_made_fresh : fresh wit_wait wit_made.2.
Proof.
  split; [|done..| |done].
  - split.
    + intros fd d x Hx. unfold waiter in Hx. cbn in Hx. destruct (fd <? 0); [done|]. by destruct (Z.to_nat fd).
    + intros id e He. unfold Timer.lookup in He. cbn in He. by destruct (Z.to_nat (Timer.id_index id)).
  - split; [|done]. destruct (TimerSpec.Rel_make_wheel 0) as [[]]. done.
Qed.

Definition wit_waiting : World Sim :=
  match timed_await_suspend Reactor.DRead 5000000 wit_made.1 (Some 1%nat) wit_made.2 with Some (_, _, W) => W | None => bare_world end.

Definition wit_read : World Sim :=
  match Reactor.poll 0 (reactor (loop wit_waiting)) (mem wit_waiting) (kern wit_waiting) with
  | Some (_, r, m, k) => set_kern k (set_mem m (set_loop (set_reactor r (loop wit_waiting)) wit_waiting))
  | None => bare_world
  end.

(** Another coroutine reads the descriptor already. *)
Definition busy_made : World Sim :=
  set_loop (set_reactor (Reactor.mkReactor 3 (replicate 5 Reactor.empty_fd ++
    [Reactor.mkFd (Some (Reactor.mkPending (Some 2%nat) None (Some 20%nat) Ready)) None]) []) (loop wit_made.2)) wit_made.2.

Lemma busy_made_fresh : fresh wit_wait busy_made.
Proof.
  destruct wit_made_fresh as [[_ Ut] H2 H3 H4 H5 H6]. split; [split; [|exact Ut]|done..].
  intros fd d x Hx Ho. unfold waiter in Hx. cbn in Hx. destruct (fd <? 0); [done|].
  destruct (Z.to_nat fd) as [|[|[|[|[|[|n]]]]]]; cbn in Hx; try (by destruct d).
  destruct d; [|done]. injection Hx as <-. destruct Ho as [Ho|[Ho|Ho]]; by vm_compute in Ho.
Qed.


End Witness.
End Waits.
