(* ===== verification/Combinators.v ===== *)
(** * Combinators: [async/combinators.hpp]

    The pipe operators and [retry] in direct style over a state [S] (a task is
    a computation that changes the state and gives a result), and the races
    [when_all], [when_any] and [timeout] as their shared state with the steps
    of the racers and of the awaiting coroutine. *)

From S2P Require Import Prelude Core.

Module Combinators.

(** ** Moving

    [moved v] is what an object holding [v] holds after it has been moved from:
    trivially copyable types keep their value, strings become empty. *)

Class Movable (T : Type) := moved : T -> T.

#[global] Instance movable_Z : Movable Z := fun v => v.
#[global] Instance movable_unit : Movable unit := fun v => v.
#[global] Instance movable_string : Movable string := fun _ => "".
#[global] Instance movable_list {A} : Movable (list A) := fun _ => [].
#[global] Instance movable_error : Movable SystemError := fun e => mkError (code e) (Lit "").

(** [std::expected] moves the alternative it holds and keeps which one it is. *)
#[global] Instance movable_result {T} `{Movable T} : Movable (Result T) :=
  fun r => match r with Ok v => Ok (moved v) | Err e => Err (moved e) end.

Definition make_cancelled_error : SystemError := make_error ECANCELED "task cancelled".
Definition make_timed_out_error : SystemError := make_error ETIMEDOUT "operation timed out".

(** ** Pipes *)

Section Pipes.
Context {S : Type}.

(** [Task<A>]: running it may be undefined ([None]). *)
Definition Task (A : Type) : Type := S -> option (A * S).

(** [co_await] *)
Definition co_await {A B} (t : Task A) (k : A -> Task B) : Task B := fun s => r ← t s; k r.1 r.2.
Definition co_return {A} (a : A) : Task A := fun s => Some (a, s).

Definition and_then {T U} (task : Task (Result T)) (f : T -> Task (Result U)) : Task (Result U) :=
  co_await task (fun result =>
    match result with
    | Err e => co_return (Err e)
    | Ok v => f v
    end).

Definition map {T U} (task : Task (Result T)) (f : T -> U) : Task (Result U) :=
  co_await task (fun result =>
    match result with
    | Err e => co_return (Err e)
    | Ok v => co_return (Ok (f v))
    end).

Definition map_err {T} (task : Task (Result T)) (f : SystemError -> SystemError) : Task (Result T) :=
  co_await task (fun result =>
    match result with
    | Err e => co_return (Err (f e))
    | Ok v => co_return (Ok v)
    end).

Definition or_else {T} (task : Task (Result T)) (f : SystemError -> Task (Result T)) : Task (Result T) :=
  co_await task (fun result =>
    match result with
    | Err e => f e
    | Ok v => co_return (Ok v)
    end).

(** The side effects of [inspect] act on the state. *)
Definition inspect {T} (task : Task (Result T)) (f : T -> S -> S) : Task (Result T) :=
  co_await task (fun result s =>
    match result with
    | Ok v => Some (result, f v s)
    | Err _ => Some (result, s)
    end).

Definition inspect_err {T} (task : Task (Result T)) (f : SystemError -> S -> S) : Task (Result T) :=
  co_await task (fun result s =>
    match result with
    | Ok _ => Some (result, s)
    | Err e => Some (result, f e s)
    end).

(** [now]: [Clock::now()]. *)
Definition with_deadline_check {T} (now : S -> Z) (task : Task (Result T)) (timeout : Z) : Task (Result T) := fun s =>
  let deadline := now s + timeout in
  co_await task (fun result s =>
    if deadline <? now s then Some (Err make_timed_out_error, s) else Some (result, s)) s.

(** ** Retrying

    [todo] counts the attempts left, [attempt + 1 >= max_attempts] being
    [todo = 1]; [sleep] is [co_await sleep_for], whose result is dropped. *)

Variable sleep : Z -> S -> option S.
Variable g_timer : bool.

Fixpoint retry_loop {T} (factory : Task (Result T)) (todo : nat) (delay_between : Z) : Task (Result T) := fun s =>
  match todo with
  | O => Some (Err make_cancelled_error, s)
  | Datatypes.S todo =>
    r ← factory s;
    let '(result, s) := r in
    if is_ok result then Some (result, s)
    else
      match todo with
      | O => Some (result, s)
      | _ =>
        s ← (if (0 <? delay_between) && g_timer then sleep delay_between s else Some s);
        retry_loop factory todo delay_between s
      end
  end.

Definition retry {T} (factory : Task (Result T)) (max_attempts : Z) (delay_between : Z) : Task (Result T) :=
  retry_loop factory (Z.to_nat max_attempts) delay_between.

End Pipes.
Arguments Task : clear implicits.

(** ** Races

    The shared states; [waiter] is the awaiting coroutine once it suspended. *)

Section Races.
Context {T : Type} `{Movable T}.

Record WhenAllState := mkAll { all_remaining : Z; all_results : list (Result T); all_waiter : handle }.

Definition when_all_init (n : nat) : WhenAllState := mkAll (Z.of_nat n) (replicate n (Err make_cancelled_error)) None.

(** [when_all_racer] after its task gave [r]; [true] when it notifies the
    waiter.  The index is in range by construction ([None] otherwise). *)
Definition when_all_finish (idx : nat) (r : Result T) (s : WhenAllState) : option (WhenAllState * bool) :=
  _ ← all_results s !! idx;
  let remaining := (all_remaining s -u[64] 1)%rain in
  Some (mkAll remaining (<[idx := r]> (all_results s)) (all_waiter s),
        (remaining =? 0) && has_value (all_waiter s)).

(** [co_await WhenAllAwaiter]: [true] when the coroutine stays suspended. *)
Definition when_all_await (h : handle) (s : WhenAllState) : WhenAllState * bool :=
  if all_remaining s =? 0 then (s, false)
  else (mkAll (all_remaining s) (all_results s) h, negb (all_remaining s =? 0)).

Record WhenAnyState := mkAny {
  any_resolved : bool; any_remaining : Z; any_result : Result T; any_waiter : handle; any_sources : list nat
}.

Definition when_any_init (sources : list nat) : WhenAnyState :=
  mkAny false (Z.of_nat (length sources)) (Err make_cancelled_error) None sources.

(** [when_any] up to its [co_await]: no task, no race. *)
Definition when_any_start (sources : list nat) : Result T + WhenAnyState :=
  match sources with
  | [] => inl (Err make_cancelled_error)
  | _ => inr (when_any_init sources)
  end.

(** [when_any_racer] after its task gave [r]: the stop sources it requests and
    whether it notifies the waiter. *)
Definition when_any_finish (r : Result T) (s : WhenAnyState) : WhenAnyState * list nat * bool :=
  let remaining := (any_remaining s -u[64] 1)%rain in
  let last := remaining =? 0 in
  if negb (any_resolved s) && (is_ok r || last)
  then (mkAny true remaining r (any_waiter s) (any_sources s), any_sources s, has_value (any_waiter s))
  else (mkAny (any_resolved s) remaining (any_result s) (any_waiter s) (any_sources s), [], false).

Definition when_any_await (h : handle) (s : WhenAnyState) : WhenAnyState * bool :=
  if any_resolved s then (s, false)
  else (mkAny (any_resolved s) (any_remaining s) (any_result s) h (any_sources s), negb (any_resolved s)).

(** [return std::move(state_->result)]: the value and the state left behind. *)
Definition when_any_take (s : WhenAnyState) : Result T * WhenAnyState :=
  (any_result s, mkAny (any_resolved s) (any_remaining s) (moved (any_result s)) (any_waiter s) (any_sources s)).

(** The end of [when_any]: the awaiter's [await_resume], whose value is
    dropped, then [co_return std::move(state->result)]. *)
Definition when_any_return (s : WhenAnyState) : Result T :=
  let '(_, s) := when_any_take s in (when_any_take s).1.

Record TimeoutState := mkTimeout { to_resolved : bool; to_result : Result T; to_waiter : handle }.

Definition timeout_init : TimeoutState := mkTimeout false (Err make_cancelled_error) None.

(** [timeout_task_racer] after its task gave [r]: whether it stops the sleep of
    the other racer, and whether it notifies the waiter. *)
Definition timeout_task_finish (r : Result T) (s : TimeoutState) : TimeoutState * bool * bool :=
  if negb (to_resolved s)
  then (mkTimeout true r (to_waiter s), true, has_value (to_waiter s))
  else (s, false, false).

(** [timeout_timer_racer] after its sleep: a cancelled sleep retires it,
    otherwise it stops the task and notifies the waiter. *)
Definition timeout_timer_finish (slept : Result unit) (s : TimeoutState) : TimeoutState * bool * bool :=
  match slept with
  | Err _ => (s, false, false)
  | Ok _ =>
    if negb (to_resolved s)
    then (mkTimeout true (Err make_timed_out_error) (to_waiter s), true, has_value (to_waiter s))
    else (s, false, false)
  end.

Definition timeout_await (h : handle) (s : TimeoutState) : TimeoutState * bool :=
  if to_resolved s then (s, false) else (mkTimeout (to_resolved s) (to_result s) h, negb (to_resolved s)).

Definition timeout_take (s : TimeoutState) : Result T * TimeoutState :=
  (to_result s, mkTimeout (to_resolved s) (moved (to_result s)) (to_waiter s)).

Definition timeout_return (s : TimeoutState) : Result T :=
  let '(_, s) := timeout_take s in (timeout_take s).1.

End Races.
Arguments WhenAllState : clear implicits.
Arguments WhenAnyState : clear implicits.
Arguments TimeoutState : clear implicits.
End Combinators.
