(* ===== verification/CombinatorProps.v ===== *)
(** * CombinatorProps: laws of the pipes, outcomes of the races *)

From S2P Require Import Prelude Core Combinators.

Module CombinatorProps.
Import Combinators.

(** ** Pipes *)

Section Pipes.
Context {S : Type}.
Implicit Types s : S.

(** Tasks are equal when they run alike. *)
Definition same {A} (t1 t2 : Task S A) : Prop := forall s, t1 s = t2 s.

#[export] Instance same_equiv {A} : Equivalence (@same A).
Proof. split; [by intros t s|by intros t1 t2 E s|by intros t1 t2 t3 E1 E2 s; rewrite E1, E2]. Qed.

(** Awaiting is a congruence. *)
#[export] Instance co_await_proper {A B} : Proper (same ==> pointwise_relation _ same ==> same) (@co_await S A B).
Proof. intros t1 t2 Et k1 k2 Ek s. unfold co_await. rewrite Et. destruct (t2 s) as [[]|]; [apply Ek|done]. Qed.

Lemma co_await_assoc {A B C} (t : Task S A) (f : A -> Task S B) (g : B -> Task S C) :
  same (co_await (co_await t f) g) (co_await t (fun a => co_await (f a) g)).
Proof. intros s. unfold co_await. by destruct (t s) as [[]|]. Qed.

Lemma co_await_ext {A B} (t : Task S A) (f g : A -> Task S B) :
  (forall a, same (f a) (g a)) -> same (co_await t f) (co_await t g).
Proof. intros E. by apply co_await_proper. Qed.

Lemma co_await_return {A} (t : Task S A) : same (co_await t co_return) t.
Proof. intros s. unfold co_await. by destruct (t s) as [[]|]. Qed.

(** The pipe operators obey the laws their use as a pipeline needs:
    [and_then] is associative with [Ok] as unit, [map] is [and_then] after [Ok]
    and fuses, [or_else] is associative with [Err] as unit and [map_err] its
    mapping, [and_then] and [map] pass errors on and [or_else] and [map_err]
    values, and an [inspect] without effect changes nothing. *)
Theorem pipe_laws {T U V : Type} (task : Task S (Result T)) (f : T -> Task S (Result U)) (g : U -> Task S (Result V))
    (p : T -> U) (q : U -> V) (h1 h2 : SystemError -> Task S (Result T)) (m : SystemError -> SystemError) v e :
  same (and_then (and_then task f) g) (and_then task (fun x => and_then (f x) g)) /\
  same (and_then (co_return (Ok v)) f) (f v) /\
  same (and_then task (fun x => co_return (Ok x))) task /\
  same (map task p) (and_then task (fun x => co_return (Ok (p x)))) /\
  same (map (map task p) q) (map task (fun x => q (p x))) /\
  same (or_else (or_else task h1) h2) (or_else task (fun x => or_else (h1 x) h2)) /\
  same (or_else (co_return (Err e)) h1) (h1 e) /\
  same (map_err task m) (or_else task (fun x => co_return (Err (m x)))) /\
  same (and_then (co_return (Err e)) f) (co_return (Err e)) /\
  same (or_else (co_return (Ok v)) h1) (co_return (Ok v)) /\
  same (inspect task (fun _ s => s)) task /\ same (inspect_err task (fun _ s => s)) task.
Proof.
  unfold and_then, map, or_else, map_err, inspect, inspect_err.
  assert (forall k : Result T -> Task S (Result T), (forall r, same (k r) (co_return r)) -> same (co_await task k) task) as Hid.
  { intros k Hk. rewrite <- (co_await_return task) at 2. by apply co_await_ext. }
  split_and!; rewrite ?co_await_assoc; try done.
  - by apply co_await_ext; intros [].
  - apply Hid. by intros [].
  - by apply co_await_ext; intros [].
  - by apply co_await_ext; intros [].
  - apply Hid. by intros [].
  - apply Hid. by intros [].
Qed.

(** ** Retrying *)

Context (sleep : Z -> S -> option S) (g_timer : bool).

(** [n] failed attempts, each followed by the pause, lead from [s] to [s']. *)
Inductive failed_attempts {T} (factory : Task S (Result T)) (delay : Z) : nat -> S -> S -> Prop :=
| no_attempts s : failed_attempts factory delay 0 s s
| one_more n s s1 s2 s' e :
    factory s = Some (Err e, s1) ->
    (if (0 <? delay) && g_timer then sleep delay s1 else Some s1) = Some s2 ->
    failed_attempts factory delay n s2 s' ->
    failed_attempts factory delay (Datatypes.S n) s s'.

(** [retry] with at least one attempt runs the factory until it succeeds,
    at most [max_attempts] times, pausing between attempts only, and returns the
    first success or, when the attempts are used up, the last error; it always
    returns when the attempts and pauses do. *)
Theorem retry_first_success {T} (factory : Task S (Result T)) max_attempts delay s :
  0 < max_attempts ->
  (forall s, is_Some (factory s)) -> (forall d s, is_Some (sleep d s)) ->
  exists r s' n s1, retry sleep g_timer factory max_attempts delay s = Some (r, s') /\
    Z.of_nat n < max_attempts /\ failed_attempts factory delay n s s1 /\ factory s1 = Some (r, s') /\
    (is_ok r = true \/ Z.of_nat n = max_attempts - 1).
Proof.
  intros Hmax Hf Hs. unfold retry.
  assert (exists todo, Z.to_nat max_attempts = Datatypes.S todo /\ max_attempts = Z.of_nat todo + 1) as (todo & -> & ->).
  { exists (Z.to_nat (max_attempts - 1)). lia. }
  clear Hmax. revert s. induction todo as [|todo IH]; intros s.
  - cbn. destruct (Hf s) as [[r s'] E]. rewrite E. cbn. exists r, s', O, s.
    split_and!; [by destruct (is_ok r)|lia|constructor|done|right; lia].
  - cbn [retry_loop]. destruct (Hf s) as [[r s1] E]. rewrite E. cbn [mbind option_bind].
    destruct (is_ok r) eqn:Er.
    { exists r, s1, O, s. split_and!; [done|lia|constructor|done|by left]. }
    destruct r as [v|e]; [done|].
    assert (exists s2, (if (0 <? delay) && g_timer then sleep delay s1 else Some s1) = Some s2) as [s2 E2].
    { destruct (_ && _); [apply Hs|eauto]. }
    rewrite E2. cbn [mbind option_bind]. destruct (IH s2) as (r & s' & n & s3 & E3 & Hn & Hfa & Hr & Hok).
    exists r, s', (Datatypes.S n), s3. split_and!; [exact E3|lia|by econstructor|done|].
    destruct Hok as [Hok|Hok]; [by left|right; lia].
Qed.

End Pipes.

(** A factory that counts its attempts and succeeds at the third. *)
Lemma retry_first_success_witness :
  exists r s' n s1,
    retry (fun _ (s : Z) => Some s) true (fun s => Some (if 2 <=? s then Ok s else Err make_cancelled_error, s + 1)) 5 10 0
      = Some (r, s') /\ Z.of_nat n < 5 /\
    failed_attempts (fun _ (s : Z) => Some s) true
      (fun s => Some (if 2 <=? s then Ok s else Err make_cancelled_error, s + 1)) 10 n 0 s1 /\
    r = Ok 2.
Proof.
  destruct (retry_first_success (fun _ (s : Z) => Some s) true
    (fun s => Some (if 2 <=? s then Ok s else Err make_cancelled_error, s + 1)) 5 10 0)
    as (r & s' & n & s1 & E & Hn & Hf & _ & _); [lia|eauto|eauto|].
  exists r, s', n, s1. split; [exact E|]. split; [exact Hn|]. split; [exact Hf|].
  vm_compute in E. injection E as <- _. reflexivity.
Defined.

(** ** Races *)

Section Races.
Context {T : Type} `{Movable T}.

(** *** [when_any] *)

(** The first success in order of completion, or the last result. *)
Fixpoint any_outcome (rs : list (Result T)) : Result T :=
  match rs with
  | [] => Err make_cancelled_error
  | [r] => r
  | r :: rs => if is_ok r then r else any_outcome rs
  end.

Lemma any_outcome_snoc rs r : any_outcome (rs ++ [r]) = if existsb is_ok rs then any_outcome rs else r.
Proof.
  induction rs as [|r0 rs IH]; [done|]. cbn [app existsb].
  assert (any_outcome (r0 :: rs ++ [r]) = if is_ok r0 then r0 else any_outcome (rs ++ [r])) as E.
  { cbn. by destruct (rs ++ [r]) eqn:E; [destruct rs|]. }
  rewrite E, IH. destruct (is_ok r0) eqn:E0; cbn; [by destruct rs; cbn; rewrite ?E0|].
  destruct (existsb is_ok rs) eqn:Ee; [|done]. by destruct rs; cbn; rewrite ?E0.
Qed.

(** What a sequence of completions does: final state, stop sources requested,
    notifications of the waiter. *)
Fixpoint any_run (rs : list (Result T)) (s : WhenAnyState T) : WhenAnyState T * list nat * nat :=
  match rs with
  | [] => (s, [], O)
  | r :: rs =>
    let '(s, stopped, note) := when_any_finish r s in
    let '(s, stopped', n) := any_run rs s in
    (s, stopped ++ stopped', ((if note then 1 else 0) + n)%nat)
  end.

(** Every one of the tasks has completed, and there is one. *)
Definition all_done (sources : list nat) (done : list (Result T)) : bool :=
  (0 <? Z.of_nat (length done)) && (Z.of_nat (length done) =? Z.of_nat (length sources)).

Lemma all_done_iff sources done :
  all_done sources done = true <-> (0 < length done)%nat /\ length done = length sources.
Proof. unfold all_done. rewrite andb_true_iff, Z.ltb_lt, Z.eqb_eq. lia. Qed.

(** The state after the completions [done], out of [length sources]. *)
Definition any_inv (sources : list nat) (done : list (Result T)) (s : WhenAnyState T) : Prop :=
  any_sources s = sources /\
  any_remaining s = Z.of_nat (length sources) - Z.of_nat (length done) /\
  any_resolved s = existsb is_ok done || all_done sources done /\
  (any_resolved s = true -> any_result s = any_outcome done).

Lemma any_run_inv sources rs : forall done s,
  Z.of_nat (length sources) < 2 ^ 64 -> (length done + length rs <= length sources)%nat -> any_inv sources done s ->
  let '(s', stopped, n) := any_run rs s in
  any_inv sources (done ++ rs) s' /\ any_waiter s' = any_waiter s /\
  (if any_resolved s then stopped = [] /\ n = O
   else if any_resolved s' then stopped = sources /\ n = (if has_value (any_waiter s) then 1 else 0)%nat
   else stopped = [] /\ n = O).
Proof.
  induction rs as [|r rs IH]; intros done s Hn Hl I; cbn [any_run].
  { rewrite app_nil_r. split; [done|]. split; [done|]. by destruct (any_resolved s). }
  cbn [length] in Hl. pose proof I as (Es & Er & Ed & Eo).
  assert (any_inv sources (done ++ [r]) (when_any_finish r s).1.1 /\
    any_waiter (when_any_finish r s).1.1 = any_waiter s /\
    (when_any_finish r s).1.2 = (if negb (any_resolved s) && any_resolved (when_any_finish r s).1.1 then sources else []) /\
    (when_any_finish r s).2 = negb (any_resolved s) && any_resolved (when_any_finish r s).1.1 && has_value (any_waiter s))
    as Hstep.
  { unfold when_any_finish. rewrite Er.
    assert (u64 (Z.of_nat (length sources) - Z.of_nat (length done) - 1) =
      Z.of_nat (length sources) - Z.of_nat (length (done ++ [r]))) as Ew.
    { rewrite length_app. cbn [length]. autorewrite with rain. lia. }
    rewrite Ew.
    assert ((Z.of_nat (length sources) - Z.of_nat (length (done ++ [r])) =? 0) =
      all_done sources (done ++ [r])) as El.
    { unfold all_done. rewrite length_app. cbn [length]. lia. }
    rewrite El. unfold any_inv. rewrite existsb_app, any_outcome_snoc. cbn [existsb]. rewrite orb_false_r.
    destruct (any_resolved s) eqn:Ers; cbn [negb andb].
    - cbn. split_and!; try done.
      + symmetry in Ed. apply orb_true_iff in Ed as [Hx|Hb%all_done_iff]; [by rewrite Hx|]. lia.
      + intros _. rewrite (Eo eq_refl). destruct (existsb is_ok done) eqn:Ee; [done|].
        cbn in Ed. symmetry in Ed. apply all_done_iff in Ed. lia.
    - symmetry in Ed. apply orb_false_iff in Ed as [Ed1 Ed2]. rewrite Ed1. cbn [orb].
      destruct (is_ok r) eqn:Eok; cbn; [done|].
      destruct (all_done sources (done ++ [r])) eqn:Eb; cbn; split_and!; done. }
  destruct (when_any_finish r s) as [[s1 st1] note] eqn:Ef. cbn [fst snd] in Hstep.
  destruct Hstep as (I1 & Ew1 & Est & Enote).
  specialize (IH (done ++ [r]) s1 Hn ltac:(rewrite length_app; cbn; lia) I1).
  destruct (any_run rs s1) as [[s2 st2] n2]. destruct IH as (I2 & Ew2 & Hout). rewrite <- app_assoc in I2.
  split; [done|]. split; [congruence|]. rewrite Ew1 in Hout.
  destruct (any_resolved s) eqn:Ers; cbn [negb andb] in Est, Enote.
  - assert (any_resolved s1 = true) as E1.
    { unfold when_any_finish in Ef. rewrite Ers in Ef. cbn in Ef. by injection Ef as <- <- <-. }
    rewrite E1 in Hout. destruct Hout as [-> ->]. subst. done.
  - destruct (any_resolved s1) eqn:E1; cbn in Est, Enote.
    + assert (any_resolved s2 = true) as E2.
      { destruct I1 as (_ & _ & Ed1 & _). destruct I2 as (_ & _ & Ed2 & _). rewrite Ed2.
        rewrite E1 in Ed1. symmetry in Ed1. apply orb_true_iff in Ed1 as [Hx|Hb%all_done_iff].
        - rewrite app_assoc, existsb_app, Hx. done.
        - rewrite length_app in Hb. cbn in Hb. destruct rs as [|x rs]; [|cbn in Hl; lia].
          rewrite orb_true_iff. right. apply all_done_iff. rewrite length_app. cbn. lia. }
      rewrite E2. destruct Hout as [-> ->]. subst. rewrite app_nil_r. split; [done|]. by destruct (has_value _).
    + destruct (any_resolved s2); destruct Hout as [-> ->]; subst; done.
Qed.

(** C28: [when_any] resolves with the first success in order of completion, or
    with the last error when every task fails; it then requests every racer's
    stop source once, and wakes the awaiting coroutine exactly once if that
    suspended before the race was decided and not at all if it did not need to
    suspend, whenever the racers finish. *)
Theorem when_any_first_success sources before after h :
  (length before + length after)%nat = length sources -> (0 < length sources)%nat ->
  Z.of_nat (length sources) < 2 ^ 64 ->
  let '(s1, stopped1, n1) := any_run before (when_any_init sources) in
  let '(s2, suspended) := when_any_await (Some h) s1 in
  let '(s3, stopped3, n3) := any_run after s2 in
  any_resolved s3 = true /\ any_result s3 = any_outcome (before ++ after) /\
  stopped1 ++ stopped3 = sources /\ (n1 + n3)%nat = (if suspended then 1 else 0)%nat.
Proof.
  intros Hlen Hpos Hmax.
  assert (any_inv sources [] (when_any_init sources)) as I0.
  { split_and!; [done|cbn; lia|done|done]. }
  pose proof (any_run_inv sources before [] (when_any_init sources) Hmax ltac:(cbn; lia) I0) as R1.
  destruct (any_run before (when_any_init sources)) as [[s1 st1] n1]. destruct R1 as (I1 & W1 & O1).
  cbn [app any_resolved when_any_init any_waiter has_value] in I1, W1, O1. unfold when_any_await.
  destruct (any_resolved s1) eqn:E1.
  - pose proof (any_run_inv sources after before s1 Hmax ltac:(lia) I1) as R2.
    destruct (any_run after s1) as [[s3 st3] n3]. destruct R2 as (I3 & _ & O3). rewrite E1 in O3.
    destruct O1 as [-> ->], O3 as [-> ->]. destruct I3 as (_ & _ & E3 & Er3).
    assert (any_resolved s3 = true) as E3'.
    { rewrite E3, orb_true_iff. right. apply all_done_iff. rewrite length_app. lia. }
    split_and!; [done|by apply Er3|by rewrite app_nil_r|done].
  - set (s2 := mkAny _ _ _ _ _). assert (any_inv sources before s2) as I2.
    { destruct I1 as (? & ? & ? & ?). split_and!; try done. cbn. congruence. }
    pose proof (any_run_inv sources after before s2 Hmax ltac:(lia) I2) as R2.
    destruct (any_run after s2) as [[s3 st3] n3]. destruct R2 as (I3 & _ & O3). cbn [any_resolved any_waiter s2 has_value] in O3.
    destruct I3 as (_ & _ & E3 & Er3).
    assert (any_resolved s3 = true) as E3'.
    { rewrite E3, orb_true_iff. right. apply all_done_iff. rewrite length_app. lia. }
    rewrite E3' in O3. destruct O1 as [-> ->], O3 as [-> ->]. split_and!; [done|by apply Er3|done|done].
Qed.

(** ** [when_all]: completions are pairs of an index and a result *)

Fixpoint all_run (cs : list (nat * Result T)) (s : WhenAllState T) : option (WhenAllState T * nat) :=
  match cs with
  | [] => Some (s, O)
  | (idx, r) :: cs =>
    '(s, note) ← when_all_finish idx r s;
    '(s, k) ← all_run cs s;
    Some (s, ((if note : bool then 1 else 0) + k)%nat)
  end.

Definition all_inv (n : nat) (done : list (nat * Result T)) (s : WhenAllState T) : Prop :=
  all_remaining s = Z.of_nat n - Z.of_nat (length done) /\ length (all_results s) = n /\
  forall i r, (i, r) ∈ done -> all_results s !! i = Some r.

Lemma all_run_inv n cs : forall done s,
  Z.of_nat n < 2 ^ 64 -> (length done + length cs <= n)%nat ->
  NoDup (done ++ cs).*1 -> Forall (fun c => (c.1 < n)%nat) cs -> all_inv n done s ->
  exists s' k, all_run cs s = Some (s', k) /\ all_inv n (done ++ cs) s' /\ all_waiter s' = all_waiter s /\
    k = if negb (all_remaining s =? 0) && (all_remaining s' =? 0) && has_value (all_waiter s) then 1%nat else 0%nat.
Proof.
  induction cs as [|[idx r] cs IH]; intros done s Hn Hl Hnd Hf I; cbn [all_run].
  { exists s, O. rewrite app_nil_r. split_and!; [done|done|done|]. by destruct (all_remaining s =? 0). }
  apply Forall_cons in Hf as [Hidx Hf]. cbn in Hidx, Hl. destruct I as (Er & Elen & Eres).
  destruct (lookup_lt_is_Some_2 (all_results s) idx ltac:(lia)) as [old Hold].
  unfold when_all_finish. rewrite Hold, Er. cbn [mbind option_bind fst snd].
  autorewrite with rain.
  set (s1 := mkAll _ _ _).
  destruct (IH (done ++ [(idx, r)]) s1 Hn) as (s2 & k & Hrun & I2 & W2 & Hk);
    [rewrite length_app; cbn; lia|by rewrite <- app_assoc|done| |].
  { split_and!.
    - rewrite length_app. cbn. lia.
    - cbn. by rewrite length_insert.
    - intros i r' [Hin|[= -> ->]%list_elem_of_singleton]%elem_of_app; cbn.
      + rewrite list_lookup_insert_ne; [by apply Eres|]. intros ->.
        rewrite fmap_app, NoDup_app in Hnd. destruct Hnd as (_ & Hnd & _). apply (Hnd i).
        * by apply (list_elem_of_fmap_2 fst _ _ Hin).
        * cbn. constructor.
      + rewrite list_lookup_insert_eq; [done|lia]. }
  rewrite Hrun. cbn [mbind option_bind fst snd]. eexists s2, _. split; [done|].
  rewrite <- app_assoc in I2. split; [done|]. split; [done|]. rewrite Hk.
  destruct I2 as (Er2 & _ & _). rewrite Er2, !length_app. unfold s1. cbn [all_remaining all_waiter length].
  destruct (has_value (all_waiter s)); [|by rewrite !andb_false_r]. rewrite !andb_true_r.
  clear -Hl. destruct (Z.eqb_spec (Z.of_nat n - Z.of_nat (length done) - 1) 0),
    (Z.eqb_spec (Z.of_nat n - Z.of_nat (length done + (1 + length cs))) 0),
    (Z.eqb_spec (Z.of_nat n - Z.of_nat (length done)) 0); cbn [negb andb]; lia.
Qed.

(** C29: [when_all], whose tasks complete in any order, some before and some
    after the awaiting coroutine looks: every write of a racer is in range, the
    vector returned holds at each index the result of the task with that index,
    and the awaiting coroutine is woken exactly once if it suspended and never
    if it did not (with no task it does not suspend). *)
Theorem when_all_collects n before after h :
  Z.of_nat n < 2 ^ 64 -> length (before ++ after) = n -> NoDup (before ++ after).*1 ->
  Forall (fun c => (c.1 < n)%nat) (before ++ after) ->
  exists s1 k1 s2 suspended s3 k3,
    all_run before (when_all_init n) = Some (s1, k1) /\ when_all_await (Some h) s1 = (s2, suspended) /\
    all_run after s2 = Some (s3, k3) /\
    length (all_results s3) = n /\ (forall i r, (i, r) ∈ before ++ after -> all_results s3 !! i = Some r) /\
    suspended = negb (length after =? 0)%nat /\ (k1 + k3)%nat = (if suspended then 1 else 0)%nat.
Proof.
  intros Hn Hlen Hnd Hf. rewrite length_app in Hlen. apply Forall_app in Hf as [Hf1 Hf2].
  destruct (all_run_inv n before [] (when_all_init n) Hn ltac:(cbn; lia)) as (s1 & k1 & R1 & I1 & W1 & K1); [|done| |].
  { cbn. rewrite fmap_app in Hnd. by apply NoDup_app in Hnd as (? & _ & _). }
  { split_and!; [cbn; lia|cbn; apply length_replicate|intros i r []%not_elem_of_nil]. }
  cbn [app] in I1. cbn in W1. cbn [all_waiter when_all_init has_value] in K1. rewrite andb_false_r in K1.
  assert (all_remaining s1 = Z.of_nat (length after)) as Hrem by (destruct I1 as (-> & _); lia).
  destruct (Z.eqb_spec (Z.of_nat (length after)) 0) as [E0|E0].
  - destruct after as [|]; [|cbn in E0; lia]. rewrite app_nil_r.
    destruct I1 as (? & ? & ?). exists s1, k1, s1, false, s1, O. unfold when_all_await. rewrite Hrem. subst k1. by split_and!.
  - destruct (all_run_inv n after before (mkAll (Z.of_nat (length after)) (all_results s1) (Some h)) Hn ltac:(lia) Hnd Hf2)
      as (s3 & k3 & R3 & I3 & W3 & K3).
    { destruct I1 as (? & ? & ?). split_and!; [cbn; lia|done|done]. }
    exists s1, k1, (mkAll (Z.of_nat (length after)) (all_results s1) (Some h)), true, s3, k3.
    destruct I3 as (Er3 & El3 & Ev3). rewrite Er3, length_app in K3. cbn [all_remaining all_waiter has_value] in K3.
    assert (when_all_await (Some h) s1 = (mkAll (Z.of_nat (length after)) (all_results s1) (Some h), true)) as Haw.
    { unfold when_all_await. rewrite Hrem. by rewrite (proj2 (Z.eqb_neq _ _) E0). }
    split_and!; [done|done|done|done|done| |]; [destruct after; done|].
    rewrite K1, K3. destruct (Z.eqb_spec (Z.of_nat (length after)) 0); [lia|].
    destruct (Z.eqb_spec (Z.of_nat n - Z.of_nat (length before + length after)) 0); [done|lia].
Qed.

(** ** [timeout]: completions are a task's result or the end of the sleep *)

Definition timeout_finish (ev : Result T + Result unit) : TimeoutState T -> TimeoutState T * bool * bool :=
  match ev with inl r => timeout_task_finish r | inr slept => timeout_timer_finish slept end.

(** The first completion that counts: a cancelled sleep does not. *)
Fixpoint timeout_outcome (evs : list (Result T + Result unit)) : option (Result T) :=
  match evs with
  | [] => None
  | inl r :: _ => Some r
  | inr (Ok _) :: _ => Some (Err make_timed_out_error)
  | inr (Err _) :: evs => timeout_outcome evs
  end.

(** The final state, the number of losers stopped and of notifications. *)
Fixpoint timeout_run (evs : list (Result T + Result unit)) (s : TimeoutState T) : TimeoutState T * nat * nat :=
  match evs with
  | [] => (s, O, O)
  | ev :: evs =>
    let '(s, stops, note) := timeout_finish ev s in
    let '(s, k, n) := timeout_run evs s in
    (s, ((if stops : bool then 1 else 0) + k)%nat, ((if note : bool then 1 else 0) + n)%nat)
  end.

Lemma timeout_run_resolved evs s : to_resolved s = true -> timeout_run evs s = (s, O, O).
Proof.
  intros E. induction evs as [|[r|[?|?]] evs IH]; cbn [timeout_run timeout_finish]; [done|..];
    unfold timeout_task_finish, timeout_timer_finish; rewrite ?E; cbn; by rewrite IH.
Qed.

Lemma timeout_run_open evs s : to_resolved s = false ->
  timeout_run evs s =
    match timeout_outcome evs with
    | Some r => (mkTimeout true r (to_waiter s), 1, if has_value (to_waiter s) then 1 else 0)%nat
    | None => (s, O, O)
    end.
Proof.
  intros E. induction evs as [|[r|[?|?]] evs IH]; cbn [timeout_run timeout_finish timeout_outcome]; [done|..];
    unfold timeout_task_finish, timeout_timer_finish; rewrite ?E; cbn [negb].
  1,2: rewrite timeout_run_resolved by done; by rewrite !Nat.add_0_r.
  rewrite IH. by destruct (timeout_outcome evs).
Qed.

Lemma timeout_outcome_app evs1 evs2 :
  timeout_outcome (evs1 ++ evs2) = match timeout_outcome evs1 with Some r => Some r | None => timeout_outcome evs2 end.
Proof. by induction evs1 as [|[?|[?|?]] ? IH]; cbn. Qed.

(** [timeout] resolves with whichever of the task and the full sleep
    completes first (a cancelled sleep does not count), keeps that result
    whatever completes later, stops the loser exactly once, and wakes the
    awaiting coroutine exactly once if it suspended before the decision and
    never otherwise. *)
Theorem timeout_first_completion before after h :
  let '(s1, k1, n1) := timeout_run before timeout_init in
  let '(s2, suspended) := timeout_await (Some h) s1 in
  let '(s3, k3, n3) := timeout_run after s2 in
  suspended = negb (has_value (timeout_outcome before)) /\
  match timeout_outcome (before ++ after) with
  | Some r => to_resolved s3 = true /\ to_result s3 = r /\ (k1 + k3)%nat = 1%nat /\
      (n1 + n3)%nat = (if suspended then 1 else 0)%nat
  | None => to_resolved s3 = false /\ (k1 + k3)%nat = 0%nat /\ (n1 + n3)%nat = 0%nat
  end.
Proof.
  rewrite (timeout_run_open before timeout_init eq_refl), timeout_outcome_app.
  destruct (timeout_outcome before) as [r|] eqn:E1.
  - cbn. by rewrite timeout_run_resolved.
  - cbn. rewrite timeout_run_open by done. by destruct (timeout_outcome after).
Qed.

End Races.

(** What [when_any] and [timeout] hand to their caller is not the result
    of the race but what moving it out leaves behind, because the awaiter
    already moved it into the discarded value of [co_await]: a string comes back
    empty and an error without its message; a number survives. *)
Theorem race_result_moved :
  (forall s : WhenAnyState string, when_any_return s =
    match any_result s with Ok _ => Ok "" | Err e => Err (mkError (code e) (Lit "")) end) /\
  (forall s : TimeoutState string, timeout_return s =
    match to_result s with Ok _ => Ok "" | Err e => Err (mkError (code e) (Lit "")) end) /\
  (forall (s : WhenAnyState Z) v, when_any_return s = Ok v <-> any_result s = Ok v) /\
  (forall (s : TimeoutState Z) v, timeout_return s = Ok v <-> to_result s = Ok v).
Proof.
  unfold when_any_return, timeout_return, when_any_take, timeout_take. cbn.
  split_and!; intros s; [by destruct (any_result s)|by destruct (to_result s)|..]; intros v;
    [destruct (any_result s)|destruct (to_result s)]; unfold moved, movable_result, moved, movable_Z; cbn; split; (done || congruence).
Qed.

Lemma when_any_first_success_witness :
  let '(s1, stopped1, n1) := any_run [Err (make_error EAGAIN "a")] (when_any_init [4; 5; 6]%nat) in
  let '(s2, suspended) := when_any_await (Some 9%nat) s1 in
  let '(s3, stopped3, n3) := any_run [Ok 7; Ok 8] s2 in
  any_resolved s3 = true /\ any_result s3 = Ok 7 /\ stopped1 ++ stopped3 = [4; 5; 6]%nat /\
  suspended = true /\ (n1 + n3)%nat = 1%nat.
Proof.
  pose proof (when_any_first_success [4; 5; 6]%nat [Err (make_error EAGAIN "a")] [Ok 7; Ok 8] 9%nat
    eq_refl ltac:(cbn; lia) ltac:(cbn; lia)) as W.
  cbn in W |- *. destruct W as (W1 & W2 & W3 & W4). by split_and!.
Defined.

Lemma when_all_collects_witness :
  exists s1 k1 s2 s3 k3,
    all_run [(1%nat, Ok 11)] (when_all_init 2) = Some (s1, k1) /\ when_all_await (Some 9%nat) s1 = (s2, true) /\
    all_run [(0%nat, Ok 10)] s2 = Some (s3, k3) /\ all_results s3 = [Ok 10; Ok 11] /\ (k1 + k3)%nat = 1%nat.
Proof.
  destruct (when_all_collects 2 [(1%nat, Ok 11)] [(0%nat, Ok 10)] 9%nat) as (s1 & k1 & s2 & b & s3 & k3 & R1 & Aw & R3 & Hl & Hv & -> & Hk);
    [lia|done|cbn; repeat constructor; set_solver|cbn; repeat constructor; lia|].
  exists s1, k1, s2, s3, k3. split_and!; [done|done|done| |done].
  pose proof (Hv 0%nat (Ok 10) ltac:(set_solver)) as H0. pose proof (Hv 1%nat (Ok 11) ltac:(set_solver)) as H1.
  destruct (all_results s3) as [|a [|b [|]]]; cbn in *; congruence.
Defined.

End CombinatorProps.
