(* ===== verification/Races.v ===== *)
(** * Races: the combinators of [async/combinators.hpp] on a loop

    [Combinators.v] models the shared states of [when_all], [when_any] and
    [timeout]; here their racers are spawned on an event loop, the winner's stop
    requests run the callbacks of the losers' awaiters, and notifying the
    awaiting coroutine queues it. *)

From S2P Require Import Prelude Core Reactor World Awaiters EventLoop Combinators.

Module Races.
Import Awaiters Combinators.

Section Races.
Context {K T : Type} `{Reactor.EpollKernel K}.

(** [std::make_shared<std::stop_source>()], at the fresh name [s]. *)
Definition new_source (s : nat) (W : World K) : World K := set_stops (<[s := mkStop false []]> (stops W)) W.

(** The frame [f] of a racer, suspended at its start. *)
Definition new_racer (f : nat) (W : World K) : World K :=
  set_mem (mkMem (ws_cells (mem W)) (res_cells (mem W)) (<[f := false]> (frames (mem W)))) W.

(** [g_event_loop->spawn(racer)] *)
Definition spawn_racer (f : nat) (W : World K) : World K := EventLoop.spawn (Some f) (new_racer f W).

(** ** Spawning *)

Fixpoint when_all_spawn (racers : list nat) (W : World K) : World K :=
  match racers with
  | [] => W
  | racer :: racers => when_all_spawn racers (spawn_racer racer W)
  end.

(** A racer of [when_any]: the task, the frame that awaits it, its source. *)
Record Racer := mkRacer { task : nat; racer : nat; source : nat }.

(** [state->sources.push_back(src)] *)
Definition push_source (src : nat) (s : WhenAnyState T) : WhenAnyState T :=
  mkAny (any_resolved s) (any_remaining s) (any_result s) (any_waiter s) (any_sources s ++ [src]).

Fixpoint when_any_spawn (rs : list Racer) (s : WhenAnyState T) (W : World K) : WhenAnyState T * World K :=
  match rs with
  | [] => (s, W)
  | r :: rs =>
    let W := new_source (source r) W in
    let W := EventLoop.set_task_cancellation (Some (task r)) (Some (source r)) W in
    when_any_spawn rs (push_source (source r) s) (spawn_racer (racer r) W)
  end.

Definition timeout_spawn (task task_racer timer_racer task_src timer_src : nat) (W : World K) : World K :=
  let W := new_source timer_src (new_source task_src W) in
  let W := EventLoop.set_task_cancellation (Some task) (Some task_src) W in
  let W := EventLoop.set_task_cancellation (Some timer_racer) (Some timer_src) W in
  spawn_racer timer_racer (spawn_racer task_racer W).

(** ** The ends of the racers *)

Fixpoint request_all (sources : list nat) (W : World K) : option (World K) :=
  match sources with
  | [] => Some W
  | s :: sources => W ← request_stop s W; request_all sources W
  end.

Definition when_all_racer_end (idx : nat) (r : Result T) (s : WhenAllState T) (W : World K)
  : option (WhenAllState T * World K) :=
  x ← when_all_finish idx r s;
  let '(s', wake) := x in
  Some (s', if (wake : bool) then notify_handle (all_waiter s) W else W).

Definition when_any_racer_end (r : Result T) (s : WhenAnyState T) (W : World K) : option (WhenAnyState T * World K) :=
  let '(s', sources, wake) := when_any_finish r s in
  W ← request_all sources W;
  Some (s', if wake then notify_handle (any_waiter s) W else W).

Definition timeout_task_racer_end (timer_src : nat) (r : Result T) (s : TimeoutState T) (W : World K)
  : option (TimeoutState T * World K) :=
  let '(s', stop, wake) := timeout_task_finish r s in
  W ← (if stop then request_stop timer_src W else Some W);
  Some (s', if wake then notify_handle (to_waiter s) W else W).

Definition timeout_timer_racer_end (task_src : nat) (slept : Result unit) (s : TimeoutState T) (W : World K)
  : option (TimeoutState T * World K) :=
  let '(s', stop, wake) := timeout_timer_finish slept s in
  W ← (if stop then request_stop task_src W else Some W);
  Some (s', if wake then notify_handle (to_waiter s) W else W).

End Races.
End Races.
