(* ===== verification/RacesProps.v ===== *)
(** * RacesProps: the winner wakes the losers and the waiter *)

From S2P Require Import Prelude Core TimerWheel TimerInv Reactor ReactorProps World Awaiters AwaiterProps EventLoop Combinators Races.

Module RacesProps.
Import Awaiters Combinators Races AwaiterProps.

Section Props.
Context {K T : Type} `{Reactor.EpollKernel K}.

(** ** What stop callbacks do on the owner's thread *)

Definition pending (m : Mem) (cb : Callback) : bool := bool_decide (ws_cells m !! cb_state cb = Some Pending).
Definition sleeping (cb : Callback) : bool := match cb_kind cb with CbSleep _ => true | _ => false end.

(** The coroutines that cancelling wakes: through the loop's queue, or for a
    sleep through the timer's. *)
Definition wakes (sleep : bool) (m : Mem) (cbs : list Callback) : list handle :=
  cb_handle <$> filter (fun cb => pending m cb && eqb (sleeping cb) sleep && has_value (cb_handle cb) = true) cbs.

(** What requesting a stop leaves of a stop state. *)
Definition stopped (st : StopState) : StopState := if requested st then st else mkStop true [].

(** [W'] is [W] after the sources were asked to stop and the callbacks [cbs]
    have run. *)
Record cancels (sources : list nat) (cbs : list Callback) (W W' : World K) : Prop := {
  ca_installed : installed W' = installed W;
  ca_owned : owned_tasks (loop W') = owned_tasks (loop W);
  ca_queue : ready_queue (loop W') = ready_queue (loop W) ++ wakes false (mem W) cbs;
  ca_timer : Timer.ready (timer (loop W')) = Timer.ready (timer (loop W)) ++ wakes true (mem W) cbs;
  ca_stops s : stops W' !! s = if decide (s ∈ sources) then stopped <$> stops W !! s else stops W !! s;
  ca_ws p : ws_cells (mem W') !! p =
    if decide (p ∈ cb_state <$> cbs /\ ws_cells (mem W) !! p = Some Pending) then Some Cancelled else ws_cells (mem W) !! p;
}.

Lemma wakes_app sleep m cbs1 cbs2 : wakes sleep m (cbs1 ++ cbs2) = wakes sleep m cbs1 ++ wakes sleep m cbs2.
Proof. unfold wakes. by rewrite filter_app, fmap_app. Qed.

Lemma wakes_same sleep m m' cbs :
  (forall p, p ∈ cb_state <$> cbs -> ws_cells m' !! p = ws_cells m !! p) -> wakes sleep m' cbs = wakes sleep m cbs.
Proof.
  intros Hm. unfold wakes. induction cbs as [|cb cbs IH]; [done|].
  assert (pending m' cb = pending m cb) as E by (unfold pending; apply bool_decide_ext; by rewrite Hm by constructor).
  rewrite !filter_cons. assert (forall p, p ∈ cb_state <$> cbs -> ws_cells m' !! p = ws_cells m !! p) as Hm'.
  { intros p Hp. apply Hm. by constructor. }
  specialize (IH Hm'). repeat case_decide; cbn; rewrite ?IH; try done; congruence.
Qed.

Lemma cancels_nil (W : World K) : cancels [] [] W W.
Proof.
  split; try done; by rewrite app_nil_r.
Qed.

Lemma stopped_idemp st : stopped (stopped st) = stopped st.
Proof. unfold stopped. by destruct (requested st) eqn:E; rewrite ?E. Qed.

Lemma cancels_app src1 src2 cbs1 cbs2 (W W1 W2 : World K) :
  (forall p, p ∈ cb_state <$> cbs1 -> p ∈ cb_state <$> cbs2 -> False) ->
  cancels src1 cbs1 W W1 -> cancels src2 cbs2 W1 W2 -> cancels (src1 ++ src2) (cbs1 ++ cbs2) W W2.
Proof.
  intros Hd [] [].
  assert (forall p, p ∈ cb_state <$> cbs2 -> ws_cells (mem W1) !! p = ws_cells (mem W) !! p) as Hsame.
  { intros p Hp. rewrite ca_ws0, decide_False; [done|]. intros [Hp1 _]. eauto. }
  split; try congruence.
  - by rewrite ca_queue1, ca_queue0, (wakes_same false (mem W) (mem W1)), wakes_app, app_assoc.
  - by rewrite ca_timer1, ca_timer0, (wakes_same true (mem W) (mem W1)), wakes_app, app_assoc.
  - intros s. rewrite ca_stops1, (ca_stops0 s). pose proof (elem_of_app src1 src2 s) as Hel.
    repeat case_decide; try naive_solver. destruct (stops W !! s); [cbn; by rewrite stopped_idemp|done].
  - intros p. rewrite ca_ws1. pose proof (elem_of_app (cb_state <$> cbs1) (cb_state <$> cbs2) p) as Hel. rewrite <- fmap_app in Hel.
    specialize (Hd p). specialize (Hsame p). rewrite (ca_ws0 p) in *. repeat case_decide; naive_solver.
Qed.

Lemma wakes_single sleep m cb :
  wakes sleep m [cb] = if pending m cb && eqb (sleeping cb) sleep && has_value (cb_handle cb) then [cb_handle cb] else [].
Proof. unfold wakes. rewrite filter_cons. cbn. destruct (_ && _ && _); done. Qed.

Lemma notify_handle_spec h (W : World K) :
  installed W = true -> notify_handle h W = if has_value h then set_loop (notify h (loop W)) W else W.
Proof. intros Hi. unfold notify_handle. rewrite Hi. by destruct (has_value h). Qed.

Lemma cancel_onloop cb (W : World K) :
  installed W = true -> is_Some (ws_cells (mem W) !! cb_state cb) ->
  exists W', run_callback cb W = Some W' /\ cancels [] [cb] W W'.
Proof.
  intros Hin [v Hv]. assert (forall p, p ∈ cb_state <$> [cb] <-> p = cb_state cb) as Hel by (intros p; cbn; apply list_elem_of_singleton).
  unfold run_callback. destruct (decide (v = Pending)) as [->|Hn].
  2:{ assert (pending (mem W) cb = false) as Hp by (apply bool_decide_eq_false; congruence).
      exists W. split.
      - unfold cancel_io_wait, cancel_timed_wait, cancel_sleep. rewrite Hv. cbn [mbind option_bind].
        destruct (cb_kind cb); by rewrite decide_False.
      - split; rewrite ?wakes_single, ?Hp, ?app_nil_r; try done. intros p. rewrite decide_False; [done|].
        rewrite Hel. intros [-> ?]. congruence. }
  assert (pending (mem W) cb = true) as Hp by (by apply bool_decide_eq_true).
  set (W1 := set_mem (set_ws (cb_state cb) Cancelled (mem W)) W).
  assert (forall p, ws_cells (mem W1) !! p = if decide (p ∈ cb_state <$> [cb] /\ ws_cells (mem W) !! p = Some Pending)
    then Some Cancelled else ws_cells (mem W) !! p) as Hws.
  { intros p. cbn. rewrite lookup_insert. case_decide as Ed; subst.
    - rewrite decide_True; [done|]. by rewrite Hel.
    - rewrite decide_False; [done|]. rewrite Hel. naive_solver. }
  unfold cancel_io_wait, cancel_timed_wait, cancel_sleep. rewrite Hv. cbn [mbind option_bind].
  destruct (cb_kind cb) as [fd dir|fd dir id|id] eqn:Ek; rewrite decide_True by done; fold W1; eexists; (split; [reflexivity|]).
  - destruct (reactor_deregister_spec fd dir W1) as (Em & Et & Eq & _ & Ei & _).
    rewrite notify_handle_spec by (by rewrite Ei).
    split; rewrite ?wakes_single, ?Hp; unfold sleeping; rewrite ?Ek; cbn [andb eqb]; destruct (has_value (cb_handle cb)); cbn;
      rewrite ?Em, ?Et, ?Eq, ?Ei, ?app_nil_r; try done; unfold reactor_deregister; by destruct (Reactor.deregister_dir _ _ _ _).
  - destruct (timer_cancel_spec id W1) as (Em & _ & Eq & Et & Ei & _).
    destruct (reactor_deregister_spec fd dir (timer_cancel id W1)) as (Em2 & Et2 & Eq2 & _ & Ei2 & _).
    rewrite notify_handle_spec by (by rewrite Ei2, Ei).
    split; rewrite ?wakes_single, ?Hp; unfold sleeping; rewrite ?Ek; cbn [andb eqb]; destruct (has_value (cb_handle cb)); cbn;
      rewrite ?Em2, ?Et2, ?Eq2, ?Ei2, ?Em, ?Et, ?Eq, ?Ei, ?app_nil_r; try done; unfold reactor_deregister; by destruct (Reactor.deregister_dir _ _ _ _).
  - destruct (timer_cancel_spec id W1) as (Em & _ & Eq & Et & Ei & _).
    split; rewrite ?wakes_single, ?Hp; unfold sleeping; rewrite ?Ek; cbn [andb eqb]; destruct (has_value (cb_handle cb)); cbn [loop set_loop];
      rewrite ?Em, ?Et, ?Eq, ?Ei, ?app_nil_r; try done. cbn. f_equal. exact Et.
Qed.

(** The callbacks have distinct, live wait states. *)
Definition distinct_live (m : Mem) (cbs : list Callback) : Prop :=
  NoDup (cb_state <$> cbs) /\ forall p, p ∈ cb_state <$> cbs -> is_Some (ws_cells m !! p).

Lemma distinct_live_app m cbs1 cbs2 :
  distinct_live m (cbs1 ++ cbs2) ->
  distinct_live m cbs1 /\ distinct_live m cbs2 /\ forall p, p ∈ cb_state <$> cbs1 -> p ∈ cb_state <$> cbs2 -> False.
Proof.
  unfold distinct_live. rewrite fmap_app, NoDup_app. setoid_rewrite elem_of_app. naive_solver.
Qed.

Lemma cancels_live src cbs cbs' (W W' : World K) :
  cancels src cbs W W' -> distinct_live (mem W) cbs' -> distinct_live (mem W') cbs'.
Proof. intros C [Hn Hl]. split; [done|]. intros p Hp. rewrite (ca_ws _ _ _ _ C). case_decide; eauto. Qed.

Lemma run_callbacks_cancels cbs (W : World K) :
  installed W = true -> distinct_live (mem W) cbs -> exists W', run_callbacks cbs W = Some W' /\ cancels [] cbs W W'.
Proof.
  induction cbs as [|cb cbs IH] in W |- *; intros Hin Hl; [exists W; split; [done|apply cancels_nil]|].
  apply (distinct_live_app _ [cb]) in Hl as (Hl1 & Hl2 & Hd).
  destruct (cancel_onloop cb W Hin) as (W1 & E1 & C1); [apply Hl1; constructor|].
  destruct (IH W1) as (W2 & E2 & C2); [by rewrite (ca_installed _ _ _ _ C1)|by eapply cancels_live|].
  exists W2. cbn. rewrite E1. split; [exact E2|by apply (cancels_app [] [] [cb] cbs W W1 W2)].
Qed.

(** The callbacks that asking a source to stop runs. *)
Definition callbacks_of (W : World K) (s : nat) : list Callback :=
  match stops W !! s with Some st => if requested st then [] else callbacks st | None => [] end.

Lemma request_stop_cancels s (W : World K) :
  installed W = true -> is_Some (stops W !! s) -> distinct_live (mem W) (callbacks_of W s) ->
  exists W', request_stop s W = Some W' /\ cancels [s] (callbacks_of W s) W W'.
Proof.
  unfold request_stop, callbacks_of. intros Hin [st Hs]. rewrite Hs. cbn [mbind option_bind].
  destruct (requested st) eqn:Er; intros Hl.
  - exists W. split; [done|]. split; try done; try (by rewrite app_nil_r). intros s'. case_decide as Hd; [|done].
    apply list_elem_of_singleton in Hd as ->. rewrite Hs. cbn. unfold stopped. by rewrite Er.
  - destruct (run_callbacks_cancels (callbacks st) (set_stops (<[s := mkStop true []]> (stops W)) W)) as (W' & E & []); [done|done|].
    exists W'. split; [exact E|]. split; try done. intros s'. rewrite ca_stops0, decide_False by apply not_elem_of_nil. cbn.
    rewrite lookup_insert. case_decide as Hd; subst.
    + rewrite decide_True by constructor. rewrite Hs. cbn. unfold stopped. by rewrite Er.
    + rewrite decide_False; [done|]. rewrite list_elem_of_singleton. congruence.
Qed.

Lemma request_all_cancels sources (W : World K) :
  installed W = true -> NoDup sources -> (forall s, s ∈ sources -> is_Some (stops W !! s)) ->
  distinct_live (mem W) (sources ≫= callbacks_of W) ->
  exists W', request_all sources W = Some W' /\ cancels sources (sources ≫= callbacks_of W) W W'.
Proof.
  induction sources as [|s sources IH] in W |- *; intros Hin Hn Hs Hl; [exists W; split; [done|apply cancels_nil]|].
  apply NoDup_cons in Hn as [Hni Hn]. rewrite bind_cons in *. apply distinct_live_app in Hl as (Hl1 & Hl2 & Hd).
  destruct (request_stop_cancels s W) as (W1 & E1 & C1); [done|apply Hs; constructor|done|].
  assert (forall s', s' ∈ sources -> stops W1 !! s' = stops W !! s') as Hst.
  { intros s' Hs'. rewrite (ca_stops _ _ _ _ C1), decide_False; [done|]. rewrite list_elem_of_singleton. congruence. }
  assert (sources ≫= callbacks_of W1 = sources ≫= callbacks_of W) as Hcb.
  { clear -Hst. induction sources as [|s' l IHl]; [done|]. rewrite !bind_cons, IHl by (intros; apply Hst; by constructor).
    unfold callbacks_of at 1. by rewrite Hst by constructor. }
  destruct (IH W1) as (W2 & E2 & C2).
  - by rewrite (ca_installed _ _ _ _ C1).
  - done.
  - intros s' Hs'. rewrite Hst by done. apply Hs. by constructor.
  - rewrite Hcb. by eapply cancels_live.
  - exists W2. cbn. rewrite E1. split; [exact E2|]. rewrite Hcb in C2.
    by apply (cancels_app [s] sources (callbacks_of W s) _ W W1 W2).
Qed.

(** ** Races *)

Definition woken (h : handle) : list handle := if has_value h then [h] else [].

(** [cancels], then queueing the coroutine [h] that awaits the race. *)
Definition race_over (sources : list nat) (losers : list Callback) (h : handle) (W W' : World K) : Prop :=
  (forall src, src ∈ sources -> exists st, stops W' !! src = Some st /\ requested st = true) /\
  (forall p, p ∈ cb_state <$> losers ->
    ws_cells (mem W') !! p = if decide (ws_cells (mem W) !! p = Some Pending) then Some Cancelled else ws_cells (mem W) !! p) /\
  ready_queue (loop W') = ready_queue (loop W) ++ wakes false (mem W) losers ++ woken h /\
  Timer.ready (timer (loop W')) = Timer.ready (timer (loop W)) ++ wakes true (mem W) losers.

Lemma cancels_race_over sources losers (b : bool) h (W W' : World K) :
  installed W = true -> (forall src, src ∈ sources -> is_Some (stops W !! src)) -> cancels sources losers W W' ->
  b = has_value h -> race_over sources losers h W (if b then notify_handle h W' else W').
Proof.
  intros Hin Hs [] ->.
  assert (forall src, src ∈ sources -> exists st, stops W' !! src = Some st /\ requested st = true) as Hst.
  { intros src Hsrc. rewrite ca_stops0, decide_True by done. destruct (Hs _ Hsrc) as [st ->]. eexists. split; [done|].
    unfold stopped. by destruct (requested st) eqn:?. }
  assert (forall p, p ∈ cb_state <$> losers ->
    ws_cells (mem W') !! p = if decide (ws_cells (mem W) !! p = Some Pending) then Some Cancelled else ws_cells (mem W) !! p) as Hws.
  { intros p Hp. rewrite ca_ws0. repeat case_decide; naive_solver. }
  rewrite notify_handle_spec by congruence. unfold race_over, woken.
  destruct (has_value h); cbn; rewrite ?app_nil_r, ?app_assoc, <- ?ca_queue0; done.
Qed.

(** C27: The racer of [when_any] that resolves the race - the first success, or
    the last failure - stores its result, asks every racer's source to stop,
    cancels every wait of a racer that is still pending, queues the coroutine of
    each such wait once (a sleep's through the timer's queue) and after them the
    coroutine that awaits the race.  No racer that ends later changes the result
    or wakes anyone. *)
Theorem when_any_cancels_losers (r : Result T) (s : WhenAnyState T) (W : World K) :
  let losers := any_sources s ≫= callbacks_of W in
  installed W = true -> any_resolved s = false -> is_ok r || ((any_remaining s -u[64] 1)%rain =? 0) = true ->
  NoDup (any_sources s) -> (forall src, src ∈ any_sources s -> is_Some (stops W !! src)) ->
  distinct_live (mem W) losers ->
  exists s' W', when_any_racer_end r s W = Some (s', W') /\
    any_resolved s' = true /\ any_result s' = r /\ race_over (any_sources s) losers (any_waiter s) W W' /\
    forall r2 (W2 : World K), exists s2, when_any_racer_end r2 s' W2 = Some (s2, W2) /\ any_resolved s2 = true /\ any_result s2 = r.
Proof.
  intros losers Hin Hr Hw Hn Hs Hl. unfold when_any_racer_end at 1, when_any_finish. rewrite Hr, Hw. cbn [negb andb].
  destruct (request_all_cancels (any_sources s) W) as (W' & E & C); [done..|]. rewrite E. cbn [mbind option_bind].
  eexists _, _. split; [done|]. split; [done|]. split; [done|]. split; [by apply cancels_race_over|].
  intros r2 W2. eexists. by split.
Qed.

(** Spawning the racers collects their sources: the state is that of
    [when_any_init] with the same order. *)
Lemma when_any_spawn_state (rs : list Racer) (s : WhenAnyState T) (W : World K) :
  (when_any_spawn rs s W).1 = mkAny (any_resolved s) (any_remaining s) (any_result s) (any_waiter s) (any_sources s ++ (source <$> rs)).
Proof.
  induction rs as [|r rs IH] in s, W |- *; cbn; [rewrite app_nil_r; by destruct s|].
  rewrite IH. cbn. by rewrite <- app_assoc.
Qed.

(** [timeout] whose task ends first: the timer's wait is cancelled. *)
Theorem timeout_cancels_timer timer_src (r : Result T) (s : TimeoutState T) (W : World K) :
  installed W = true -> to_resolved s = false -> is_Some (stops W !! timer_src) ->
  distinct_live (mem W) (callbacks_of W timer_src) ->
  exists s' W', timeout_task_racer_end timer_src r s W = Some (s', W') /\
    to_resolved s' = true /\ to_result s' = r /\ race_over [timer_src] (callbacks_of W timer_src) (to_waiter s) W W'.
Proof.
  intros Hin Hr Hs Hl. unfold timeout_task_racer_end, timeout_task_finish. rewrite Hr.
  destruct (request_stop_cancels timer_src W) as (W' & E & C); [done..|]. rewrite E. cbn [mbind option_bind].
  eexists _, _. split; [done|]. split; [done|]. split; [done|]. apply cancels_race_over; try done.
  intros src ->%list_elem_of_singleton. done.
Qed.

(** [timeout] whose timer ends first: the task's waits are cancelled. *)
Theorem timeout_cancels_task task_src (s : TimeoutState T) (W : World K) :
  installed W = true -> to_resolved s = false -> is_Some (stops W !! task_src) ->
  distinct_live (mem W) (callbacks_of W task_src) ->
  exists s' W', timeout_timer_racer_end task_src (Ok tt) s W = Some (s', W') /\
    to_resolved s' = true /\ is_ok (to_result s') = false /\
    race_over [task_src] (callbacks_of W task_src) (to_waiter s) W W'.
Proof.
  intros Hin Hr Hs Hl. unfold timeout_timer_racer_end, timeout_timer_finish. cbn [is_ok negb orb]. rewrite Hr.
  destruct (request_stop_cancels task_src W) as (W' & E & C); [done..|]. cbn. rewrite E. cbn [mbind option_bind].
  eexists _, _. split; [done|]. split; [done|]. split; [done|]. apply cancels_race_over; try done.
  intros src ->%list_elem_of_singleton. done.
Qed.

End Props.

(** ** Witness: three racers; one is done, one sleeps, one reads with a timeout *)

Section Witness.
Import ReactorProps.SimEpoll.

Definition wit_racers : list Racer := [mkRacer 41 51 0; mkRacer 42 52 1; mkRacer 43 53 2].

Definition wit_start : WhenAnyState Z * World Sim :=
  when_any_spawn wit_racers (mkAny false 3 (Err make_cancelled_error) (Some 9%nat) [])
    (mkWorld (mkLoop (Reactor.mkReactor 3 [] []) (Timer.make_wheel 0) None [] [] false 0 4 [])
       (mkMem {[ 20%nat := Pending; 30%nat := Pending ]} {[ 31%nat := Ok 7 ]} ∅) ∅ ∅ true (mkSim ∅ [])).

Definition wit_race : World Sim :=
  default wit_start.2
    (x ← sleep_await_suspend 5000000 (mkAwaiter 0 20 0 (Some 1%nat)) (Some 42%nat) wit_start.2;
     y ← timed_await_suspend Reactor.DRead 5000000 (mkAwaiter 5 30 31 (Some 2%nat)) (Some 43%nat) x.2;
     Some y.2).

Lemma when_any_cancels_losers_witness :
  exists s' W', when_any_racer_end (Ok 1) wit_start.1 wit_race = Some (s', W') /\ any_result s' = Ok 1 /\
    ws_cells (mem W') !! 20%nat = Some Cancelled /\ ws_cells (mem W') !! 30%nat = Some Cancelled /\
    ready_queue (loop W') = [Some 51%nat; Some 52%nat; Some 53%nat; Some 43%nat; Some 9%nat] /\
    Timer.ready (timer (loop W')) = [Some 42%nat].
Proof.
  assert (any_sources wit_start.1 ≫= callbacks_of wit_race =
    [mkCallback 20 (Some 42%nat) (CbSleep (Timer.encode_id 0 1));
     mkCallback 30 (Some 43%nat) (CbTimed 5 1 (Timer.encode_id 1 1))]) as El by (vm_compute; reflexivity).
  destruct (when_any_cancels_losers (Ok 1) wit_start.1 wit_race) as (s' & W' & E & _ & Er & (_ & Hp & Hq & Ht) & _).
  - reflexivity.
  - reflexivity.
  - reflexivity.
  - cbn. apply (bool_decide_unpack _). vm_compute. exact I.
  - intros src Hs. cbn in Hs. rewrite !elem_of_cons in Hs. destruct Hs as [->|[->|[->|[]%not_elem_of_nil]]]; vm_compute; eauto.
  - rewrite El. split.
    + apply (bool_decide_unpack _). vm_compute. exact I.
    + intros p Hp. cbn in Hp. rewrite !elem_of_cons in Hp. destruct Hp as [->|[->|[]%not_elem_of_nil]]; vm_compute; eauto.
  - rewrite El in Hp, Hq, Ht. exists s', W'. split; [exact E|]. split; [exact Er|].
    split; [eapply eq_trans; [apply (Hp 20%nat); constructor|vm_compute; reflexivity]|].
    split; [eapply eq_trans; [apply (Hp 30%nat); repeat constructor|vm_compute; reflexivity]|].
    split; [eapply eq_trans; [exact Hq|vm_compute; reflexivity]|].
    eapply eq_trans; [exact Ht|vm_compute; reflexivity].
Defined.

End Witness.
End RacesProps.
