(* ===== verification/ThreadPool.v ===== *)
(** * ThreadPool: [runtime/thread_pool.hpp]

    The blocking pool: worker threads that receive closures from a [Channel]
    and run them.  Clients submit, workers loop and one caller shuts down, in
    any interleaving; the channel is the one of [Channel.v], with its sleeping
    and waking threads.  A closure is a value of [T]; [throws] tells whether
    running it lets an exception escape. *)

From S2P Require Import Prelude Core Channel.

Module ThreadPool.
Import Channel.

Definition kDefaultTaskQueueCapacity : Z := 1024.
Definition kFallbackThreadCount : Z := 1.

(** What [default_exception_handler] prints; [what]: the text of a
    [std::exception], none for another exception. *)
Definition default_exception_handler (what : option string) : string :=
  match what with
  | Some e => "[ThreadPool] unhandled exception: " +:+ e
  | None => "[ThreadPool] unhandled unknown exception"
  end.

(** [hw]: [std::thread::hardware_concurrency()]. *)
Definition default_thread_count (hw : Z) : Z := if 0 <? hw then hw else kFallbackThreadCount.

Section Pool.
Context {T : Type}.
Variable throws : T -> bool.

(** Where the caller that won the exchange in [shutdown] is: before it, after
    the exchange, after [close] and joining, returned. *)
Inductive Phase := Open | Exchanged | Joining | Returned.

(** [sys]: the channel with the client threads inside [send] and the workers
    inside [recv]; [running]: the closures workers are executing; [exited]:
    workers whose loop ended; [ran]: closures that finished, in order;
    [errors]: those whose exception went to [on_error_]. *)
Record Pool := mkPool {
  sys : Sys (T := T); running : list T; exited : nat; ran : list T; errors : list T; phase : Phase
}.

(** The constructor: the workers have entered their first [recv]. *)
Definition make_pool (num_threads : nat) (queue_capacity : Z) : Pool :=
  mkPool (mkSys (make_channel queue_capacity) [] [] num_threads 0 [] []) [] 0 [] [] Open.

Definition make_thread_pool (num_threads : nat) (queue_capacity : Z) : Pool := make_pool num_threads queue_capacity.

(** [spawn]: the result and the channel after [try_send]. *)
Definition spawn (t : T) (c : Channel (T := T)) := try_send t c.

(** [submit]: a blocking [send]; the future is the closure's result. *)
Definition submit (t : T) (c : Channel (T := T)) : option (Result T * Channel * list Notify) :=
  match send t c with
  | None => None
  | Some (Err e, c, ns) => Some (Err e, c, ns)
  | Some (Ok _, c, ns) => Some (Ok t, c, ns)
  end.

(** [shutdown_.exchange(true)]: only the first caller goes on. *)
Definition shutdown_exchange (p : Phase) : bool * Phase :=
  match p with Open => (true, Exchanged) | _ => (false, p) end.

Definition pending (p : Pool) : Z := size (chan (sys p)).
Definition is_shutdown (p : Pool) : bool := match phase p with Open => false | _ => true end.

(** What a worker does after [recv] returned [o]: run the closure, or leave
    the loop. *)
Definition worker_take (o : option T) (p : Pool) : Pool :=
  match o with
  | Some t => mkPool (sys p) (t :: running p) (exited p) (ran p) (errors p) (phase p)
  | None => mkPool (sys p) (running p) (S (exited p)) (ran p) (errors p) (phase p)
  end.

(** The closure [t] returns or throws, and the worker calls [recv] again. *)
Definition worker_finish (t : T) (rest : list T) (p : Pool) : Pool :=
  let s := sys p in
  mkPool (mkSys (chan s) (snd_awake s) (snd_asleep s) (S (rcv_awake s)) (rcv_asleep s) (sent s) (received s))
    rest (exited p) (ran p ++ [t]) (if throws t then errors p ++ [t] else errors p) (phase p).

Definition set_sys (s : Sys) (p : Pool) : Pool := mkPool s (running p) (exited p) (ran p) (errors p) (phase p).
Definition set_phase (ph : Phase) (p : Pool) : Pool := mkPool (sys p) (running p) (exited p) (ran p) (errors p) ph.

(** ** Steps *)

(** Steps of the workers: [recv] returns, or a closure finishes. *)
Inductive worker_step : Pool -> Pool -> Prop :=
| worker_recv p c sa sl ra rl se re o c' ns s' :
    sys p = mkSys c sa sl (S ra) rl se re ->
    recv c = Some (o, c', ns) -> wakes ns (mkSys c' sa sl ra rl se (log_recv o re)) s' ->
    worker_step p (worker_take o (set_sys s' p))
| worker_done p l1 t l2 :
    running p = l1 ++ t :: l2 -> worker_step p (worker_finish t (l1 ++ l2) p).

(** Steps of the clients and of the scheduler (falling asleep and spurious
    wake-ups). *)
Inductive client_step : Sys (T := T) -> Sys -> Prop :=
| client_spawn c sa sl ra rl se re t r c' ns s' :
    spawn t c = (r, c', ns) -> wakes ns (mkSys c' sa sl ra rl (log_send r t se) re) s' ->
    client_step (mkSys c sa sl ra rl se re) s'
| client_submit c sa sl ra rl se re t :
    client_step (mkSys c sa sl ra rl se re) (mkSys c (t :: sa) sl ra rl se re)
| client_submitted c l1 t l2 sl ra rl se re r c' ns s' :
    submit t c = Some (r, c', ns) ->
    wakes ns (mkSys c' (l1 ++ l2) sl ra rl (match r with Ok t => se ++ [t] | Err _ => se end) re) s' ->
    client_step (mkSys c (l1 ++ t :: l2) sl ra rl se re) s'
| client_blocks c l1 t l2 sl ra rl se re :
    submit t c = None ->
    client_step (mkSys c (l1 ++ t :: l2) sl ra rl se re) (mkSys c (l1 ++ l2) (t :: sl) ra rl se re)
| worker_blocks c sa sl ra rl se re :
    recv c = None -> client_step (mkSys c sa sl (S ra) rl se re) (mkSys c sa sl ra (S rl) se re)
| spurious_client c sa l1 t l2 ra rl se re :
    client_step (mkSys c sa (l1 ++ t :: l2) ra rl se re) (mkSys c (t :: sa) (l1 ++ l2) ra rl se re)
| spurious_worker c sa sl ra rl se re :
    client_step (mkSys c sa sl ra (S rl) se re) (mkSys c sa sl (S ra) rl se re).

(** [n]: the number of workers, which [shutdown] joins. *)
Inductive pool_step (n : nat) : Pool -> Pool -> Prop :=
| pool_worker p p' : worker_step p p' -> pool_step n p p'
| pool_client p s' : client_step (sys p) s' -> pool_step n p (set_sys s' p)
| pool_shutdown p ph b : shutdown_exchange (phase p) = (b, ph) -> pool_step n p (set_phase ph p)
| pool_close p c sa sl ra rl se re c' ns s' :
    phase p = Exchanged -> sys p = mkSys c sa sl ra rl se re ->
    close c = (c', ns) -> wakes ns (mkSys c' sa sl ra rl se re) s' ->
    pool_step n p (set_phase Joining (set_sys s' p))
| pool_joined p : phase p = Joining -> exited p = n -> pool_step n p (set_phase Returned p).

Inductive pool_reachable (n : nat) (cap : Z) : Pool -> Prop :=
| pool_init : pool_reachable n cap (make_pool n cap)
| pool_next p p' : pool_reachable n cap p -> pool_step n p p' -> pool_reachable n cap p'.

End Pool.
Arguments Pool : clear implicits.
End ThreadPool.
