(* ===== verification/PoolProps.v ===== *)
(** * PoolProps: every accepted closure runs exactly once, and shutdown ends *)

From S2P Require Import Prelude Core Channel ThreadPool.

Module PoolProps.
Import Channel ThreadPool.

Section Props.
Context {T : Type}.
Variable throws : T -> bool.
Implicit Types p : Pool T.

(** ** The pool uses the channel as [Channel.v] allows *)

Lemma submit_send t c r c' ns :
  submit t c = Some (r, c', ns) ->
  exists r0, send t c = Some (r0, c', ns) /\
    forall se : list T, match r with Ok t => se ++ [t] | Err _ => se end = log_send r0 t se.
Proof. unfold submit. destruct (send t c) as [[[[] ?] ?]|]; intros [= <- <- <-]; eauto. Qed.

Lemma submit_none (t : T) c : submit t c = None -> send t c = None.
Proof. unfold submit. by destruct (send t c) as [[[[] ?] ?]|]. Qed.

Lemma client_step_channel s s' : client_step (T := T) s s' -> step s s'.
Proof.
  destruct 1 as [? ? ? ? ? ? ? ? ? ? ? ? E Hw| |? ? ? ? ? ? ? ? ? ? ? ? ? E Hw|? ? ? ? ? ? ? ? ? E%submit_none| | |];
    try by constructor.
  - by eapply step_try_send.
  - apply submit_send in E as (r0 & E & Hl). rewrite Hl in Hw. by eapply step_send.
Qed.

Lemma worker_step_channel p p' : worker_step throws p p' -> step (sys p) (sys p').
Proof.
  destruct 1 as [p c sa sl ra rl se re o c' ns s' E Hr Hw|p l1 t l2 E].
  - rewrite E. assert (sys (worker_take o (set_sys s' p)) = s') as -> by by destruct o. by eapply step_recv.
  - cbn. destruct (sys p). constructor.
Qed.

(** Threads inside [recv], and what waking leaves alone. *)
Definition receivers (s : Sys (T := T)) : nat := (rcv_awake s + rcv_asleep s)%nat.

Lemma wakes_receivers ns s s' : wakes (T := T) ns s s' -> receivers s' = receivers s.
Proof.
  induction 1 as [|n ns s s1 s2 Hw _ IH]; [done|]. rewrite IH. unfold receivers. destruct Hw; cbn; lia.
Qed.

Lemma client_step_receivers s s' :
  client_step (T := T) s s' -> receivers s' = receivers s /\ received s' = received s.
Proof.
  destruct 1 as [? ? ? ? ? ? ? ? ? ? ? ? E Hw| |? ? ? ? ? ? ? ? ? ? ? ? ? E Hw|? ? ? ? ? ? ? ? ? E| | |];
    try (unfold receivers; cbn; split; [lia|done]);
    pose proof (wakes_receivers _ _ _ Hw) as ->; by apply wakes_frame in Hw as (_ & _ & ->).
Qed.

(** A client neither closes the channel nor takes from its queue; on a closed
    channel it adds nothing. *)
Lemma client_step_chan s s' :
  client_step (T := T) s s' -> closed (chan s') = closed (chan s) /\
    (closed (chan s) = true -> queue (chan s') = queue (chan s)).
Proof.
  destruct 1 as [? ? ? ? ? ? ? ? ? ? ? ? E Hw| |? ? ? ? ? ? ? ? ? ? ? ? ? E Hw|? ? ? ? ? ? ? ? ? E| | |]; try done;
    apply wakes_frame in Hw as (-> & _ & _); cbn.
  - apply try_send_inv in E as [(_ & -> & Hc & _)|(e & _ & -> & _)]; [|done]. cbn. rewrite Hc. done.
  - apply submit_send in E as (r0 & E & _).
    apply send_inv in E as [(_ & -> & Hc & _)|(e & _ & -> & _)]; [|done]. cbn. rewrite Hc. done.
Qed.

(** ** The invariant *)

Record PoolInv (n : nat) (cap : Z) p : Prop := {
  inv_conserved : conserved cap (sys p);
  inv_wakeup : no_lost_wakeup (sys p);
  inv_received : received (sys p) ≡ₚ ran p ++ running p;
  inv_errors : errors p = filter (fun t => throws t = true) (ran p);
  inv_workers : (receivers (sys p) + length (running p) + exited p)%nat = n;
  inv_exited : (0 < exited p)%nat -> closed (chan (sys p)) = true /\ queue (chan (sys p)) = [];
  inv_closed : closed (chan (sys p)) = true <-> phase p = Joining \/ phase p = Returned;
  inv_returned : phase p = Returned -> exited p = n;
}.

Lemma PoolInv_init n cap : PoolInv n cap (make_pool n cap).
Proof.
  split; cbn; try done.
  - split_and!; [done..|]. unfold size. cbn. lia.
  - split; cbn; [lia|by intros []].
  - unfold receivers. cbn. lia.
  - lia.
  - split; [done|by intros []].
Qed.

Lemma PoolInv_worker n cap p p' : PoolInv n cap p -> worker_step throws p p' -> PoolInv n cap p'.
Proof.
  intros I Hs. pose proof (worker_step_channel _ _ Hs) as Hc.
  pose proof (conserved_step _ _ _ Hc (inv_conserved _ _ _ I)) as Hcons.
  pose proof (no_lost_wakeup_step _ _ Hc (inv_wakeup _ _ _ I)) as Hwake.
  destruct I as [_ _ Ir Ie Iw Ix Icl Iret]. destruct Hs as [p c sa sl ra rl se re o c' ns s' E Hr Hw|p l1 t l2 E].
  - rewrite E in *. cbn [received chan receivers rcv_awake rcv_asleep] in *.
    pose proof (wakes_receivers _ _ _ Hw) as Hrec. apply wakes_frame in Hw as (Hch & _ & Hre). cbn in Hch, Hre.
    unfold receivers in *. cbn in Hrec, Iw.
    apply recv_inv in Hr as Hok. destruct Hok as [(v & q & Eq & -> & -> & _)|(Eq & -> & -> & _)].
    + split; cbn; rewrite ?Hch, ?Hre; cbn; try done.
      * rewrite Ir. cbn. rewrite <- app_assoc. apply Permutation_app_head. by rewrite Permutation_app_comm.
      * unfold receivers. lia.
      * intros Hx. destruct (Ix Hx) as [_ Hq]. by rewrite Eq in Hq.
    + split; cbn; rewrite ?Hch, ?Hre; cbn; try done.
      * unfold receivers. lia.
      * intros _. split; [|done]. unfold recv, can_recv, size in Hr. rewrite Eq in Hr. cbn in Hr. by destruct (closed c).
      * intros Hret. apply Iret in Hret. lia.
  - split; cbn; try done.
    + rewrite Ir, E, <- app_assoc. apply Permutation_app_head. cbn. by rewrite Permutation_middle.
    + rewrite filter_app, Ie. cbn. destruct (throws t) eqn:Et; [by rewrite decide_True|by rewrite decide_False, app_nil_r].
    + rewrite E in Iw. rewrite length_app in *. cbn in Iw. unfold receivers in *. cbn. lia.
Qed.

Lemma PoolInv_step n cap p p' : PoolInv n cap p -> pool_step throws n p p' -> PoolInv n cap p'.
Proof.
  intros I Hs. destruct Hs as [p p' Hs|p s' Hs|p ph b E|p c sa sl ra rl se re c' ns s' Hp E Hc Hw|p Hp Hx].
  - by eapply PoolInv_worker.
  - pose proof (client_step_channel _ _ Hs) as Hc. destruct (client_step_receivers _ _ Hs) as [Hrec Hre].
    destruct (client_step_chan _ _ Hs) as [Hcl Hq]. destruct I. split; cbn; rewrite ?Hre, ?Hrec, ?Hcl; try done.
    + by eapply conserved_step.
    + by eapply no_lost_wakeup_step.
    + intros Hx. destruct (inv_exited0 Hx) as [? Hqe]. split; [done|]. by rewrite Hq.
  - destruct I. destruct (phase p) eqn:Ep; cbn in E; injection E as <- <-;
      (split; cbn; [done..| |]; [rewrite inv_closed0; naive_solver|naive_solver]).
  - assert (step (sys p) s') as Hst by (rewrite E; by eapply step_close).
    injection Hc as <- <-. pose proof (wakes_receivers _ _ _ Hw) as Hrec.
    apply wakes_frame in Hw as (Hch & Hse & Hre). cbn in Hch, Hse, Hre. destruct I. rewrite E in *.
    split; cbn; rewrite ?Hre, ?Hch; cbn; try done.
    + by eapply conserved_step.
    + by eapply no_lost_wakeup_step.
    + rewrite Hrec. done.
    + intros Hx. split; [done|]. by apply inv_exited0.
    + split; [by left|done].
  - destruct I. split; cbn; try done. rewrite inv_closed0, Hp. naive_solver.
Qed.

Lemma reachable_inv n cap p : pool_reachable throws n cap p -> PoolInv n cap p.
Proof. induction 1; [apply PoolInv_init|by eapply PoolInv_step]. Qed.

(** C17: under every interleaving of clients, workers and [shutdown]: closures
    are handed to the workers in the order they were accepted and none twice;
    what has finished or is running is exactly what was handed out; the
    exceptions reported are exactly those of finished closures that throw; and
    when [shutdown] has returned (with at least one worker) every accepted
    closure has run to its end exactly once and none is queued or running. *)
Theorem pool_runs_all n cap p :
  pool_reachable throws n cap p ->
  sent (sys p) = received (sys p) ++ queue (chan (sys p)) /\
  received (sys p) ≡ₚ ran p ++ running p /\
  errors p = filter (fun t => throws t = true) (ran p) /\
  (phase p = Returned -> (0 < n)%nat ->
     queue (chan (sys p)) = [] /\ running p = [] /\ ran p ≡ₚ sent (sys p)).
Proof.
  intros I%reachable_inv. destruct I. destruct inv_conserved0 as (_ & Es & _).
  split_and!; [done..|]. intros Hp Hn. pose proof (inv_returned0 Hp) as Hx.
  destruct (inv_exited0 ltac:(lia)) as [_ Hq]. assert (running p = []) as Hr.
  { destruct (running p); [done|]. cbn in inv_workers0. lia. }
  rewrite Es, Hq, inv_received0, Hr, !app_nil_r. done.
Qed.

(** ** Shutdown terminates *)

Definition measure p : nat := (3 * length (queue (chan (sys p))) + 2 * length (running p) + rcv_awake (sys p))%nat.

Lemma wakes_closed ns s s' :
  wakes (T := T) ns s s' -> rcv_asleep s = 0%nat -> (forall n, n ∈ ns -> n <> notify_all not_empty) ->
  rcv_awake s' = rcv_awake s.
Proof.
  induction 1 as [|n ns s s1 s2 Hw _ IH]; [done|]. intros Hz Hns.
  assert (rcv_awake s1 = rcv_awake s /\ rcv_asleep s1 = 0%nat) as [E1 E2].
  { destruct Hw; cbn in *; try done. by destruct (Hns (notify_all not_empty) ltac:(constructor)). }
  rewrite IH; [done|done|]. intros m Hm. apply Hns. by constructor.
Qed.

Lemma worker_step_decreases n cap p p' :
  PoolInv n cap p -> closed (chan (sys p)) = true -> worker_step throws p p' -> (measure p' < measure p)%nat.
Proof.
  intros I Hcl Hs. destruct Hs as [p c sa sl ra rl se re o c' ns s' E Hr Hw|p l1 t l2 E].
  - pose proof (inv_wakeup _ _ _ I) as Hn. rewrite E in Hn, Hcl. cbn in Hcl.
    destruct (closed_nobody_sleeps _ _ _ _ _ _ _ Hcl Hn) as [-> _].
    pose proof Hw as Hf. apply wakes_frame in Hf as (Hch & _ & _).
    unfold measure. rewrite E. cbn [rcv_awake chan].
    assert (rcv_awake s' = ra) as Ha.
    { apply wakes_closed in Hw; [done|done|]. intros m Hm.
      apply recv_inv in Hr as [(? & ? & _ & _ & _ & ->)|(_ & _ & _ & ->)]; [|by apply not_elem_of_nil in Hm].
      by apply list_elem_of_singleton in Hm as ->. }
    apply recv_inv in Hr as [(v & q & Eq & -> & -> & _)|(Eq & -> & -> & _)]; cbn [worker_take set_sys sys running chan]; cbn in Hch.
    + rewrite Hch, Ha, Eq. cbn. lia.
    + rewrite Hch, Ha, Eq. cbn. lia.
  - unfold measure. rewrite E. cbn. rewrite !length_app. cbn. lia.
Qed.

Lemma worker_step_phase p p' : worker_step throws p p' -> phase p' = phase p.
Proof. by destruct 1 as [? ? ? ? ? ? ? ? [] ? ? ?|]. Qed.

Lemma worker_progress n cap p :
  PoolInv n cap p -> closed (chan (sys p)) = true -> (exited p < n)%nat -> exists p', worker_step throws p p'.
Proof.
  intros I Hcl Hx. destruct (running p) as [|t l] eqn:Er; [|eexists; by apply (worker_done throws p [] t l)].
  pose proof (inv_workers _ _ _ I) as Hw. pose proof (inv_wakeup _ _ _ I) as Hn. rewrite Er in Hw.
  destruct (sys p) as [c sa sl ra rl se re] eqn:E. cbn in Hcl.
  destruct (closed_nobody_sleeps _ _ _ _ _ _ _ Hcl Hn) as [-> ->]. unfold receivers in Hw. cbn in Hw.
  destruct ra as [|ra]; [lia|].
  assert (recv c = Some (try_recv c)) as Hr by (unfold recv, can_recv; by rewrite Hcl, orb_true_r).
  destruct (try_recv c) as [[o c'] ns] eqn:Et.
  assert (exists s', wakes ns (mkSys c' sa [] ra 0 se (log_recv o re)) s') as [s' Hwk].
  { apply recv_inv in Hr as [(? & ? & _ & _ & _ & ->)|(_ & _ & _ & ->)]; eexists; [|constructor].
    eapply wakes_cons; [apply wake_send_none|constructor]. }
  eexists. by eapply worker_recv.
Qed.

(** C22: [shutdown] terminates: once the channel is closed, the workers can only
    take finitely many steps, whatever the order, and as long as one of them
    has not left its loop a worker can take a step; so the joins return. *)
Theorem shutdown_terminates n cap p :
  pool_reachable throws n cap p -> phase p = Joining ->
  Acc (fun b a => worker_step throws a b) p /\
  forall p', rtc (worker_step throws) p p' -> exited p' = n \/ exists p'', worker_step throws p' p''.
Proof.
  intros I%reachable_inv Hp.
  assert (closed (chan (sys p)) = true) as Hc by (apply (inv_closed _ _ _ I); by left). split.
  - remember (measure p) as k eqn:Ek. revert p Ek I Hp Hc.
    induction (lt_wf k) as [k _ IH]; intros p -> I Hp Hc. constructor. intros p' Hs.
    pose proof (PoolInv_worker _ _ _ _ I Hs) as I'. pose proof (worker_step_phase _ _ Hs) as Hp'. rewrite Hp in Hp'.
    apply (IH (measure p')); [by eapply worker_step_decreases|done|done|done|]. apply (inv_closed _ _ _ I'). by left.
  - intros p' Hr. induction Hr as [p|p p1 p' Hs Hr IH].
    + destruct (decide (exited p = n)) as [|Hx]; [by left|right].
      pose proof (inv_workers _ _ _ I). eapply worker_progress; [done|done|lia].
    + pose proof (PoolInv_worker _ _ _ _ I Hs) as I'. pose proof (worker_step_phase _ _ Hs) as Hp'. rewrite Hp in Hp'.
      apply IH; [done|done|]. apply (inv_closed _ _ _ I'). by left.
Qed.

End Props.

(** ** One worker, one closure that throws *)

Definition wit_throws (t : Z) : bool := t =? 7.
Definition wit_chan (q : list Z) (cl : bool) : Channel (T := Z) := mkChannel q 2 cl.
Definition wit_joining : Pool Z := mkPool (mkSys (wit_chan [] true) [] [] 0 0 [7] [7]) [7] 0 [] [] Joining.
Definition wit_returned : Pool Z := mkPool (mkSys (wit_chan [] true) [] [] 0 0 [7] [7]) [] 1 [7] [7] Returned.

Lemma wit_reach_joining : pool_reachable wit_throws 1 2 wit_joining.
Proof.
  eapply pool_next.
  2:{ eapply (pool_close _ _ (mkPool (mkSys (wit_chan [] false) [] [] 0 0 [7] [7]) [7] 0 [] [] Exchanged));
        [done..|]. eapply wakes_cons; [apply wake_all_recv|]. eapply wakes_cons; [apply wake_all_send|constructor]. }
  eapply pool_next.
  2:{ by eapply (pool_shutdown _ _ (mkPool (mkSys (wit_chan [] false) [] [] 0 0 [7] [7]) [7] 0 [] [] Open)). }
  eapply pool_next.
  2:{ apply pool_worker. eapply (worker_recv _ (mkPool (mkSys (wit_chan [7] false) [] [] 1 0 [7] []) [] 0 [] [] Open)
          _ _ _ _ _ _ _ (Some 7) _ _ (mkSys (wit_chan [] false) [] [] 0 0 [7] [7])); [done..|]. eapply wakes_cons; [apply wake_send_none|constructor]. }
  eapply pool_next; [apply pool_init|].
  apply (pool_client _ _ (make_pool 1 2) (mkSys (wit_chan [7] false) [] [] 1 0 [7] [])).
  eapply (client_spawn _ _ _ _ _ _ _ 7); [done|]. eapply wakes_cons; [apply wake_recv_none|constructor].
Qed.

Lemma wit_reach_returned : pool_reachable wit_throws 1 2 wit_returned.
Proof.
  eapply pool_next.
  2:{ by apply (pool_joined _ _ (mkPool (mkSys (wit_chan [] true) [] [] 0 0 [7] [7]) [] 1 [7] [7] Joining)). }
  eapply pool_next.
  2:{ apply pool_worker. eapply (worker_recv _ (mkPool (mkSys (wit_chan [] true) [] [] 1 0 [7] [7]) [] 0 [7] [7] Joining)
          _ _ _ _ _ _ _ None _ _ (mkSys (wit_chan [] true) [] [] 0 0 [7] [7])); [done..|constructor]. }
  eapply pool_next; [apply wit_reach_joining|].
  apply pool_worker, (worker_done wit_throws wit_joining [] 7 []). done.
Qed.

Lemma pool_runs_all_witness : phase wit_returned = Returned /\ ran wit_returned ≡ₚ sent (sys wit_returned) /\ errors wit_returned = [7].
Proof.
  destruct (pool_runs_all wit_throws 1 2 wit_returned wit_reach_returned) as (_ & _ & _ & H).
  destruct (H eq_refl ltac:(lia)) as (_ & _ & H'). by split_and!.
Defined.

Lemma shutdown_terminates_witness : Acc (fun b a => worker_step wit_throws a b) wit_joining.
Proof. apply (shutdown_terminates wit_throws 1 2 wit_joining); [apply wit_reach_joining|done]. Defined.

End PoolProps.
