(* ===== verification/Task.v ===== *)
(** * Task: [async/task.hpp]

    Coroutine frames with their promises, symmetric transfer, and the
    propagation of stop tokens along [co_await].  A coroutine body is a tree of
    its awaits; a machine runs frames the way the compiler's transformation
    does, one suspension or transfer per step.  Values are of one type [V];
    [A] names the leaf awaiters (sockets, timers), whose results come from the
    loop that resumes them; a leaf that is ready at once is one whose answer
    comes immediately. *)

From S2P Require Import Prelude Core World Combinators.

Module Task.
Import Combinators.

Section Frames.
Context {V A : Type}.

(** ** Bodies *)

(** [AwaitTask tok c k]: [co_await] a task with body [c] on which
    [set_cancellation(tok)] was called (the default token is [None]). *)
Inductive Body :=
| Return (v : V)
| Throw
| AwaitTask (tok : stop_token) (c : Body) (k : V -> Body)
| AwaitLeaf (a : A) (k : V -> Body).

(** ** Promises and frames *)

(** [stop_source]: [None] for [nostopstate], else whether stop was requested. *)
Record Promise := mkPromise {
  result : Result V; continuation : handle; stop_source : option bool; cancel_token : stop_token
}.

(** Where a frame is suspended. *)
Inductive Code :=
| Initial (b : Body)
| InTask (child : nat) (k : V -> Body)
| InLeaf (a : A) (k : V -> Body)
| Final.

Record Frame := mkFrame { promise : Promise; code : Code }.

Definition set_code (c : Code) (fr : Frame) : Frame := mkFrame (promise fr) c.
Definition set_promise (p : Promise) (fr : Frame) : Frame := mkFrame p (code fr).
Definition set_continuation (h : handle) (p : Promise) : Promise := mkPromise (result p) h (stop_source p) (cancel_token p).
Definition set_result (r : Result V) (p : Promise) : Promise := mkPromise r (continuation p) (stop_source p) (cancel_token p).

(** [get_return_object] and [initial_suspend]: a new frame has not started. *)
Definition new_frame (b : Body) : Frame := mkFrame (mkPromise (Err make_cancelled_error) None None None) (Initial b).

Definition unhandled : SystemError := make_error EPERM "unhandled exception".

Definition return_value (v : V) (p : Promise) : Promise := set_result (Ok v) p.
Definition unhandled_exception (p : Promise) : Promise := set_result (Err unhandled) p.

(** [FinalAwaiter::await_suspend]: the coroutine to continue with. *)
Definition final_await_suspend (p : Promise) : handle := continuation p.

Definition ensure_stop_state (p : Promise) : Promise :=
  match stop_source p with
  | Some _ => p
  | None => mkPromise (result p) (continuation p) (Some false) (cancel_token p)
  end.

Definition promise_request_stop (p : Promise) : Promise :=
  let p := ensure_stop_state p in mkPromise (result p) (continuation p) (Some true) (cancel_token p).

Definition promise_stop_token (p : Promise) : option bool * Promise :=
  let p := ensure_stop_state p in (stop_source p, p).

(** ** Tasks: handles to frames *)

#[local] Abbreviation Frames := (gmap nat Frame).

Definition done (fs : Frames) (h : nat) : option bool :=
  fr ← fs !! h; Some (match code fr with Final => true | _ => false end).

(** [Task::~Task] *)
Definition destroy (h : handle) (fs : Frames) : Frames := match h with Some f => delete f fs | None => fs end.

(** The default and the move constructor. *)
Definition no_handle : handle := None.
Definition task_move_construct (other : handle) : handle * handle := (other, None).

(** [operator=(Task&&)]: the handles of the target and of the source. *)
Definition task_move_assign (self other : handle) (fs : Frames) : handle * handle * Frames :=
  (other, None, destroy self fs).

Definition task_await_ready (h : handle) (fs : Frames) : option bool :=
  match h with None => Some true | Some f => done fs f end.

(** [Task::await_suspend]: the coroutine to transfer to. *)
Definition task_await_suspend (h : nat) (cont : nat) (fs : Frames) : option (nat * Frames) :=
  fr ← fs !! h;
  Some (h, <[h := set_promise (set_continuation (Some cont) (promise fr)) fr]> fs).

(** [Task::await_resume]: dereferencing an error is undefined. *)
Definition task_await_resume (h : nat) (fs : Frames) : option V :=
  fr ← fs !! h; match result (promise fr) with Ok v => Some v | Err _ => None end.

Definition task_request_stop (h : handle) (fs : Frames) : option Frames :=
  match h with
  | None => Some fs
  | Some f => fr ← fs !! f; Some (<[f := set_promise (promise_request_stop (promise fr)) fr]> fs)
  end.

Definition task_set_cancellation (h : handle) (t : stop_token) (fs : Frames) : option Frames :=
  match h with
  | None => Some fs
  | Some f =>
    fr ← fs !! f;
    Some (<[f := set_promise (mkPromise (result (promise fr)) (continuation (promise fr)) (stop_source (promise fr)) t) fr]> fs)
  end.

(** [Task::stop_token]: the token, which is null for a task without frame. *)
Definition task_stop_token (h : handle) (fs : Frames) : option (option bool * Frames) :=
  match h with
  | None => Some (None, fs)
  | Some f =>
    fr ← fs !! f;
    let '(t, p) := promise_stop_token (promise fr) in Some (t, <[f := set_promise p fr]> fs)
  end.

(** [await_transform]: the token an awaited object ends up with, from its own
    token [t] and the promise of the awaiting frame. *)
Definition await_transform (p : Promise) (t : stop_token) : stop_token :=
  if has_value (cancel_token p) then cancel_token p else t.

(** ** Join handles *)

Definition join_done (h : handle) (fs : Frames) : option bool := task_await_ready h fs.

(** The move assignment of a join handle: it owns nothing, so the frame its
    target observed lives on. *)
Definition join_move_construct (other : handle) : handle * handle := (other, None).
Definition join_move_assign (self other : handle) : handle * handle := (other, None).

Definition join_request_stop (h : handle) (fs : Frames) : option Frames := task_request_stop h fs.

Definition join_await_ready (h : handle) (fs : Frames) : option bool := join_done h fs.

Definition join_await_suspend (h : handle) (cont : nat) (fs : Frames) : option (bool * Frames) :=
  d ← join_done h fs;
  if (d : bool) then Some (false, fs)
  else match h with None => Some (false, fs) | Some f => x ← task_await_suspend f cont fs; Some (true, x.2) end.

Definition no_task : SystemError := make_error EPERM "join handle has no task".

Definition join_await_resume (h : handle) (fs : Frames) : option (Result V) :=
  match h with None => Some (Err no_task) | Some f => fr ← fs !! f; Some (result (promise fr)) end.

(** ** The machine *)

(** [Exec f b]: frame [f] runs [b]; [Enter f]: transfer to [f]; [Idle]:
    returned to whoever called [resume]; [Fault]: undefined behaviour. *)
Inductive Control := Exec (f : nat) (b : Body) | Enter (f : nat) | Idle | Fault.

(** [waiting]: the handle the last leaf awaiter was suspended with; [log]: the
    leaf awaiters reached, with the token injected into each. *)
Record Machine := mkMachine {
  frames : Frames; next : nat; control : Control; waiting : handle; log : list (A * stop_token)
}.

Definition goto (c : Control) (fs : Frames) (m : Machine) : Machine := mkMachine fs (next m) c (waiting m) (log m).

(** [final_suspend] of frame [f] with promise [p]. *)
Definition finish (f : nat) (p : Promise) (m : Machine) : Machine :=
  goto (match final_await_suspend p with Some c => Enter c | None => Idle end)
    (<[f := mkFrame p Final]> (frames m)) m.

Definition exec (f : nat) (b : Body) (m : Machine) : Machine :=
  match frames m !! f with
  | None => goto Fault (frames m) m
  | Some fr =>
    let p := promise fr in
    match b with
    | Return v => finish f (return_value v p) m
    | Throw => finish f (unhandled_exception p) m
    | AwaitTask tok c k =>
      let g := next m in
      let child := mkFrame (mkPromise (Err make_cancelled_error) None None (await_transform p tok)) (Initial c) in
      let fs := <[g := child]> (<[f := mkFrame p (InTask g k)]> (frames m)) in
      match task_await_suspend g f fs with
      | Some (h, fs) => mkMachine fs (S g) (Enter h) (waiting m) (log m)
      | None => goto Fault fs m
      end
    | AwaitLeaf a k =>
      mkMachine (<[f := mkFrame p (InLeaf a k)]> (frames m)) (next m) Idle (Some f)
        (log m ++ [(a, await_transform p None)])
    end
  end.

Definition enter (f : nat) (m : Machine) : Machine :=
  match frames m !! f with
  | None => goto Fault (frames m) m
  | Some fr =>
    match code fr with
    | Initial b => goto (Exec f b) (frames m) m
    | InTask g k =>
      match task_await_resume g (frames m) with
      | Some v => goto (Exec f (k v)) (destroy (Some g) (frames m)) m
      | None => goto Fault (frames m) m
      end
    | InLeaf _ _ | Final => goto Fault (frames m) m
    end
  end.

(** The leaf awaiter of frame [f] was completed with [v] and the loop resumes
    its handle. *)
Definition resume_leaf (f : nat) (v : V) (m : Machine) : Machine :=
  match fr ← frames m !! f; match code fr with InLeaf _ k => Some k | _ => None end with
  | Some k => mkMachine (frames m) (next m) (Exec f (k v)) None (log m)
  | None => goto Fault (frames m) m
  end.

(** One step of the machine and of the loop that answers its leaf awaiters;
    [None] when there is nothing to do. *)
Definition drive (x : Machine * list V) : option (Machine * list V) :=
  let '(m, answers) := x in
  match control m with
  | Exec f b => Some (exec f b m, answers)
  | Enter f => Some (enter f m, answers)
  | Fault => None
  | Idle =>
    match waiting m, answers with
    | Some f, v :: answers => Some (resume_leaf f v m, answers)
    | _, _ => None
    end
  end.

Fixpoint drives (fuel : nat) (x : Machine * list V) : Machine * list V :=
  match fuel with
  | O => x
  | S fuel => match drive x with Some x => drives fuel x | None => x end
  end.

(** [Task::get], for tests: resume the root until it is done.  A task that
    waits for a leaf awaiter when it is resumed is outside its contract. *)
Definition get_no_handle : SystemError := make_error EPERM "task has no coroutine handle".

Fixpoint get_loop (fuel : nat) (f : nat) (m : Machine) : option (Result V) :=
  match fuel with
  | O => None
  | S fuel =>
    d ← done (frames m) f;
    if (d : bool) then join_await_resume (Some f) (frames m)
    else
      let '(m, _) := drives fuel (goto (Enter f) (frames m) m, []) in
      match control m with Idle => get_loop fuel f m | _ => None end
  end.

Definition get (fuel : nat) (h : handle) (m : Machine) : option (Result V) :=
  match h with None => Some (Err get_no_handle) | Some f => get_loop fuel f m end.

End Frames.
Arguments Body : clear implicits.
Arguments Machine : clear implicits.
Arguments Frame : clear implicits.
Arguments Promise : clear implicits.
End Task.
