(* ===== verification/TaskProps.v ===== *)
(** * TaskProps: symmetric transfer implements [co_await] as a call

    The frame machine of [Task.v] against direct style: awaiting a task runs its
    body to the end and continues with its value.  This is what lets the other
    files write coroutines as functions. *)

From S2P Require Import Prelude Core World Combinators Task.

Module TaskProps.
Import Combinators Task.

Section Props.
Context {V A : Type}.
Implicit Types b : Body V A.
Implicit Types m : Machine V A.

(** ** Direct style *)

(** How a body ends on a list of answers: with a value or an exception and the
    unused answers, waiting for another answer, or undefined. *)
Inductive Ending := Value (v : V) (rest : list V) | Exception (rest : list V) | Blocked | Undefined.

(** [tok]: the token in force; a body whose frame has none leaves the tasks it
    awaits the token they were given. *)
Fixpoint direct (tok : stop_token) (b : Body V A) (answers : list V) : list (A * stop_token) * Ending :=
  match b with
  | Return v => ([], Value v answers)
  | Throw => ([], Exception answers)
  | AwaitTask tok' c k =>
    let '(l, e) := direct (if has_value tok then tok else tok') c answers in
    match e with
    | Value v rest => let '(l', e) := direct tok (k v) rest in (l ++ l', e)
    | Exception _ => (l, Undefined)
    | Blocked | Undefined => (l, e)
    end
  | AwaitLeaf a k =>
    match answers with
    | [] => ([(a, tok)], Blocked)
    | v :: rest => let '(l, e) := direct tok (k v) rest in ((a, tok) :: l, e)
    end
  end.

(** ** Runs *)

Definition runs (x y : Machine V A * list V) : Prop := drive x = Some y.

Lemma rtc_drives x y : rtc runs x y -> drive y = None -> exists fuel, drives fuel x = y.
Proof.
  induction 1 as [x|x x1 y Hs _ IH]; intros Hy; [by exists O|].
  destruct (IH Hy) as [fuel E]. exists (S fuel). cbn. by rewrite Hs.
Qed.

Definition fresh m : Prop := forall g, (next m <= g)%nat -> frames m !! g = None.

Lemma fresh_lt m f fr : fresh m -> frames m !! f = Some fr -> (f < next m)%nat.
Proof.
  intros Hf E. destruct (decide (f < next m)%nat) as [|Hn]; [done|]. rewrite (Hf f) in E; [done|lia].
Qed.

(** What a frame that runs to the end leaves behind: the promise settled, the
    transfer to the continuation, every other frame as it was. *)
Definition settled (f : nat) (p : Promise V) m m' : Prop :=
  frames m' = <[f := mkFrame p Final]> (frames m) /\
  control m' = match continuation p with Some c => Enter c | None => Idle end /\
  waiting m' = None /\ (next m <= next m')%nat.

Definition outcome (f : nat) (p : Promise V) (e : Ending) m m' (answers' : list V) : Prop :=
  match e with
  | Value v rest => answers' = rest /\ settled f (return_value v p) m m'
  | Exception rest => answers' = rest /\ settled f (unhandled_exception p) m m'
  | Blocked => answers' = [] /\ control m' = Idle /\ is_Some (waiting m')
  | Undefined => control m' = Fault
  end.

Lemma fresh_settled f p m m' fr : fresh m -> frames m !! f = Some fr -> settled f p m m' -> fresh m'.
Proof.
  intros Hf Hfr (E & _ & _ & Hn) g Hg. pose proof (fresh_lt _ _ _ Hf Hfr).
  rewrite E, lookup_insert_ne by lia. apply Hf. lia.
Qed.

(** A run may start from a machine in which only frame [f] differs. *)
Lemma outcome_from f p e m0 m m' answers x :
  frames m0 = <[f := x]> (frames m) -> (next m <= next m0)%nat ->
  outcome f p e m0 m' answers -> outcome f p e m m' answers.
Proof.
  intros Ef En. assert (forall q, settled f q m0 m' -> settled f q m m') as Hs.
  { intros q (E1 & E2 & E3 & E4). rewrite Ef, insert_insert_eq in E1. split_and!; [done..|lia]. }
  destruct e; cbn; [intros []; auto..|done|done].
Qed.

(** The child frame of [AwaitTask], entered. *)
Lemma enter_child f fr m tok c k :
  control m = Exec f (AwaitTask tok c k) -> frames m !! f = Some fr -> fresh m ->
  let g := next m in
  let p := mkPromise (Err make_cancelled_error) (Some f) None (await_transform (promise fr) tok) in
  let m1 := mkMachine (<[g := mkFrame p (Initial c)]> (<[f := mkFrame (promise fr) (InTask g k)]> (frames m)))
              (S g) (Exec g c) (waiting m) (log m) in
  forall answers, rtc runs (m, answers) (m1, answers).
Proof.
  intros Hc Hf Hfresh g p m1 answers.
  eapply rtc_l. { unfold runs, drive. rewrite Hc. unfold exec. rewrite Hf. unfold task_await_suspend.
    rewrite lookup_insert_eq. cbn [mbind option_bind]. rewrite insert_insert_eq. reflexivity. }
  eapply rtc_l; [|reflexivity]. unfold runs, drive. cbn [control]. unfold enter. cbn [frames].
  rewrite lookup_insert_eq. reflexivity.
Qed.

(** Returning from a child [g] into its awaiting frame [f]. *)
Lemma enter_parent f g p q k fs n w l answers :
  f <> g -> fs !! g = None ->
  drive (mkMachine (<[g := mkFrame q Final]> (<[f := mkFrame p (InTask g k)]> fs)) n (Enter f) w l, answers) =
  match result q with
  | Ok v => Some (mkMachine (V := V) (A := A) (<[f := mkFrame p (InTask g k)]> fs) n (Exec f (k v)) w l, answers)
  | Err _ => Some (mkMachine (<[g := mkFrame q Final]> (<[f := mkFrame p (InTask g k)]> fs)) n Fault w l, answers)
  end.
Proof.
  intros Hne Hg. unfold drive. cbn [control]. unfold enter. cbn [frames].
  rewrite lookup_insert_ne, lookup_insert_eq by done. cbn [code]. unfold task_await_resume.
  rewrite lookup_insert_eq. cbn. destruct (result q); [|done]. unfold goto. cbn.
  rewrite delete_insert_id; [done|]. by rewrite lookup_insert_ne.
Qed.

(** ** The simulation *)

Lemma run_body b : forall f fr m answers,
  control m = Exec f b -> frames m !! f = Some fr -> fresh m -> waiting m = None ->
  let '(l, e) := direct (cancel_token (promise fr)) b answers in
  exists m' answers', rtc runs (m, answers) (m', answers') /\ log m' = log m ++ l /\
    outcome f (promise fr) e m m' answers'.
Proof.
  induction b as [v| |tok c IHc k IHk|a k IHk]; intros f fr m answers Hc Hf Hfresh Hw; cbn [direct];
    pose proof (fresh_lt _ _ _ Hfresh Hf) as Hlt.
  - exists (finish f (return_value v (promise fr)) m), answers. split.
    { apply rtc_once. unfold runs, drive. rewrite Hc. unfold exec. by rewrite Hf. }
    cbn. by rewrite app_nil_r.
  - exists (finish f (unhandled_exception (promise fr)) m), answers. split.
    { apply rtc_once. unfold runs, drive. rewrite Hc. unfold exec. by rewrite Hf. }
    cbn. by rewrite app_nil_r.
  - pose proof (enter_child f fr m tok c k Hc Hf Hfresh) as Henter. cbn in Henter.
    set (g := next m) in *. set (p := mkPromise _ _ _ _) in *. set (m1 := mkMachine _ _ _ _ _) in *.
    assert (f <> g) as Hne by lia.
    assert (frames m !! g = None) as Hg by (by apply Hfresh).
    specialize (IHc g (mkFrame p (Initial c)) m1 answers eq_refl ltac:(apply lookup_insert_eq)).
    cbn [promise cancel_token p] in IHc. change (await_transform (promise fr) tok)
      with (if has_value (cancel_token (promise fr)) then cancel_token (promise fr) else tok) in IHc.
    destruct (direct _ c answers) as [l e]. destruct IHc as (m2 & an2 & R2 & L2 & O2); [|done|].
    { intros x Hx. cbn in Hx |- *. rewrite !lookup_insert_ne by lia.
      apply Hfresh. lia. }
    assert (rtc runs (m, answers) (m2, an2)) as R by (etrans; [apply Henter|exact R2]).
    destruct e as [v rest|rest| |]; cbn [outcome] in O2.
    + destruct O2 as (-> & Efr & Ect & Ew & En). cbn in Ect, En, Efr. rewrite insert_insert_eq in Efr.
      set (m3 := mkMachine (<[f := mkFrame (promise fr) (InTask g k)]> (frames m)) (next m2) (Exec f (k v)) None (log m2)).
      assert (runs (m2, rest) (m3, rest)) as R3.
      { unfold runs. destruct m2 as [fs2 n2 c2 w2 l2]. cbn in Efr, Ect, Ew. subst. by rewrite enter_parent. }
      specialize (IHk v f (mkFrame (promise fr) (InTask g k)) m3 rest eq_refl ltac:(apply lookup_insert_eq)).
      cbn [promise] in IHk. destruct (direct _ (k v) rest) as [l' e']. destruct IHk as (m4 & an4 & R4 & L4 & O4); [|done|].
      { intros x Hx. cbn in Hx |- *. rewrite lookup_insert_ne by lia.
        apply Hfresh. lia. }
      exists m4, an4. split; [etrans; [exact R|]; by eapply rtc_l|]. split; [rewrite L4; cbn; by rewrite L2, <- app_assoc|].
      eapply (outcome_from f _ _ m3); [done|cbn; lia|exact O4].
    + destruct O2 as (-> & Efr & Ect & Ew & En). cbn in Ect, En, Efr. rewrite insert_insert_eq in Efr.
      destruct m2 as [fs2 n2 c2 w2 l2]. cbn in Efr, Ect, Ew. subst. eexists _, rest. split.
      { eapply rtc_r; [exact R|]. unfold runs. rewrite enter_parent by done. cbn. reflexivity. }
      by cbn.
    + by exists m2, an2.
    + by exists m2, an2.
  - set (m1 := mkMachine (<[f := mkFrame (promise fr) (InLeaf a k)]> (frames m)) (next m) Idle (Some f)
        (log m ++ [(a, cancel_token (promise fr))])).
    assert (runs (m, answers) (m1, answers)) as R1.
    { unfold runs, drive. rewrite Hc. unfold exec, await_transform. rewrite Hf. by destruct (cancel_token (promise fr)). }
    destruct answers as [|v rest]; [by exists m1, []; split; [by apply rtc_once|cbn; eauto]|].
    set (m2 := mkMachine (frames m1) (next m) (Exec f (k v)) None (log m1)).
    assert (runs (m1, v :: rest) (m2, rest)) as R2.
    { unfold runs, drive. cbn. unfold resume_leaf. cbn. by rewrite lookup_insert_eq. }
    specialize (IHk v f (mkFrame (promise fr) (InLeaf a k)) m2 rest eq_refl ltac:(apply lookup_insert_eq)).
    cbn [promise] in IHk. destruct (direct _ (k v) rest) as [l e]. destruct IHk as (m3 & an3 & R3 & L3 & O3); [|done|].
    { intros x Hx. cbn in Hx |- *. rewrite lookup_insert_ne by lia. by apply Hfresh. }
    exists m3, an3. split; [by eapply rtc_l, rtc_l|]. split; [rewrite L3; cbn; by rewrite <- app_assoc|].
    eapply (outcome_from f _ _ m2); [done|cbn; lia|exact O3].
Qed.

(** ** A task run by the loop *)

(** A task with body [b] and injected token [tok], about to be resumed. *)
Definition start (tok : stop_token) (b : Body V A) : Machine V A :=
  mkMachine {[ O := mkFrame (mkPromise (Err make_cancelled_error) None None tok) (Initial b) ]} 1 (Enter O) None [].

Lemma run_direct tok b answers :
  exists fuel m' answers', drives fuel (start tok b, answers) = (m', answers') /\ drive (m', answers') = None /\
    let '(l, e) := direct tok b answers in
    log m' = l /\
    match e with
    | Value v rest => answers' = rest /\ control m' = Idle /\ waiting m' = None /\
        frames m' = {[ O := mkFrame (mkPromise (Ok v) None None tok) Final ]}
    | Exception rest => answers' = rest /\ control m' = Idle /\ waiting m' = None /\
        frames m' = {[ O := mkFrame (mkPromise (Err unhandled) None None tok) Final ]}
    | Blocked => answers' = [] /\ control m' = Idle /\ is_Some (waiting m')
    | Undefined => control m' = Fault
    end.
Proof.
  set (fr := mkFrame (mkPromise (Err make_cancelled_error) None None tok) (Initial b)).
  set (m1 := mkMachine {[ O := fr ]} 1 (Exec O b) None []).
  assert (runs (start tok b, answers) (m1, answers)) as R1.
  { unfold runs, drive, start. cbn [control]. unfold enter. cbn [frames]. by rewrite lookup_singleton_eq. }
  pose proof (run_body b O fr m1 answers eq_refl ltac:(apply lookup_singleton_eq)) as H.
  cbn [promise cancel_token fr] in H. destruct (direct tok b answers) as [l e].
  destruct H as (m' & an' & R & L & O1); [intros [|g] Hx; cbn in Hx; [lia|by apply lookup_singleton_ne]|done|].
  assert (drive (m', an') = None) as Hend.
  { unfold drive. destruct e; cbn [outcome settled] in O1.
    - destruct O1 as (_ & _ & -> & -> & _). done.
    - destruct O1 as (_ & _ & -> & -> & _). done.
    - destruct O1 as (-> & -> & [? ->]). done.
    - by rewrite O1. }
  destruct (rtc_drives _ _ (rtc_l _ _ _ _ R1 R) Hend) as [fuel Hd].
  exists fuel, m', an'. split_and!; [done|done|done|].
  destruct e; cbn [outcome] in O1; [destruct O1 as (-> & Ef & -> & -> & _)..|done|done];
    split_and!; try done; rewrite Ef; cbn; by rewrite insert_singleton_eq.
Qed.

(** C14: symmetric transfer implements [co_await] as a call.  Running a task on
    the frame machine, with the loop answering its leaf awaiters, stops after
    finitely many steps and does what the body means in direct style: the same
    leaf awaiters are reached in the same order, each with the token of the
    cancellation root (or, below a frame without one, the token its task was
    given); at the end the root holds the value or the unhandled-exception
    error and every other frame has been destroyed; a task that waits for an
    answer is suspended in exactly one leaf; and the behaviour is undefined
    exactly when an awaited child ends with an exception. *)
Theorem co_await_is_a_call tok b answers :
  exists fuel m' answers', drives fuel (start tok b, answers) = (m', answers') /\ drive (m', answers') = None /\
    let '(l, e) := direct tok b answers in
    log m' = l /\
    match e with
    | Value v rest => answers' = rest /\ control m' = Idle /\ waiting m' = None /\
        frames m' = {[ O := mkFrame (mkPromise (Ok v) None None tok) Final ]}
    | Exception rest => answers' = rest /\ control m' = Idle /\ waiting m' = None /\
        frames m' = {[ O := mkFrame (mkPromise (Err unhandled) None None tok) Final ]}
    | Blocked => answers' = [] /\ control m' = Idle /\ is_Some (waiting m')
    | Undefined => control m' = Fault
    end.
Proof. apply run_direct. Qed.

End Props.

(** Awaiting a task that awaits a leaf: the leaf gets the root's token. *)
Example nested_run :
  (drives 20 (start (Some 3%nat) (AwaitTask None (AwaitLeaf true (fun v => Return (v + 1))) (fun v => Return (2 * v))), [20])).1
  = mkMachine {[ O := mkFrame (mkPromise (Ok 42) None None (Some 3%nat)) Final ]} 2 Idle None [(true, Some 3%nat)].
Proof. vm_compute. reflexivity. Qed.

End TaskProps.
