(* ===== verification/Sched.v ===== *)
(** * Sched: coroutine frames on an event loop

    [Task.v] runs one task at a time; here several tasks live on one loop
    ([async/event_loop.hpp]): their frames share the memory, [spawn] takes
    ownership and queues a task, the completion of a leaf awaiter queues the
    coroutine that waits in it, and each turn of [run] resumes the queue in order
    and destroys the tasks that are done. *)

From S2P Require Import Prelude Core World Combinators Task.

Module Sched.
Import Combinators Task.

Section Sched.
Context {V A : Type}.

(** [owned]: the handles in [owned_tasks_]; [ready]: [ready_queue_]; [results]:
    what [await_resume] of a completed leaf awaiter will give its frame. *)
Record Sched := mkSched { machine : Machine V A; owned : list nat; ready : list nat; results : gmap nat V }.

Definition init : Sched := mkSched (mkMachine ∅ 0 Idle None []) [] [] ∅.

Definition set_machine (m : Machine V A) (s : Sched) : Sched := mkSched m (owned s) (ready s) (results s).
Definition set_ready (q : list nat) (s : Sched) : Sched := mkSched (machine s) (owned s) q (results s).

(** A task is created with body [b], given the token [tok] with
    [set_cancellation] (or none), and spawned. *)
Definition spawn (tok : stop_token) (b : Body V A) (s : Sched) : Sched :=
  let m := machine s in
  let r := next m in
  let fr := mkFrame (mkPromise (Err make_cancelled_error) None None tok) (Initial b) in
  mkSched (mkMachine (<[r := fr]> (frames m)) (S r) (control m) (waiting m) (log m)) (owned s ++ [r]) (ready s ++ [r]) (results s).

(** The frame in which the task [r] waits: [r] itself, or the innermost of the
    tasks it awaits. *)
Fixpoint leaf_of (fuel : nat) (fs : gmap nat (Frame V A)) (r : nat) : option nat :=
  match fuel with
  | O => None
  | S fuel =>
    fr ← fs !! r;
    match code fr with
    | InTask g _ => leaf_of fuel fs g
    | InLeaf _ _ => Some r
    | Initial _ | Final => None
    end
  end.

(** The leaf awaiter that task [r] waits for completes with [v], and reactor,
    timer or a stop callback queues its coroutine. *)
Definition complete (r : nat) (v : V) (s : Sched) : option Sched :=
  let m := machine s in
  f ← leaf_of (next m) (frames m) r;
  if decide (f ∈ ready s) then None else Some (mkSched m (owned s) (ready s ++ [f]) (<[f := v]> (results s))).

(** [h.resume()]: the coroutine runs until it suspends or its task is done. *)
Definition resume (fuel : nat) (h : nat) (s : Sched) : option Sched :=
  let m := machine s in
  fr ← frames m !! h;
  let m := match code fr, results s !! h with
           | InLeaf _ _, Some v => resume_leaf h v m
           | _, _ => goto (Enter h) (frames m) m
           end in
  let m := (drives fuel (m, [])).1 in
  match control m with Idle => Some (set_machine m s) | _ => None end.

(** The first step of [run]: the handles that are not done, in order. *)
Fixpoint resume_all (fuel : nat) (scratch : list nat) (s : Sched) : option Sched :=
  match scratch with
  | [] => Some s
  | h :: scratch =>
    d ← done (frames (machine s)) h;
    s ← (if (d : bool) then Some s else resume fuel h s);
    resume_all fuel scratch s
  end.

(** [cleanup_completed]: destroying an owned task destroys its frame. *)
Fixpoint erase_done (ts : list nat) (fs : gmap nat (Frame V A)) : option (list nat * gmap nat (Frame V A)) :=
  match ts with
  | [] => Some ([], fs)
  | t :: ts =>
    d ← done fs t;
    r ← erase_done ts (if (d : bool) then destroy (Some t) fs else fs);
    Some (if (d : bool) then r.1 else t :: r.1, r.2)
  end.

Definition cleanup_completed (s : Sched) : option Sched :=
  r ← erase_done (owned s) (frames (machine s));
  Some (mkSched (goto Idle r.2 (machine s)) r.1 (ready s) (results s)).

Definition turn (fuel : nat) (s : Sched) : option Sched :=
  s ← resume_all fuel (ready s) (set_ready [] s);
  cleanup_completed s.

End Sched.
Arguments Sched : clear implicits.
End Sched.
