(* ===== verification/SchedProps.v ===== *)
(** * SchedProps: tasks on a loop do not interfere

    Each task on the loop of [Sched.v] computes what its body means in direct
    style on the answers of its own leaf awaiters, however the tasks are
    interleaved.  First the meaning of a task between two resumptions, as the
    stack of its awaiting frames; then the frames that represent it. *)

From S2P Require Import Prelude Core World Combinators Task TaskProps Sched.

Module SchedProps.
Import Combinators Task TaskProps Sched.

Section Props.
Context {V A : Type}.
Implicit Types b : Body V A.
Implicit Types m : Machine V A.
Implicit Types fs : gmap nat (Frame V A).

(** ** Suspended computations *)

(** The frames above the waiting one, innermost first: token and continuation. *)
#[local] Abbreviation Stack := (list (stop_token * (V -> Body V A))).

Inductive Susp :=
| Finished (v : V)
| Threw
| Undef
| Wait (a : A) (tok : stop_token) (k : V -> Body V A) (st : Stack).

(** Running a body until it waits. *)
Fixpoint susp (tok : stop_token) b : Susp :=
  match b with
  | Return v => Finished v
  | Throw => Threw
  | AwaitTask tok' c k =>
    match susp (if has_value tok then tok else tok') c with
    | Finished v => susp tok (k v)
    | Threw | Undef => Undef
    | Wait a tok1 k1 st => Wait a tok1 k1 (st ++ [(tok, k)])
    end
  | AwaitLeaf a k => Wait a tok k []
  end.

(** What becomes of a frame's end in the frames that await it. *)
Fixpoint unwind (s : Susp) (st : Stack) : Susp :=
  match st with
  | [] => s
  | (tok, k) :: st' =>
    match s with
    | Finished v => unwind (susp tok (k v)) st'
    | Threw | Undef => Undef
    | Wait a tok1 k1 st1 => Wait a tok1 k1 (st1 ++ st)
    end
  end.

Definition feed (v : V) (s : Susp) : Susp :=
  match s with Wait _ tok k st => unwind (susp tok (k v)) st | _ => s end.

Definition after (s : Susp) (answers : list V) : Susp := foldl (fun s v => feed v s) s answers.

(** *** Agreement with direct style *)

Fixpoint follow (s : Susp) (answers : list V) : list (A * stop_token) * Ending :=
  match s with
  | Finished v => ([], Value v answers)
  | Threw => ([], Exception answers)
  | Undef => ([], Undefined)
  | Wait a tok k st =>
    match answers with
    | [] => ([(a, tok)], Blocked)
    | v :: rest => let '(l, e) := follow (unwind (susp tok (k v)) st) rest in ((a, tok) :: l, e)
    end
  end.

(** Continuing with [k] in a frame with token [tok]. *)
Definition then_ (tok : stop_token) (k : V -> Body V A) (x : list (A * stop_token) * Ending) : list (A * stop_token) * Ending :=
  match x.2 with
  | Value v rest => let '(l', e) := direct tok (k v) rest in (x.1 ++ l', e)
  | Exception _ => (x.1, Undefined)
  | Blocked | Undefined => x
  end.

Lemma unwind_snoc s st x : unwind s (st ++ [x]) = unwind (unwind s st) [x].
Proof.
  induction st as [|[tok k] st IH] in s |- *; [done|]. cbn [app unwind]. destruct s as [v| | |a tok1 k1 st1].
  - by rewrite IH.
  - by destruct x.
  - by destruct x.
  - destruct x. cbn. by rewrite <- app_assoc.
Qed.

Lemma then_value tok k v rest : then_ tok k ([], Value v rest) = direct tok (k v) rest.
Proof. unfold then_. cbn. by destruct (direct tok (k v) rest). Qed.

Lemma then_cons tok k x l e : then_ tok k (x :: l, e) = (x :: (then_ tok k (l, e)).1, (then_ tok k (l, e)).2).
Proof. unfold then_. cbn. destruct e; try done. by destruct (direct tok (k v) rest). Qed.

Lemma follow_then tok k s answers :
  (forall v rest, follow (susp tok (k v)) rest = direct tok (k v) rest) ->
  follow (unwind s [(tok, k)]) answers = then_ tok k (follow s answers).
Proof.
  intros Hk. assert (forall v rest, follow (unwind (Finished v) [(tok, k)]) rest = then_ tok k (follow (Finished v) rest)) as Hv.
  { intros v rest. transitivity (direct tok (k v) rest); [apply Hk|]. destruct rest; symmetry; apply then_value. }
  induction answers as [|v answers IH] in s |- *; destruct s as [w| | |a tok1 k1 st1]; try done; try apply Hv.
  change (follow (unwind (Wait a tok1 k1 st1) [(tok, k)]) (v :: answers)) with
    (let '(l, e) := follow (unwind (susp tok1 (k1 v)) (st1 ++ [(tok, k)])) answers in ((a, tok1) :: l, e)).
  rewrite unwind_snoc, IH. cbn [follow]. destruct (follow _ answers) as [l e]. rewrite then_cons.
  by destruct (then_ tok k (l, e)).
Qed.

Lemma follow_direct b : forall tok answers, follow (susp tok b) answers = direct tok b answers.
Proof.
  induction b as [v| |tok' c IHc k IHk|a k IHk]; intros tok answers; cbn [susp direct]; try done.
  - by destruct answers.
  - by destruct answers.
  - rewrite <- IHc. set (s := susp _ c). transitivity (follow (unwind s [(tok, k)]) answers).
    { destruct s; done. }
    rewrite follow_then by auto. unfold then_. destruct (follow s answers) as [l e]. by destruct e.
  - destruct answers as [|v rest]; [done|]. cbn. by rewrite IHk.
Qed.

Lemma after_snoc s answers v : after s (answers ++ [v]) = feed v (after s answers).
Proof. unfold after. by rewrite foldl_app. Qed.

(** A computation that has taken [answers] and not ended waits, and one that has
    ended agrees with the direct style on them. *)
Definition ending (s : Susp) : Ending :=
  match s with Finished v => Value v [] | Threw => Exception [] | Undef => Undefined | Wait _ _ _ _ => Blocked end.

Definition waits (s : Susp) : bool := match s with Wait _ _ _ _ => true | _ => false end.

Fixpoint consumes (s : Susp) (answers : list V) : Prop :=
  match answers with [] => True | v :: rest => waits s = true /\ consumes (feed v s) rest end.

Lemma consumes_snoc s answers v : consumes s answers -> waits (after s answers) = true -> consumes s (answers ++ [v]).
Proof. induction answers as [|w answers IH] in s |- *; cbn; [done|]. intros [Hw Hc] Ha. split; [done|]. by apply IH. Qed.

Lemma follow_after s answers : consumes s answers -> (follow s answers).2 = ending (after s answers).
Proof.
  induction answers as [|v answers IH] in s |- *; [by destruct s|]. cbn [consumes]. intros [Hw Hc].
  destruct s as [w| | |a tok k st]; try done. specialize (IH _ Hc). cbn in IH |- *.
  by destruct (follow (unwind _ st) answers).
Qed.

(** ** The frames of a task *)

(** [seg fs g st fl f]: the frames [fl] from [g] up to [f], each awaited by the
    next, are the stack [st]. *)
Inductive seg fs : nat -> Stack -> list nat -> nat -> Prop :=
| seg_one f : seg fs f [] [f] f
| seg_up g fr p frp k st fl f :
    fs !! g = Some fr -> continuation (promise fr) = Some p -> fs !! p = Some frp -> code frp = InTask g k ->
    seg fs p st fl f -> seg fs g ((cancel_token (promise frp), k) :: st) (g :: fl) f.

Lemma seg_head fs g st fl f : seg fs g st fl f -> exists fl', fl = g :: fl'.
Proof. destruct 1; eauto. Qed.

Lemma seg_last fs g st fl f : seg fs g st fl f -> last fl = Some f.
Proof.
  induction 1 as [f|g fr p frp k st fl f _ _ _ _ Hs IH]; [done|]. destruct (seg_head _ _ _ _ _ Hs) as [fl' ->].
  by rewrite last_cons_cons.
Qed.

Lemma seg_in fs g st fl f : seg fs g st fl f -> g ∈ fl /\ f ∈ fl.
Proof.
  intros Hs. destruct (seg_head _ _ _ _ _ Hs) as [fl' ->]. split; [constructor|]. apply seg_last in Hs. by apply last_Some_elem_of in Hs.
Qed.

(** Only the frames listed matter. *)
Lemma seg_same fs fs' g st fl f : (forall h, h ∈ fl -> fs' !! h = fs !! h) -> seg fs g st fl f -> seg fs' g st fl f.
Proof.
  intros Hsame Hs. induction Hs as [f|g fr p frp k st fl f H1 H2 H3 H4 Hs IH]; [constructor|].
  econstructor; [|done| |done|].
  - rewrite Hsame; [done|constructor].
  - rewrite Hsame; [done|]. constructor. by destruct (seg_in _ _ _ _ _ Hs).
  - apply IH. intros h Hh. apply Hsame. by constructor.
Qed.

Lemma seg_snoc fs x st fl g frg f frf k :
  seg fs x st fl g -> fs !! g = Some frg -> continuation (promise frg) = Some f -> fs !! f = Some frf -> code frf = InTask g k ->
  seg fs x (st ++ [(cancel_token (promise frf), k)]) (fl ++ [f]) f.
Proof.
  intros Hs Hg Hc Hf Hk. induction Hs as [g|y fr p frp k' st fl g H1 H2 H3 H4 Hs IH]; cbn.
  - econstructor; [done..|]. constructor.
  - econstructor; [done..|]. by apply IH.
Qed.

Lemma seg_app fs x st fl f st' fl' r :
  seg fs x st fl f -> seg fs f st' (f :: fl') r -> seg fs x (st ++ st') (fl ++ fl') r.
Proof.
  intros Hs Hr. induction Hs as [f|y fr p frp k' st fl f H1 H2 H3 H4 Hs IH]; cbn; [done|].
  econstructor; [done..|]. by apply IH.
Qed.

(** ** Running a frame until it waits or ends *)

(** The end of frame [f]: as [settled], whatever waited before. *)
Definition ends (f : nat) (p : Promise V) m m' : Prop :=
  frames m' = <[f := mkFrame p Final]> (frames m) /\
  control m' = match continuation p with Some c => Enter c | None => Idle end /\
  waiting m' = waiting m.

(** Frame [f], and below it new frames only, wait in a leaf awaiter. *)
Definition suspended (f : nat) (p : Promise V) (a : A) (tok : stop_token) (k : V -> Body V A) (st : Stack) m m' : Prop :=
  exists g frg fl ff, control m' = Idle /\ waiting m' = Some g /\ seg (frames m') g st fl f /\
    frames m' !! g = Some frg /\ code frg = InLeaf a k /\ cancel_token (promise frg) = tok /\
    frames m' !! f = Some ff /\ promise ff = p /\
    (forall h, h ∈ fl -> h <> f -> (next m <= h < next m')%nat) /\ NoDup fl /\
    (forall h, h ∉ fl -> frames m' !! h = frames m !! h).

Definition reaches (f : nat) (p : Promise V) (s : Susp) m m' : Prop :=
  match s with
  | Finished v => ends f (return_value v p) m m'
  | Threw => ends f (unhandled_exception p) m m'
  | Undef => control m' = Fault
  | Wait a tok k st => suspended f p a tok k st m m'
  end.

(** A run that needs no answer. *)
Definition runs_on m m' : Prop := forall answers, rtc runs (m, answers) (m', answers).

Lemma runs_on_trans m1 m2 m3 : runs_on m1 m2 -> runs_on m2 m3 -> runs_on m1 m3.
Proof. intros H1 H2 an. etrans; [apply H1|apply H2]. Qed.

Lemma runs_on_once m m' : (forall answers, drive (m, answers) = Some (m', answers)) -> runs_on m m'.
Proof. intros H an. apply rtc_once, H. Qed.

(** A run may start from a machine in which only frame [f] differs. *)
Lemma reaches_from f p s m0 m m' x :
  frames m0 = <[f := x]> (frames m) -> (next m <= next m0)%nat -> waiting m0 = waiting m -> reaches f p s m0 m' -> reaches f p s m m'.
Proof.
  intros Ef En Ew. assert (forall q, ends f q m0 m' -> ends f q m m') as He.
  { intros q (E1 & E2 & E3). split_and!; [by rewrite E1, Ef, insert_insert_eq|done|congruence]. }
  destruct s as [v| | |a tok k st]; cbn; [apply He..|done|].
  intros (g & frg & fl & ff & H1 & Hw & Hs & H3 & H4 & H5 & H6 & H7 & H8 & H9 & H10). exists g, frg, fl, ff.
  split_and!; try done.
  - intros h Hh Hn. specialize (H8 h Hh Hn). lia.
  - intros h Hh. rewrite H10, Ef by done. rewrite lookup_insert_ne; [done|]. intros <-. apply Hh. by apply (seg_in _ _ _ _ _ Hs).
Qed.

(** The names grow and stay fresh, unless the behaviour is undefined. *)
Definition grown m m' : Prop := (next m <= next m')%nat /\ fresh m'.

Lemma grown_insert f fr x m c w l :
  fresh m -> frames m !! f = Some fr -> grown m (mkMachine (<[f := x]> (frames m)) (next m) c w l).
Proof.
  intros Hfresh Hf. pose proof (fresh_lt _ _ _ Hfresh Hf). split; [done|]. intros g Hg. cbn in Hg |- *.
  rewrite lookup_insert_ne by lia. by apply Hfresh.
Qed.

(** The body returns or throws. *)
Lemma run_finish f fr m p :
  (forall answers, drive (m, answers) = Some (finish f p m, answers)) -> frames m !! f = Some fr -> fresh m ->
  exists m', runs_on m m' /\ ends f p m m' /\ (control m' = Fault \/ grown m m').
Proof.
  intros Hd Hf Hfresh. exists (finish f p m). split_and!; [by apply runs_on_once|done|]. right. by eapply grown_insert.
Qed.

(** The body awaits a leaf. *)
Lemma run_leaf f fr m a k :
  control m = Exec f (AwaitLeaf a k) -> frames m !! f = Some fr -> fresh m ->
  exists m', runs_on m m' /\ suspended f (promise fr) a (cancel_token (promise fr)) k [] m m' /\ (control m' = Fault \/ grown m m').
Proof.
  intros Hc Hf Hfresh. set (fr' := mkFrame (promise fr) (InLeaf a k)).
  exists (mkMachine (<[f := fr']> (frames m)) (next m) Idle (Some f) (log m ++ [(a, cancel_token (promise fr))])). split_and!.
  - apply runs_on_once. intros an. unfold drive. rewrite Hc. unfold exec, await_transform. rewrite Hf. by destruct (cancel_token (promise fr)).
  - exists f, fr', [f], fr'. pose proof (lookup_insert_eq (frames m) f fr') as E. split_and!; try done.
    + constructor.
    + intros h ->%list_elem_of_singleton. done.
    + apply NoDup_singleton.
    + intros h Hh. cbn. rewrite lookup_insert_ne; [done|]. intros <-. apply Hh. constructor.
  - right. by eapply grown_insert.
Qed.

(** The frame [f] waits in the task whose frame [g] is new, and that waits. *)
Lemma suspended_child f (fr : Frame V A) k g q m1 a tok' k' st m m2 :
  g = next m -> next m1 = S g -> frames m1 = <[g := q]> (<[f := mkFrame (promise fr) (InTask g k)]> (frames m)) ->
  (f < g)%nat -> (S g <= next m2)%nat -> continuation (promise q) = Some f ->
  suspended g (promise q) a tok' k' st m1 m2 ->
  suspended f (promise fr) a tok' k' (st ++ [(cancel_token (promise fr), k)]) m m2.
Proof.
  intros -> En Ef Hlt Hn Hq (x & frx & fl & fg & Hi & Hwx & Hs & Hx & Hcx & Htx & Hfg & Hpg & Hnew & Hnd & Hsame).
  rewrite En in Hnew. rewrite Ef in Hsame. set (g := next m) in *.
  assert (f ∉ fl) as Hnf. { intros Hin. specialize (Hnew f Hin ltac:(lia)). lia. }
  assert (frames m2 !! f = Some (mkFrame (promise fr) (InTask g k))) as Hf2.
  { rewrite Hsame by done. rewrite lookup_insert_ne by lia. apply lookup_insert_eq. }
  exists x, frx, (fl ++ [f]), (mkFrame (promise fr) (InTask g k)). split_and!; try done.
  - by eapply (seg_snoc _ _ _ _ g fg f (mkFrame (promise fr) (InTask g k))); [done|done|by rewrite Hpg|..].
  - intros h Hh Hnh. apply elem_of_app in Hh as [Hh|Hh%list_elem_of_singleton]; [|done].
    destruct (decide (h = g)) as [->|Hng]; [lia|]. specialize (Hnew h Hh Hng). lia.
  - apply NoDup_app. split; [done|]. split; [|apply NoDup_singleton]. intros y Hy ->%list_elem_of_singleton. done.
  - intros h Hh. rewrite elem_of_app, list_elem_of_singleton in Hh.
    assert (h <> g). { intros ->. apply Hh. left. by apply (seg_in _ _ _ _ _ Hs). }
    rewrite Hsame by naive_solver. rewrite !lookup_insert_ne by naive_solver. done.
Qed.

Lemma run_susp b : forall f fr m,
  control m = Exec f b -> frames m !! f = Some fr -> fresh m ->
  exists m', runs_on m m' /\ reaches f (promise fr) (susp (cancel_token (promise fr)) b) m m' /\
    (control m' = Fault \/ grown m m').
Proof.
  induction b as [v| |tok c IHc k IHk|a k IHk]; intros f fr m Hc Hf Hfresh; cbn [susp]; pose proof (fresh_lt _ _ _ Hfresh Hf) as Hlt.
  - eapply run_finish; [|done..]. intros an. unfold drive. rewrite Hc. unfold exec. by rewrite Hf.
  - eapply run_finish; [|done..]. intros an. unfold drive. rewrite Hc. unfold exec. by rewrite Hf.
  - pose proof (enter_child f fr m tok c k Hc Hf Hfresh) as Henter. cbn in Henter.
    set (g := next m) in *. set (p := mkPromise _ _ _ _) in *. set (m1 := mkMachine _ _ _ _ _) in *.
    assert (f <> g) as Hne by lia. assert (frames m !! g = None) as Hg by (by apply Hfresh).
    destruct (IHc g (mkFrame p (Initial c)) m1 eq_refl ltac:(apply lookup_insert_eq)) as (m2 & R2 & O2 & G2).
    { intros x Hx. cbn in Hx |- *. rewrite !lookup_insert_ne by lia. apply Hfresh. lia. }
    cbn [promise cancel_token p] in O2. change (await_transform (promise fr) tok)
      with (if has_value (cancel_token (promise fr)) then cancel_token (promise fr) else tok) in O2.
    assert (runs_on m m2) as R by (eapply runs_on_trans; [exact Henter|exact R2]).
    destruct (susp _ c) as [v| | |a1 tok1 k1 st1]; cbn [reaches] in O2.
    + destruct O2 as (Efr & Ect & Ewt). cbn in Ect, Efr, Ewt. rewrite insert_insert_eq in Efr.
      destruct G2 as [?|[Hn Hfr2]]; [congruence|]. cbn in Hn.
      set (m3 := mkMachine (<[f := mkFrame (promise fr) (InTask g k)]> (frames m)) (next m2) (Exec f (k v)) (waiting m2) (log m2)).
      assert (runs_on m2 m3) as R3.
      { apply runs_on_once. intros an. destruct m2 as [fs2 n2 c2 w2 l2]. cbn in Efr, Ect. subst. by rewrite enter_parent. }
      destruct (IHk v f (mkFrame (promise fr) (InTask g k)) m3 eq_refl ltac:(apply lookup_insert_eq)) as (m4 & R4 & O4 & G4).
      { intros x Hx. cbn in Hx |- *. rewrite lookup_insert_ne by lia. apply Hfresh. lia. }
      exists m4. split; [by eapply runs_on_trans, runs_on_trans|]. cbn [promise] in O4. split.
      * eapply (reaches_from f _ _ m3); [done|cbn; lia|exact Ewt|exact O4].
      * destruct G4 as [?|[Hn4 ?]]; [by left|]. right. split; [cbn in Hn4; lia|done].
    + destruct O2 as (Efr & Ect & _). cbn in Ect, Efr. rewrite insert_insert_eq in Efr.
      destruct m2 as [fs2 n2 c2 w2 l2]. cbn in Efr, Ect. subst. eexists. split.
      { eapply runs_on_trans; [exact R|]. apply runs_on_once. intros an. rewrite enter_parent by done. cbn. reflexivity. }
      split; [done|by left].
    + exists m2. split_and!; [done|done|by left].
    + destruct G2 as [?|[Hn Hfr2]]; [destruct O2 as (? & ? & ? & ? & ? & _); congruence|]. cbn in Hn.
      exists m2. split; [done|]. split; [|right; split; [lia|done]].
      eapply (suspended_child f fr k g (mkFrame p (Initial c)) m1); try done; lia.
  - by apply run_leaf.
Qed.

(** ** Resuming a task *)

(** The frames [fl] are those of task [r] in the state [s]. *)
Definition holds (r : nat) (s : Susp) (fl : list nat) fs : Prop :=
  match s with
  | Finished v => fl = [r] /\ exists fr, fs !! r = Some fr /\ code fr = Final /\ result (promise fr) = Ok v
  | Threw => fl = [r] /\ exists fr, fs !! r = Some fr /\ code fr = Final /\ result (promise fr) = Err unhandled
  | Undef => False
  | Wait a tok k st => NoDup fl /\ exists g frg fr, seg fs g st fl r /\ fs !! g = Some frg /\ code frg = InLeaf a k /\
      cancel_token (promise frg) = tok /\ fs !! r = Some fr /\ continuation (promise fr) = None
  end.

Lemma holds_same r s fl fs fs' : (forall h, h ∈ fl -> fs' !! h = fs !! h) -> holds r s fl fs -> holds r s fl fs'.
Proof.
  intros Hsame. destruct s as [v| | |a tok k st]; cbn; [| |done|].
  - intros [-> ?]. split; [done|]. by rewrite Hsame by constructor.
  - intros [-> ?]. split; [done|]. by rewrite Hsame by constructor.
  - intros (Hnd & g & frg & fr & Hs & Hg & ? & ? & Hr & ?). destruct (seg_in _ _ _ _ _ Hs).
    split; [done|]. exists g, frg, fr. rewrite !Hsame by done. split_and!; try done. by eapply seg_same.
Qed.

(** Every frame on the way up is there. *)
Lemma seg_live fs g st fl f x : seg fs g st fl f -> is_Some (fs !! f) -> x ∈ fl -> is_Some (fs !! x).
Proof.
  intros Hs Hf. induction Hs as [f|g fr p frp k st fl f H1 H2 H3 H4 Hs IH]; [by intros ->%list_elem_of_singleton|].
  intros [->|Hx]%elem_of_cons; eauto.
Qed.

Lemma holds_live r s fl fs h : holds r s fl fs -> h ∈ fl -> is_Some (fs !! h).
Proof.
  destruct s as [v| | |a tok k st]; cbn; [| |done|].
  - intros [-> (fr & Hfr & _)] ->%list_elem_of_singleton. eauto.
  - intros [-> (fr & Hfr & _)] ->%list_elem_of_singleton. eauto.
  - intros (_ & g & frg & fr & Hs & _ & _ & _ & Hr & _). eapply seg_live; eauto.
Qed.

(** What resuming the task with the frames [fl] leaves: the frames [fl'], some of
    them new, the others destroyed, and the rest of the memory untouched. *)
Definition resumed (r : nat) (s : Susp) (fl : list nat) m m' : Prop :=
  exists fl', control m' = Idle /\ waiting m' = (if waits s then head fl' else waiting m) /\ holds r s fl' (frames m') /\ grown m m' /\
    (forall h, h ∈ fl' -> h ∈ fl \/ (next m <= h < next m')%nat) /\
    (forall h, h ∉ fl -> h ∉ fl' -> frames m' !! h = frames m !! h) /\
    (forall h, h ∈ fl -> h ∉ fl' -> frames m' !! h = None).

(** Leaving the finished frame [g] for the frame [f] that awaits it. *)
Lemma return_to f g frf p v k m m1 :
  ends g (return_value v p) m m1 -> continuation p = Some f -> frames m !! f = Some frf -> code frf = InTask g k -> f <> g ->
  runs_on m1 (mkMachine (delete g (frames m)) (next m1) (Exec f (k v)) (waiting m1) (log m1)).
Proof.
  intros (Ef & Ec & _) Hc Hf Hk Hn. apply runs_on_once. intros an. unfold drive. rewrite Ec. cbn. rewrite Hc. unfold enter.
  rewrite Ef, lookup_insert_ne, Hf, Hk by done. unfold task_await_resume. rewrite lookup_insert_eq. cbn.
  unfold goto. cbn. by rewrite delete_insert_eq.
Qed.

(** The outermost frame has run: the task has ended, or waits in new frames. *)
Lemma resumed_root r (fr : Frame V A) s m m1 :
  reaches r (promise fr) s m m1 -> continuation (promise fr) = None -> s <> Undef -> (control m1 = Fault \/ grown m m1) ->
  resumed r s [r] m m1.
Proof.
  assert (forall p, continuation p = None -> ends r p m m1 -> (control m1 = Fault \/ grown m m1) ->
    control m1 = Idle /\ waiting m1 = waiting m /\ grown m m1 /\ frames m1 !! r = Some (mkFrame p Final) /\
    (forall h, h ∉ [r] -> frames m1 !! h = frames m !! h)) as Hend.
  { intros p Hp (Ef & Ec & Ew) G. rewrite Hp in Ec. destruct G as [?|G]; [congruence|]. rewrite Ef, lookup_insert_eq. split_and!; try done.
    intros h Hh. rewrite lookup_insert_ne; [done|]. intros <-. apply Hh. constructor. }
  intros O Hc Hu G. destruct s as [v| | |a tok k st]; [| |done|].
  - destruct (Hend (return_value v (promise fr)) Hc O G) as (Hi & Hw & Hg & Hf & Ho). exists [r]. split; [done|]. split; [done|]. split; [cbn; eauto|]. split; [done|]. split; [by left|]. split; [auto|done].
  - destruct (Hend (unhandled_exception (promise fr)) Hc O G) as (Hi & Hw & Hg & Hf & Ho). exists [r]. split; [done|]. split; [done|]. split; [cbn; eauto|]. split; [done|]. split; [by left|]. split; [auto|done].
  - destruct O as (g & frg & fl & ff & Hi & Hwg & Hs1 & Hg & Hcg & Htg & Hff & Hp & Hnew & Hnd1 & Hsame).
    destruct G as [?|G]; [congruence|]. destruct (seg_in _ _ _ _ _ Hs1) as [_ Hin]. exists fl. split_and!; try done.
    + destruct (seg_head _ _ _ _ _ Hs1) as [fl' ->]. done.
    + split; [done|]. exists g, frg, ff. split_and!; try done. by rewrite Hp.
    + intros h Hh. destruct (decide (h = r)) as [->|Hn]; [left; constructor|]. right. by apply Hnew.
    + intros h _ Hh. by apply Hsame.
    + intros h ->%list_elem_of_singleton Hh. done.
Qed.

(** The innermost frame [f] has been destroyed and the frames [fl] resumed. *)
Lemma resumed_above r s f fl m m2 m' :
  f ∉ fl -> frames m2 = delete f (frames m) -> (next m <= next m2)%nat -> waiting m2 = waiting m ->
  resumed r s fl m2 m' -> resumed r s (f :: fl) m m'.
Proof.
  intros Hni Ef Hn Ew (fl' & Hi & Hw & Hh & [Hg1 Hg2] & Hin & Hout & Hdead). rewrite Ef in Hout. exists fl'. rewrite Ew in Hw. split_and!; try done.
  - split; [lia|done].
  - intros h Hhin. destruct (Hin h Hhin); [left; by constructor|right; lia].
  - intros h Hh1 Hh2. rewrite not_elem_of_cons in Hh1. destruct Hh1 as [Hh0 Hh1]. rewrite (Hout h Hh1 Hh2). by rewrite lookup_delete_ne.
  - intros h [->|Hh1]%elem_of_cons Hh2; [|by apply Hdead]. rewrite (Hout f Hni Hh2). by rewrite lookup_delete_eq.
Qed.

(** The innermost frame [f] waits in new frames below those that await it. *)
Lemma resumed_deeper r frr f fr a tok k st tok' k' st' fl m m1 :
  suspended f (promise fr) a tok k st m m1 -> grown m m1 -> fresh m ->
  seg (frames m) f ((tok', k') :: st') (f :: fl) r -> NoDup (f :: fl) -> frames m !! f = Some fr ->
  frames m !! r = Some frr -> continuation (promise frr) = None ->
  resumed r (Wait a tok k (st ++ (tok', k') :: st')) (f :: fl) m m1.
Proof.
  intros (g & frg & fl1 & ff & Hi & Hwg & Hs1 & Hg & Hcg & Htg & Hff & Hpp & Hnew & Hnd1 & Hsame) G Hfresh Hs Hnd Hf Hr Hrc.
  apply NoDup_cons in Hnd as [Hni Hnd].
  inversion Hs as [|g' fr' p frp k'' st'' fl2 r' H1 H2 H3 H4 Hs2]; subst. assert (fr' = fr) as -> by congruence. clear H1.
  destruct (seg_in _ _ _ _ _ Hs2) as [Hp2 Hr2]. assert (forall h, h ∈ fl -> h ∉ fl1) as Hdis.
  { intros h Hh Hh1. assert (h <> f) by (by intros ->). destruct (seg_live _ _ _ _ _ h Hs2 ltac:(eauto) Hh) as [x Hx].
    specialize (Hnew h Hh1 ltac:(done)). rewrite Hfresh in Hx by lia. done. }
  assert (seg (frames m1) f ((cancel_token (promise frp), k') :: st') (f :: fl) r) as Hs3.
  { eapply seg_up; [exact Hff|by rewrite Hpp|by rewrite Hsame by auto|done|]. eapply seg_same; [|exact Hs2].
    intros h Hh. apply Hsame. auto. }
  pose proof (seg_app _ _ _ _ _ _ _ _ Hs1 Hs3) as Hs4. exists (fl1 ++ fl). split_and!; try done.
  - destruct (seg_head _ _ _ _ _ Hs1) as [fl' ->]. done.
  - split; [apply NoDup_app; split_and!; [done| |done]; intros h H5 H6; by apply (Hdis h)|].
    exists g, frg, frr. split_and!; try done. rewrite Hsame; [done|auto].
  - intros h [Hh|Hh]%elem_of_app; [|left; by constructor]. destruct (decide (h = f)) as [->|Hn]; [left; constructor|]. right. by apply Hnew.
  - intros h _ Hh. apply Hsame. rewrite elem_of_app in Hh. tauto.
  - intros h Hh1 Hh2. rewrite elem_of_app in Hh2. apply elem_of_cons in Hh1 as [->|Hh1]; [|tauto].
    destruct (seg_in _ _ _ _ _ Hs1). tauto.
Qed.

Lemma run_unwind st : forall f fr b fl r frr m,
  control m = Exec f b -> frames m !! f = Some fr -> fresh m -> seg (frames m) f st fl r -> NoDup fl ->
  frames m !! r = Some frr -> continuation (promise frr) = None ->
  let s := unwind (susp (cancel_token (promise fr)) b) st in
  s <> Undef -> exists m', runs_on m m' /\ resumed r s fl m m'.
Proof.
  induction st as [|[tok k] st IH]; intros f fr b fl r frr m Hc Hf Hfresh Hs Hnd Hr Hrc s Hu.
  - inversion Hs; subst. assert (frr = fr) as -> by congruence.
    destruct (run_susp b r fr m Hc Hf Hfresh) as (m1 & R1 & O1 & G1). subst s. cbn in Hu |- *. exists m1. split; [done|].
    eapply resumed_root; [|done..]. by destruct (susp _ b).
  - pose proof Hs as Hs0. inversion Hs as [|g fr' p frp k' st' fl2 r' H1 H2 H3 H4 Hs2]; subst. assert (fr' = fr) as -> by congruence. clear H1.
    destruct (run_susp b f fr m Hc Hf Hfresh) as (m1 & R1 & O1 & G1).
    subst s. cbn [unwind] in Hu |- *. destruct (susp _ b) as [v| | |a tok1 k1 st1]; [|done|done|].
    + apply NoDup_cons in Hnd as [Hni Hnd]. destruct (seg_in _ _ _ _ _ Hs2) as [Hp2 Hr2].
      assert (p <> f) as Hpf by (by intros ->). assert (r <> f) as Hrf by (by intros ->).
      destruct G1 as [?|[Hn1 Hf1]]; [destruct O1 as (_ & Ec & _); cbn in Ec; rewrite H2 in Ec; congruence|].
      pose proof (return_to p f frp (promise fr) v k m m1 O1 H2 H3 H4 Hpf) as R2.
      set (m2 := mkMachine _ _ _ _ _) in R2.
      assert (forall h, h ∈ fl2 -> delete f (frames m) !! h = frames m !! h) as Hd.
      { intros h Hh. rewrite lookup_delete_ne; [done|]. by intros ->. }
      destruct (IH p frp (k v) fl2 r frr m2) as (m3 & R3 & Hres); try done.
      * cbn. by rewrite Hd.
      * intros h Hh. cbn in Hh |- *. rewrite lookup_delete. case_decide; [done|]. apply Hfresh. lia.
      * by eapply seg_same; [apply Hd|].
      * cbn. by rewrite Hd.
      * exists m3. split; [by eapply runs_on_trans, runs_on_trans|]. eapply (resumed_above _ _ _ _ m m2); try done. apply O1.
    + destruct G1 as [?|G1]; [destruct O1 as (? & ? & ? & ? & ? & _); congruence|]. exists m1. split; [done|].
      by eapply resumed_deeper.
Qed.

(** ** All tasks of a loop *)

(** A task as seen from outside: what was spawned, whether it was started, the
    answers its leaf awaiters have given it, and one not yet delivered. *)
Record ATask := mkAT { at_tok : stop_token; at_body : Body V A; started : bool; consumed : list V; pending : option V }.

Definition state (t : ATask) : Susp := after (susp (at_tok t) (at_body t)) (consumed t).

Definition first_frame (tok : stop_token) b : Frame V A :=
  mkFrame (mkPromise (Err make_cancelled_error) None None tok) (Initial b).

Definition task_holds (r : nat) (t : ATask) (fl : list nat) fs : Prop :=
  if started t then holds r (state t) fl fs /\ consumes (susp (at_tok t) (at_body t)) (consumed t)
  else fl = [r] /\ fs !! r = Some (first_frame (at_tok t) (at_body t)) /\ consumed t = [] /\ pending t = None.

(** The handle by which the loop resumes the task. *)
Definition resumable (r : nat) (t : ATask) (fl : list nat) (h : nat) : Prop :=
  head fl = Some h /\ (started t = false \/ is_Some (pending t)).

(** [q]: the handles queued; [fls]: the frames of each task. *)
Record R (q : list nat) (s : Sched V A) (ts : gmap nat ATask) (fls : gmap nat (list nat)) : Prop := {
  R_idle : control (machine s) = Idle;
  R_fresh : fresh (machine s);
  R_task r t : ts !! r = Some t -> exists fl, fls !! r = Some fl /\ task_holds r t fl (frames (machine s));
  R_dom r : is_Some (fls !! r) -> is_Some (ts !! r);
  R_disj r r' fl fl' h : fls !! r = Some fl -> fls !! r' = Some fl' -> h ∈ fl -> h ∈ fl' -> r = r';
  R_cover h : is_Some (frames (machine s) !! h) -> exists r fl, fls !! r = Some fl /\ h ∈ fl;
  R_owned : NoDup (owned s) /\ forall r, r ∈ owned s <-> is_Some (ts !! r);
  R_nodup : NoDup q;
  R_queue h : h ∈ q <-> exists r t fl, ts !! r = Some t /\ fls !! r = Some fl /\ resumable r t fl h;
  R_pending r t v : ts !! r = Some t -> pending t = Some v -> waits (state t) = true /\
    forall fl h, fls !! r = Some fl -> head fl = Some h -> results s !! h = Some v;
}.

Lemma task_holds_same r t fl fs fs' :
  (forall h, h ∈ fl -> fs' !! h = fs !! h) -> task_holds r t fl fs -> task_holds r t fl fs'.
Proof.
  intros Hsame. unfold task_holds. destruct (started t).
  - intros [Hh Hc]. split; [by eapply holds_same|done].
  - intros (-> & Hr & ?). split; [done|]. by rewrite Hsame by constructor.
Qed.

Lemma task_holds_live r t fl fs h : task_holds r t fl fs -> h ∈ fl -> is_Some (fs !! h).
Proof.
  unfold task_holds. destruct (started t); [intros [Hh _]; by eapply holds_live|].
  intros (-> & Hr & _) ->%list_elem_of_singleton. eauto.
Qed.

Lemma holds_root r s fl fs : holds r s fl fs -> r ∈ fl.
Proof.
  destruct s as [v| | |a tok k st]; cbn; [intros [-> _]; constructor|intros [-> _]; constructor|done|].
  intros (_ & g & frg & fr & Hs & _). by apply (seg_in _ _ _ _ _ Hs).
Qed.

Lemma task_holds_root r t fl fs : task_holds r t fl fs -> r ∈ fl.
Proof. unfold task_holds. destruct (started t); [intros [Hh _]; by eapply holds_root|]. intros [-> _]. constructor. Qed.

(** A new or changed task [r] whose frames are [fl'], in a memory in which the
    frames of the other tasks are as they were. *)
Lemma R_frames_lt q s ts fls r fl h : R q s ts fls -> fls !! r = Some fl -> h ∈ fl -> (h < next (machine s))%nat.
Proof.
  intros HR Hfl Hh. destruct (R_dom _ _ _ _ HR r) as [t Ht]; [eauto|]. destruct (R_task _ _ _ _ HR r t Ht) as (fl1 & E & Hth).
  simplify_eq. destruct (task_holds_live _ _ _ _ _ Hth Hh) as [x Hx]. eapply fresh_lt; [apply HR|exact Hx].
Qed.

Lemma R_init : R [] init ∅ ∅.
Proof.
  split; cbn; try done.
  - intros r [? Hr]. done.
  - intros h [? Hh]. done.
  - split; [constructor|]. intros r. split; [by intros []%not_elem_of_nil|by intros [? ?]].
  - constructor.
  - intros h. split; [by intros []%not_elem_of_nil|]. by intros (r & t & fl & Ht & _).
Qed.

Lemma R_spawn tok b s ts fls :
  R (ready s) s ts fls ->
  let r := next (machine s) in
  R (ready (spawn tok b s)) (spawn tok b s) (<[r := mkAT tok b false [] None]> ts) (<[r := [r]]> fls).
Proof.
  intros HR r. assert (forall r' fl h, fls !! r' = Some fl -> h ∈ fl -> h <> r) as Hlt.
  { intros r' fl h Hfl Hh ->. pose proof (R_frames_lt _ _ _ _ _ _ _ HR Hfl Hh). unfold r in *. lia. }
  assert (ts !! r = None) as Htr.
  { destruct (ts !! r) as [t|] eqn:E; [|done]. destruct (R_task _ _ _ _ HR r t E) as (fl & Hfl & Hh).
    by destruct (Hlt r fl r Hfl (task_holds_root _ _ _ _ Hh)). }
  pose proof HR as [H1 H2 H3 H4 H5 H6 [H7 H7'] H8 H9 H10]. split; cbn; fold r.
  - done.
  - intros g Hg. cbn in Hg |- *. rewrite lookup_insert_ne by (unfold r in *; lia). apply H2. unfold r in *. lia.
  - intros r' t'. rewrite lookup_insert. case_decide as Hd; subst.
    + intros [= <-]. exists [r]. rewrite lookup_insert_eq. split; [done|]. split_and!; try done. cbn. by rewrite lookup_insert_eq.
    + intros Ht. destruct (H3 _ _ Ht) as (fl & Hfl & Hh). exists fl. rewrite lookup_insert_ne by done. split; [done|].
      eapply task_holds_same; [|exact Hh]. intros h Hin. rewrite lookup_insert_ne; [done|]. intros <-. by eapply Hlt.
  - intros r'. rewrite !lookup_insert. case_decide; [eauto|apply H4].
  - intros r1 r2 fl1 fl2 h. rewrite !lookup_insert. repeat case_decide; subst; try done.
    + intros [= <-] Hfl ->%list_elem_of_singleton Hh. by destruct (Hlt _ _ _ Hfl Hh).
    + intros Hfl [= <-] Hh ->%list_elem_of_singleton. by destruct (Hlt _ _ _ Hfl Hh).
    + apply H5.
  - intros h. rewrite lookup_insert. case_decide as Hd; subst.
    + intros _. exists r, [r]. rewrite lookup_insert_eq. split; [done|constructor].
    + intros Hh. destruct (H6 h Hh) as (r' & fl & Hfl & Hin). exists r', fl. split; [|done]. rewrite lookup_insert_ne; [done|].
      intros <-. destruct (H4 r); [eauto|congruence].
  - split.
    + apply NoDup_app. split_and!; [done| |apply NoDup_singleton]. intros x Hx ->%list_elem_of_singleton. apply H7' in Hx as [? ?]. congruence.
    + intros r'. rewrite elem_of_app, list_elem_of_singleton, H7'. destruct (decide (r' = r)) as [->|Hn].
      * rewrite lookup_insert_eq. split; eauto.
      * rewrite lookup_insert_ne by done. split; [by intros [|]|by left].
  - apply NoDup_app. split_and!; [done| |apply NoDup_singleton]. intros x Hx ->%list_elem_of_singleton.
    apply H9 in Hx as (r' & t & fl & Ht & Hfl & Hhd & _). destruct fl as [|y fl]; [done|]. cbn in Hhd. simplify_eq.
    by destruct (Hlt _ _ _ Hfl ltac:(constructor)).
  - intros h. rewrite elem_of_app, list_elem_of_singleton, H9. split.
    + intros [(r' & t & fl & Ht & Hfl & Hres)| ->].
      * exists r', t, fl. assert (r' <> r) by congruence. by rewrite !lookup_insert_ne.
      * exists r, (mkAT tok b false [] None), [r]. rewrite !lookup_insert_eq. split_and!; [done|done|]. split; [done|by left].
    + intros (r' & t & fl & Ht & Hfl & Hres). destruct (decide (r' = r)) as [->|Hn].
      * rewrite lookup_insert_eq in Ht. rewrite lookup_insert_eq in Hfl. simplify_eq. destruct Hres as [Hhd _]. cbn in Hhd. simplify_eq. by right.
      * rewrite lookup_insert_ne in Ht by done. rewrite lookup_insert_ne in Hfl by done. left. by exists r', t, fl.
  - intros r' t v. rewrite lookup_insert. case_decide; subst; [by intros [= <-]|].
    intros Ht Hp. destruct (H10 _ _ _ Ht Hp) as [Hw Hr]. split; [done|]. intros fl h. rewrite lookup_insert_ne by done. apply Hr.
Qed.

(** *** Completing a leaf awaiter *)

Lemma leaf_of_seg fs g st fl f n :
  seg fs g st fl f -> leaf_of (length fl - 1 + n) fs f = leaf_of n fs g.
Proof.
  intros Hs. induction Hs as [f|g fr p frp k st fl f H1 H2 H3 H4 Hs IH] in n |- *; [done|]. specialize (IH (S n)).
  destruct (seg_head _ _ _ _ _ Hs) as [fl' ->]. cbn [length] in *. replace (S (S (length fl')) - 1 + n)%nat with (S (length fl') - 1 + S n)%nat by lia.
  rewrite IH. cbn. rewrite H3. cbn. by rewrite H4.
Qed.

Lemma short_list (fl : list nat) n : NoDup fl -> (forall h, h ∈ fl -> (h < n)%nat) -> (length fl <= n)%nat.
Proof.
  intros Hnd Hlt. replace n with (length (seq 0 n)) by apply length_seq. apply submseteq_length, NoDup_submseteq; [done|].
  intros h Hh. apply elem_of_seq. specialize (Hlt h Hh). lia.
Qed.

(** The waiting task's own handle is the head of its frames. *)
Lemma waiting_leaf r s fl fs n :
  holds r s fl fs -> waits s = true -> (forall h, h ∈ fl -> (h < n)%nat) ->
  exists g, head fl = Some g /\ leaf_of n fs r = Some g.
Proof.
  destruct s as [v| | |a tok k st]; try done. intros (Hnd & g & frg & fr & Hs & Hg & Hc & _) _ Hlt.
  destruct (seg_head _ _ _ _ _ Hs) as [fl' ->]. exists g. split; [done|]. pose proof (short_list _ _ Hnd Hlt) as Hlen. cbn in Hlen.
  replace n with (length (g :: fl') - 1 + S (n - length (g :: fl')))%nat by (cbn; lia).
  rewrite (leaf_of_seg _ _ _ _ _ _ Hs). cbn. rewrite Hg. cbn. by rewrite Hc.
Qed.

(** Two tasks have different handles. *)
Lemma heads_differ q s ts fls r r' fl fl' h :
  R q s ts fls -> fls !! r = Some fl -> fls !! r' = Some fl' -> head fl = Some h -> head fl' = Some h -> r = r'.
Proof.
  intros HR Hfl Hfl' Hh Hh'. destruct fl as [|x fl]; [done|]. destruct fl' as [|y fl']; [done|]. cbn in Hh, Hh'. simplify_eq.
  eapply (R_disj _ _ _ _ HR); [exact Hfl|exact Hfl'|constructor|constructor].
Qed.

Definition answered (v : V) (t : ATask) : ATask := mkAT (at_tok t) (at_body t) (started t) (consumed t) (Some v).

Lemma R_complete r t v s ts fls :
  R (ready s) s ts fls -> ts !! r = Some t -> started t = true -> pending t = None -> waits (state t) = true ->
  exists s', complete r v s = Some s' /\ R (ready s') s' (<[r := answered v t]> ts) fls.
Proof.
  intros HR Ht Hst Hpe Hw. destruct (R_task _ _ _ _ HR r t Ht) as (fl & Hfl & Hth).
  assert (holds r (state t) fl (frames (machine s))) as Hh by (unfold task_holds in Hth; rewrite Hst in Hth; apply Hth).
  destruct (waiting_leaf r (state t) fl _ (next (machine s)) Hh Hw) as (g & Hg & Hleaf).
  { intros h Hin. by eapply R_frames_lt. }
  assert (g ∉ ready s) as Hni.
  { intros Hin. apply (R_queue _ _ _ _ HR) in Hin as (r' & t' & fl' & Ht' & Hfl' & Hhd & Hres).
    assert (r = r') as <- by (by eapply heads_differ). assert (t' = t) as -> by congruence. rewrite Hst, Hpe in Hres.
    by destruct Hres as [|[]]. }
  unfold complete. rewrite Hleaf. cbn [mbind option_bind]. rewrite decide_False by done. eexists. split; [done|].
  pose proof HR as [H1 H2 H3 H4 H5 H6 [H7 H7'] H8 H9 H10]. split; cbn; try done.
  - intros r' t'. rewrite lookup_insert. case_decide as Hd; subst; [|apply H3]. intros [= <-]. exists fl. split; [done|].
    unfold task_holds in *. cbn. by rewrite Hst in *.
  - intros r' Hr'. rewrite lookup_insert. case_decide; [eauto|by apply H4].
  - split; [done|]. intros r'. rewrite H7'. destruct (decide (r' = r)) as [->|Hn].
    + rewrite lookup_insert_eq. split; eauto.
    + by rewrite lookup_insert_ne.
  - apply NoDup_app. split_and!; [done| |apply NoDup_singleton]. intros x Hx ->%list_elem_of_singleton. done.
  - intros h. rewrite elem_of_app, list_elem_of_singleton, H9. split.
    + intros [(r' & t' & fl' & Ht' & Hfl' & Hres)| ->].
      * assert (r' <> r). { intros ->. assert (t' = t) as -> by congruence. destruct Hres as [_ Hres]. rewrite Hst, Hpe in Hres. by destruct Hres as [|[]]. }
        exists r', t', fl'. by rewrite lookup_insert_ne.
      * exists r, (answered v t), fl. rewrite lookup_insert_eq. split_and!; [done|done|]. split; [done|right; cbn; eauto].
    + intros (r' & t' & fl' & Ht' & Hfl' & Hres). destruct (decide (r' = r)) as [->|Hn].
      * right. destruct Hres as [Hhd _]. congruence.
      * rewrite lookup_insert_ne in Ht' by done. left. by exists r', t', fl'.
  - intros r' t' v'. rewrite lookup_insert. case_decide as Hd; subst.
    + intros [= <-] [= <-]. split; [done|]. intros fl' h Hfl' Hhd. assert (h = g) as -> by congruence. apply lookup_insert_eq.
    + intros Ht' Hp'. destruct (H10 _ _ _ Ht' Hp') as [Hw' Hr']. split; [done|]. intros fl' h Hfl' Hhd.
      rewrite lookup_insert_ne; [by eapply Hr'|]. intros <-. destruct Hd. by eapply heads_differ.
Qed.

(** *** Resuming the queue *)

Definition deliver (t : ATask) : ATask :=
  if started t then
    match pending t with
    | Some v => mkAT (at_tok t) (at_body t) true (consumed t ++ [v]) None
    | None => t
    end
  else mkAT (at_tok t) (at_body t) true [] None.

Lemma deliver_idemp t : deliver (deliver t) = deliver t.
Proof. unfold deliver. destruct (started t) eqn:Es; [|done]. destruct (pending t) eqn:Ep; cbn; [done|]. by rewrite Es, Ep. Qed.

Lemma deliver_rest t : started t = true -> pending t = None -> deliver t = t.
Proof. intros Hs Hp. unfold deliver. by rewrite Hs, Hp. Qed.

Lemma runs_on_drives m m' :
  runs_on m m' -> control m' = Idle -> exists n, forall fuel, (n <= fuel)%nat -> drives fuel (m, []) = (m', []).
Proof.
  intros Hr Hi. assert (drive (m', []) = None) as Hend by (unfold drive; rewrite Hi; by destruct (waiting m')).
  assert (forall fuel, drives fuel (m', []) = (m', [])) as Hstop by (intros [|fuel]; cbn -[drive]; by rewrite ?Hend).
  specialize (Hr []). remember (m, []) as x. remember (m', []) as y. clear Heqx. induction Hr as [x|x x1 y Hs _ IH]; subst.
  - exists O. intros fuel _. apply Hstop.
  - edestruct IH as [n Hn]; [done..|]. exists (S n). intros [|fuel] Hf; [lia|]. cbn -[drive]. unfold runs in Hs. rewrite Hs. apply Hn. lia.
Qed.

(** The task [r], resumed by its handle, has reached its next state. *)
Lemma R_resumed h q s ts fls r t fl m0 m' :
  R (h :: q) s ts fls -> ts !! r = Some t -> fls !! r = Some fl -> resumable r t fl h ->
  frames m0 = frames (machine s) -> next m0 = next (machine s) ->
  resumed r (state (deliver t)) fl m0 m' -> consumes (susp (at_tok t) (at_body t)) (consumed (deliver t)) ->
  exists fl', R q (set_machine m' s) (<[r := deliver t]> ts) (<[r := fl']> fls) /\
    control m' = Idle /\ waiting m' = (if waits (state (deliver t)) then head fl' else waiting m0).
Proof.
  intros HR Ht Hfl [Hhd Hres] Ef En (fl' & Hi & Hw & Hh & [Hg1 Hg2] & Hin & Hout & Hdead) Hcons. rewrite Ef, En in *. exists fl'. split; [|done].
  assert (started (deliver t) = true /\ pending (deliver t) = None) as [Hst Hpe].
  { unfold deliver. destruct (started t) eqn:Es; [|done]. destruct Hres as [|[v Hv]]; [congruence|]. by rewrite Hv. }
  assert (forall r' fl1 x, r' <> r -> fls !! r' = Some fl1 -> x ∈ fl1 -> (x ∉ fl) /\ (x ∉ fl')) as Hothers.
  { intros r' fl1 x Hn Hfl1 Hx. assert (x ∉ fl) as Hx1 by (intros Hx'; apply Hn; by eapply (R_disj _ _ _ _ HR)).
    split; [done|]. intros Hx'. destruct (Hin x Hx') as [|Hlt]; [done|]. pose proof (R_frames_lt _ _ _ _ _ _ _ HR Hfl1 Hx). lia. }
  pose proof HR as [H1 H2 H3 H4 H5 H6 [H7 H7'] H8 H9 H10]. split; cbn.
  - done.
  - done.
  - intros r' t'. rewrite lookup_insert. case_decide as Hd; subst.
    + intros [= <-]. exists fl'. rewrite lookup_insert_eq. split; [done|]. unfold task_holds. rewrite Hst. split; [done|].
      unfold deliver in Hcons |- *. by destruct (started t), (pending t).
    + intros Ht'. destruct (H3 _ _ Ht') as (fl1 & Hfl1 & Hh1). exists fl1. rewrite lookup_insert_ne by done. split; [done|].
      eapply task_holds_same; [|exact Hh1]. intros x Hx. destruct (Hothers r' fl1 x) as [Hx1 Hx2]; [done..|]. by apply Hout.
  - intros r'. rewrite !lookup_insert. case_decide; [eauto|apply H4].
  - intros r1 r2 fl1 fl2 x. rewrite !lookup_insert. repeat case_decide; subst; try done.
    + intros [= <-] Hfl2 Hx1 Hx2. by destruct (Hothers r2 fl2 x ltac:(done) Hfl2 Hx2).
    + intros Hfl1 [= <-] Hx1 Hx2. by destruct (Hothers r1 fl1 x ltac:(done) Hfl1 Hx1).
    + apply H5.
  - intros x Hx. destruct (decide (x ∈ fl')) as [Hx'|Hx']; [exists r, fl'; by rewrite lookup_insert_eq|].
    destruct (decide (x ∈ fl)) as [Hx1|Hx1]; [rewrite Hdead in Hx by done; by destruct Hx|]. rewrite Hout in Hx by done.
    destruct (H6 x Hx) as (r' & fl1 & Hfl1 & Hin1). exists r', fl1. rewrite lookup_insert_ne; [done|]. intros <-. congruence.
  - split; [done|]. intros r'. rewrite H7'. destruct (decide (r' = r)) as [->|Hn].
    + rewrite lookup_insert_eq. split; eauto.
    + by rewrite lookup_insert_ne.
  - by apply NoDup_cons in H8 as [_ ?].
  - apply NoDup_cons in H8 as [Hhq _]. intros x. split.
    + intros Hx. destruct (proj1 (H9 x)) as (r' & t' & fl1 & Ht' & Hfl1 & Hres'); [by constructor|].
      assert (r' <> r). { intros ->. destruct Hres' as [Hhd' _]. assert (x = h) as -> by congruence. done. }
      exists r', t', fl1. by rewrite !lookup_insert_ne.
    + intros (r' & t' & fl1 & Ht' & Hfl1 & Hres'). destruct (decide (r' = r)) as [->|Hn].
      * rewrite lookup_insert_eq in Ht'. simplify_eq. destruct Hres' as [_ Hres']. rewrite Hst, Hpe in Hres'. by destruct Hres' as [|[]].
      * rewrite lookup_insert_ne in Ht' by done. rewrite lookup_insert_ne in Hfl1 by done.
        assert (x ∈ h :: q) as Hx by (apply H9; by exists r', t', fl1). apply elem_of_cons in Hx as [->|]; [|done].
        destruct Hn. destruct Hres' as [Hhd' _]. by eapply heads_differ.
  - intros r' t' v. rewrite lookup_insert. case_decide as Hd; subst; [intros [= <-]; congruence|].
    intros Ht' Hp'. destruct (H10 _ _ _ Ht' Hp') as [Hw' Hr']. split; [done|]. intros fl1 x. rewrite lookup_insert_ne by done. apply Hr'.
Qed.

(** No task is about to run into undefined behaviour. *)
Definition sound (ts : gmap nat ATask) : Prop := forall r t, ts !! r = Some t -> state (deliver t) <> Undef.

(** The handle [h] at the head of the queue belongs to a task that can be
    resumed: it was not started, or its leaf awaiter has completed; and a machine
    [m0] that enters it runs until the task waits again or has ended. *)
Definition entered (h : nat) (s : Sched V A) (t : ATask) m0 : Prop :=
  frames m0 = frames (machine s) /\ next m0 = next (machine s) /\
  if started t then exists fr a k v, frames m0 !! h = Some fr /\ code fr = InLeaf a k /\ pending t = Some v /\ control m0 = Exec h (k v)
  else control m0 = Enter h.

Lemma R_run h q s ts fls r t fl m0 :
  R (h :: q) s ts fls -> ts !! r = Some t -> fls !! r = Some fl -> resumable r t fl h -> entered h s t m0 ->
  state (deliver t) <> Undef ->
  exists m' fl', runs_on m0 m' /\ R q (set_machine m' s) (<[r := deliver t]> ts) (<[r := fl']> fls) /\
    control m' = Idle /\ waiting m' = (if waits (state (deliver t)) then head fl' else waiting m0).
Proof.
  intros HR Ht Hfl Hres (Ef & En & Hent) Hsd. destruct (R_task _ _ _ _ HR r t Ht) as (fl1 & E & Hth). simplify_eq.
  enough (exists m', runs_on m0 m' /\ resumed r (state (deliver t)) fl m0 m' /\ consumes (susp (at_tok t) (at_body t)) (consumed (deliver t)))
    as (m' & Hr & Hrd & Hc).
  { destruct (R_resumed _ _ _ _ _ _ _ _ _ _ HR Ht Hfl Hres Ef En Hrd Hc) as (fl' & HR' & Hi & Hw). by exists m', fl'. }
  assert (fresh m0) as Hfresh. { intros x. rewrite Ef, En. apply HR. }
  destruct Hres as [Hhd Hres]. unfold task_holds in Hth. destruct (started t) eqn:Es.
  - destruct Hent as (fr0 & a0 & k0 & v & Hfr0 & Hc0 & Hv & Hctl). destruct Hth as [Hh Hc].
    destruct (R_pending _ _ _ _ HR r t v Ht Hv) as [Hw Hrv].
    assert (deliver t = mkAT (at_tok t) (at_body t) true (consumed t ++ [v]) None) as Ed by (unfold deliver; by rewrite Es, Hv).
    assert (state (deliver t) = feed v (state t)) as Est by (unfold state; rewrite Ed; cbn; apply after_snoc).
    destruct (state t) as [| | |a tok k st] eqn:Estate; try done. destruct Hh as (Hnd & g & frg & fr & Hs & Hg & Hcg & Htg & Hr & Hrc).
    assert (g = h) as ->. { destruct (seg_head _ _ _ _ _ Hs) as [fl' ->]. by injection Hhd. }
    rewrite Ef in Hfr0. assert (fr0 = frg) as -> by congruence. rewrite Hcg in Hc0. injection Hc0 as <- <-. rewrite <- Htg in *.
    rewrite Est in Hsd |- *. cbn [feed] in Hsd |- *.
    destruct (run_unwind st h frg (k v) fl r fr m0) as (m' & R1 & Hrd); try done; [by rewrite Ef|by rewrite Ef|by rewrite Ef|]. exists m'.
    split_and!; [done..|]. rewrite Ed. cbn. apply consumes_snoc; [done|]. fold (state t). by rewrite Estate.
  - destruct Hth as (-> & Hr & Hc0 & _). injection Hhd as ->.
    assert (deliver t = mkAT (at_tok t) (at_body t) true [] None) as Ed by (unfold deliver; by rewrite Es).
    assert (state (deliver t) = susp (at_tok t) (at_body t)) as Est by (unfold state; by rewrite Ed).
    set (m1 := goto (Exec h (at_body t)) (frames m0) m0).
    destruct (run_unwind [] h (first_frame (at_tok t) (at_body t)) (at_body t) [h] h (first_frame (at_tok t) (at_body t)) m1)
      as (m' & R1 & Hrd); try done; try (cbn; by rewrite Ef); [constructor|apply NoDup_singleton|cbn; by rewrite <- Est|].
    exists m'. split_and!; [|by rewrite Est|by rewrite Ed].
    eapply runs_on_trans; [|exact R1]. apply runs_on_once. intros an. unfold drive. rewrite Hent. unfold enter. rewrite <- Ef in Hr. by rewrite Hr.
Qed.

Lemma R_resume h q s ts fls :
  R (h :: q) s ts fls -> sound ts ->
  exists r t s' fls' n, ts !! r = Some t /\ done (frames (machine s)) h = Some false /\
    (forall fuel, (n <= fuel)%nat -> resume fuel h s = Some s') /\ ready s' = ready s /\ R q s' (<[r := deliver t]> ts) fls'.
Proof.
  intros HR Hsd. destruct (proj1 (R_queue _ _ _ _ HR h)) as (r & t & fl & Ht & Hfl & Hres); [constructor|].
  destruct (R_task _ _ _ _ HR r t Ht) as (fl1 & E & Hth). simplify_eq. specialize (Hsd r t Ht).
  enough (exists m0, entered h s t m0 /\ done (frames (machine s)) h = Some false /\
    (forall fuel, resume fuel h s = match control (drives fuel (m0, [])).1 with Idle => Some (set_machine (drives fuel (m0, [])).1 s) | _ => None end))
    as (m0 & Hent & Hdone & Hres').
  { destruct (R_run _ _ _ _ _ _ _ _ _ HR Ht Hfl Hres Hent Hsd) as (m' & fl' & Hr & HR' & Hi & _).
    destruct (runs_on_drives _ _ Hr Hi) as [n Hn]. exists r, t, (set_machine m' s), (<[r := fl']> fls), n. split_and!; try done.
    intros fuel Hfuel. rewrite Hres', Hn by done. cbn. by rewrite Hi. }
  destruct Hres as [Hhd Hres]. unfold task_holds in Hth. unfold entered. destruct (started t) eqn:Es.
  - destruct Hres as [|[v Hv]]; [done|]. destruct Hth as [Hh Hc]. destruct (R_pending _ _ _ _ HR r t v Ht Hv) as [Hw Hrv].
    specialize (Hrv fl h Hfl Hhd). destruct (state t) as [| | |a tok k st]; try done.
    destruct Hh as (Hnd & g & frg & fr & Hs & Hg & Hcg & _).
    assert (g = h) as ->. { destruct (seg_head _ _ _ _ _ Hs) as [fl' ->]. by injection Hhd. }
    exists (mkMachine (frames (machine s)) (next (machine s)) (Exec h (k v)) None (log (machine s))). split_and!; [done|done| | |].
    + by exists frg, a, k, v.
    + unfold done. rewrite Hg. cbn. by rewrite Hcg.
    + intros fuel. unfold resume. rewrite Hg. cbn [mbind option_bind]. rewrite Hcg, Hrv. unfold resume_leaf. rewrite Hg. cbn [mbind option_bind]. by rewrite Hcg.
  - destruct Hth as (-> & Hr & Hc0 & _). injection Hhd as ->.
    exists (goto (Enter h) (frames (machine s)) (machine s)). split_and!; try done.
    + unfold done. by rewrite Hr.
    + intros fuel. unfold resume. by rewrite Hr.
Qed.

(** The order of the queue does not matter. *)
Lemma R_perm q q' s ts fls : q ≡ₚ q' -> R q s ts fls -> R q' s ts fls.
Proof. intros E []. split; try done; [by rewrite <- E|]. intros h. by rewrite <- E. Qed.

Lemma R_resume_all q s ts fls :
  R q s ts fls -> sound ts ->
  exists s' fls' n, (forall fuel, (n <= fuel)%nat -> resume_all fuel q s = Some s') /\ ready s' = ready s /\ R [] s' (deliver <$> ts) fls'.
Proof.
  induction q as [|h q IH] in s, ts, fls |- *; intros HR Hsd.
  - exists s, fls, O. split; [done|]. split; [done|]. replace (deliver <$> ts) with ts; [done|].
    apply map_eq. intros r. rewrite lookup_fmap. destruct (ts !! r) as [t|] eqn:Ht; [|done]. cbn. f_equal. symmetry.
    destruct (R_task _ _ _ _ HR r t Ht) as (fl & Hfl & Hth). pose proof (task_holds_root _ _ _ _ Hth) as Hin.
    assert (started t = true /\ pending t = None) as [Hs Hp]; [|by apply deliver_rest].
    destruct fl as [|x fl]; [by apply not_elem_of_nil in Hin|].
    assert (~ (started t = false \/ is_Some (pending t))) as Hn.
    { intros Hn. apply (not_elem_of_nil x). apply (R_queue _ _ _ _ HR). exists r, t, (x :: fl). by split_and!. }
    destruct (started t), (pending t); [destruct Hn; right; eauto|done|destruct Hn; by left..].
  - destruct (R_resume _ _ _ _ _ HR Hsd) as (r & t & s1 & fls1 & n1 & Ht & Hd & Hr & Hq & HR1).
    destruct (IH s1 (<[r := deliver t]> ts) fls1 HR1) as (s2 & fls2 & n2 & Hr2 & Hq2 & HR2).
    { intros r' t'. rewrite lookup_insert. case_decide; [|apply Hsd]. intros [= <-]. rewrite deliver_idemp. by eapply Hsd. }
    exists s2, fls2, (n1 `max` n2)%nat. split.
    + intros fuel Hf. cbn. rewrite Hd. cbn. rewrite Hr by lia. cbn. apply Hr2. lia.
    + split; [congruence|]. replace (deliver <$> ts) with (deliver <$> <[r := deliver t]> ts); [done|].
      rewrite fmap_insert, deliver_idemp. apply map_eq. intros r'. rewrite lookup_insert. case_decide; subst; [|done].
      by rewrite lookup_fmap, Ht.
Qed.

(** *** Cleaning up *)

Definition ended (t : ATask) : bool := started t && negb (waits (state t)).

Lemma erase_done_spec (d : nat -> bool) l fs :
  NoDup l -> (forall x, x ∈ l -> done fs x = Some (d x)) ->
  exists keep fs', erase_done l fs = Some (keep, fs') /\ NoDup keep /\ (forall x, x ∈ keep <-> x ∈ l /\ d x = false) /\
    forall h, fs' !! h = if decide (h ∈ l /\ d h = true) then None else fs !! h.
Proof.
  induction l as [|x l IH] in fs |- *; intros Hnd Hd.
  - exists [], fs. split_and!; [done|constructor| |].
    + intros x. split; [by intros []%not_elem_of_nil|by intros [[]%not_elem_of_nil _]].
    + intros h. rewrite decide_False; [done|]. by intros [[]%not_elem_of_nil _].
  - apply NoDup_cons in Hnd as [Hni Hnd]. cbn. rewrite (Hd x) by constructor. cbn [mbind option_bind].
    destruct (IH (if d x then delete x fs else fs)) as (keep & fs' & E & Hk & Hin & Hf); [done| |].
    { intros y Hy. assert (y <> x) by (by intros ->). rewrite <- (Hd y) by (by constructor).
      unfold done. destruct (d x); [by rewrite lookup_delete_ne|done]. }
    cbn in E. rewrite E. cbn. eexists _, fs'. split; [done|]. split_and!.
    + destruct (d x); [done|]. apply NoDup_cons. split; [|done]. rewrite Hin. tauto.
    + intros y. destruct (d x) eqn:Ed.
      * rewrite Hin, elem_of_cons. split; [tauto|]. intros [[->|] ?]; [congruence|done].
      * rewrite !elem_of_cons, Hin. split; [intros [->|]; tauto|tauto].
    + intros h. rewrite Hf. destruct (decide (h = x)) as [->|Hn].
      * rewrite (decide_False (P := x ∈ l /\ d x = true)) by tauto. destruct (d x) eqn:Ed.
        -- rewrite lookup_delete_eq, decide_True; [done|]. split; [constructor|done].
        -- rewrite decide_False; [done|]. by intros [_ ?].
      * assert (h ∈ x :: l /\ d h = true <-> h ∈ l /\ d h = true) as Hiff by (rewrite elem_of_cons; naive_solver).
        destruct (decide (h ∈ l /\ d h = true)) as [Hx|Hx]; [rewrite decide_True; tauto|].
        rewrite decide_False by tauto. destruct (d x); [by rewrite lookup_delete_ne|done].
Qed.

Lemma seg_root fs g st fl r : seg fs g st fl r -> g = r \/ exists fr c k, fs !! r = Some fr /\ code fr = InTask c k.
Proof.
  induction 1 as [f|g fr p frp k st fl f H1 H2 H3 H4 Hs [->|IH]]; [by left|right; eauto|by right].
Qed.

(** The frame of a task is done exactly when the task has ended. *)
Lemma task_done r t fl fs : task_holds r t fl fs -> done fs r = Some (ended t).
Proof.
  unfold task_holds, ended, done. destruct (started t); cbn; [|intros (_ & -> & _); done]. intros [Hh _].
  destruct (state t) as [v| | |a tok k st]; cbn in Hh |- *; [| |done|].
  - destruct Hh as [_ (fr & -> & Hc & _)]. cbn. by rewrite Hc.
  - destruct Hh as [_ (fr & -> & Hc & _)]. cbn. by rewrite Hc.
  - destruct Hh as (_ & g & frg & fr & Hs & Hg & Hcg & _ & Hr & _). rewrite Hr. cbn. f_equal.
    destruct (seg_root _ _ _ _ _ Hs) as [->|(fr' & c & k' & Hr' & Hc')]; simplify_eq; [by rewrite Hcg|by rewrite Hc'].
Qed.

Definition live (ts : gmap nat ATask) : gmap nat ATask := filter (fun x => ended x.2 = false) ts.

Lemma ended_frames r t fl fs : task_holds r t fl fs -> ended t = true -> fl = [r].
Proof.
  unfold task_holds, ended. destruct (started t); [|done]. intros [Hh _]. destruct (state t); cbn in Hh |- *; try done; by destruct Hh.
Qed.

Lemma R_cleanup s ts fls :
  R (ready s) s ts fls -> exists s' fls', cleanup_completed s = Some s' /\ ready s' = ready s /\ R (ready s') s' (live ts) fls'.
Proof.
  intros HR. pose proof HR as [H1 H2 H3 H4 H5 H6 [H7 H7'] H8 H9 H10].
  set (d := fun r => match ts !! r with Some t => ended t | None => false end).
  destruct (erase_done_spec d (owned s) (frames (machine s)) H7) as (keep & fs' & E & Hk & Hin & Hf).
  { intros r Hr. apply H7' in Hr as [t Ht]. destruct (H3 _ _ Ht) as (fl & _ & Hth). unfold d. rewrite Ht. by eapply task_done. }
  assert (forall r t, live ts !! r = Some t <-> ts !! r = Some t /\ ended t = false) as Hlive.
  { intros r t. unfold live. by rewrite map_lookup_filter_Some. }
  (* a frame of a live task is kept *)
  assert (forall r t fl h, ts !! r = Some t -> ended t = false -> fls !! r = Some fl -> h ∈ fl -> fs' !! h = frames (machine s) !! h) as Hkeep.
  { intros r t fl h Ht He Hfl Hh. rewrite Hf, decide_False; [done|]. intros [Ho Hd]. apply H7' in Ho as [t' Ht']. unfold d in Hd. rewrite Ht' in Hd.
    destruct (H3 _ _ Ht') as (fl' & Hfl' & Hth'). assert (r = h) as -> by (eapply H5; [exact Hfl|exact Hfl'|exact Hh|by eapply task_holds_root]). congruence. }
  unfold cleanup_completed. rewrite E. cbn [mbind option_bind].
  set (fls' := filter (fun x => ended <$> ts !! x.1 = Some false) fls).
  assert (forall r fl, fls' !! r = Some fl <-> fls !! r = Some fl /\ exists t, ts !! r = Some t /\ ended t = false) as Hfls.
  { intros r fl. unfold fls'. rewrite map_lookup_filter_Some. cbn. destruct (ts !! r) as [t|]; cbn.
    - split; [intros [? [= He]]; eauto|]. by intros [? (t' & [= ->] & ->)].
    - split; [by intros []|]. by intros [? (t' & ? & ?)]. }
  eexists _, fls'. split; [done|]. split; [done|]. split; cbn.
  - done.
  - intros h Hh. cbn in Hh |- *. rewrite Hf. case_decide; [done|]. by apply H2.
  - intros r t [Ht He]%Hlive. destruct (H3 _ _ Ht) as (fl & Hfl & Hth). exists fl. split; [apply Hfls; eauto|].
    eapply task_holds_same; [|exact Hth]. intros h Hh. by eapply Hkeep.
  - intros r [fl [Hfl (t & Ht & He)]%Hfls]. exists t. by apply Hlive.
  - intros r r' fl fl' h [Hfl _]%Hfls [Hfl' _]%Hfls. by eapply H5.
  - intros h Hh. rewrite Hf in Hh. case_decide as Hd; [by destruct Hh|]. destruct (H6 h Hh) as (r & fl & Hfl & Hin'). exists r, fl. split; [|done].
    apply Hfls. split; [done|]. destruct (H4 r) as [t Ht]; [eauto|]. exists t. split; [done|]. destruct (ended t) eqn:He; [|done].
    destruct (H3 _ _ Ht) as (fl1 & E1 & Hth). simplify_eq. rewrite (ended_frames _ _ _ _ Hth He) in Hin'. apply list_elem_of_singleton in Hin' as ->.
    destruct Hd. split; [apply H7'; eauto|]. unfold d. by rewrite Ht.
  - split; [done|]. intros r. rewrite Hin, H7'. unfold d. split.
    + intros [[t Ht] He]. rewrite Ht in He. exists t. by apply Hlive.
    + intros [t [Ht He]%Hlive]. rewrite Ht. eauto.
  - done.
  - intros h. rewrite H9. split.
    + intros (r & t & fl & Ht & Hfl & Hhd & Hres). assert (ended t = false) as He.
      { unfold ended. destruct Hres as [->|[v Hv]]; [done|]. destruct (H10 _ _ _ Ht Hv) as [-> _]. apply andb_false_r. }
      exists r, t, fl. split_and!; [by apply Hlive|apply Hfls; eauto|done].
    + intros (r & t & fl & [Ht He]%Hlive & [Hfl _]%Hfls & Hres). by exists r, t, fl.
  - intros r t v [Ht He]%Hlive Hp. destruct (H10 _ _ _ Ht Hp) as [Hw Hr]. split; [done|]. intros fl h [Hfl _]%Hfls. by eapply Hr.
Qed.

(** ** Histories *)

(** What the task has computed on its own answers, in direct style. *)
Definition meaning (t : ATask) : Ending := (direct (at_tok t) (at_body t) (consumed t)).2.

Lemma meaning_ending t : consumes (susp (at_tok t) (at_body t)) (consumed t) -> meaning t = ending (state t).
Proof. intros Hc. unfold meaning. rewrite <- follow_direct. by apply follow_after. Qed.

(** No resumption is undefined in direct style. *)
Definition defined (ts : gmap nat ATask) : Prop := forall r t, ts !! r = Some t -> meaning (deliver t) <> Undefined.

(** What a loop has gone through, with the tasks and their answers: tasks are
    spawned, the leaf awaiter of a blocked task completes, and the two halves of
    a turn. *)
Inductive history : Sched V A -> gmap nat ATask -> Prop :=
| h_init : history init ∅
| h_spawn tok b s ts : history s ts -> history (spawn tok b s) (<[next (machine s) := mkAT tok b false [] None]> ts)
| h_complete r t v s s' ts : history s ts -> ts !! r = Some t -> started t = true -> pending t = None ->
    meaning t = Blocked -> complete r v s = Some s' -> history s' (<[r := answered v t]> ts)
| h_resume fuel s s' ts : history s ts -> defined ts -> resume_all fuel (ready s) (set_ready [] s) = Some s' ->
    history s' (deliver <$> ts)
| h_cleanup s s' ts : history s ts -> cleanup_completed s = Some s' -> history s' (live ts).

Lemma deliver_consumes q s ts fls r t : R q s ts fls -> ts !! r = Some t -> consumes (susp (at_tok t) (at_body t)) (consumed (deliver t)).
Proof.
  intros HR Ht. destruct (R_task _ _ _ _ HR r t Ht) as (fl & _ & Hth). unfold task_holds in Hth. unfold deliver.
  destruct (started t); [|done]. destruct Hth as [_ Hc]. destruct (pending t) as [v|] eqn:Hp; [|done]. cbn. apply consumes_snoc; [done|].
  apply (R_pending _ _ _ _ HR r t v Ht Hp).
Qed.

Lemma deliver_spawned t : at_tok (deliver t) = at_tok t /\ at_body (deliver t) = at_body t.
Proof. unfold deliver. by destruct (started t), (pending t). Qed.

Lemma defined_sound q s ts fls : R q s ts fls -> defined ts -> sound ts.
Proof.
  intros HR Hd r t Ht Hu. apply (Hd r t Ht). destruct (deliver_spawned t) as [E1 E2]. rewrite meaning_ending.
  - by rewrite Hu.
  - rewrite E1, E2. by eapply deliver_consumes.
Qed.

Lemma started_consumes q s ts fls r t : R q s ts fls -> ts !! r = Some t -> started t = true -> consumes (susp (at_tok t) (at_body t)) (consumed t).
Proof. intros HR Ht Hs. destruct (R_task _ _ _ _ HR r t Ht) as (fl & _ & Hth). unfold task_holds in Hth. rewrite Hs in Hth. apply Hth. Qed.

(** More fuel than enough changes nothing. *)
Lemma drives_stop fuel fuel' x : (fuel <= fuel')%nat -> drive (V := V) (A := A) (drives fuel x) = None -> drives fuel' x = drives fuel x.
Proof.
  induction fuel as [|fuel IH] in fuel', x |- *; intros Hf Hd.
  - destruct fuel' as [|fuel']; [done|]. cbn -[drive] in Hd |- *. by rewrite Hd.
  - destruct fuel' as [|fuel']; [lia|]. cbn -[drive] in Hd |- *. destruct (drive x) as [y|]; [apply IH; [lia|done]|done].
Qed.

Lemma drives_answers fuel m : (drives (V := V) (A := A) fuel (m, [])).2 = [].
Proof.
  induction fuel as [|fuel IH] in m |- *; [done|]. cbn -[drive]. destruct (drive (m, [])) as [[m1 an]|] eqn:E; [|done].
  unfold drive in E. destruct (control m); try (injection E as <- <-; apply IH); [|done]. by destruct (waiting m).
Qed.

Lemma resume_more fuel fuel' h (s s' : Sched V A) : (fuel <= fuel')%nat -> resume fuel h s = Some s' -> resume fuel' h s = Some s'.
Proof.
  intros Hf. unfold resume. destruct (frames (machine s) !! h) as [fr|]; [|done]. cbn [mbind option_bind]. cbn zeta.
  set (m := match code fr with InLeaf _ _ => _ | _ => _ end). pose proof (drives_answers fuel m) as Ha.
  destruct (control (drives fuel (m, [])).1) eqn:Ec; try done. intros E.
  assert (drives fuel' (m, []) = drives fuel (m, [])) as ->; [|by rewrite Ec].
  apply drives_stop; [done|]. destruct (drives fuel (m, [])) as [m1 an]. cbn in Ec, Ha. subst an. unfold drive. rewrite Ec. by destruct (waiting m1).
Qed.

Lemma resume_all_more fuel fuel' q (s s' : Sched V A) :
  (fuel <= fuel')%nat -> resume_all fuel q s = Some s' -> resume_all fuel' q s = Some s'.
Proof.
  intros Hf. induction q as [|h q IH] in s |- *; cbn; [done|]. destruct (done _ h) as [[]|]; cbn; [apply IH| |done].
  destruct (resume fuel h s) as [s1|] eqn:E; [|done]. rewrite (resume_more _ _ _ _ _ Hf E). cbn. apply IH.
Qed.

Lemma R_set_ready q q' s ts fls : R q s ts fls -> R q (set_ready q' s) ts fls.
Proof. by intros []. Qed.

Lemma history_R s ts : history s ts -> exists fls, R (ready s) s ts fls.
Proof.
  induction 1 as [|tok b s ts _ [fls HR]|r t v s s' ts _ [fls HR] Ht Hs Hp Hm Hc|fuel s s' ts _ [fls HR] Hd Hr|s s' ts _ [fls HR] Hc].
  - exists ∅. apply R_init.
  - eexists. by apply R_spawn.
  - rewrite meaning_ending in Hm by (by eapply started_consumes).
    destruct (R_complete r t v s ts fls HR Ht Hs Hp) as (s1 & E & HR1); [by destruct (state t)|]. simplify_eq. eauto.
  - destruct (R_resume_all (ready s) (set_ready [] s) ts fls) as (s1 & fls1 & n & Hn & Hq & HR1).
    + by apply R_set_ready.
    + by eapply defined_sound.
    + pose proof (resume_all_more fuel (fuel `max` n) _ _ _ ltac:(lia) Hr) as E. rewrite Hn in E by lia. simplify_eq. exists fls1.
      cbn in Hq. by rewrite Hq.
  - destruct (R_cleanup s ts fls HR) as (s1 & fls1 & E & Hq & HR1). simplify_eq. eauto.
Qed.

(** Tasks on one loop do not interfere.  After any history - tasks spawned,
    leaf awaiters completed in whatever order, queues resumed, finished tasks
    cleaned up - each task is where its own body in direct style, on the answers
    of its own leaf awaiters alone, would be: its frame holds the value or the
    unhandled-exception error, or its innermost frame waits in a leaf awaiter.
    Memory holds no frame when no task is left, and the loop can always go on:
    the awaiter of a blocked task can complete, the queue can be resumed with
    every handle in it alive, and cleaning up succeeds. *)
Theorem tasks_do_not_interfere s ts :
  history s ts ->
  (forall r t, ts !! r = Some t -> started t = true ->
    match meaning t with
    | Value v rest => rest = [] /\ exists fr, frames (machine s) !! r = Some fr /\ code fr = Final /\ result (promise fr) = Ok v
    | Exception rest => rest = [] /\ exists fr, frames (machine s) !! r = Some fr /\ code fr = Final /\ result (promise fr) = Err unhandled
    | Blocked => exists g frg a k, leaf_of (next (machine s)) (frames (machine s)) r = Some g /\
        frames (machine s) !! g = Some frg /\ code frg = InLeaf a k
    | Undefined => False
    end) /\
  (ts = ∅ -> frames (machine s) = ∅) /\
  (forall r t v, ts !! r = Some t -> started t = true -> pending t = None -> meaning t = Blocked -> is_Some (complete r v s)) /\
  (defined ts -> exists fuel, is_Some (resume_all fuel (ready s) (set_ready [] s))) /\
  is_Some (cleanup_completed s).
Proof.
  intros [fls HR]%history_R. split_and!.
  - intros r t Ht Hs. pose proof (started_consumes _ _ _ _ _ _ HR Ht Hs) as Hc. rewrite (meaning_ending t Hc).
    destruct (R_task _ _ _ _ HR r t Ht) as (fl & Hfl & Hth). unfold task_holds in Hth. rewrite Hs in Hth. destruct Hth as [Hh _].
    destruct (state t) as [v| | |a tok k st] eqn:Est; cbn; [split; [done|apply Hh]..|done|].
    destruct (waiting_leaf r _ fl _ (next (machine s)) Hh eq_refl) as (g & Hg & Hl); [intros h Hin; by eapply R_frames_lt|].
    destruct Hh as (_ & g' & frg & fr & Hsg & Hg' & Hcg & _). destruct (seg_head _ _ _ _ _ Hsg) as [fl' ->]. injection Hg as ->.
    by exists g, frg, a, k.
  - intros ->. apply map_eq. intros h. rewrite lookup_empty. destruct (frames (machine s) !! h) eqn:E; [|done].
    destruct (R_cover _ _ _ _ HR h) as (r & fl & Hfl & _); [eauto|]. by destruct (R_dom _ _ _ _ HR r) as [t Ht]; [eauto|].
  - intros r t v Ht Hs Hp Hm. rewrite meaning_ending in Hm by (by eapply started_consumes).
    destruct (R_complete r t v s ts fls HR Ht Hs Hp) as (s1 & E & _); [by destruct (state t)|]. eauto.
  - intros Hd. destruct (R_resume_all (ready s) (set_ready [] s) ts fls) as (s1 & fls1 & n & Hn & _).
    + by apply R_set_ready.
    + by eapply defined_sound.
    + exists n. rewrite Hn by lia. eauto.
  - destruct (R_cleanup s ts fls HR) as (s1 & fls1 & E & _). eauto.
Qed.

End Props.

(** ** Witness: two tasks, one nested, answered in the other order *)

Definition wit_double : Body Z bool := AwaitTask None (AwaitLeaf true (fun v => Return (v + 1))) (fun v => Return (2 * v)).
Definition wit_pair : Body Z bool := AwaitLeaf false (fun v => AwaitLeaf true (fun w => Return (v + w))).

(** Both are spawned and started; the answers arrive, 5 for the second and 20
    for the first, and are delivered in the second turn. *)
Definition run_queue (s : Sched Z bool) : Sched Z bool := default init (resume_all 20 (ready s) (set_ready [] s)).
Definition wit_0 : Sched Z bool := spawn (Some 7%nat) wit_pair (spawn None wit_double init).
Definition wit_1 : Sched Z bool := run_queue wit_0.
Definition wit_2 : Sched Z bool := default init (complete 0 20 (default init (complete 1 5 wit_1))).

Definition wit_tasks_0 : gmap nat (ATask (V := Z) (A := bool)) :=
  <[1%nat := mkAT (Some 7%nat) wit_pair false [] None]> (<[0%nat := mkAT None wit_double false [] None]> ∅).
Definition wit_tasks_2 : gmap nat (ATask (V := Z) (A := bool)) :=
  <[0%nat := mkAT None wit_double true [] (Some 20)]> (<[1%nat := mkAT (Some 7%nat) wit_pair true [] (Some 5)]> (deliver <$> wit_tasks_0)).

Ltac known_tasks :=
  intros r t Ht; apply elem_of_map_to_list in Ht; vm_compute in Ht;
  repeat (apply elem_of_cons in Ht; destruct Ht as [[= -> ->]|Ht]; [vm_compute; intros ?; discriminate|]);
  by apply not_elem_of_nil in Ht.

Lemma wit_history : history (run_queue wit_2) (deliver <$> wit_tasks_2).
Proof.
  eapply (h_resume 20 wit_2); [|known_tasks|vm_compute; reflexivity].
  eapply (h_complete 0 (mkAT None wit_double true [] None) 20 (default init (complete 1 5 wit_1))); [|vm_compute; reflexivity..].
  eapply (h_complete 1 (mkAT (Some 7%nat) wit_pair true [] None) 5 wit_1); [|vm_compute; reflexivity..].
  eapply (h_resume 20 wit_0); [|known_tasks|vm_compute; reflexivity].
  apply (h_spawn (Some 7%nat) wit_pair), (h_spawn None wit_double), h_init.
Qed.

(** The first task is done with 42, the second waits in its second awaiter. *)
Lemma tasks_do_not_interfere_witness :
  (exists fr, frames (machine (run_queue wit_2)) !! 0%nat = Some fr /\ code fr = Final /\ result (promise fr) = Ok 42) /\
  leaf_of (next (machine (run_queue wit_2))) (frames (machine (run_queue wit_2))) 1 = Some 1%nat /\
  is_Some (cleanup_completed (run_queue wit_2)).
Proof.
  destruct (tasks_do_not_interfere _ _ wit_history) as (H & _ & _ & _ & Hc). split; [|split; [vm_compute; reflexivity|exact Hc]].
  exact (proj2 (H 0%nat (mkAT None wit_double true [20] None) eq_refl eq_refl)).
Defined.

End SchedProps.
