(* ===== verification/Coroutines.v ===== *)
(** * Coroutines: coroutine frames, awaiters and the event loop as one machine

    The frames of [Task.v] run on the loop of [EventLoop.v]: a coroutine that
    reaches a leaf constructs the awaiter of [Awaiters.v] in its frame and
    suspends into the reactor and the wheel; the handle that they queue is resumed
    by [EventLoop.run], and the coroutine goes on with what [await_resume] gives.
    The state of the coroutines rides along with the kernel's. *)

From S2P Require Import Prelude Core TimerWheel Reactor World Awaiters EventLoop Combinators Task.

Module Coroutines.
Import Awaiters Combinators Task.

(** ** State *)

(** What a coroutine does between two suspensions that involves the loop: it
    awaits a readiness awaiter, a readiness awaiter with a timeout or a sleep, or
    it requests a stop from the source [s], which is no suspension. *)
Inductive Leaf :=
| LReady (d : Reactor.Dir) (fd : Z)
| LTimed (d : Reactor.Dir) (fd timeout : Z)
| LSleep (delay : Z)
| LStop (s : nat).

(** An awaiter in the frame of a suspended coroutine, with its [timer_id_]. *)
Record Object := mkObject { ob_awaiter : Awaiter; ob_timer : Z }.

Record Co (V : Type) := mkCo { co_machine : Machine V Leaf; co_objects : gmap nat Object }.
Arguments mkCo {V} _ _.
Arguments co_machine {V} _.
Arguments co_objects {V} _.

(** ** The kernel beside the coroutines *)

Section Lift.
Context {K C : Type}.

Definition beside {A} (c : C) (x : A * K) : A * (K * C) := (x.1, (x.2, c)).

#[global] Instance beside_epoll `{Reactor.EpollKernel K} : Reactor.EpollKernel (K * C) := {
  epoll_create1 k := beside k.2 (Reactor.epoll_create1 k.1);
  epoll_ctl ep op fd ev k := beside k.2 (Reactor.epoll_ctl ep op fd ev k.1);
  epoll_wait ep n t k := beside k.2 (Reactor.epoll_wait ep n t k.1);
  epoll_close fd k := beside k.2 (Reactor.epoll_close fd k.1);
}.

#[global] Instance beside_loop `{EventLoop.LoopKernel K} : EventLoop.LoopKernel (K * C) := {
  eventfd k := beside k.2 (EventLoop.eventfd k.1);
  eventfd_write fd k := beside k.2 (EventLoop.eventfd_write fd k.1);
  eventfd_read fd k := (EventLoop.eventfd_read fd k.1, k.2);
  close_fd fd k := (EventLoop.close_fd fd k.1, k.2);
  clock_now k := beside k.2 (EventLoop.clock_now k.1);
}.
End Lift.

Section Coroutines.
Context {K V : Type} `{Reactor.EpollKernel K} `{EventLoop.LoopKernel K}.

(** How a coroutine body sees the result of an awaiter. *)
Variable ret : Result unit -> V.

#[local] Abbreviation CWorld := (World (K * Co V)).

Definition objects (W : CWorld) : gmap nat Object := co_objects (kern W).2.
Definition set_objects (x : gmap nat Object) (W : CWorld) : CWorld :=
  set_kern ((kern W).1, mkCo (co_machine (kern W).2) x) W.

Definition is_final (fr : Frame V Leaf) : bool := match code fr with Final => true | _ => false end.

(** The coroutines whose frames are in memory: the loop destroys frames. *)
Definition live (fs : gmap nat (Frame V Leaf)) (m : Mem) : gmap nat (Frame V Leaf) :=
  map_zip_with (fun fr _ => fr) fs (Core.frames m).

Definition machine (W : CWorld) : Machine V Leaf :=
  let m := co_machine (kern W).2 in mkMachine (live (frames m) (mem W)) (next m) (control m) (waiting m) (log m).

Definition store (m : Machine V Leaf) (W : CWorld) : CWorld :=
  set_kern ((kern W).1, mkCo m (objects W))
    (set_mem (mkMem (ws_cells (mem W)) (res_cells (mem W)) (is_final <$> frames m)) W).

(** ** [co_await] of a leaf *)

(** The awaiter stays in the frame [g] while the coroutine is suspended. *)
Definition keep (g : nat) (aw : Awaiter) (timer_id : Z) (W : CWorld) : CWorld :=
  set_objects (<[g := mkObject aw timer_id]> (objects W)) W.

(** The end of the full expression destroys it. *)
Definition drop (g : nat) (W : CWorld) : CWorld :=
  set_objects (delete g (objects W))
    (set_mem (mkMem (delete g (ws_cells (mem W))) (delete g (res_cells (mem W))) (Core.frames (mem W))) W).

Definition answer (g : nat) (x : option (Result unit * CWorld)) : option (V * CWorld) :=
  y ← x; Some (ret y.1, drop g y.2).

Definition make_ready (d : Reactor.Dir) (fd : Z) (g : nat) (W : CWorld) : Awaiter * CWorld :=
  match d with Reactor.DRead => make_read_ready fd g g W | Reactor.DWrite => make_write_ready fd g g W end.

(** Constructing the awaiter, [await_transform], [await_ready] and
    [await_suspend]: [None] when the coroutine [g] is suspended, otherwise what it
    goes on with. *)
Definition await_leaf (g : nat) (l : Leaf) (tok : stop_token) (W : CWorld) : option (option V * CWorld) :=
  match l with
  | LStop s => W ← Awaiters.request_stop s W; Some (Some (ret (Ok tt)), W)
  | LReady d fd =>
    let '(aw, W) := make_ready d fd g W in
    let aw := set_cancellation tok aw in
    x ← io_await_suspend d aw (Some g) W;
    let '(stays, W) := x in
    if (stays : bool) then Some (None, keep g aw 0 W)
    else y ← answer g (io_await_resume aw W); Some (Some y.1, y.2)
  | LTimed d fd timeout =>
    let '(aw, W) := make_timed fd g g W in
    let aw := set_cancellation tok aw in
    x ← timed_await_suspend d timeout aw (Some g) W;
    let '(stays, id, W) := x in
    if (stays : bool) then Some (None, keep g aw id W)
    else y ← answer g (timed_await_resume d id aw W); Some (Some y.1, y.2)
  | LSleep delay =>
    let '(aw, delay, W) := sleep_for delay g W in
    let aw := set_cancellation tok aw in
    if sleep_await_ready delay then y ← answer g (sleep_await_resume aw W); Some (Some y.1, y.2)
    else x ← sleep_await_suspend delay aw (Some g) W; Some (None, keep g aw x.1 x.2)
  end.

(** [await_resume] of the awaiter in the frame [g]. *)
Definition resume_awaiter (g : nat) (l : Leaf) (W : CWorld) : option (V * CWorld) :=
  o ← objects W !! g;
  answer g
    match l with
    | LReady _ _ => io_await_resume (ob_awaiter o) W
    | LTimed d _ _ => timed_await_resume d (ob_timer o) (ob_awaiter o) W
    | LSleep _ => sleep_await_resume (ob_awaiter o) W
    | LStop _ => None
    end.

(** ** [h.resume()] *)

(** [fuel] bounds the transfers between two leaves and the leaves that do not
    suspend. *)
Variable fuel : nat.

Fixpoint go_on (n : nat) (W : CWorld) : option CWorld :=
  match n with
  | O => None
  | S n =>
    let m := (drives fuel (machine W, [])).1 in
    let W := store m W in
    match control m, waiting m with
    | Idle, None => Some W
    | Idle, Some g =>
      fr ← frames m !! g;
      match code fr with
      | InLeaf l _ =>
        x ← await_leaf g l (await_transform (promise fr) None) W;
        match x with
        | (None, W) => Some W
        | (Some v, W) => go_on n (store (resume_leaf g v (machine W)) W)
        end
      | _ => None
      end
    | _, _ => None
    end
  end.

Definition resume (h : nat) (W : CWorld) : option CWorld :=
  let m := machine W in
  fr ← frames m !! h;
  match code fr with
  | InLeaf l _ =>
    x ← resume_awaiter h l W;
    go_on fuel (store (resume_leaf h x.1 (machine x.2)) x.2)
  | _ => go_on fuel (store (mkMachine (frames m) (next m) (Enter h) None (log m)) W)
  end.

(** ** Construction and spawning *)

(** The thread that made the loop [l], with the stop sources of the program and
    no coroutine yet. *)
Definition make_world (l : Loop) (sources : gmap nat StopState) (k : K) : CWorld :=
  mkWorld l (mkMem ∅ ∅ ∅) sources ∅ false (k, mkCo (mkMachine ∅ 0 Idle None []) ∅).

(** A task is created with body [b], given the token [tok] and spawned. *)
Definition spawn (tok : stop_token) (b : Body V Leaf) (W : CWorld) : CWorld :=
  let m := machine W in
  let r := next m in
  let fr := mkFrame (mkPromise (Err make_cancelled_error) None None tok) (Initial b) in
  EventLoop.spawn (Some r) (store (mkMachine (<[r := fr]> (frames m)) (S r) (control m) (waiting m) (log m)) W).

(** One iteration of the loop that runs them. *)
Definition iteration (W : CWorld) : option (EventLoop.Control * CWorld) := EventLoop.iteration resume W.

End Coroutines.
End Coroutines.
