(* ===== verification/CoBudget.v ===== *)
(** * CoBudget: coroutine bodies with a bounded number of awaits

    What a coroutine of [Coroutines.v] needs to know about its body to run: the
    stop states it names exist, its delays are representable, and it awaits at
    most so many times.  Timer identifiers are a bounded resource of the wheel. *)

From S2P Require Import Prelude Core TimerWheel TimerInv Reactor World Combinators Task TaskProps Sched SchedProps Coroutines.

Module CoBudget.
Import Combinators Task TaskProps SchedProps Coroutines.

Section Budget.
Context {V : Type}.
Implicit Types b : Body V Leaf.

(** The stop states that exist. *)
Variable D : gset nat.

Definition tok_ok (t : stop_token) : Prop := match t with None => True | Some s => s ∈ D end.

Definition leaf_ok (l : Leaf) : Prop :=
  match l with
  | LReady _ _ => True
  | LTimed _ _ timeout => timeout < 2 ^ 62
  | LSleep delay => delay < 2 ^ 62
  | LStop s => s ∈ D
  end.

(** [b] reaches at most [n] leaves. *)
Fixpoint budget (n : nat) b : Prop :=
  match b with
  | Return _ | Throw => True
  | AwaitTask tok c k => tok_ok tok /\ exists n1 n2, (n1 + n2 <= n)%nat /\ budget n1 c /\ forall v, budget n2 (k v)
  | AwaitLeaf l k => leaf_ok l /\ exists n', (S n' <= n)%nat /\ forall v, budget n' (k v)
  end.

Lemma budget_le n n' b : (n <= n')%nat -> budget n b -> budget n' b.
Proof.
  destruct b as [v| |tok c k|l k]; cbn; try done.
  - intros Hle (Ht & n1 & n2 & Hn & ?). split; [done|]. exists n1, n2. split; [lia|done].
  - intros Hle (Hl & n1 & Hn & ?). split; [done|]. exists n1. split; [lia|done].
Qed.

(** The same for a suspended computation. *)
Fixpoint stack_budget (n : nat) (st : list (stop_token * (V -> Body V Leaf))) : Prop :=
  match st with
  | [] => True
  | (tok, k) :: st => tok_ok tok /\ exists n1 n2, (n1 + n2 <= n)%nat /\ (forall v, budget n1 (k v)) /\ stack_budget n2 st
  end.

Definition susp_budget (n : nat) (s : Susp (V := V) (A := Leaf)) : Prop :=
  match s with
  | Wait l tok k st => leaf_ok l /\ tok_ok tok /\
      exists n1 n2, (S (n1 + n2) <= n)%nat /\ (forall v, budget n1 (k v)) /\ stack_budget n2 st
  | _ => True
  end.

Lemma stack_budget_snoc n n' st tok k :
  stack_budget n st -> tok_ok tok -> (forall v, budget n' (k v)) -> stack_budget (n + n') (st ++ [(tok, k)]).
Proof.
  induction st as [|[tok1 k1] st IH] in n |- *; cbn.
  - intros _ Ht Hk. split; [done|]. exists n', O. split; [lia|done].
  - intros (Ht1 & n1 & n2 & Hn & Hk1 & Hst) Ht Hk. split; [done|]. exists n1, (n2 + n')%nat. split; [lia|]. split; [done|]. by apply IH.
Qed.

Lemma susp_budget_le n n' s : (n <= n')%nat -> susp_budget n s -> susp_budget n' s.
Proof.
  destruct s as [v| | |l tok k st]; try done. intros Hle (Hl & Ht & n1 & n2 & Hn & ?). split; [done|]. split; [done|].
  exists n1, n2. split; [lia|done].
Qed.

Lemma susp_budgeted b : forall n tok, budget n b -> tok_ok tok -> susp_budget n (susp tok b).
Proof.
  induction b as [v| |tok' c IHc k IHk|l k IHk]; intros n tok Hb Ht; cbn [susp]; try done.
  - destruct Hb as (Ht' & n1 & n2 & Hn & Hc & Hk).
    assert (tok_ok (if has_value tok then tok else tok')) as Htc by (by destruct tok).
    specialize (IHc n1 _ Hc Htc). destruct (susp _ c) as [v| | |l tok1 k1 st1]; try done.
    + eapply susp_budget_le; [|by apply IHk]. lia.
    + destruct IHc as (Hl & Ht1 & n3 & n4 & Hn' & Hk1 & Hst). split; [done|]. split; [done|].
      exists n3, (n4 + n2)%nat. split; [lia|]. split; [done|]. by apply stack_budget_snoc.
  - destruct Hb as (Hl & n1 & Hn & Hk). split; [done|]. split; [done|]. exists n1, O. split; [lia|done].
Qed.

Lemma stack_budget_app n n' st st' : stack_budget n st -> stack_budget n' st' -> stack_budget (n + n') (st ++ st').
Proof.
  induction st as [|[tok1 k1] st IH] in n |- *; cbn.
  - intros _. destruct st' as [|[tok k] st']; [done|]. cbn. intros (Ht & n1 & n2 & Hn & ?). split; [done|]. exists n1, n2. split; [lia|done].
  - intros (Ht1 & n1 & n2 & Hn & Hk1 & Hst) Hst'. split; [done|]. exists n1, (n2 + n')%nat. split; [lia|]. split; [done|]. by apply IH.
Qed.

Lemma unwind_budgeted st : forall n n' s, susp_budget n s -> stack_budget n' st -> susp_budget (n + n') (unwind s st).
Proof.
  induction st as [|[tok k] st IH]; intros n n' s Hs Hst; cbn [unwind].
  - eapply susp_budget_le; [|done]. lia.
  - destruct s as [v| | |l tok1 k1 st1]; try done.
    + destruct Hst as (Ht & n1 & n2 & Hn & Hk & Hst). eapply susp_budget_le; [|eapply IH; [by apply susp_budgeted|done]]. lia.
    + destruct Hs as (Hl & Ht1 & n1 & n2 & Hn & Hk & Hst1). split; [done|]. split; [done|]. exists n1, (n2 + n')%nat.
      split; [lia|]. split; [done|]. by apply stack_budget_app.
Qed.

(** Every answer costs. *)
Lemma feed_budgeted n s v : susp_budget n s -> waits s = true -> exists n', (n' < n)%nat /\ susp_budget n' (feed v s).
Proof.
  destruct s as [w| | |l tok k st]; try done. intros (Hl & Ht & n1 & n2 & Hn & Hk & Hst) _. exists (n1 + n2)%nat. split; [lia|].
  apply unwind_budgeted; [by apply susp_budgeted|done].
Qed.

(** What is left of the budgets of several tasks. *)
Definition total (φ : gmap nat nat) : nat := map_fold (fun _ n t => n + t)%nat O φ.

Lemma total_insert φ r n : φ !! r = None -> total (<[r := n]> φ) = (n + total φ)%nat.
Proof. intros Hr. unfold total. rewrite map_fold_insert_L; [done|lia|done]. Qed.

Lemma total_spend φ r n n' : φ !! r = Some n -> (n' <= n)%nat -> (total (<[r := n']> φ) + (n - n') = total φ)%nat.
Proof.
  intros Hr Hle. rewrite <- (insert_delete_id φ r n Hr) at 2. rewrite <- insert_delete_eq, !total_insert by apply lookup_delete_eq. lia.
Qed.

Lemma total_filter (P : nat * nat -> Prop) `{!forall x, Decision (P x)} φ : (total (filter P φ) <= total φ)%nat.
Proof.
  induction φ as [|r n φ Hr IH] using map_ind; [done|]. rewrite total_insert by done. destruct (decide (P (r, n))).
  - rewrite map_filter_insert_True, total_insert by (try done; by apply map_lookup_filter_None_2; left). lia.
  - rewrite map_filter_insert_not'; [lia|done|]. intros y Hy. congruence.
Qed.

End Budget.
End CoBudget.
