(* ===== verification/CoTimers.v ===== *)
(** * CoTimers: how many timer identifiers a wheel has handed out

    [used w u]: the wheel has been scheduled on at most [u] times.  Only
    scheduling uses identifiers up, so a bound on the number of timers is room for
    the next one. *)

From S2P Require Import Prelude Core TimerWheel TimerInv TimerSpec TimerProps AwaiterProps.

Module CoTimers.
Import Timer TimerInv AwaiterProps.

Definition gens (w : Wheel) : list Z := generation <$> slotmap w.

Definition used (w : Wheel) (u : nat) : Prop :=
  (length (slotmap w) <= u)%nat /\ forall i s, slotmap w !! i = Some s -> 0 <= generation s <= Z.of_nat u.

Lemma used_gens w w' u : gens w' = gens w -> used w u -> used w' u.
Proof.
  intros E [Hl Hg]. split.
  - rewrite <- (length_fmap generation). unfold gens in E. by rewrite E, length_fmap.
  - intros i s Hs. assert (gens w !! i = Some (generation s)) as Hi by (rewrite <- E; unfold gens; by rewrite list_lookup_fmap, Hs).
    unfold gens in Hi. apply list_lookup_fmap_Some in Hi as (s' & -> & Hs'). by eapply Hg.
Qed.

(** Identifiers stay issued. *)
Lemma issued_gens w w' id : gens w' = gens w -> issued w id -> issued w' id.
Proof.
  intros E (s & Hs & Hg). assert (gens w' !! Z.to_nat (id_index id) = Some (generation s)) as Hi by (rewrite E; unfold gens; by rewrite list_lookup_fmap, Hs).
  unfold gens in Hi. apply list_lookup_fmap_Some in Hi as (s' & Hg' & Hs'). exists s'. split; [done|]. lia.
Qed.

Lemma used_room w u : used w u -> Z.of_nat u < 2 ^ 24 -> schedule_room w.
Proof.
  intros [Hl Hg] Hu. unfold schedule_room. destruct (free_indices w) as [|i rest]; [lia|]. intros s Hs. specialize (Hg _ _ Hs).
  zpow. lia.
Qed.

Lemma used_make_wheel now : used (make_wheel now) 0.
Proof. split; [done|]. by intros i s Hs. Qed.

(** ** Releasing and ticking *)

Lemma gens_free_slot idx s w : slotmap w !! Z.to_nat idx = Some s -> gens (free_slot idx s w) = gens w.
Proof.
  intros Hs. unfold gens, free_slot. cbn. rewrite list_fmap_insert. cbn. apply list_insert_id. by rewrite list_lookup_fmap, Hs.
Qed.

Lemma gens_release id w : gens (release id w) = gens w.
Proof. unfold release. destruct (slotmap w !! _) as [s|] eqn:E; [|done]. destruct (_ && _); [by apply gens_free_slot|done]. Qed.

Lemma gens_cancel id w : gens (cancel id w).2 = gens w.
Proof. unfold cancel. destruct (slotmap w !! _) as [s|] eqn:E; [|done]. destruct (_ || _); [done|by apply gens_free_slot]. Qed.

Lemma gens_process ids : forall m w f m' w' f', process_ids ids (m, w, f) = Some (m', w', f') -> gens w' = gens w.
Proof.
  induction ids as [|id ids IH]; intros m w f m' w' f'; cbn [process_ids]; [by intros [= _ <- _]|].
  unfold process_id. destruct (lookup w id) as [e|]; [|apply IH]. destruct (claim _ _ m) as [[go m1]|]; [|done]. cbn [mbind option_bind].
  destruct go; cbn [negb]; [|intros ->%IH; apply gens_release].
  destruct (resumable _ m1) as [[]|]; cbn [mbind option_bind]; [| |done]; intros ->%IH; by rewrite gens_release.
Qed.

Lemma gens_tick m w m' w' f : tick m w = Some (m', w', f) -> gens w' = gens w.
Proof.
  unfold tick, process_current_slot. set (w0 := set_time _ w).
  assert (gens (if cur_slot w0 0 =? 0 then cascade 1 w0 else w0) = gens w) as E0.
  { destruct (_ =? _); [|done]. unfold gens. by destruct (same_entries_cascade w0) as [-> _]. }
  revert E0. generalize (if cur_slot w0 0 =? 0 then cascade 1 w0 else w0). intros w1 E1.
  destruct (process_ids _ _) as [[[m2 w2] f2]|] eqn:E; cbn [mbind option_bind]; [|done]. intros [= _ <- _].
  change (gens (set_cur _ _ w2)) with (gens w2). apply gens_process in E. by rewrite E.
Qed.

Lemma gens_advance k : forall target total m w m' w' f, advance_loop k target total m w = Some (m', w', f) -> gens w' = gens w.
Proof.
  induction k as [|k IH]; intros target total m w m' w' f; cbn [advance_loop]; (destruct (current_time w <? target); [|by intros [= _ <- _]]); [done|].
  destruct (tick m w) as [[[m1 w1] f1]|] eqn:E; cbn [mbind option_bind]; [|done]. intros ->%IH. by eapply gens_tick.
Qed.

(** The wheel stores no results. *)
Lemma results_process ids : forall m w f m' w' f', process_ids ids (m, w, f) = Some (m', w', f') -> res_cells m' = res_cells m.
Proof.
  induction ids as [|id ids IH]; intros m w f m' w' f'; cbn [process_ids]; [by intros [= <- _ _]|].
  unfold process_id. destruct (lookup w id) as [e|]; [|apply IH]. destruct (claim _ _ m) as [[go m1]|] eqn:Ec; [|done].
  apply claim_frames in Ec as [_ Er]. cbn [mbind option_bind]. destruct go; cbn [negb]; [|by intros ->%IH].
  destruct (resumable _ m1) as [[]|]; cbn [mbind option_bind]; [| |done]; by intros ->%IH.
Qed.

Lemma results_advance k : forall target total m w m' w' f, advance_loop k target total m w = Some (m', w', f) -> res_cells m' = res_cells m.
Proof.
  induction k as [|k IH]; intros target total m w m' w' f; cbn [advance_loop]; (destruct (current_time w <? target); [|by intros [= <- _ _]]); [done|].
  destruct (tick m w) as [[[m1 w1] f1]|] eqn:E; cbn [mbind option_bind]; [|done]. intros ->%IH.
  unfold tick, process_current_slot in E. destruct (process_ids _ _) as [[[m2 w2] f2]|] eqn:E1; cbn [mbind option_bind] in E; [|done].
  injection E as <- _ _. by eapply results_process.
Qed.

(** ** Scheduling *)

Lemma used_schedule w dl h st c id w' u : used w u -> schedule_at dl h st c w = Some (id, w') -> Z.of_nat u < 2 ^ 24 -> used w' (S u).
Proof.
  intros [Hl Hg] E Hu. unfold schedule_at in E. destruct (alloc_index w) as [idx w1] eqn:Ea.
  destruct (slotmap w1 !! Z.to_nat idx) as [s|] eqn:Es; [|done]. cbn [mbind option_bind] in E. injection E as _ <-.
  assert ((length (slotmap w1) <= S u)%nat /\ forall i s, slotmap w1 !! i = Some s -> 0 <= generation s <= Z.of_nat u) as [Hl1 Hg1].
  { unfold alloc_index in Ea. destruct (free_indices w); injection Ea as _ <-; cbn; [|split; [lia|exact Hg]].
    rewrite length_app. cbn. split; [lia|]. intros i s'. rewrite lookup_app_Some. intros [Hs|[_ Hs]]; [by eapply Hg|].
    destruct (i - _)%nat; [|done]. injection Hs as <-. cbn. lia. }
  destruct (place_levels_only (encode_id idx ((generation s +u[64] 1)%rain)) dl
    (set_count (active_count w1 +u[64] 1)%rain (set_slotmap (<[Z.to_nat idx := mkSlot (mkEntry (encode_id idx (generation s +u[64] 1)%rain) dl h st c)
      (generation s +u[64] 1)%rain true]> (slotmap w1)) w1))) as [lv Elv].
  unfold used. cbn -[place encode_id] in Elv |- *. rewrite Elv. cbn -[encode_id]. rewrite length_insert. split; [done|].
  intros i s'. rewrite list_lookup_insert_Some. intros [(<- & <- & _)|[_ Hs]]; [|apply Hg1 in Hs; lia]. cbn.
  specialize (Hg1 _ _ Es). rewrite wrap_small; [lia|]. zpow. lia.
Qed.

(** A timer whose deadline has not passed fires by its deadline. *)
Lemma fire_slot_deadline t0 n dl :
  0 <= n -> t0 + n * kMillisecond <= dl -> t0 + TimerSpec.fire_slot n (dticks t0 dl) * kMillisecond <= dl.
Proof.
  intros Hn Hdl. assert (t0 <= dl) as H0 by (unfold kMillisecond in *; lia).
  assert (TimerSpec.fire_slot n (dticks t0 dl) <= dticks t0 dl) as Hle.
  { assert (n <= dticks t0 dl) by (pose proof (TimerProps.dticks_grid t0 dl n Hn H0); unfold kMillisecond in *; lia). unfold TimerSpec.fire_slot, TimerSpec.early. case_cmp; zdiv. }
  assert (0 <= dticks t0 dl) as Hd by (unfold dticks; lia). pose proof (TimerProps.dticks_grid t0 dl _ Hd H0) as Hg. unfold kMillisecond in *. lia.
Qed.

End CoTimers.
