(* ===== verification/CoInv.v ===== *)
(** * CoInv: the invariant of coroutines on a loop

    [Good] ties together the frames ([SchedProps.R]), the awaiters in them
    ([AwaiterProps.Inv]), the reactor's waiters, the wheel's timers, the stop
    callbacks and the queues.  What happens to suspended coroutines keeps it. *)

From S2P Require Import Prelude Core TimerWheel TimerInv TimerSpec Reactor ReactorProps World Awaiters AwaiterProps EventLoop.
From S2P Require Import WakeUp Combinators Task TaskProps Sched SchedProps Coroutines CoBudget CoTimers.

Module CoInv.
Import ReactorProps Awaiters AwaiterProps Combinators Task TaskProps SchedProps Coroutines CoBudget CoTimers.

#[global] Instance beside_laws {K C} `{EpollLaws K} : EpollLaws (K * C).
Proof.
  refine {| interest k ep := interest k.1 ep |}.
  - intros ep op fd ev [k c] [k' c'] E. cbn in *. destruct (Reactor.epoll_ctl _ _ _ _ k) as [x k1] eqn:E1.
    cbv in E. injection E as -> -> ->. by eapply ctl_ok.
  - intros ep op fd ev [k c] e [k' c'] E. cbn in *. destruct (Reactor.epoll_ctl _ _ _ _ k) as [x k1] eqn:E1.
    cbv in E. injection E as -> -> ->. by eapply ctl_err.
  - intros ep fd ev [k c] [k' c'] E. cbn in *. destruct (Reactor.epoll_ctl _ _ _ _ k) as [x k1] eqn:E1.
    cbv in E. injection E as -> -> ->. by eapply ctl_add.
  - intros ep n t [k c] evs [k' c'] E. cbn in *. destruct (Reactor.epoll_wait _ _ _ k) as [x k1] eqn:E1.
    cbv in E. injection E as -> -> ->. by eapply ReactorProps.wait_ok.
  - intros ep n t [k c] e [k' c'] E. cbn in *. destruct (Reactor.epoll_wait _ _ _ k) as [x k1] eqn:E1.
    cbv in E. injection E as -> -> ->. by eapply wait_err.
Defined.

Section Inv.
Context {K V : Type} `{EpollLaws K} `{EventLoop.LoopKernel K}.

#[local] Abbreviation CWorld := (World (K * Co V)).
Implicit Types W : CWorld.

(** ** Frames in memory *)

Lemma live_lookup fs m g : live (V := V) fs m !! g = match Core.frames m !! g with Some _ => fs !! g | None => None end.
Proof. unfold live. rewrite map_lookup_zip_with. destruct (fs !! g), (Core.frames m !! g); done. Qed.

Lemma live_all fs m : Core.frames m = is_final <$> fs -> live (V := V) fs m = fs.
Proof. intros E. apply map_eq. intros g. rewrite live_lookup, E, lookup_fmap. by destruct (fs !! g). Qed.

Lemma machine_store m W : machine (store m W) = m.
Proof. unfold machine, store. cbn. rewrite live_all by done. by destruct m. Qed.

(** ** The waits of suspended coroutines *)

(** The wait of the coroutine [g] that is suspended in [l]. *)
Definition wait_of (g : nat) (l : Leaf) (ob : Object) : AwaiterProps.Wait :=
  match l with
  | LReady d fd => mkWait KIo g g g fd d 0
  | LTimed d fd _ => mkWait KTimed g g g fd d (ob_timer ob)
  | LSleep _ | LStop _ => mkWait KSleep g g g (-1) Reactor.DRead (ob_timer ob)
  end.

Lemma wait_of_handle g l ob : w_handle (wait_of g l ob) = g /\ w_state (wait_of g l ob) = g /\ w_res (wait_of g l ob) = g.
Proof. by destruct l. Qed.

Definition no_stop (l : Leaf) : Prop := match l with LStop _ => False | _ => True end.

Definition in_leaf W (g : nat) (l : Leaf) : Prop :=
  exists fr k, frames (machine W) !! g = Some fr /\ code fr = InLeaf l k.

(** [g] is suspended in [l] with the awaiter [ob]. *)
Definition waits_in W (g : nat) (l : Leaf) (ob : Object) : Prop := objects W !! g = Some ob /\ in_leaf W g l.

(** How often [h] is queued, beside the handles [sc] that were taken out. *)
Definition queue_count (sc : list handle) (h : nat) W : nat :=
  (count h (Timer.ready (timer (loop W))) + count h (Reactor.ready (reactor (loop W))) + count h (sc ++ ready_queue (loop W)))%nat.

(** ** The wheel *)

Variable D : gset nat.   (* the stop states *)
Variable t0 : Z.         (* when the loop was made *)

(** No timer fires after its deadline. *)
Definition punctual (a : TimerSpec.Agenda) : Prop :=
  forall id E e, TimerSpec.due a !! id = Some (E, e) -> t0 + E * Timer.kMillisecond <= Timer.te_deadline e.

Record wheel_ok (w : Timer.Wheel) (u : nat) : Prop := {
  wk_rel : exists a, TimerSpec.Rel w a /\ punctual a;
  wk_start : Timer.start_time w = t0;
  wk_time : Timer.current_time w < t0 + 2 ^ 61 + 2 ^ 60;
  wk_used : used w u;
}.

(** The timer [id] is that of the coroutine [g], and pending while [g] waits. *)
Definition own_timer W (g : nat) (id : Z) : Prop :=
  TimerInv.issued (timer (loop W)) id /\ (forall e, Timer.lookup (timer (loop W)) id = Some e -> Timer.te_state e = Some g) /\
  (ws_cells (mem W) !! g = Some Pending -> is_Some (Timer.lookup (timer (loop W)) id)).

Definition armed W (a : AwaiterProps.Wait) : Prop := w_timed a = true -> own_timer W (w_state a) (w_timer a).

(** ** The invariant *)

(** The coroutine being resumed, if any: it has reached a leaf and not yet
    constructed its awaiter, or it has the answer and not yet gone on. *)
Inductive Running := Nobody | Reached (g : nat) | Answered (g : nat).

Definition running (run : Running) : option nat := match run with Nobody => None | Reached g | Answered g => Some g end.

(** A leaf is paid for when its awaiter is constructed. *)
Definition owes (run : Running) (fl : option (list nat)) (n : nat) : nat :=
  match run with Reached g => if decide (fl ≫= head = Some g) then n else S n | _ => S n end.

Definition task_ok (run : Running) (φ : gmap nat nat) (fls : gmap nat (list nat)) (r : nat) (t : ATask (V := V) (A := Leaf)) : Prop :=
  pending t = None /\ (forall answers, (direct (at_tok t) (at_body t) answers).2 <> Undefined) /\
  exists n, φ !! r = Some n /\
    if started t then susp_budget D (owes run (fls !! r) n) (state t) else tok_ok D (at_tok t) /\ budget D n (at_body t).

(** [sc]: the handles the iteration has taken out and not yet resumed; [q]: the
    tasks that were not started; [φ]: what is left of the budget of each task; [u]
    bounds the timers scheduled so far. *)
Record Good (run : Running) (sc : list handle) W (o q : list nat) (ts : gmap nat ATask) (fls : gmap nat (list nat))
    (φ : gmap nat nat) (u : nat) : Prop := {
  g_tasks : R q (Sched.mkSched (machine W) o q ∅) ts fls;
  g_task r t : ts !! r = Some t -> task_ok run φ fls r t;
  g_owned : ot_handle <$> owned_tasks (loop W) = Some <$> o;
  g_cross : cross_core_queue (loop W) = [];
  g_installed : installed W = true;
  g_frames : Core.frames (mem W) = is_final <$> frames (machine W);
  g_objects g : is_Some (objects W !! g) <-> (exists l, in_leaf W g l) /\ running run <> Some g;
  g_wait g l ob : waits_in W g l ob -> of_awaiter (wait_of g l ob) (ob_awaiter ob) /\ no_stop l /\ WInv_with sc (wait_of g l ob) W;
  g_result g l ob : waits_in W g l ob -> w_io (wait_of g l ob) = true -> is_Some (res_cells (mem W) !! g);
  g_armed g l ob : waits_in W g l ob -> armed W (wait_of g l ob);
  g_waiter fd d x : waiter (reactor (loop W)) fd d = Some x -> exists g, Reactor.pe_handle x = Some g /\ is_Some (objects W !! g);
  g_timer id e : Timer.lookup (timer (loop W)) id = Some e -> exists g, Timer.te_handle e = Some g /\ is_Some (objects W !! g);
  g_callback s st cb : stops W !! s = Some st -> cb ∈ callbacks st -> exists g l ob, waits_in W g l ob /\ cb = wait_callback (wait_of g l ob);
  g_stops : D ⊆ dom (stops W);
  g_queue h : objects W !! h = None -> queue_count sc h W = if decide (h ∈ q) then 1%nat else 0%nat;
  g_wheel : wheel_ok (timer (loop W)) u;
  g_budget : Z.of_nat (u + total φ) < 2 ^ 24;
}.

(** ** What leaves the coroutines alone *)

(** The frames and the awaiters are untouched; waiters, timers and callbacks may
    go; only the handles of suspended coroutines are queued. *)
Record moves W W' : Prop := {
  mv_kern : (kern W').2 = (kern W).2;
  mv_frames : Core.frames (mem W') = Core.frames (mem W);
  mv_results g : is_Some (res_cells (mem W) !! g) -> is_Some (res_cells (mem W') !! g);
  mv_owned : owned_tasks (loop W') = owned_tasks (loop W);
  mv_cross : cross_core_queue (loop W') = cross_core_queue (loop W);
  mv_installed : installed W' = installed W;
  mv_waiter fd d x : waiter (reactor (loop W')) fd d = Some x -> waiter (reactor (loop W)) fd d = Some x;
  mv_timer id e : Timer.lookup (timer (loop W')) id = Some e -> Timer.lookup (timer (loop W)) id = Some e;
  mv_pending p : ws_cells (mem W') !! p = Some Pending -> ws_cells (mem W) !! p = Some Pending;
  mv_issued id : TimerInv.issued (timer (loop W)) id -> TimerInv.issued (timer (loop W')) id;
  mv_armed id e p : Timer.lookup (timer (loop W)) id = Some e -> Timer.te_state e = Some p -> ws_cells (mem W') !! p = Some Pending ->
    Timer.lookup (timer (loop W')) id = Some e;
  mv_callback s st' cb : stops W' !! s = Some st' -> cb ∈ callbacks st' -> exists st, stops W !! s = Some st /\ cb ∈ callbacks st;
  mv_stops : dom (stops W') = dom (stops W);
  mv_queue sc h : objects W !! h = None -> queue_count sc h W' = queue_count sc h W;
  mv_wheel u : wheel_ok (timer (loop W)) u -> wheel_ok (timer (loop W')) u;
}.

Lemma moves_machine W W' : moves W W' -> machine W' = machine W /\ objects W' = objects W.
Proof. intros [E1 E2]. unfold machine, objects, live. by rewrite E1, E2. Qed.

Lemma moves_refl W : moves W W.
Proof. split; eauto. Qed.

Lemma moves_trans W1 W2 W3 : moves W1 W2 -> moves W2 W3 -> moves W1 W3.
Proof.
  intros M1 M2. destruct (moves_machine _ _ M1) as [_ Eo]. destruct M1, M2. split; try congruence; eauto.
  - intros s st' cb Hs Hcb. destruct (mv_callback1 _ _ _ Hs Hcb) as (st & ? & ?). eauto.
  - intros sc h Hh. rewrite mv_queue1, mv_queue0; congruence.
Qed.

Lemma own_timer_moves W W' g id : moves W W' -> own_timer W g id -> own_timer W' g id.
Proof.
  intros [] (Hi & Ho & Hp). split_and!; [auto|eauto|]. intros Hg. destruct (Hp (mv_pending0 _ Hg)) as [e He]. exists e. by eapply mv_armed0, Hg; [|apply Ho].
Qed.

Lemma waits_in_moves W W' g l ob : moves W W' -> waits_in W' g l ob <-> waits_in W g l ob.
Proof. intros M. destruct (moves_machine _ _ M) as [E1 E2]. unfold waits_in, in_leaf. by rewrite E1, E2. Qed.

Lemma Good_moves run sc W W' o q ts fls φ u :
  Good run sc W o q ts fls φ u -> moves W W' ->
  (forall g l ob, waits_in W g l ob -> WInv_with sc (wait_of g l ob) W -> WInv_with sc (wait_of g l ob) W') ->
  Good run sc W' o q ts fls φ u.
Proof.
  intros G M Hw. destruct (moves_machine _ _ M) as [Em Eo]. pose proof (waits_in_moves W W') as Hwi.
  pose proof (fun g id => own_timer_moves W W' g id M) as Hot. destruct G as [G1 G2 G3 G4 G5 G6 G7 G8 G9 Ga G10 G11 G12 G13 G14 G15 G16], M. split; rewrite ?Em, ?Eo; try done.
  - congruence.
  - congruence.
  - congruence.
  - by rewrite mv_frames0.
  - unfold in_leaf. by rewrite Em.
  - intros g l ob Hg%Hwi; [|by split]. destruct (G8 g l ob Hg) as (? & ? & ?). split_and!; auto.
  - intros g l ob Hg%Hwi; [|by split]. eauto.
  - intros g l ob Hg%Hwi Ht; [|by split]. apply Hot. by eapply Ga.
  - eauto.
  - eauto.
  - intros s st' cb Hs Hcb. destruct (mv_callback0 _ _ _ Hs Hcb) as (st & Hst & Hin). destruct (G12 _ _ _ Hst Hin) as (g & l & ob & Hg & ->).
    exists g, l, ob. split; [|done]. by apply Hwi; [split|].
  - by rewrite mv_stops0.
  - intros h Hh. rewrite mv_queue0; auto.
  - auto.
Qed.

End Inv.
End CoInv.
