(* ===== verification/CoSteps.v ===== *)
(** * CoSteps: what happens while coroutines are suspended

    Cancelling, polling and advancing the wheel leave the coroutines alone
    ([CoInv.moves]) and keep the invariant. *)

From S2P Require Import Prelude Core TimerWheel TimerInv TimerSpec TimerProps Reactor ReactorProps World Awaiters AwaiterProps EventLoop.
From S2P Require Import WakeUp Combinators Task TaskProps Sched SchedProps Coroutines CoBudget CoTimers CoInv.

Module CoSteps.
Import ReactorProps Awaiters AwaiterProps Combinators Task TaskProps SchedProps Coroutines CoBudget CoTimers CoInv.

Section Steps.
Context {K V : Type} `{EpollLaws K} `{EventLoop.LoopKernel K}.
#[local] Abbreviation CWorld := (World (K * Co V)).
Implicit Types W : CWorld.
Implicit Types k : K * Co V.

(** ** The kernel calls leave the coroutines alone *)

Lemma ensure_beside fd ev r k : (Reactor.ensure fd ev r k).2.2 = k.2.
Proof.
  unfold Reactor.ensure. cbn. unfold beside. destruct (Reactor.epoll_ctl _ _ _ _ k.1) as [[[]|e] k1]; cbn; [done|].
  destruct (e =? ENOENT); [|done]. by destruct (Reactor.epoll_ctl _ _ _ _ k1) as [[[]|e'] k2].
Qed.

Lemma rearm_beside fd r k : (Reactor.rearm_or_erase fd r k).2 = k.2.
Proof.
  unfold Reactor.rearm_or_erase. destruct (Reactor.out_of_table fd r); [done|]. destruct (Reactor.slots r !! _) as [e|]; [|done].
  destruct (Reactor.idle e); [done|]. apply ensure_beside.
Qed.

Lemma register_beside d fd x r k : (Reactor.register d fd x r k).2.2 = k.2.
Proof.
  unfold Reactor.register. destruct (fd <? 0); [done|]. cbn zeta. destruct (Reactor.get_dir _ _); [done|].
  pose proof (ensure_beside fd (Reactor.register_interest d (default Reactor.empty_fd (Reactor.slots (Reactor.ensure_slot fd r) !! Z.to_nat fd)))
    (Reactor.upd_fd fd (Reactor.set_dir d (Some x)) (Reactor.ensure_slot fd r)) k) as E.
  destruct (Reactor.ensure _ _ _ k) as [[[]|e] k1]; exact E.
Qed.

Lemma deregister_beside fd dir r k : (Reactor.deregister_dir fd dir r k).2.2 = k.2.
Proof.
  destruct (Reactor.deregister_dir fd dir r k) as [r' k'] eqn:E. apply deregister_dir_frame in E as (_ & _ & _ & [[-> _]|[-> _]]); [done|].
  apply rearm_beside.
Qed.

Lemma handle_events_beside evs : forall r m c k r' m' c' k',
  Reactor.handle_events evs (r, m, c, k) = Some (r', m', c', k') -> k'.2 = k.2.
Proof.
  induction evs as [|[fd ep] evs IH]; intros r m c k r' m' c' k'; cbn [Reactor.handle_events]; [by intros [= _ _ _ <-]|].
  unfold Reactor.handle_event. destruct (Reactor.out_of_table fd r); [apply IH|].
  destruct (Reactor.slots r !! Z.to_nat fd) as [e|]; cbn [mbind option_bind]; [|done]. destruct (Reactor.idle e); [apply IH|].
  destruct (Reactor.fire_dir _ _ _ _) as [st|]; cbn [mbind option_bind]; [|done].
  destruct (Reactor.fire_dir _ _ _ st) as [[[r2 m2] c2]|]; cbn [mbind option_bind]; [|done].
  intros ->%IH. apply rearm_beside.
Qed.

Lemma poll_beside timeout r m k res r' m' k' : Reactor.poll timeout r m k = Some (res, r', m', k') -> k'.2 = k.2.
Proof.
  unfold Reactor.poll. cbn. destruct (Reactor.epoll_wait _ _ _ k.1) as [[evs|e] k1]; cbn; [|by intros [= _ _ _ <-]].
  destruct (Reactor.handle_events _ _) as [[[[r1 m1] c1] k2]|] eqn:E; cbn; [|done]. intros [= _ _ _ <-]. by apply handle_events_beside in E.
Qed.

(** ** Taking waiters, timers and callbacks away *)

Variable D : gset nat.
Variable t0 : Z.
#[local] Abbreviation moves := (moves t0).

Lemma wheel_ok_ready l w u : wheel_ok t0 w u -> wheel_ok t0 (Timer.set_ready l w) u.
Proof. intros [(a & Ha & Hp) H3 H4 H5]. split; [|done..]. exists a. split; [by apply TimerSpec.Rel_set_ready|done]. Qed.

Lemma wheel_ok_cancel id w u : wheel_ok t0 w u -> wheel_ok t0 (Timer.cancel id w).2 u.
Proof.
  intros [(a & Ha & Hp) H3 H4 H5]. destruct (TimerSpec.Rel_cancel w a id Ha) as (w' & E & Hr & _).
  assert (w' = Timer.release id w) as ->. { rewrite TimerInv.cancel_release in E. congruence. }
  rewrite E. cbn. destruct (TimerInv.release_frame w id) as (_ & E1 & E2 & _). split; [|by rewrite E1|by rewrite E2|by eapply used_gens; [apply gens_release|]].
  eexists. split; [exact Hr|]. intros i E' e. unfold TimerSpec.a_cancel, TimerSpec.due at 1. intros [_ Hd]%lookup_delete_Some. by eapply Hp.
Qed.

Lemma moves_deregister fd dir W : moves W (reactor_deregister fd dir W).
Proof.
  destruct (reactor_deregister_spec fd dir W) as (Em & Et & Eq & Er & Ei & Hw).
  pose proof (deregister_beside fd dir (reactor (loop W)) (kern W)) as Ek.
  unfold reactor_deregister in *. destruct (Reactor.deregister_dir _ _ _ _) as [r k]. split; cbn in *; eauto.
  - intros fd' d x. rewrite Hw. by case_decide.
  - intros sc h _. unfold queue_count. cbn. by rewrite Er.
Qed.

(** The timer [id] is that of no pending wait. *)
Definition spent W (id : Z) : Prop :=
  forall e p, Timer.lookup (timer (loop W)) id = Some e -> Timer.te_state e = Some p -> ws_cells (mem W) !! p <> Some Pending.

Lemma own_timer_spent W g id : own_timer W g id -> ws_cells (mem W) !! g <> Some Pending -> spent W id.
Proof. intros (_ & Ho & _) Hn e p He Hp. rewrite (Ho e He) in Hp. by injection Hp as <-. Qed.

Lemma moves_timer_cancel id W : spent W id -> moves W (timer_cancel id W).
Proof.
  intros Hsp. destruct (timer_cancel_spec id W) as (Em & Er & Eq & Et & Ei & Hl). split; cbn in *; eauto.
  - intros i e. rewrite Hl. by case_decide.
  - intros i. apply issued_gens, gens_cancel.
  - intros i e p He Hp Hw. rewrite Hl, decide_False; [done|]. intros ->. by eapply Hsp.
  - intros sc h _. unfold queue_count. cbn. by rewrite Et.
  - intros u. apply wheel_ok_cancel.
Qed.

Lemma moves_reset_callback state W : moves W (reset_callback state W).
Proof.
  split; cbn; eauto.
  - intros s st' cb. rewrite lookup_fmap. destruct (stops W !! s) as [st|]; [|done]. intros [= <-]. cbn.
    rewrite list_elem_of_filter. intros [_ ?]. eauto.
  - apply dom_fmap_L.
Qed.

Lemma moves_set_ws p v W : v <> Pending -> moves W (set_mem (set_ws p v (mem W)) W).
Proof. intros Hv. split; cbn; eauto. intros p'. rewrite lookup_insert. case_decide; [congruence|done]. Qed.

Lemma moves_notify g W : is_Some (objects W !! g) -> moves W (notify_handle (Some g) W).
Proof.
  intros Ho. unfold notify_handle. destruct (_ && _); [|apply moves_refl]. split; cbn; eauto.
  intros sc h Hh. unfold queue_count. cbn. rewrite !count_app, count_single, decide_False; [lia|].
  intros [= ->]. rewrite Hh in Ho. by destruct Ho.
Qed.

Lemma moves_wake g W : is_Some (objects W !! g) -> moves W (set_loop (set_timer (Timer.wake (Some g) (timer (loop W))) (loop W)) W).
Proof.
  intros Ho. split; cbn; eauto.
  - intros sc h Hh. unfold queue_count. cbn. fold (count h (Timer.ready (timer (loop W)) ++ [Some g])). rewrite !count_app, count_single, decide_False; [lia|].
    intros [= ->]. rewrite Hh in Ho. by destruct Ho.
  - intros u. apply wheel_ok_ready.
Qed.

(** ** Cancelling *)

(** The callback marks the wait before it cancels the timer. *)
Lemma cancelled_spent g l ob W :
  armed W (wait_of g l ob) -> w_timed (wait_of g l ob) = true ->
  spent (set_mem (set_ws g Cancelled (mem W)) W) (w_timer (wait_of g l ob)).
Proof.
  intros Ha Ht. destruct (wait_of_handle g l ob) as (_ & Es & _). destruct (Ha Ht) as (Hi & Ho & _). rewrite Es in Ho.
  intros e p He Hp. cbn. rewrite (Ho e He) in Hp. injection Hp as <-. by rewrite lookup_insert_eq.
Qed.

Lemma moves_callback g l ob W :
  is_Some (objects W !! g) -> is_Some (ws_cells (mem W) !! g) -> armed W (wait_of g l ob) ->
  exists W', run_callback (wait_callback (wait_of g l ob)) W = Some W' /\ moves W W'.
Proof.
  intros Ho [v Hv] Ha. pose proof (cancelled_spent g l ob W Ha) as Hsp. unfold run_callback, wait_callback. destruct (wait_of_handle g l ob) as (-> & -> & _). cbn [cb_kind cb_state cb_handle].
  set (W1 := set_mem (set_ws g Cancelled (mem W)) W). assert (moves W W1) as M1 by (by apply moves_set_ws).
  assert (forall W2, moves W W2 -> is_Some (objects W2 !! g)) as Ho2. { intros W2 M. by rewrite (proj2 (moves_machine _ _ _ M)). }
  unfold w_timed in Hsp. destruct (w_kind (wait_of g l ob)); unfold cancel_io_wait, cancel_timed_wait, cancel_sleep; rewrite Hv; cbn [mbind option_bind];
    (case_decide; [|exists W; split; [done|apply moves_refl]]); eexists; (split; [reflexivity|]); fold W1; cbn [has_value].
  - eapply moves_trans; [|apply moves_notify, Ho2]; (eapply moves_trans; [exact M1|apply moves_deregister]).
  - eapply moves_trans; [|apply moves_notify, Ho2];
      (eapply moves_trans; [|apply moves_deregister]; eapply moves_trans; [exact M1|by apply moves_timer_cancel, Hsp]).
  - eapply moves_trans; [|apply moves_wake, Ho2]; (eapply moves_trans; [exact M1|by apply moves_timer_cancel, Hsp]).
Qed.

#[local] Abbreviation Good := (Good D t0).

Lemma Good_callback run sc W o q ts fls φ u g l ob :
  Good run sc W o q ts fls φ u -> waits_in W g l ob ->
  exists W', run_callback (wait_callback (wait_of g l ob)) W = Some W' /\ moves W W' /\ Good run sc W' o q ts fls φ u.
Proof.
  intros G Hg. destruct (g_wait _ _ _ _ _ _ _ _ _ _ _ G g l ob Hg) as (_ & _ & I).
  destruct (wait_of_handle g l ob) as (Eh & Es & _).
  destruct (moves_callback g l ob W) as (W' & E & M).
  - destruct Hg as [-> _]. eauto.
  - pose proof (inv_cell _ _ _ _ _ I) as Hc. by rewrite Es in Hc.
  - by eapply g_armed.
  - exists W'. split; [done|]. split; [done|]. eapply Good_moves; [done..|]. intros g' l' ob' Hg' I'.
    destruct (decide (g' = g)) as [->|Hne].
    + destruct Hg as [Hob (fr & k & Hf & Hc)], Hg' as [Hob' (fr' & k' & Hf' & Hc')]. simplify_eq. rewrite Hc in Hc'. simplify_eq.
      eapply WInv_own_callback; [left; apply G|done..].
    + eapply WInv_other_callback; [|done..]. unfold foreign, wait_callback. cbn.
      destruct (wait_of_handle g' l' ob') as (-> & -> & _). rewrite Eh, Es. split; congruence.
Qed.

Lemma Good_callbacks cbs : forall run sc W o q ts fls φ u,
  Good run sc W o q ts fls φ u -> (forall cb, cb ∈ cbs -> exists g l ob, waits_in W g l ob /\ cb = wait_callback (wait_of g l ob)) ->
  exists W', run_callbacks cbs W = Some W' /\ moves W W' /\ Good run sc W' o q ts fls φ u.
Proof.
  induction cbs as [|cb cbs IH]; intros run sc W o q ts fls φ u G Hcb; cbn [run_callbacks].
  - exists W. split_and!; [done|apply moves_refl|done].
  - destruct (Hcb cb) as (g & l & ob & Hg & ->); [constructor|].
    destruct (Good_callback _ _ _ _ _ _ _ _ _ _ _ _ G Hg) as (W1 & -> & M1 & G1). cbn [mbind option_bind].
    destruct (IH run sc W1 o q ts fls φ u G1) as (W2 & E2 & M2 & G2).
    + intros cb Hin. destruct (Hcb cb) as (g' & l' & ob' & Hg' & ->); [by constructor|]. exists g', l', ob'. split; [|done].
      by apply (waits_in_moves _ _ _ _ _ _ M1).
    + exists W2. split; [done|]. split; [by eapply moves_trans|done].
Qed.

(** The stop state is marked before the callbacks run. *)
Lemma moves_mark s st W : stops W !! s = Some st -> moves W (set_stops (<[s := mkStop true []]> (stops W)) W).
Proof.
  intros Hs. split; cbn; eauto.
  - intros s' st' cb. rewrite lookup_insert. case_decide; [|eauto]. intros [= <-]. by intros []%not_elem_of_nil.
  - apply dom_insert_lookup_L. eauto.
Qed.

Lemma Good_request_stop run sc W o q ts fls φ u s :
  Good run sc W o q ts fls φ u -> s ∈ D ->
  exists W', Awaiters.request_stop s W = Some W' /\ moves W W' /\ Good run sc W' o q ts fls φ u.
Proof.
  intros G Hs. apply (g_stops _ _ _ _ _ _ _ _ _ _ _ G), elem_of_dom in Hs as [st Hst]. unfold Awaiters.request_stop. rewrite Hst.
  cbn [mbind option_bind]. destruct (requested st); [exists W; split_and!; [done|apply moves_refl|done]|].
  pose proof (moves_mark s st W Hst) as M1.
  destruct (Good_callbacks (callbacks st) run sc (set_stops (<[s := mkStop true []]> (stops W)) W) o q ts fls φ u) as (W' & E & M & G').
  - eapply Good_moves; [done..|]. done.
  - intros cb Hin. destruct (g_callback _ _ _ _ _ _ _ _ _ _ _ G s st cb Hst Hin) as (g & l & ob & Hg & ->). exists g, l, ob. split; [|done].
    by apply (waits_in_moves _ _ _ _ _ _ M1).
  - exists W'. split; [done|]. split; [by eapply moves_trans|done].
Qed.

(** ** Waiting for events *)

Lemma Good_wstep run sc W W' o q ts fls φ u :
  Good run sc W o q ts fls φ u -> moves W W' -> (forall a, wstep a W W') -> Good run sc W' o q ts fls φ u.
Proof. intros G M Hw. eapply Good_moves; [done..|]. intros g l ob _ I. by eapply WInv_wstep. Qed.

(** Every object has its coroutine. *)
Lemma object_waits run sc W o q ts fls φ u g :
  Good run sc W o q ts fls φ u -> is_Some (objects W !! g) -> exists l ob, waits_in W g l ob.
Proof. intros G Ho. destruct (proj1 (g_objects _ _ _ _ _ _ _ _ _ _ _ G g) Ho) as [[l Hl] _]. destruct Ho as [ob Hob]. by exists l, ob. Qed.

(** The waiters and the timers are those of suspended coroutines. *)
Lemma waiter_owner run sc W o q ts fls φ u fd d x :
  Good run sc W o q ts fls φ u -> waiter (reactor (loop W)) fd d = Some x ->
  exists g l ob, waits_in W g l ob /\ w_io (wait_of g l ob) = true /\ x = Reactor.mkPending (Some g) (Some g) (Some g) Ready /\
    fd = w_fd (wait_of g l ob) /\ d = w_dir (wait_of g l ob).
Proof.
  intros G Hx. destruct (g_waiter _ _ _ _ _ _ _ _ _ _ _ G _ _ _ Hx) as (g & Hh & Ho).
  destruct (object_waits _ _ _ _ _ _ _ _ _ _ G Ho) as (l & ob & Hg). destruct (g_wait _ _ _ _ _ _ _ _ _ _ _ G _ _ _ Hg) as (_ & _ & I).
  destruct (wait_of_handle g l ob) as (Eh & Es & Er).
  destruct (inv_waiter _ _ _ _ _ I _ _ _ Hx) as (E & Ef & Ed & Hio & _); [right; left; by rewrite Eh|].
  rewrite Eh, Es, Er in E. by exists g, l, ob.
Qed.

Lemma timer_owner run sc W o q ts fls φ u id e :
  Good run sc W o q ts fls φ u -> Timer.lookup (timer (loop W)) id = Some e ->
  exists g l ob, waits_in W g l ob /\ Timer.te_state e = Some g /\ Timer.te_handle e = Some g /\
    Timer.te_completion e = w_completion (wait_of g l ob) /\ id = w_timer (wait_of g l ob) /\ w_timed (wait_of g l ob) = true.
Proof.
  intros G Hx. destruct (g_timer _ _ _ _ _ _ _ _ _ _ _ G _ _ Hx) as (g & Hh & Ho).
  destruct (object_waits _ _ _ _ _ _ _ _ _ _ G Ho) as (l & ob & Hg). destruct (g_wait _ _ _ _ _ _ _ _ _ _ _ G _ _ _ Hg) as (_ & _ & I).
  destruct (wait_of_handle g l ob) as (Eh & Es & Er).
  destruct (inv_entry _ _ _ _ _ I _ _ Hx) as (E1 & E2 & E3 & E4 & E5 & _); [right; by rewrite Eh|].
  rewrite Eh in E2. rewrite Es in E1. by exists g, l, ob.
Qed.

Lemma waits_cell run sc W o q ts fls φ u g l ob :
  Good run sc W o q ts fls φ u -> waits_in W g l ob -> is_Some (ws_cells (mem W) !! g) /\ Core.frames (mem W) !! g = Some false.
Proof.
  intros G Hg. destruct (g_wait _ _ _ _ _ _ _ _ _ _ _ G _ _ _ Hg) as (_ & _ & I). destruct (wait_of_handle g l ob) as (Eh & Es & Er).
  pose proof (inv_cell _ _ _ _ _ I) as Hc. pose proof (inv_live _ _ _ _ _ I) as Hl. by rewrite Es in Hc; rewrite Eh in Hl.
Qed.

Lemma Good_waits_live run sc W o q ts fls φ u a :
  Good run sc W o q ts fls φ u -> TimerSpec.Rel (timer (loop W)) a -> WakeUp.waits_live W a.
Proof.
  intros G Ha. split; [|split; [done|]].
  - intros fd d x Hx. destruct (waiter_owner _ _ _ _ _ _ _ _ _ _ _ _ G Hx) as (g & l & ob & Hg & Hio & -> & _). split; cbn.
    + intros p [= <-]. by eapply waits_cell.
    + intros p [= <-]. by eapply g_result.
  - intros id E e He. pose proof (TimerProps.Rel_lookup _ _ id Ha) as Hl. rewrite He in Hl. cbn in Hl.
    destruct (timer_owner _ _ _ _ _ _ _ _ _ _ _ G Hl) as (g & l & ob & Hg & Hs & Hh & _).
    destruct (waits_cell _ _ _ _ _ _ _ _ _ _ _ _ G Hg) as [Hc Hf]. split.
    + intros p Hp. congruence.
    + rewrite Hh. intros f [= <-]. rewrite Hf. eauto.
Qed.

Lemma count_zero h l : (forall x, x ∈ l -> x <> Some h) -> count h l = 0%nat.
Proof.
  induction l as [|x l IH]; intros Hl; [done|]. change (x :: l) with ([x] ++ l). rewrite count_app, count_single, decide_False.
  - apply IH. intros y Hy. apply Hl. by constructor.
  - apply Hl. constructor.
Qed.

(** The poll queues handles of waiters only. *)
Lemma moves_poll run sc W o q ts fls φ u timeout res r m k :
  Good run sc W o q ts fls φ u -> Reactor.poll timeout (reactor (loop W)) (mem W) (kern W) = Some (res, r, m, k) ->
  moves W (set_kern k (set_mem m (set_loop (set_reactor r (loop W)) W))).
Proof.
  intros G E. pose proof (poll_beside _ _ _ _ _ _ _ _ E) as Ek. pose proof (WakeUp.poll_frames _ _ _ _ _ _ _ _ E) as Ef.
  destruct (g_wheel _ _ _ _ _ _ _ _ _ _ _ G) as [(a & Ha & _) _ _ _]. destruct (Good_waits_live _ _ _ _ _ _ _ _ _ _ G Ha) as [Hv _].
  assert (exists hit n c hs, dispatched hit n (reactor (loop W)) (mem W) 0 r m c hs) as (hit & n & c & hs & Dp).
  { destruct (Reactor.epoll_wait (Reactor.epoll_fd (reactor (loop W))) Reactor.kMaxEventsPerPoll (Reactor.timeout_ms timeout) (kern W)) as [[evs|e] k1] eqn:Ew.
    - destruct (poll_spec _ _ _ _ _ _ Ew Hv) as (r1 & m1 & k2 & hs & E1 & D1). rewrite E in E1. injection E1 as _ -> -> _. eauto.
    - unfold Reactor.poll in E. rewrite Ew in E. injection E as _ <- <- _. eexists (fun _ _ => false), O, 0, []. by apply dispatched_none. }
  split; cbn; eauto.
  - intros g. apply (disp_dom _ _ _ _ _ _ _ _ _ Dp).
  - intros fd d x. rewrite (disp_waiter _ _ _ _ _ _ _ _ _ Dp). by destruct (hit fd d).
  - intros p Hp. destruct (proj2 (proj1 (disp_dom _ _ _ _ _ _ _ _ _ Dp) p) ltac:(eauto)) as [v Hpv].
    destruct (decide (v = Pending)) as [->|Hn]; [done|]. pose proof (WakeUp.poll_settled _ _ _ _ _ _ _ _ _ _ E Hpv Hn). congruence.
  - intros sc' h Hh. unfold queue_count. cbn. rewrite (disp_ready _ _ _ _ _ _ _ _ _ Dp), count_app, (count_zero h hs); [lia|].
    intros x Hx ->. destruct (disp_from _ _ _ _ _ _ _ _ _ Dp _ Hx) as (fd & d & w & Hw & _ & Hp & _).
    destruct (g_waiter _ _ _ _ _ _ _ _ _ _ _ G _ _ _ Hw) as (g & Hg & Ho). rewrite Hp in Hg. injection Hg as <-. rewrite Hh in Ho. by destruct Ho.
Qed.

Lemma Good_poll run sc W o q ts fls φ u timeout :
  Good run sc W o q ts fls φ u ->
  exists res r m k, Reactor.poll timeout (reactor (loop W)) (mem W) (kern W) = Some (res, r, m, k) /\
    Good run sc (set_kern k (set_mem m (set_loop (set_reactor r (loop W)) W))) o q ts fls φ u.
Proof.
  intros G. destruct (g_wheel _ _ _ _ _ _ _ _ _ _ _ G) as [(a & Ha & _) _ _ _]. destruct (Good_waits_live _ _ _ _ _ _ _ _ _ _ G Ha) as [Hv _].
  assert (exists res r m k, Reactor.poll timeout (reactor (loop W)) (mem W) (kern W) = Some (res, r, m, k)) as (res & r & m & k & E).
  { destruct (Reactor.epoll_wait (Reactor.epoll_fd (reactor (loop W))) Reactor.kMaxEventsPerPoll (Reactor.timeout_ms timeout) (kern W)) as [[evs|e] k1] eqn:Ew.
    - destruct (poll_spec _ _ _ _ _ _ Ew Hv) as (r1 & m1 & k2 & hs & E1 & _). eauto 10.
    - unfold Reactor.poll. rewrite Ew. eauto 10. }
  exists res, r, m, k. split; [done|]. eapply Good_wstep; [done|by eapply moves_poll|]. intros b. by eapply wstep_poll.
Qed.

(** Advancing the wheel to a time before the horizon. *)
Lemma Good_advance run sc W o q ts fls φ u target :
  Good run sc W o q ts fls φ u -> target < t0 + 2 ^ 61 ->
  exists m t f, Timer.advance_to target (mem W) (timer (loop W)) = Some (m, t, f) /\
    Good run sc (set_mem m (set_loop (set_timer t (loop W)) W)) o q ts fls φ u.
Proof.
  intros G Hn. destruct (g_wheel _ _ _ _ _ _ _ _ _ _ _ G) as [(a & Ha & Hpu) Hs Ht Hu]. destruct (Good_waits_live _ _ _ _ _ _ _ _ _ _ G Ha) as (_ & _ & Hl).
  destruct (WakeUp.advance_to_spec target _ _ _ Ha Hl) as (m & t & f & a' & E & A). exists m, t, f. split; [done|].
  assert (moves W (set_mem m (set_loop (set_timer t (loop W)) W))) as M.
  { pose proof (results_advance _ _ _ _ _ _ _ _ E) as Er. pose proof (gens_advance _ _ _ _ _ _ _ _ E) as Eg.
    split; cbn; eauto.
    - apply A.
    - by rewrite Er.
    - intros id e. rewrite (TimerProps.Rel_lookup _ _ id (WakeUp.adv_rel _ _ _ _ _ _ _ A)), (TimerProps.Rel_lookup _ _ id Ha).
      destruct (TimerSpec.due a' !! id) as [[E' e']|] eqn:Ed; [|done]. apply (WakeUp.adv_rest _ _ _ _ _ _ _ A) in Ed. by rewrite Ed.
    - intros p Hp. assert (p ∈ dom (ws_cells (mem W))) as [v Hv]%elem_of_dom by (rewrite <- (WakeUp.adv_dom _ _ _ _ _ _ _ A); apply elem_of_dom; eauto).
      destruct (decide (v = Pending)) as [->|Hx]; [done|]. pose proof (WakeUp.adv_settled _ _ _ _ _ _ _ A _ _ Hv Hx). congruence.
    - intros id. by apply issued_gens.
    - intros id e p He Hp Hw. destruct (timer_owner _ _ _ _ _ _ _ _ _ _ _ G He) as (g & l & ob & _ & _ & _ & Hcm & _).
      rewrite (TimerProps.Rel_lookup _ _ id Ha) in He. destruct (TimerSpec.due a !! id) as [[E' e']|] eqn:Ed; [|done]. injection He as ->.
      destruct (WakeUp.adv_gone _ _ _ _ _ _ _ A _ _ _ _ Ed Hp) as [Hk|(v & Hv & Hx)]; [rewrite Hcm; by apply wait_ok| |congruence].
      by rewrite (TimerProps.Rel_lookup _ _ id (WakeUp.adv_rel _ _ _ _ _ _ _ A)), Hk.
    - intros sc' h Hh. unfold queue_count. cbn. destruct (WakeUp.adv_from _ _ _ _ _ _ _ A) as (l & -> & Hfrom).
      rewrite count_app, (count_zero h l); [lia|]. intros x Hx ->. destruct (Hfrom _ Hx) as (id & E' & e & Hd & Hh').
      destruct (g_timer _ _ _ _ _ _ _ _ _ _ _ G id e) as (g & Hg & Ho); [by rewrite (TimerProps.Rel_lookup _ _ id Ha), Hd|].
      rewrite Hh' in Hg. injection Hg as <-. rewrite Hh in Ho. by destruct Ho.
    - intros u' [_ _ _ Hu']. split; [exists a'; split; [apply A|intros i E' e He; by eapply Hpu, (WakeUp.adv_rest _ _ _ _ _ _ _ A)]|by rewrite (WakeUp.adv_start _ _ _ _ _ _ _ A)| |by eapply used_gens].
      destruct (WakeUp.adv_exact _ _ _ _ _ _ _ A) as [->|Hx]; [done|]. unfold Timer.kTickDuration, Timer.kMillisecond in Hx. zpow. lia. }
  eapply Good_wstep; [done|done|]. intros b. by eapply wstep_advance.
Qed.

Lemma Good_drain_reactor run sc W o q ts fls φ u q' r :
  Good run sc W o q ts fls φ u -> Reactor.drain_ready_into (ready_queue (loop W)) (reactor (loop W)) = (q', r) ->
  Good run sc (set_loop (set_ready_queue q' (set_reactor r (loop W))) W) o q ts fls φ u.
Proof.
  intros G E. pose proof E as E0. injection E as <- <-. eapply Good_wstep; [done| |intros b; by eapply wstep_drain_reactor].
  split; cbn; eauto. intros sc' h _. unfold queue_count. cbn. rewrite !count_app. cbn. lia.
Qed.

Lemma Good_drain_timer run sc W o q ts fls φ u q' t :
  Good run sc W o q ts fls φ u -> Timer.drain_ready_into (ready_queue (loop W)) (timer (loop W)) = (q', t) ->
  Good run sc (set_loop (set_ready_queue q' (set_timer t (loop W))) W) o q ts fls φ u.
Proof.
  intros G E. pose proof E as E0. injection E as <- <-. eapply Good_wstep; [done| |intros b; by eapply wstep_drain_timer].
  split; cbn; eauto; [|intros u'; apply wheel_ok_ready]. intros sc' h _. unfold queue_count. cbn. rewrite !count_app. cbn. lia.
Qed.

Lemma Good_kern run sc W o q ts fls φ u k : Good run sc W o q ts fls φ u -> k.2 = (kern W).2 -> Good run sc (set_kern k W) o q ts fls φ u.
Proof. intros G E. eapply Good_wstep; [done|by split; eauto|]. intros b. by apply wstep_rest. Qed.

Lemma Good_drain_cross run sc W o q ts fls φ u :
  Good run sc W o q ts fls φ u -> Good run sc (EventLoop.drain_cross_core W) o q ts fls φ u.
Proof.
  intros G. pose proof (g_cross _ _ _ _ _ _ _ _ _ _ _ G) as Ec. unfold EventLoop.drain_cross_core. rewrite Ec. cbn. rewrite !app_nil_r.
  eapply Good_wstep; [done|split; cbn; eauto|]. intros b. by apply wstep_rest.
Qed.

(** The clock stays within the horizon. *)
Hypothesis clock_bound : forall k : K, (EventLoop.clock_now k).1 < t0 + 2 ^ 61.

Lemma clock_beside k now k' : EventLoop.clock_now k = (now, k') -> k'.2 = k.2 /\ now < t0 + 2 ^ 61.
Proof. destruct k as [k c]. intros E. cbv [EventLoop.clock_now beside_loop beside fst snd] in E. injection E as <- <-. split; [done|apply clock_bound]. Qed.

Lemma Good_wait_for_events run sc W o q ts fls φ u :
  Good run sc W o q ts fls φ u ->
  exists c W', EventLoop.wait_for_events W = Some (c, W') /\ Good run sc W' o q ts fls φ u /\
    (c = EventLoop.Continue \/ exists e, c = EventLoop.Break (Err e)).
Proof.
  intros G. unfold EventLoop.wait_for_events. destruct (EventLoop.clock_now (kern W)) as [now k] eqn:Ec.
  destruct (clock_beside _ _ _ Ec) as [Ek _].
  pose proof (Good_kern _ _ _ _ _ _ _ _ _ k G Ek) as G0.
  destruct (Good_poll _ _ _ _ _ _ _ _ _ (EventLoop.poll_timeout (Timer.next_deadline (timer (loop W))) now) G0) as (res & r & m & k1 & E1 & G1).
  change (kern (set_kern k W)) with k in E1. change (mem (set_kern k W)) with (mem W) in E1. change (loop (set_kern k W)) with (loop W) in E1.
  rewrite E1. cbn [mbind option_bind]. destruct res as [n|e]; [|eexists _, _; split; [done|]; split; [exact G1|eauto]].
  destruct (Reactor.drain_ready_into _ _) as [q1 r1] eqn:E2. pose proof (Good_drain_reactor _ _ _ _ _ _ _ _ _ _ _ G1 E2) as G2.
  cbn [kern set_kern set_loop set_mem mem loop timer set_ready_queue set_tasks set_reactor] in G2 |- *.
  destruct (EventLoop.clock_now k1) as [now' k2] eqn:Ec2.
  destruct (clock_beside _ _ _ Ec2) as [Ek2 Hn].
  destruct (Good_advance _ _ _ _ _ _ _ _ _ now' G2 Hn) as (m' & t & f & E3 & G3).
  cbn [kern set_kern set_loop set_mem mem loop timer set_ready_queue set_tasks set_reactor] in E3. rewrite E3. cbn [mbind option_bind]. destruct (Timer.drain_ready_into _ t) as [q3 t3] eqn:E4.
  eexists _, _. split; [done|]. split; [|by left]. apply Good_drain_cross.
  pose proof (Good_drain_timer _ _ _ _ _ _ _ _ _ _ _ G3 E4) as G4. exact (Good_kern _ _ _ _ _ _ _ _ _ k2 G4 Ek2).
Qed.

End Steps.
End CoSteps.
