(* ===== verification/CoAwait.v ===== *)
(** * CoAwait: a running coroutine reaches a leaf

    It constructs the awaiter in its frame and suspends, or goes on at once; either
    way the invariant [CoInv.Good] is kept. *)

From S2P Require Import Prelude Core TimerWheel TimerInv TimerSpec TimerProps Reactor ReactorProps World Awaiters AwaiterProps EventLoop.
From S2P Require Import WakeUp Waits Combinators Task TaskProps Sched SchedProps Coroutines CoBudget CoTimers CoInv CoSteps.

Module CoAwait.
Import ReactorProps Awaiters AwaiterProps Combinators Task TaskProps SchedProps Coroutines CoBudget CoTimers CoInv CoSteps.

(** ** The task of a coroutine in a leaf *)

Section Leaf.
Context {V A : Type}.

Lemma seg_inner (fs : gmap nat (Frame V A)) g st fl f x :
  seg fs g st fl f -> x ∈ fl -> x = g \/ exists fr c k, fs !! x = Some fr /\ code fr = InTask c k.
Proof.
  induction 1 as [f|g fr p frp k st fl f H1 H2 H3 H4 Hs IH]; [intros ->%list_elem_of_singleton; by left|].
  intros [->|Hx]%elem_of_cons; [by left|]. right. destruct (IH Hx) as [->|?]; eauto.
Qed.

Lemma leaf_task q (s : Sched.Sched V A) ts fls g fr l k :
  R q s ts fls -> frames (Sched.machine s) !! g = Some fr -> code fr = InLeaf l k ->
  exists r t fl st, ts !! r = Some t /\ fls !! r = Some fl /\ head fl = Some g /\ started t = true /\
    state t = Wait l (cancel_token (promise fr)) k st.
Proof.
  intros HR Hg Hc. destruct (R_cover _ _ _ _ HR g) as (r & fl & Hfl & Hin); [eauto|].
  destruct (R_dom _ _ _ _ HR r) as [t Ht]; [eauto|]. destruct (R_task _ _ _ _ HR r t Ht) as (fl' & E & Hth). simplify_eq.
  unfold task_holds in Hth. destruct (started t) eqn:Es.
  - destruct Hth as [Hh _]. destruct (state t) as [v| | |l' tok k' st] eqn:Est; cbn in Hh.
    + destruct Hh as [-> (fr' & Hf & Hc' & _)]. apply list_elem_of_singleton in Hin as ->. congruence.
    + destruct Hh as [-> (fr' & Hf & Hc' & _)]. apply list_elem_of_singleton in Hin as ->. congruence.
    + done.
    + destruct Hh as (_ & x & frx & frr & Hs & Hx & Hcx & Htx & _). destruct (seg_inner _ _ _ _ _ _ Hs Hin) as [->|(fr' & c' & k1 & Hf & Hc')].
      * destruct (seg_head _ _ _ _ _ Hs) as [fl' ->]. assert (frx = fr) as -> by congruence. rewrite Hc in Hcx. injection Hcx as <- <-.
        exists r, t, (x :: fl'), st. rewrite Est, <- Htx. done.
      * congruence.
  - destruct Hth as (-> & Hr & _). apply list_elem_of_singleton in Hin as ->. rewrite Hg in Hr. injection Hr as ->. done.
Qed.

(** A task that was not started is in no leaf. *)
Lemma unstarted_not_leaf q (s : Sched.Sched V A) ts fls g fr l k :
  R q s ts fls -> (forall r t, ts !! r = Some t -> pending t = None) -> frames (Sched.machine s) !! g = Some fr -> code fr = InLeaf l k -> g ∉ q.
Proof.
  intros HR Hp Hg Hc Hq. apply (R_queue _ _ _ _ HR) in Hq as (r & t & fl & Ht & Hfl & Hhd & [Hs|[v Hv]]); [|by rewrite (Hp _ _ Ht) in Hv].
  destruct (R_task _ _ _ _ HR r t Ht) as (fl' & E & Hth). simplify_eq. unfold task_holds in Hth. rewrite Hs in Hth.
  destruct Hth as (-> & Hr & _). injection Hhd as ->. rewrite Hg in Hr. injection Hr as ->. done.
Qed.
End Leaf.

Section Await.
Context {K V : Type} `{EpollLaws K} `{EventLoop.LoopKernel K}.
Variable ret : Result unit -> V.
#[local] Abbreviation CWorld := (World (K * Co V)).
Implicit Types W : CWorld.
Variable D : gset nat.
Variable t0 : Z.
#[local] Abbreviation Good := (Good D t0).
#[local] Abbreviation moves := (moves t0).

Lemma good_pending run sc W o q ts fls φ u r t : Good run sc W o q ts fls φ u -> ts !! r = Some t -> pending t = None.
Proof. intros G Ht. by destruct (g_task _ _ _ _ _ _ _ _ _ _ _ G r t Ht). Qed.

Lemma wheel_ok_le w u u' : (u <= u')%nat -> wheel_ok t0 w u -> wheel_ok t0 w u'.
Proof. intros Hle [H3 H4 H5 [H6 H7]]. split; [done..|]. split; [lia|]. intros i s Hs. specialize (H7 i s Hs). lia. Qed.

(** ** Paying for the leaf *)

Lemma Good_pay sc W o q ts fls φ u g fr l k :
  Good (Reached g) sc W o q ts fls φ u -> frames (machine W) !! g = Some fr -> code fr = InLeaf l k ->
  leaf_ok D l /\ tok_ok D (cancel_token (promise fr)) /\ Z.of_nat u < 2 ^ 24 - 1 /\
  exists r fl n, fls !! r = Some fl /\ head fl = Some g /\ φ !! r = Some n /\ (0 < n)%nat /\
    Good (Answered g) sc W o q ts fls (<[r := n - 1]> φ)%nat (S u).
Proof.
  intros G Hg Hc. pose proof (g_tasks _ _ _ _ _ _ _ _ _ _ _ G) as HR.
  destruct (leaf_task _ _ _ _ _ _ _ _ HR Hg Hc) as (r & t & fl & st & Ht & Hfl & Hhd & Hs & Est).
  destruct (g_task _ _ _ _ _ _ _ _ _ _ _ G r t Ht) as (_ & _ & n & Hn & Hb). rewrite Hs in Hb. unfold owes in Hb. rewrite Hfl in Hb.
  cbn [mbind option_bind] in Hb. rewrite decide_True in Hb by done. rewrite Est in Hb.
  destruct Hb as (Hl & Htk & n1 & n2 & Hle & Hk & Hst). pose proof (g_budget _ _ _ _ _ _ _ _ _ _ _ G) as Hbud.
  pose proof (total_spend φ r n (n - 1) Hn ltac:(lia)) as Htot.
  split_and!; [done|done|lia|]. exists r, fl, n. split_and!; [done|done|done|lia|]. destruct G. split; try done.
  - intros r' t' Ht'. destruct (g_task0 _ _ Ht') as (Hp & Hd & n' & Hn' & Hb'). split; [done|]. split; [done|].
    destruct (decide (r' = r)) as [->|Hne].
    + exists (n - 1)%nat. rewrite lookup_insert_eq. split; [done|]. simplify_eq. rewrite Hs, Est. split; [done|]. split; [done|].
      exists n1, n2. split; [cbn; lia|done].
    + exists n'. rewrite lookup_insert_ne by done. split; [done|]. destruct (started t'); [|done].
      unfold owes in *. case_decide as Hd'; [|done]. exfalso. apply Hne. destruct (fls !! r') as [fl'|] eqn:Hfl'; [|done].
      eapply (heads_differ _ _ _ _ _ _ _ _ g HR); [done..|]. done.
  - eapply wheel_ok_le; [|done]. lia.
  - lia.
Qed.

(** ** Joining the waiting coroutines *)

(** As [moves], but the coroutine [g] may get waiters, timers, the callback [cb]
    and entries in the queues; [u] and [u'] bound the timers before and after. *)
Record joins (g : nat) (cb : Callback) (u u' : nat) W W' : Prop := {
  jn_kern : (kern W').2 = (kern W).2;
  jn_frames : Core.frames (mem W') = Core.frames (mem W);
  jn_results p : is_Some (res_cells (mem W) !! p) -> is_Some (res_cells (mem W') !! p);
  jn_owned : owned_tasks (loop W') = owned_tasks (loop W);
  jn_cross : cross_core_queue (loop W') = cross_core_queue (loop W);
  jn_installed : installed W' = installed W;
  jn_waiter fd d x : waiter (reactor (loop W')) fd d = Some x -> waiter (reactor (loop W)) fd d = Some x \/ Reactor.pe_handle x = Some g;
  jn_timer id e : Timer.lookup (timer (loop W')) id = Some e ->
    Timer.lookup (timer (loop W)) id = Some e \/ Timer.te_handle e = Some g /\ ~ TimerInv.issued (timer (loop W)) id;
  jn_pending p : p <> g -> ws_cells (mem W') !! p = Some Pending -> ws_cells (mem W) !! p = Some Pending;
  jn_issued id : TimerInv.issued (timer (loop W)) id -> TimerInv.issued (timer (loop W')) id;
  jn_armed id e p : p <> g -> Timer.lookup (timer (loop W)) id = Some e -> Timer.te_state e = Some p -> ws_cells (mem W') !! p = Some Pending ->
    Timer.lookup (timer (loop W')) id = Some e;
  jn_callback s st' c : stops W' !! s = Some st' -> c ∈ callbacks st' -> c = cb \/ exists st, stops W !! s = Some st /\ c ∈ callbacks st;
  jn_stops : dom (stops W') = dom (stops W);
  jn_queue sc h : objects W !! h = None -> h <> g -> queue_count sc h W' = queue_count sc h W;
  jn_wheel : wheel_ok t0 (timer (loop W)) u -> wheel_ok t0 (timer (loop W')) u';
}.

Lemma joins_machine g cb u u' W W' : joins g cb u u' W W' -> machine W' = machine W /\ objects W' = objects W.
Proof. intros [E1 E2]. unfold machine, objects, live. by rewrite E1, E2. Qed.

Lemma joins_trans g cb u1 u2 u3 W1 W2 W3 : joins g cb u1 u2 W1 W2 -> joins g cb u2 u3 W2 W3 -> joins g cb u1 u3 W1 W3.
Proof.
  intros M1 M2. destruct (joins_machine _ _ _ _ _ _ M1) as [_ Eo]. destruct M1, M2. split; try congruence; eauto.
  - intros fd d x [Hx|]%jn_waiter1; [|by right]. eauto.
  - intros id e [Hx|[Hx Hn]]%jn_timer1; [eauto|right]. split; [done|]. auto.
  - intros s st' c Hs Hc. destruct (jn_callback1 _ _ _ Hs Hc) as [|(st & ? & ?)]; [by left|]. eauto.
  - intros sc h Hh Hn. rewrite jn_queue1, jn_queue0; congruence.
Qed.

Lemma moves_joins g cb u W W' : moves W W' -> joins g cb u u W W'.
Proof.
  intros []. split; try done; eauto. 
Qed.

Lemma own_timer_joins g cb u u' W W' p id : joins g cb u u' W W' -> p <> g -> own_timer W p id -> own_timer W' p id.
Proof.
  intros [] Hn (Hi & Ho & Hp). split_and!; [auto| |].
  - intros e [He|[_ Hx]]%jn_timer0; [auto|done].
  - intros Hg. destruct (Hp (jn_pending0 _ Hn Hg)) as [e He]. exists e. by eapply jn_armed0, Hg; [..|apply Ho].
Qed.

(** The others go on waiting, and [g] waits with them. *)
Lemma Good_joins sc W W' o q ts fls φ u g cb u0 u1 l ob aw id :
  Good (Answered g) sc W o q ts fls φ u -> joins g cb u0 u1 W W' -> wheel_ok t0 (timer (loop W)) u0 -> (u1 <= u)%nat ->
  (forall g' l' ob', waits_in W g' l' ob' -> WInv_with sc (wait_of g' l' ob') W -> WInv_with sc (wait_of g' l' ob') W') ->
  in_leaf W g l -> ob = mkObject aw id -> of_awaiter (wait_of g l ob) aw -> no_stop l -> cb = wait_callback (wait_of g l ob) ->
  WInv_with sc (wait_of g l ob) W' -> armed W' (wait_of g l ob) -> (w_io (wait_of g l ob) = true -> is_Some (res_cells (mem W) !! g)) ->
  Good Nobody sc (keep g aw id W') o q ts fls φ u.
Proof.
  intros G J Hw Hu Hothers Hl Hob Haw Hns Hcb I Harm Hres. pose proof (fun p id => own_timer_joins g cb u0 u1 W W' p id J) as Hot. destruct (joins_machine _ _ _ _ _ _ J) as [Em Eo].
  assert (machine (keep g aw id W') = machine W) as Em' by exact Em.
  assert (objects (keep g aw id W') = <[g := ob]> (objects W)) as Eo'. { unfold keep. cbn. rewrite Hob, <- Eo. done. }
  assert (objects W !! g = None) as Hg0.
  { destruct (objects W !! g) eqn:E; [|done]. destruct (proj1 (g_objects _ _ _ _ _ _ _ _ _ _ _ G g)) as [_ Hn]; [eauto|done]. }
  assert (forall g' l' ob', waits_in (keep g aw id W') g' l' ob' -> g' = g /\ l' = l /\ ob' = ob \/ g' <> g /\ waits_in W g' l' ob') as Hwi.
  { intros g' l' ob' [Ho (fr & k & Hf & Hc)]. rewrite Eo' in Ho. rewrite Em' in Hf. destruct (decide (g' = g)) as [->|Hne].
    - left. rewrite lookup_insert_eq in Ho. destruct Hl as (fr' & k' & Hf' & Hc'). simplify_eq. rewrite Hc in Hc'. by simplify_eq.
    - right. rewrite lookup_insert_ne in Ho by done. split; [done|]. split; [done|]. by exists fr, k. }
  pose proof (g_tasks _ _ _ _ _ _ _ _ _ _ _ G) as HR.
  assert (g ∉ q) as Hgq.
  { destruct Hl as (fr & k & Hf & Hc). by eapply (unstarted_not_leaf _ _ _ _ _ _ _ _ HR); [intros r t; by eapply good_pending|..]. }
  pose proof G as [G1 G2 G3 G4 G5 G6 G7 G8 G9 Ga G10 G11 G12 G13 G14 G15 G16]. pose proof J as []. split; rewrite ?Em', ?Eo'; try done; cbn [loop stops installed mem keep set_objects set_kern].
  - congruence.
  - congruence.
  - congruence.
  - by rewrite jn_frames0.
  - intros g'. rewrite lookup_insert. unfold in_leaf. rewrite Em'. case_decide as Hd; subst.
    + split; [|by eauto]. intros _. split; [|done]. destruct Hl as (fr & k & ? & ?). by exists l, fr, k.
    + rewrite G7. cbn. split; intros [? ?]; (split; [done|]); [done|]. intros [= ->]. done.
  - intros g' l' ob' [(-> & -> & ->)|[Hne Hg']]%Hwi.
    + subst ob. split_and!; [done|done|exact I].
    + destruct (G8 _ _ _ Hg') as (? & ? & ?). split_and!; [done|done|]. by apply (Hothers g' l' ob').
  - intros g' l' ob' [(-> & -> & ->)|[Hne Hg']]%Hwi Hio; [|eauto]. auto.
  - intros g' l' ob' [(-> & -> & ->)|[Hne Hg']]%Hwi; [exact Harm|]. intros Ht. pose proof (Ga _ _ _ Hg' Ht) as Ho.
    destruct (wait_of_handle g' l' ob') as (_ & Es & _). rewrite Es in Ho |- *. by apply Hot.
  - intros fd d x [Hx|Hx]%jn_waiter0.
    + destruct (G10 _ _ _ Hx) as (g' & ? & ?). exists g'. split; [done|]. rewrite lookup_insert. case_decide; eauto.
    + exists g. rewrite lookup_insert_eq. eauto.
  - intros i e [Hx|[Hx _]]%jn_timer0.
    + destruct (G11 _ _ Hx) as (g' & ? & ?). exists g'. split; [done|]. rewrite lookup_insert. case_decide; eauto.
    + exists g. rewrite lookup_insert_eq. eauto.
  - intros s st' c Hs Hc. assert (forall g' l' ob', waits_in W g' l' ob' -> waits_in (keep g aw id W') g' l' ob') as Hback.
    { intros g' l' ob' [Ho (fr & k & Hf & Hcd)]. split; [rewrite Eo', lookup_insert_ne; [done|]; congruence|]. exists fr, k. by rewrite Em'. }
    destruct (jn_callback0 _ _ _ Hs Hc) as [->|(st & Hst & Hin)].
    + exists g, l, ob. split; [|done]. split; [rewrite Eo'; apply lookup_insert_eq|]. destruct Hl as (fr & k & ? & ?). exists fr, k. by rewrite Em'.
    + destruct (G12 _ _ _ Hst Hin) as (g' & l' & ob' & Hg' & ->). exists g', l', ob'. split; [|done]. by apply Hback.
  - by rewrite jn_stops0.
  - intros h Hh. apply lookup_insert_None in Hh as [Hh Hn]. change (queue_count sc h (keep g aw id W')) with (queue_count sc h W').
    rewrite jn_queue0 by done. by apply G14.
  - eapply wheel_ok_le; [exact Hu|]. by apply jn_wheel0.
Qed.

(** ** The steps of suspending *)

(** The other waits are not concerned. *)
Definition apart (g : nat) (a : AwaiterProps.Wait) : Prop := w_handle a <> g /\ w_state a <> g /\ w_res a <> g.

Definition undisturbed (g : nat) W W' : Prop := forall sc a, apart g a -> WInv_with sc a W -> WInv_with sc a W'.

Lemma undisturbed_trans g W1 W2 W3 : undisturbed g W1 W2 -> undisturbed g W2 W3 -> undisturbed g W1 W3.
Proof. intros H2 H3 sc a Ha I. auto. Qed.

Lemma undisturbed_wstep g W W' : (forall a, apart g a -> wstep a W W') -> undisturbed g W W'.
Proof. intros Hs sc a Ha I. eapply WInv_wstep; [by apply Hs|done]. Qed.

Lemma apart_other g g' l ob : g' <> g -> apart g (wait_of g' l ob).
Proof. intros Hn. unfold apart. by destruct (wait_of_handle g' l ob) as (-> & -> & ->). Qed.

Lemma join_register g cb u d aw W res W' :
  aw_state aw = g -> aw_readiness aw = g -> register_waiter d aw (Some g) W = (res, W') ->
  joins g cb u u W W' /\ undisturbed g W W' /\ mem W' = mem W /\ timer (loop W') = timer (loop W) /\ stops W' = stops W.
Proof.
  intros Es Er. unfold register_waiter. rewrite Es, Er. pose proof (register_beside d (aw_fd aw) (Reactor.mkPending (Some g) (Some g) (Some g) Ready)
    (reactor (loop W)) (kern W)) as Ek. destruct (Reactor.register _ _ _ _ _) as [[res' r] k] eqn:E. intros [= -> <-].
  split_and!; [| |done..].
  - apply register_frame in E as [Hr Hw]. split; cbn; eauto.
    + intros fd d' x. rewrite Hw. destruct (_ && _); [|by left]. intros [= <-]. by right.
    + intros sc h _ _. unfold queue_count. cbn. by rewrite Hr.
  - apply undisturbed_wstep. intros a (Hh & Hs & Hres). eapply wstep_other_register; [|exact E]. unfold own_waiter. cbn. naive_solver.
Qed.

Lemma join_schedule g cb u delay c W :
  wheel_ok t0 (timer (loop W)) u -> Z.of_nat u < 2 ^ 24 -> 0 < delay -> delay < 2 ^ 62 ->
  exists id t, Timer.schedule delay (Some g) (Some g) c (timer (loop W)) = Some (id, t) /\
    let W' := set_loop (set_timer t (loop W)) W in joins g cb u (S u) W W' /\ undisturbed g W W' /\ own_timer W' g id.
Proof.
  intros Hok Hu Hpos Hd. pose proof Hok as [(a & Ha & Hpu) Hs Ht Hus]. pose proof (used_room _ _ Hus Hu) as Hroom.
  assert (TimerInv.sm_wf (timer (loop W))) as Hwf by (destruct Ha as [[] _]; done).
  destruct (TimerSpec.Rel_schedule _ a (Timer.current_time (timer (loop W)) + delay) (Some g) (Some g) c Ha Hroom)
    as (id & t & E & Hno & Hni & Hmono & Hnew & Hr & Es & Ec & _).
  { unfold TimerInv.time_ok. rewrite Hs. zpow. lia. }
  exists id, t. split; [exact E|]. destruct (schedule_lookup _ _ _ _ _ _ _ Hwf Hroom E) as [Hrd Hl]. split; [|split].
  - split; cbn; eauto.
    + intros i e. rewrite Hl. case_decide as Hi; [|by left]. intros [= <-]. right. split; [done|]. by rewrite Hi.
    + intros i e p _ He _ _. rewrite Hl, decide_False; [done|]. congruence.
    + intros sc h _ _. unfold queue_count. cbn. by rewrite Hrd.
    + intros _. split; [|by rewrite Es|by rewrite Ec|by eapply used_schedule]. eexists. split; [exact Hr|].
      intros i E' e. unfold TimerSpec.a_schedule. cbn. rewrite lookup_insert. case_decide; [|apply Hpu]. intros [= <- <-]. cbn.
      pose proof (TimerProps.Rel_current _ _ Ha) as Hcur. pose proof (TimerSpec.mid_time _ _ _ _ _ (proj1 Ha)) as [Hn _]. rewrite Hs in Hcur |- *.
      apply fire_slot_deadline; [done|]. lia.
  - apply undisturbed_wstep. intros b (Hh & Hst & _). eapply wstep_other_schedule; [|done..]. split; congruence.
  - split_and!; cbn; [by eapply TimerInv.lookup_issued| |intros _; eauto]. rewrite Hnew. by intros e [= <-].
Qed.

(** Its own timer may be cancelled while it waits. *)
Lemma join_timer_cancel g cb u id W :
  (forall e, Timer.lookup (timer (loop W)) id = Some e -> Timer.te_state e = Some g) -> joins g cb u u W (timer_cancel id W).
Proof.
  intros Ho. destruct (timer_cancel_spec id W) as (Em & Er & Eq & Et & Ei & Hl). split; cbn in *; eauto.
  - intros i e. rewrite Hl. case_decide; [done|by left].
  - intros i. apply issued_gens, gens_cancel.
  - intros i e p Hn He Hp _. rewrite Hl, decide_False; [done|]. intros ->. rewrite (Ho e He) in Hp. congruence.
  - intros sc h _ _. unfold queue_count. cbn. by rewrite Et.
  - apply wheel_ok_cancel.
Qed.

Lemma join_notify g cb u W : joins g cb u u W (notify_handle (Some g) W).
Proof.
  unfold notify_handle. destruct (_ && _); [|apply moves_joins, moves_refl]. split; cbn; eauto.
  intros sc h _ Hn. unfold queue_count. cbn. rewrite !count_app, count_single, decide_False by congruence. lia.
Qed.

Lemma join_wake g cb u W : joins g cb u u W (set_loop (set_timer (Timer.wake (Some g) (timer (loop W))) (loop W)) W).
Proof.
  split; cbn; eauto; [|apply wheel_ok_ready].
  intros sc h _ Hn. unfold queue_count. cbn. fold (count h (Timer.ready (timer (loop W)) ++ [Some g])).
  rewrite !count_app, count_single, decide_False by congruence. lia.
Qed.

Lemma armed_notify h W a : armed W a -> armed (notify_handle h W) a.
Proof. unfold notify_handle. by destruct (_ && _). Qed.

Lemma armed_moves W W' a : moves W W' -> armed W a -> armed W' a.
Proof. intros M Ha Ht. eapply own_timer_moves; [exact M|]. auto. Qed.

(** The stop was requested already: the callback runs at once. *)
Lemma join_callback g cb u l ob W :
  is_Some (ws_cells (mem W) !! g) -> armed W (wait_of g l ob) ->
  exists W', run_callback (wait_callback (wait_of g l ob)) W = Some W' /\ joins g cb u u W W' /\ armed W' (wait_of g l ob).
Proof.
  intros [v Hv] Ha. pose proof (cancelled_spent g l ob W Ha) as Hsp. unfold run_callback, wait_callback. destruct (wait_of_handle g l ob) as (-> & -> & _). cbn [cb_kind cb_state cb_handle].
  set (W1 := set_mem (set_ws g Cancelled (mem W)) W). assert (moves W W1) as M1 by (by apply moves_set_ws).
  assert (forall W2, moves W W2 -> joins g cb u u W (notify_handle (Some g) W2) /\ armed (notify_handle (Some g) W2) (wait_of g l ob)) as Hnt.
  { intros W2 M. split; [eapply joins_trans; [by apply moves_joins|apply join_notify]|]. by apply armed_notify, (armed_moves W). }
  unfold w_timed in Hsp. destruct (w_kind (wait_of g l ob)); unfold cancel_io_wait, cancel_timed_wait, cancel_sleep; rewrite Hv; cbn [mbind option_bind];
    (case_decide; [|exists W; split; [done|split; [apply moves_joins, moves_refl|done]]]); eexists; (split; [reflexivity|]); fold W1; cbn [has_value].
  - apply Hnt. eapply moves_trans; [exact M1|apply moves_deregister].
  - apply Hnt. eapply moves_trans; [|apply moves_deregister]. eapply moves_trans; [exact M1|by apply moves_timer_cancel, Hsp].
  - assert (moves W (timer_cancel (w_timer (wait_of g l ob)) W1)) as M2 by (eapply moves_trans; [exact M1|by apply moves_timer_cancel, Hsp]).
    split; [eapply joins_trans; [by apply moves_joins|apply join_wake]|]. exact (armed_moves _ _ _ M2 Ha).
Qed.

Lemma join_emplace g u tok l ob W :
  tok_ok D tok -> D ⊆ dom (stops W) -> is_Some (ws_cells (mem W) !! g) -> armed W (wait_of g l ob) ->
  exists W', emplace_callback tok (wait_callback (wait_of g l ob)) W = Some W' /\
    joins g (wait_callback (wait_of g l ob)) u u W W' /\ undisturbed g W W' /\ armed W' (wait_of g l ob).
Proof.
  intros Ht HD Hc Ha. unfold emplace_callback. destruct tok as [s|].
  2:{ exists W. split; [done|]. split; [apply moves_joins, moves_refl|]. split; [|done]. by intros sc a. }
  apply HD, elem_of_dom in Ht as [st Hst]. rewrite Hst. cbn [mbind option_bind]. destruct (requested st).
  - destruct (join_callback g (wait_callback (wait_of g l ob)) u l ob W Hc Ha) as (W' & E & J & Ha'). exists W'. split; [done|]. split; [done|]. split; [|done].
    intros sc a (Hh & Hs & _) I. eapply WInv_other_callback; [|done..]. unfold foreign, wait_callback. cbn.
    destruct (wait_of_handle g l ob) as (-> & -> & _). split; congruence.
  - eexists. split; [done|]. split; [|split; [|exact Ha]].
    + split; cbn; eauto.
      * intros s' st' c. rewrite lookup_insert. case_decide; subst; [|eauto]. intros [= <-]. cbn.
        intros [Hin|Hin%list_elem_of_singleton]%elem_of_app; [eauto|by left].
      * apply dom_insert_lookup_L. eauto.
    + apply undisturbed_wstep. intros a _. by apply wstep_rest.
Qed.

(** ** [await_resume] *)

(** [await_resume] of the awaiter in [g] disturbs nobody and leaves no callback. *)
Record left_by (g : nat) W W' : Prop := {
  lb_moves : moves W W';
  lb_keeps sc a : WInv_with sc a W -> WInv_with sc a W';
  lb_callback s st cb : stops W' !! s = Some st -> cb ∈ callbacks st -> cb_state cb <> g;
}.

Lemma left_reset g W : left_by g W (reset_callback g W).
Proof.
  split; [apply moves_reset_callback|done|]. intros s st cb. cbn. rewrite lookup_fmap. destruct (stops W !! s); [|done].
  intros [= <-]. cbn. by intros [? _]%list_elem_of_filter.
Qed.

Lemma left_timer_cancel g id W W' : spent W' id -> left_by g W W' -> left_by g W (timer_cancel id W').
Proof.
  intros Hsp [M Kp Hc]. split.
  - eapply moves_trans; [done|by apply moves_timer_cancel].
  - intros sc a I. apply WInv_timer_cancel. auto.
  - exact Hc.
Qed.

Lemma left_deregister g fd dir W W' : left_by g W W' -> left_by g W (reactor_deregister fd dir W').
Proof.
  intros [M Kp Hc]. split.
  - eapply moves_trans; [done|apply moves_deregister].
  - intros sc a I. apply WInv_deregister. auto.
  - unfold reactor_deregister. destruct (Reactor.deregister_dir _ _ _ _). exact Hc.
Qed.

Lemma io_resume_left aw g W :
  aw_state aw = g -> aw_readiness aw = g -> is_Some (ws_cells (mem W) !! g) -> is_Some (res_cells (mem W) !! g) ->
  exists res W', io_await_resume aw W = Some (res, W') /\ left_by g W W'.
Proof.
  intros Es Er [v Hv] [x Hx]. unfold io_await_resume. rewrite Es, Er. cbn [mem reset_callback set_stops]. rewrite Hv. cbn [mbind option_bind].
  rewrite Hx. cbn [mbind option_bind]. case_decide; [|destruct x]; eexists _, _; (split; [done|apply left_reset]).
Qed.

Lemma timed_resume_left d id aw g W :
  aw_state aw = g -> aw_readiness aw = g -> is_Some (ws_cells (mem W) !! g) -> is_Some (res_cells (mem W) !! g) ->
  (ws_cells (mem W) !! g <> Some TimedOut -> spent W id) ->
  exists res W', timed_await_resume d id aw W = Some (res, W') /\ left_by g W W'.
Proof.
  intros Es Er [v Hv] [x Hx] Hsp. rewrite Hv in Hsp. unfold timed_await_resume. rewrite Es, Er. cbn [mem reset_callback set_stops]. rewrite Hv. cbn [mbind option_bind].
  destruct (timer_cancel_spec id (reset_callback g W)) as (Em & _).
  case_decide; [subst v; eexists _, _; split; [done|apply left_timer_cancel, left_reset; by apply Hsp]|].
  case_decide; [eexists _, _; split; [done|apply left_deregister, left_reset]|].
  rewrite Em. cbn [mem reset_callback set_stops]. rewrite Hx. cbn [mbind option_bind].
  destruct x; eexists _, _; (split; [done|apply left_timer_cancel, left_reset; apply Hsp; congruence]).
Qed.

Lemma sleep_resume_left aw g W :
  aw_state aw = g -> is_Some (ws_cells (mem W) !! g) -> exists res W', sleep_await_resume aw W = Some (res, W') /\ left_by g W W'.
Proof.
  intros Es [v Hv]. unfold sleep_await_resume. rewrite Es. cbn [mem reset_callback set_stops]. rewrite Hv. cbn [mbind option_bind].
  case_decide; eexists _, _; (split; [done|apply left_reset]).
Qed.

(** ** The cells of a running coroutine *)

Lemma Good_left run sc W W' o q ts fls φ u g : Good run sc W o q ts fls φ u -> left_by g W W' -> Good run sc W' o q ts fls φ u.
Proof. intros G []. eapply Good_moves; [done..|]. eauto. Qed.

Lemma Good_cells sc W o q ts fls φ u g m :
  Good (Answered g) sc W o q ts fls φ u -> Core.frames m = Core.frames (mem W) ->
  (forall p, p <> g -> ws_cells m !! p = ws_cells (mem W) !! p /\ res_cells m !! p = res_cells (mem W) !! p) ->
  Good (Answered g) sc (set_mem m W) o q ts fls φ u.
Proof.
  intros G Ef Hm. assert (machine (set_mem m W) = machine W) as Em by (unfold machine, live; cbn; by rewrite Ef).
  assert (forall g' l ob, waits_in W g' l ob -> g' <> g) as Hne.
  { intros g' l ob [Ho _]. destruct (proj1 (g_objects _ _ _ _ _ _ _ _ _ _ _ G g')) as [_ Hn]; [eauto|]. intros ->. done. }
  assert (forall g' l ob, waits_in (set_mem m W) g' l ob <-> waits_in W g' l ob) as Hwi by (intros; unfold waits_in, in_leaf; by rewrite Em).
  destruct G as [G1 G2 G3 G4 G5 G6 G7 G8 G9 Ga G10 G11 G12 G13 G14 G15 G16]. split; rewrite ?Em; try done.
  - cbn. by rewrite Ef.
  - intros g'. unfold in_leaf. rewrite Em. apply G7.
  - intros g' l ob Hg'%Hwi. destruct (G8 _ _ _ Hg') as (? & ? & I). split_and!; [done|done|]. destruct (wait_of_handle g' l ob) as (Eh & Es & Er).
    destruct (Hm g' (Hne _ _ _ Hg')) as [Hw3 Hr4]. eapply WInv_wstep; [|exact I]. apply wstep_mem; [by rewrite Ef|by rewrite Es|by rewrite Er].
  - intros g' l ob Hg'%Hwi Hio. cbn. destruct (Hm g' (Hne _ _ _ Hg')) as [_ ->]. by eapply G9.
  - intros g' l ob Hg'%Hwi Ht. destruct (Ga _ _ _ Hg' Ht) as (? & ? & Hp). destruct (wait_of_handle g' l ob) as (_ & Es & _).
    split_and!; [done|done|]. rewrite Es in Hp |- *. cbn. by destruct (Hm g' (Hne _ _ _ Hg')) as [-> _].
  - intros s st cb Hs Hcb. destruct (G12 _ _ _ Hs Hcb) as (g' & l & ob & Hg' & ->). exists g', l, ob. split; [by apply Hwi|done].
Qed.

Lemma Good_drop sc W o q ts fls φ u g : Good (Answered g) sc W o q ts fls φ u -> Good (Answered g) sc (drop g W) o q ts fls φ u.
Proof.
  intros G. assert (objects W !! g = None) as Ho.
  { destruct (objects W !! g) eqn:E; [|done]. by destruct (proj1 (g_objects _ _ _ _ _ _ _ _ _ _ _ G g)) as [_ []]; [eauto|]. }
  assert (drop g W = set_mem (mkMem (delete g (ws_cells (mem W))) (delete g (res_cells (mem W))) (Core.frames (mem W))) W) as ->.
  { unfold drop, set_objects. cbn. unfold objects in *. rewrite delete_id by done. destruct W as [l m st ct i [k [cm co]]]. done. }
  apply Good_cells; [done|done|]. intros p Hp. cbn. by rewrite !lookup_delete_ne.
Qed.

(** An awaiter just constructed is known to nobody. *)
Lemma Good_fresh sc W o q ts fls φ u g l ob u0 :
  Good (Answered g) sc W o q ts fls φ u -> in_leaf W g l -> ws_cells (mem W) !! g = Some Pending ->
  wheel_ok t0 (timer (loop W)) u0 -> Z.of_nat u0 < 2 ^ 24 -> fresh_with sc (wait_of g l ob) W.
Proof.
  intros G Hl Hp Hok Hu. pose proof (wait_of_handle g l ob) as (Eh & Es & Er).
  assert (objects W !! g = None) as Ho.
  { destruct (objects W !! g) eqn:E; [|done]. by destruct (proj1 (g_objects _ _ _ _ _ _ _ _ _ _ _ G g)) as [_ []]; [eauto|]. }
  assert (forall g' l' ob', waits_in W g' l' ob' -> g' <> g) as Hne by (intros g' l' ob' [? _] ->; congruence).
  split.
  - split.
    + intros fd d x Hx. destruct (waiter_owner _ _ _ _ _ _ _ _ _ _ _ _ _ _ G Hx) as (g' & l' & ob' & Hg' & _ & -> & _). specialize (Hne _ _ _ Hg').
      unfold own_waiter. cbn. rewrite Eh, Es, Er. naive_solver.
    + intros id e Hx. destruct (timer_owner _ _ _ _ _ _ _ _ _ _ _ _ _ G Hx) as (g' & l' & ob' & Hg' & Hs & Hh & _). specialize (Hne _ _ _ Hg').
      unfold own_entry. rewrite Eh, Es. naive_solver.
  - pose proof (g_queue _ _ _ _ _ _ _ _ _ _ _ G g Ho) as Hq. unfold queued_with. rewrite Eh. unfold queue_count in Hq. rewrite Hq.
    rewrite decide_False; [done|]. destruct Hl as (fr & k & Hf & Hc).
    eapply (unstarted_not_leaf _ _ _ _ _ _ _ _ (g_tasks _ _ _ _ _ _ _ _ _ _ _ G)); [intros r t; by eapply good_pending|done..].
  - rewrite Eh, (g_frames _ _ _ _ _ _ _ _ _ _ _ G), lookup_fmap. destruct Hl as (fr & k & -> & Hc). cbn. unfold is_final. by rewrite Hc.
  - unfold settled_by. by rewrite Es.
  - destruct Hok as [(a & [[] _] & _) _ _ Hus]. split; [done|by eapply used_room].
  - apply G.
Qed.

(** ** Awaiting *)

(** The machine is left where it was. *)
Lemma machine_same W W' : co_machine (kern W').2 = co_machine (kern W).2 -> Core.frames (mem W') = Core.frames (mem W) -> machine W' = machine W.
Proof. intros E1 E2. unfold machine, live. by rewrite E1, E2. Qed.

(** What awaiting a leaf may lead to. *)
Definition awaited (sc : list handle) W (o q : list nat) ts fls φ u (g : nat) (x : option (option V * CWorld)) : Prop :=
  exists v W', x = Some (v, W') /\ machine W' = machine W /\
    Good (match v with None => Nobody | Some _ => Answered g end) sc W' o q ts fls φ u.

(** The awaiter was not registered: its [await_resume] comes at once. *)
Lemma awaited_answer sc W W1 o q ts fls φ u g x :
  Good (Answered g) sc W1 o q ts fls φ u -> machine W1 = machine W ->
  (exists res W', x = Some (res, W') /\ left_by g W1 W') ->
  awaited sc W o q ts fls φ u g (y ← answer ret g x; Some (Some y.1, y.2)).
Proof.
  intros G Em (res & W' & -> & L). pose proof (Good_left _ _ _ _ _ _ _ _ _ _ _ G L) as G'.
  exists (Some (ret res)), (drop g W'). split; [done|]. split; [|by apply Good_drop].
  rewrite <- Em, <- (proj1 (moves_machine _ _ _ (lb_moves _ _ _ L))). by apply machine_same.
Qed.

(** It was: the coroutine is suspended. *)
Lemma awaited_suspended sc W W1 W2 o q ts fls φ u g l aw id cb u0 u1 :
  Good (Answered g) sc W1 o q ts fls φ u -> machine W1 = machine W -> joins g cb u0 u1 W1 W2 -> undisturbed g W1 W2 ->
  wheel_ok t0 (timer (loop W1)) u0 -> (u1 <= u)%nat -> in_leaf W1 g l -> of_awaiter (wait_of g l (mkObject aw id)) aw -> no_stop l ->
  cb = wait_callback (wait_of g l (mkObject aw id)) -> WInv_with sc (wait_of g l (mkObject aw id)) W2 -> armed W2 (wait_of g l (mkObject aw id)) ->
  (w_io (wait_of g l (mkObject aw id)) = true -> is_Some (res_cells (mem W1) !! g)) ->
  awaited sc W o q ts fls φ u g (Some (None, keep g aw id W2)).
Proof.
  intros G Em J U Hw Hu Hl Haw Hns Hcb I Harm Hres. exists None, (keep g aw id W2). split; [done|]. split.
  - rewrite <- Em, <- (proj1 (joins_machine _ _ _ _ _ _ J)). by apply machine_same.
  - eapply Good_joins; try done. intros g' l' ob' [Ho _] I'. apply U; [|done]. apply apart_other. intros ->.
    by destruct (proj1 (g_objects _ _ _ _ _ _ _ _ _ _ _ G g)) as [_ []]; [eauto|].
Qed.

Lemma Good_refused sc W W' o q ts fls φ u g d aw e :
  Good (Answered g) sc W o q ts fls φ u -> aw_state aw = g -> aw_readiness aw = g -> register_waiter d aw (Some g) W = (Err e, W') ->
  Good (Answered g) sc W' o q ts fls φ u /\ moves W W'.
Proof.
  intros G Es Er E. destruct (join_register g (mkCallback 0 None (CbSleep 0)) u d aw W _ _ Es Er E) as (_ & U & _).
  assert (moves W W') as M.
  { unfold register_waiter in E. pose proof (register_beside d (aw_fd aw) (Reactor.mkPending (Some g) (Some (aw_readiness aw)) (Some (aw_state aw)) Ready)
      (reactor (loop W)) (kern W)) as Ek. destruct (Reactor.register _ _ _ _ _) as [[res' r] k] eqn:Eg. injection E as -> <-.
    apply register_frame in Eg as [Hr Hw]. split; cbn; eauto.
    - intros fd d' x. by rewrite Hw.
    - intros sc' h _. unfold queue_count. cbn. by rewrite Hr. }
  split; [|done]. eapply Good_moves; [done..|]. intros g' l' ob' [Ho _] I'. apply U; [|done]. apply apart_other. intros ->.
  by destruct (proj1 (g_objects _ _ _ _ _ _ _ _ _ _ _ G g)) as [_ []]; [eauto|].
Qed.

(** It joined and left again. *)
Lemma Good_rejoin sc W W' o q ts fls φ u g cb u0 u1 :
  Good (Answered g) sc W o q ts fls φ u -> joins g cb u0 u1 W W' -> undisturbed g W W' -> wheel_ok t0 (timer (loop W)) u0 -> (u1 <= u)%nat ->
  (forall fd d x, waiter (reactor (loop W')) fd d = Some x -> waiter (reactor (loop W)) fd d = Some x) ->
  (forall id e, Timer.lookup (timer (loop W')) id = Some e -> Timer.lookup (timer (loop W)) id = Some e) ->
  stops W' = stops W -> queue_count sc g W' = queue_count sc g W ->
  Good (Answered g) sc W' o q ts fls φ u.
Proof.
  intros G J U Hw Hu Hwt Htm Hst Hq. pose proof (fun p id => own_timer_joins g cb u0 u1 W W' p id J) as Hot. destruct (joins_machine _ _ _ _ _ _ J) as [Em Eo].
  assert (forall g' l' ob', waits_in W' g' l' ob' <-> waits_in W g' l' ob') as Hwi by (intros; unfold waits_in, in_leaf; by rewrite Em, Eo).
  assert (forall g' l ob, waits_in W g' l ob -> g' <> g) as Hne.
  { intros g' l ob [Ho _]. destruct (proj1 (g_objects _ _ _ _ _ _ _ _ _ _ _ G g')) as [_ Hn]; [eauto|]. intros ->. done. }
  destruct G as [G1 G2 G3 G4 G5 G6 G7 G8 G9 Ga G10 G11 G12 G13 G14 G15 G16], J. split; rewrite ?Em, ?Eo, ?Hst; try done.
  - congruence.
  - congruence.
  - congruence.
  - by rewrite jn_frames0.
  - unfold in_leaf. by rewrite Em.
  - intros g' l' ob' Hg'%Hwi. destruct (G8 _ _ _ Hg') as (? & ? & I). split_and!; [done|done|]. apply U; [|done]. by eapply apart_other, Hne.
  - intros g' l' ob' Hg'%Hwi Hio. eauto.
  - intros g' l' ob' Hg'%Hwi Ht. apply Hot; [|by apply Ga]. destruct (wait_of_handle g' l' ob') as (_ & -> & _). by eapply Hne.
  - eauto.
  - eauto.
  - intros s st c Hs Hc. destruct (G12 _ _ _ Hs Hc) as (g' & l' & ob' & Hg' & ->). exists g', l', ob'. split; [by apply Hwi|done].
  - intros h Hh. destruct (decide (h = g)) as [->|Hn]; [rewrite Hq; by apply G14|]. rewrite jn_queue0 by done. by apply G14.
  - eapply wheel_ok_le; [exact Hu|]. by apply jn_wheel0.
Qed.

Section Cases.
Context (sc : list handle) W (o q : list nat) (ts : gmap nat (ATask (V := V) (A := Leaf))) (fls : gmap nat (list nat)) (φ : gmap nat nat) (u g : nat).
Context (tok : stop_token) (Htok : tok_ok D tok) (Hok : wheel_ok t0 (timer (loop W)) u) (Hu : Z.of_nat u < 2 ^ 24).
Context (G : Good (Answered g) sc W o q ts fls φ (S u)).

(** The awaiter with its two cells. *)
Lemma Good_construct msg fd :
  let W1 := construct msg (mkAwaiter fd g g None) W in
  Good (Answered g) sc W1 o q ts fls φ (S u) /\ machine W1 = machine W /\ ws_cells (mem W1) !! g = Some Pending /\ is_Some (res_cells (mem W1) !! g).
Proof.
  cbn zeta. split; [|split; [by apply machine_same|split; cbn; rewrite lookup_insert_eq; eauto]].
  apply Good_cells; [done|done|]. intros p Hp. cbn. by rewrite !lookup_insert_ne.
Qed.

Lemma Good_store_readiness W1 aw v :
  Good (Answered g) sc W1 o q ts fls φ (S u) -> aw_readiness aw = g -> Good (Answered g) sc (store_readiness aw v W1) o q ts fls φ (S u).
Proof. intros G1 Er. apply Good_cells; [done|done|]. intros p Hp. cbn. by rewrite Er, lookup_insert_ne. Qed.

Lemma await_ready d fd : in_leaf W g (LReady d fd) -> awaited sc W o q ts fls φ (S u) g (await_leaf ret g (LReady d fd) tok W).
Proof.
  intros Hl. cbn [await_leaf]. set (msg := match d with Reactor.DRead => "read readiness not completed" | Reactor.DWrite => "write readiness not completed" end).
  assert (make_ready d fd g W = (mkAwaiter fd g g None, construct msg (mkAwaiter fd g g None) W)) as -> by (by destruct d).
  destruct (Good_construct msg fd) as (G1 & Em & Hp & Hr). set (W1 := construct _ _ _) in *. set (aw := set_cancellation tok _).
  assert (in_leaf W1 g (LReady d fd)) as Hl1 by (unfold in_leaf; by rewrite Em).
  set (ob := mkObject aw 0). pose proof (Good_fresh _ _ _ _ _ _ _ _ g _ ob u G1 Hl1 Hp Hok Hu) as F.
  set (cb := wait_callback (wait_of g (LReady d fd) ob)).
  destruct (register_waiter d aw (Some g) W1) as [res W2] eqn:E2.
  destruct (join_register g cb u d aw W1 _ _ eq_refl eq_refl E2) as (J2 & U2 & Em2 & Et2 & Est2). destruct res as [[]|e].
  - destruct (join_emplace g u tok (LReady d fd) ob W2 Htok) as (W3 & E3 & J3 & U3 & A3); [rewrite Est2; apply G1|by rewrite Em2, Hp|done|].
    assert (io_await_suspend d aw (Some g) W1 = Some (true, W3)) as Es by (unfold io_await_suspend; rewrite E2; exact (f_equal (fun x => y ← x; Some (true, y)) E3)).
    rewrite Es. cbn [mbind option_bind]. eapply (awaited_suspended sc W W1 W3 _ _ _ _ _ _ g (LReady d fd) aw 0 cb u u); try done.
    + by eapply joins_trans.
    + by eapply undisturbed_trans.
    + lia.
    + eapply WInv_suspends; [exact F|]. by apply (suspends_io (wait_of g (LReady d fd) ob) W1 W3 aw).
  - assert (io_await_suspend d aw (Some g) W1 = Some (false, store_readiness aw (Err e) W2)) as -> by (unfold io_await_suspend; by rewrite E2).
    cbn [mbind option_bind]. destruct (Good_refused _ _ _ _ _ _ _ _ _ g d aw e G1 eq_refl eq_refl E2) as [G2 M2].
    eapply (awaited_answer _ _ (store_readiness aw (Err e) W2)); [by apply Good_store_readiness| |].
    + rewrite <- Em, <- (proj1 (moves_machine _ _ _ M2)). by apply machine_same.
    + apply io_resume_left; [done|done| |]; cbn; [rewrite Em2, Hp|rewrite lookup_insert_eq]; eauto.
Qed.

(** A timer scheduled and cancelled again because the waiter was refused. *)
Lemma Good_timed_refused W1 d aw id t c delay W2 e :
  Good (Answered g) sc W1 o q ts fls φ (S u) -> wheel_ok t0 (timer (loop W1)) u -> 0 < delay -> delay < 2 ^ 62 -> aw_state aw = g -> aw_readiness aw = g ->
  Timer.schedule delay (Some g) (Some g) c (timer (loop W1)) = Some (id, t) ->
  register_waiter d aw (Some g) (set_loop (set_timer t (loop W1)) W1) = (Err e, W2) ->
  Good (Answered g) sc (timer_cancel id W2) o q ts fls φ (S u) /\ mem W2 = mem W1 /\ machine (timer_cancel id W2) = machine W1.
Proof.
  intros G1 Hok1 Hpos Hd Es Er E1 E2. set (cb := mkCallback 0 None (CbSleep 0)).
  destruct (join_schedule g cb u delay c W1 Hok1 Hu Hpos Hd) as (id' & t' & E1' & J1 & U1 & O1). rewrite E1 in E1'. injection E1' as <- <-.
  set (Ws := set_loop (set_timer t (loop W1)) W1) in *.
  destruct (join_register g cb (S u) d aw Ws _ _ Es Er E2) as (J2 & U2 & Em2 & Et2 & Est2).
  assert (joins g cb u (S u) W1 (timer_cancel id W2)) as J.
  { eapply joins_trans; [exact J1|]. eapply joins_trans; [exact J2|]. apply join_timer_cancel. rewrite Et2. apply O1. }
  destruct (timer_cancel_spec id W2) as (Xm & Xr & Xq & Xt & _ & Xl). pose proof Hok1 as [(a & Ha & _) _ _ Hus].
  assert (TimerInv.sm_wf (timer (loop W1))) as Hwf by (destruct Ha as [[] _]; done).
  destruct (schedule_lookup _ _ _ _ _ _ _ Hwf (used_room _ _ Hus Hu) E1) as [Hrd Hl].
  unfold register_waiter in E2. destruct (Reactor.register _ _ _ _ _) as [[res r] k] eqn:Eg. injection E2 as -> <-.
  apply register_frame in Eg as [Hr Hw]. split; [|split; [done|apply (joins_machine _ _ _ _ _ _ J)]].
  eapply Good_rejoin; [exact G1|exact J| |exact Hok1|lia|..].
  - eapply undisturbed_trans; [exact U1|]. eapply undisturbed_trans; [exact U2|]. intros sc' a' _. apply WInv_timer_cancel.
  - intros fd d' x. rewrite Xr. cbn. by rewrite Hw.
  - intros i x. rewrite Xl. case_decide as Hi; [done|]. cbn. by rewrite Hl, decide_False.
  - done.
  - unfold queue_count. rewrite Xr, Xq, Xt. cbn. by rewrite Hr, Hrd.
Qed.

Lemma await_timed d fd timeout :
  in_leaf W g (LTimed d fd timeout) -> timeout < 2 ^ 62 -> awaited sc W o q ts fls φ (S u) g (await_leaf ret g (LTimed d fd timeout) tok W).
Proof.
  intros Hl Hd. unfold await_leaf, make_timed, make_awaiter.
  destruct (Good_construct "timed readiness not completed" fd) as (G1 & Em & Hp & Hr). set (W1 := construct _ _ _) in *. set (aw := set_cancellation tok _).
  assert (in_leaf W1 g (LTimed d fd timeout)) as Hl1 by (unfold in_leaf; by rewrite Em).
  destruct (timeout <=? 0) eqn:Et.
  { unfold timed_await_suspend. rewrite Et. cbn [mbind option_bind].
    eapply (awaited_answer _ _ (set_mem (set_ws g TimedOut (mem W1)) W1)).
    - apply Good_cells; [done|done|]. intros p Hpg. cbn. by rewrite !lookup_insert_ne.
    - rewrite <- Em. by apply machine_same.
    - apply timed_resume_left; [done|done|cbn; rewrite lookup_insert_eq; eauto|exact Hr|]. cbn. rewrite lookup_insert_eq. done. }
  assert (0 < timeout) as Hpos by (by apply Z.leb_gt in Et).
  destruct (join_schedule g (mkCallback 0 None (CbSleep 0)) u timeout TimedOut W1 Hok Hu Hpos Hd) as (id & t & E1 & _).
  set (ob := mkObject aw id). set (cb := wait_callback (wait_of g (LTimed d fd timeout) ob)).
  destruct (join_schedule g cb u timeout TimedOut W1 Hok Hu Hpos Hd) as (id' & t' & E1' & J1 & U1 & O1). rewrite E1 in E1'. injection E1' as <- <-.
  set (Ws := set_loop (set_timer t (loop W1)) W1) in *. pose proof (Good_fresh _ _ _ _ _ _ _ _ g _ ob u G1 Hl1 Hp Hok Hu) as F.
  destruct (register_waiter d aw (Some g) Ws) as [res W2] eqn:E2.
  destruct (join_register g cb (S u) d aw Ws _ _ eq_refl eq_refl E2) as (J2 & U2 & Em2 & Et2 & Est2). destruct res as [[]|e].
  - destruct (join_emplace g (S u) tok (LTimed d fd timeout) ob W2 Htok) as (W3 & E3 & J3 & U3 & A3); [rewrite Est2; apply G1|by rewrite Em2; cbn; rewrite lookup_insert_eq; eauto|intros _; unfold own_timer; rewrite Et2, Em2; exact O1|].
    assert (timed_await_suspend d timeout aw (Some g) W1 = Some (true, id, W3)) as Es.
    { unfold timed_await_suspend. rewrite Et. cbn [aw set_cancellation aw_state]. rewrite E1. cbn [mbind option_bind]. fold Ws. rewrite E2.
      exact (f_equal (fun x => y ← x; Some (true, id, y)) E3). }
    rewrite Es. cbn [mbind option_bind]. eapply (awaited_suspended sc W W1 W3 _ _ _ _ _ _ g (LTimed d fd timeout) aw id cb u (S u)); try done.
    + eapply joins_trans; [exact J1|]. by eapply joins_trans.
    + eapply undisturbed_trans; [exact U1|]. by eapply undisturbed_trans.
    + eapply WInv_suspends; [exact F|]. by apply (suspends_timed (wait_of g (LTimed d fd timeout) ob) W1 W3 aw timeout).
  - assert (timed_await_suspend d timeout aw (Some g) W1 = Some (false, id, store_readiness aw (Err e) (timer_cancel id W2))) as ->.
    { unfold timed_await_suspend. rewrite Et. cbn [aw set_cancellation aw_state]. rewrite E1. cbn [mbind option_bind]. fold Ws. by rewrite E2. }
    cbn [mbind option_bind]. destruct (Good_timed_refused W1 d aw id t TimedOut timeout W2 e G1 Hok Hpos Hd eq_refl eq_refl E1 E2) as (G2 & Em3 & Em4).
    eapply (awaited_answer _ _ (store_readiness aw (Err e) (timer_cancel id W2))); [by apply Good_store_readiness| |].
    + rewrite <- Em, <- Em4. by apply machine_same.
    + apply timed_resume_left; [done|done|cbn; rewrite Em3, Hp; eauto|cbn; rewrite lookup_insert_eq; eauto|].
      intros _ x p. destruct (timer_cancel_spec id W2) as (_ & _ & _ & _ & _ & Xl). cbn [loop store_readiness set_mem]. by rewrite Xl, decide_True.
Qed.

Lemma await_sleep delay :
  in_leaf W g (LSleep delay) -> delay < 2 ^ 62 -> awaited sc W o q ts fls φ (S u) g (await_leaf ret g (LSleep delay) tok W).
Proof.
  intros Hl Hd. unfold await_leaf, sleep_for. set (W1 := set_mem (set_ws g Pending (mem W)) W). set (aw := set_cancellation tok _).
  assert (machine W1 = machine W) as Em by (by apply machine_same).
  assert (Good (Answered g) sc W1 o q ts fls φ (S u)) as G1 by (apply Good_cells; [done|done|]; intros p Hp; cbn; by rewrite lookup_insert_ne).
  assert (ws_cells (mem W1) !! g = Some Pending) as Hp by (cbn; by rewrite lookup_insert_eq).
  assert (in_leaf W1 g (LSleep delay)) as Hl1 by (unfold in_leaf; by rewrite Em).
  destruct (sleep_await_ready delay) eqn:Erd.
  { eapply (awaited_answer _ _ W1); [done|done|]. apply sleep_resume_left; [done|]. rewrite Hp. eauto. }
  assert (0 < delay) as Hpos by (by apply Z.leb_gt in Erd).
  destruct (join_schedule g (mkCallback 0 None (CbSleep 0)) u delay Ready W1 Hok Hu Hpos Hd) as (id & t & E1 & _).
  set (ob := mkObject aw id). set (cb := wait_callback (wait_of g (LSleep delay) ob)).
  destruct (join_schedule g cb u delay Ready W1 Hok Hu Hpos Hd) as (id' & t' & E1' & J1 & U1 & O1). rewrite E1 in E1'. injection E1' as <- <-.
  set (Ws := set_loop (set_timer t (loop W1)) W1) in *. pose proof (Good_fresh _ _ _ _ _ _ _ _ g _ ob u G1 Hl1 Hp Hok Hu) as F.
  destruct (join_emplace g (S u) tok (LSleep delay) ob Ws Htok) as (W3 & E3 & J3 & U3 & A3); [apply G1|cbn; rewrite lookup_insert_eq; eauto|intros _; exact O1|].
  assert (sleep_await_suspend delay aw (Some g) W1 = Some (id, W3)) as Es.
  { unfold sleep_await_suspend. cbn [aw set_cancellation aw_state]. rewrite E1. cbn [mbind option_bind]. fold Ws. cbn [aw_token].
    change (mkCallback g (Some g) (CbSleep id)) with cb. assert (stop_possible tok = false -> W3 = Ws) as Hnone.
    { destruct tok; [done|]. intros _. by injection E3. }
    change (aw_token aw) with tok. destruct (stop_possible tok); [fold ob in E3; fold cb in E3; by rewrite E3|by rewrite Hnone]. }
  rewrite Es. cbn [mbind option_bind fst snd]. eapply (awaited_suspended sc W W1 W3 _ _ _ _ _ _ g (LSleep delay) aw id cb u (S u)); try done.
  - by eapply joins_trans.
  - by eapply undisturbed_trans.
  - eapply WInv_suspends; [exact F|]. by apply (suspends_sleep (wait_of g (LSleep delay) ob) W1 W3 aw delay).
Qed.

Lemma await_any l : in_leaf W g l -> leaf_ok D l -> awaited sc W o q ts fls φ (S u) g (await_leaf ret g l tok W).
Proof.
  intros Hl Hlk. destruct l as [d fd|d fd timeout|delay|s]; [by apply await_ready|by apply await_timed|by apply await_sleep|].
  destruct (Good_request_stop _ _ _ _ _ _ _ _ _ _ _ s G Hlk) as (W' & E & M & G'). cbn [await_leaf]. rewrite E. cbn [mbind option_bind].
  eexists _, W'. split; [done|]. split; [apply (moves_machine _ _ _ M)|done].
Qed.

End Cases.
End Await.
End CoAwait.
