(* ===== verification/CoRun.v ===== *)
(** * CoRun: resuming a coroutine

    A handle taken from the queue is that of a task to start or of a coroutine
    whose awaiter was settled; resuming it runs the frames until they wait again or
    the task has ended, and keeps the invariant [CoInv.Good]. *)

From S2P Require Import Prelude Core TimerWheel TimerInv TimerSpec TimerProps Reactor ReactorProps World Awaiters AwaiterProps EventLoop.
From S2P Require Import WakeUp Waits Combinators Task TaskProps Sched SchedProps Coroutines CoBudget CoTimers CoInv CoSteps CoAwait.

Module CoRun.
Import ReactorProps Awaiters AwaiterProps Combinators Task TaskProps SchedProps Coroutines CoBudget CoTimers CoInv CoSteps CoAwait.

(** ** Leaves and tasks *)

Section Leaf.
Context {V A : Type}.

(** The coroutine in a leaf is the innermost frame of a task that waits. *)
Lemma leaf_iff q (s : Sched.Sched V A) ts fls g l :
  R q s ts fls ->
  (exists fr k, frames (Sched.machine s) !! g = Some fr /\ code fr = InLeaf l k) <->
  exists r t fl tok k st, ts !! r = Some t /\ fls !! r = Some fl /\ head fl = Some g /\ started t = true /\ state t = Wait l tok k st.
Proof.
  intros HR. split.
  - intros (fr & k & Hf & Hc). destruct (leaf_task _ _ _ _ _ _ _ _ HR Hf Hc) as (r & t & fl & st & ?). naive_solver.
  - intros (r & t & fl & tok & k & st & Ht & Hfl & Hhd & Hs & Est). destruct (R_task _ _ _ _ HR r t Ht) as (fl' & E & Hth). simplify_eq.
    unfold task_holds in Hth. rewrite Hs, Est in Hth. destruct Hth as [(_ & x & frx & frr & Hsg & Hx & Hcx & _) _].
    destruct (seg_head _ _ _ _ _ Hsg) as [fl' ->]. injection Hhd as ->. eauto.
Qed.

(** The results matter only for answers not yet delivered. *)
Lemma R_results q (s s' : Sched.Sched V A) ts fls :
  R q s ts fls -> (forall r t, ts !! r = Some t -> pending t = None) -> Sched.machine s' = Sched.machine s -> Sched.owned s' = Sched.owned s ->
  R q s' ts fls.
Proof. intros [] Hp Em Eo. split; rewrite ?Em, ?Eo; try done. intros r t v Ht Hv. rewrite (Hp _ _ Ht) in Hv. done. Qed.
End Leaf.

Section Run.
Context {K V : Type} `{EpollLaws K} `{EventLoop.LoopKernel K}.
Variable ret : Result unit -> V.
#[local] Abbreviation CWorld := (World (K * Co V)).
Implicit Types W : CWorld.
Variable D : gset nat.
Variable t0 : Z.
#[local] Abbreviation Good := (Good D t0).

(** ** The world around the coroutine that runs *)

(** [Good] without the tasks, with [h] running. *)
Record Base (h : nat) (sc : list handle) W (o q : list nat) (u : nat) : Prop := {
  b_owned : ot_handle <$> owned_tasks (loop W) = Some <$> o;
  b_cross : cross_core_queue (loop W) = [];
  b_installed : installed W = true;
  b_objects g : is_Some (objects W !! g) <-> (exists l, in_leaf W g l) /\ g <> h;
  b_wait g l ob : waits_in W g l ob -> of_awaiter (wait_of g l ob) (ob_awaiter ob) /\ no_stop l /\ WInv_with sc (wait_of g l ob) W;
  b_result g l ob : waits_in W g l ob -> w_io (wait_of g l ob) = true -> is_Some (res_cells (mem W) !! g);
  b_armed g l ob : waits_in W g l ob -> armed W (wait_of g l ob);
  b_waiter fd d x : waiter (reactor (loop W)) fd d = Some x -> exists g, Reactor.pe_handle x = Some g /\ is_Some (objects W !! g);
  b_timer id e : Timer.lookup (timer (loop W)) id = Some e -> exists g, Timer.te_handle e = Some g /\ is_Some (objects W !! g);
  b_callback s st cb : stops W !! s = Some st -> cb ∈ callbacks st -> exists g l ob, waits_in W g l ob /\ cb = wait_callback (wait_of g l ob);
  b_stops : D ⊆ dom (stops W);
  b_queue g : objects W !! g = None -> queue_count sc g W = if decide (g ∈ q) then 1%nat else 0%nat;
  b_wheel : wheel_ok t0 (timer (loop W)) u;
}.

Lemma Base_answered g sc W o q ts fls φ u : Good (Answered g) sc W o q ts fls φ u -> Base g sc W o q u.
Proof.
  intros []. split; try done. intros g'. rewrite g_objects0. cbn. split; intros [? Hn]; (split; [done|]); congruence.
Qed.

(** A handle at the head of [sc] counts once. *)
Lemma queue_count_head h sc g W : queue_count (Some h :: sc) g W = ((if decide (g = h) then 1 else 0) + queue_count sc g W)%nat.
Proof.
  unfold queue_count. change ((Some h :: sc) ++ ready_queue (loop W)) with ([Some h] ++ (sc ++ ready_queue (loop W))).
  rewrite (count_app g [Some h]), count_single. repeat case_decide; simplify_eq; lia.
Qed.

(** Taking another handle does not concern a wait. *)
Lemma WInv_head a h sc W : w_handle a <> h -> WInv_with (Some h :: sc) a W -> WInv_with sc a W.
Proof.
  intros Hn I. eapply Inv_weaken; [exact I|done|done|]. unfold tokens.
  change ((Some h :: sc) ++ ready_queue (loop W)) with ([Some h] ++ (sc ++ ready_queue (loop W))).
  rewrite (count_app _ [Some h]), count_single, decide_False by congruence. lia.
Qed.

Lemma Base_unstarted h sc W o q q' ts fls φ u :
  Good Nobody (Some h :: sc) W o q ts fls φ u -> q ≡ₚ h :: q' -> Base h sc W o q' u.
Proof.
  intros G Eq. assert (h ∈ q) as Hh by (rewrite Eq; constructor).
  assert (forall l, ~ in_leaf W h l) as Hnl.
  { intros l (fr & k & Hf & Hc). eapply (unstarted_not_leaf _ _ _ _ _ _ _ _ (g_tasks _ _ _ _ _ _ _ _ _ _ _ G)); [intros r t; by eapply good_pending|done..]. }
  assert (objects W !! h = None) as Ho.
  { destruct (objects W !! h) eqn:E; [|done]. destruct (proj1 (g_objects _ _ _ _ _ _ _ _ _ _ _ G h)) as [[l Hl] _]; [eauto|]. by destruct (Hnl l). }
  assert (NoDup q) as Hnd by apply (g_tasks _ _ _ _ _ _ _ _ _ _ _ G). rewrite Eq in Hnd. apply NoDup_cons in Hnd as [Hni _].
  destruct G as [G1 G2 G3 G4 G5 G6 G7 G8 G9 Ga G10 G11 G12 G13 G14 G15 G16]. split; try done.
  - intros g. rewrite G7. cbn. split; [|intros [? _]; done]. intros [[l Hl] _]. split; [eauto|]. intros ->. by destruct (Hnl l).
  - intros g l ob Hg. destruct (G8 g l ob Hg) as (? & ? & I). split_and!; [done|done|]. eapply WInv_head; [|exact I].
    destruct (wait_of_handle g l ob) as (-> & _). intros ->. destruct Hg. congruence.
  - intros g Hg. specialize (G14 g Hg). rewrite queue_count_head in G14.
    assert (g ∈ q <-> g = h \/ g ∈ q') as Hin by (by rewrite Eq, elem_of_cons). repeat case_decide; subst; try lia; tauto.
Qed.

(** ** After a run *)

Definition reached (m : Machine V Leaf) : Running := match waiting m with None => Nobody | Some g => Reached g end.

(** The task [r] has run from [h] to its next state; the others are as before. *)
Lemma Good_ran h sc W o q u qb (s s' : Sched.Sched V Leaf) ts fls φ r t t' fl fl' m' n :
  Base h sc W o q u -> R qb s ts fls -> Sched.machine s = machine W ->
  ts !! r = Some t -> fls !! r = Some fl -> head fl = Some h ->
  R q s' (<[r := t']> ts) (<[r := fl']> fls) -> Sched.machine s' = m' -> Sched.owned s' = o ->
  waiting m' = (if waits (state t') then head fl' else None) -> started t' = true -> pending t' = None ->
  (forall answers, (direct (at_tok t') (at_body t') answers).2 <> Undefined) -> susp_budget D n (state t') ->
  (forall r1 t1, ts !! r1 = Some t1 -> r1 <> r -> task_ok D Nobody φ fls r1 t1) -> Z.of_nat (u + total (<[r := n]> φ)) < 2 ^ 24 ->
  Good (reached m') sc (store m' W) o q (<[r := t']> ts) (<[r := fl']> fls) (<[r := n]> φ) u.
Proof.
  intros B HR Em Ht Hfl Hhd HR' Em' Eo' Hw Hst Hpe Hdef Hbud Hoth Htot.
  assert (forall r1 t1, <[r := t']> ts !! r1 = Some t1 -> pending t1 = None) as Hnp.
  { intros r1 t1. rewrite lookup_insert. case_decide; [by intros [= <-]|]. intros Ht1. by destruct (Hoth r1 t1 Ht1) as [? _]. }
  (* leaves before and after, by tasks *)
  assert (forall g l, in_leaf W g l <-> exists r1 t1 fl1 tok k st, ts !! r1 = Some t1 /\ fls !! r1 = Some fl1 /\ head fl1 = Some g /\
    started t1 = true /\ state t1 = Wait l tok k st) as Hbefore by (intros g l; unfold in_leaf; rewrite <- Em; by eapply leaf_iff).
  assert (forall g l, in_leaf (store m' W) g l <-> exists r1 t1 fl1 tok k st, <[r := t']> ts !! r1 = Some t1 /\ <[r := fl']> fls !! r1 = Some fl1 /\
    head fl1 = Some g /\ started t1 = true /\ state t1 = Wait l tok k st) as Hafter.
  { intros g l. unfold in_leaf. rewrite machine_store, <- Em'. by eapply leaf_iff. }
  assert (forall g l, in_leaf (store m' W) g l /\ waiting m' <> Some g <-> in_leaf W g l /\ g <> h) as Hleaf.
  { intros g l. rewrite Hbefore, Hafter. split.
    - intros [(r1 & t1 & fl1 & tok & k & st & Ht1 & Hfl1 & Hh1 & Hs1 & E1) Hn]. destruct (decide (r1 = r)) as [->|Hr1].
      + rewrite lookup_insert_eq in Ht1. rewrite lookup_insert_eq in Hfl1. simplify_eq. rewrite E1 in Hw. cbn in Hw. congruence.
      + rewrite lookup_insert_ne in Ht1 by done. rewrite lookup_insert_ne in Hfl1 by done. split; [naive_solver|]. intros ->. destruct Hr1. by eapply (heads_differ _ _ _ _ _ _ _ _ h HR).
    - intros [(r1 & t1 & fl1 & tok & k & st & Ht1 & Hfl1 & Hh1 & Hs1 & E1) Hn].
      assert (r1 <> r) as Hr1 by (intros ->; congruence). split.
      + exists r1, t1, fl1, tok, k, st. by rewrite !lookup_insert_ne.
      + rewrite Hw. destruct (waits (state t')); [|done]. intros Hx. apply Hr1. eapply (heads_differ _ _ _ _ _ _ _ _ g HR');
          [by rewrite lookup_insert_ne|by rewrite lookup_insert_eq|done|done]. }
  assert (running (reached m') = waiting m') as Erun by (unfold reached; by destruct (waiting m')).
  assert (forall g l ob, waits_in (store m' W) g l ob <-> waits_in W g l ob) as Hwi.
  { intros g l ob. unfold waits_in. change (objects (store m' W)) with (objects W). split; intros [Ho Hl]; (split; [done|]).
    - destruct (proj1 (b_objects _ _ _ _ _ _ B g)) as [[l0 Hl0] Hn]; [eauto|]. apply (Hleaf g l). split; [done|]. apply (Hleaf g l0). by split.
    - destruct (proj1 (b_objects _ _ _ _ _ _ B g)) as [_ Hn]; [eauto|]. by apply (Hleaf g l). }
  destruct B as [B1 B2 B3 B4 B5 B6 Ba B7 B8 B9 B10 B11 B12]. split; rewrite ?machine_store; try done; change (objects (store m' W)) with (objects W).
  - by eapply R_results.
  - intros r1 t1. rewrite lookup_insert. case_decide as Hd; [destruct Hd|].
    + intros [= <-]. split; [done|]. split; [done|]. exists n. rewrite lookup_insert_eq. split; [done|]. rewrite Hst, lookup_insert_eq.
      destruct (state t') as [| | |l tok k st] eqn:Est; try done. cbn in Hw. unfold reached. rewrite Hw. destruct fl' as [|g fl'].
      * eapply (susp_budget_le _ n); [cbn; lia|done].
      * unfold owes. cbn [mbind option_bind head]. by rewrite decide_True.
    + intros Ht1. destruct (Hoth r1 t1 Ht1) as (? & ? & n1 & ? & Hb1); [done|]. split; [done|]. split; [done|]. exists n1.
      rewrite !lookup_insert_ne by done. split; [done|]. destruct (started t1); [|done].
      unfold owes, reached in *. destruct (waiting m') as [g|] eqn:Ew; [|done]. case_decide as Hx; [|done]. exfalso.
      destruct (fls !! r1) as [fl1|] eqn:Hfl1; [|done]. cbn in Hx. destruct (waits (state t')); [|done].
      apply Hd. symmetry. eapply (heads_differ _ _ _ _ _ _ _ _ g HR'); [by rewrite lookup_insert_ne|by rewrite lookup_insert_eq|done|done].
  - intros g. rewrite Erun, B4. split.
    + intros [[l Hl] Hn]. destruct (proj2 (Hleaf g l)) as [? ?]; [done|]. eauto.
    + intros [[l Hl] Hn]. destruct (proj1 (Hleaf g l)) as [? ?]; [done|]. eauto.
  - intros g l ob Hg. pose proof (proj1 (Hwi g l ob) Hg) as Hg0. destruct (B5 _ _ _ Hg0) as (? & ? & I). split_and!; [done|done|].
    destruct (wait_of_handle g l ob) as (Eh & Es & Er). eapply Inv_mem; [exact I|  |done|done]. rewrite (inv_live _ _ _ _ _ I), Eh. cbn.
    rewrite lookup_fmap. destruct Hg as [_ (fr & k & Hf & Hc)]. rewrite machine_store in Hf. rewrite Hf. cbn. unfold is_final. by rewrite Hc.
  - intros g l ob Hg%Hwi. eauto.
  - intros g l ob Hg%Hwi. exact (Ba _ _ _ Hg).
  - intros x st cb Hs Hcb. destruct (B9 _ _ _ Hs Hcb) as (g & l & ob & Hg & ->). exists g, l, ob. split; [by apply Hwi|done].
Qed.

(** ** Entering a coroutine *)

(** [m0] is about to run the coroutine [h] of task [r], whose next state has the
    budget [n]. *)
Record Entry (n : nat) (sc : list handle) W (o q : list nat) (s : Sched.Sched V Leaf) ts fls φ (u r : nat) t fl (h : nat) (m0 : Machine V Leaf) : Prop := {
  e_base : Base h sc W o q u;
  e_R : R (h :: q) s ts fls;
  e_machine : Sched.machine s = machine W;
  e_owned : Sched.owned s = o;
  e_task : ts !! r = Some t;
  e_frames : fls !! r = Some fl;
  e_resumable : resumable r t fl h;
  e_entered : entered h s t m0;
  e_waiting : waiting m0 = None;
  e_defined answers : (direct (at_tok t) (at_body t) answers).2 <> Undefined;
  e_budget : susp_budget D n (state (deliver t));
  e_left : exists n0, φ !! r = Some n0 /\ (n <= n0)%nat;
  e_others r1 t1 : ts !! r1 = Some t1 -> r1 <> r -> task_ok D Nobody φ fls r1 t1;
  e_total : Z.of_nat (u + total φ) < 2 ^ 24;
}.

Lemma Entry_run n sc W o q s ts fls φ u r t fl h m0 :
  Entry n sc W o q s ts fls φ u r t fl h m0 ->
  exists m' fl', runs_on m0 m' /\ control m' = Idle /\
    Good (reached m') sc (store m' W) o q (<[r := deliver t]> ts) (<[r := fl']> fls) (<[r := n]> φ) u /\
    (forall g, waiting m' = Some g -> head fl' = Some g /\ exists fr l k, frames m' !! g = Some fr /\ code fr = InLeaf l k).
Proof.
  intros []. destruct (deliver_spawned t) as [Et Eb].
  assert (state (deliver t) <> Undef) as Hnu.
  { intros Hu. apply (e_defined0 (consumed (deliver t))). rewrite <- Et, <- Eb. change ((direct _ _ _).2) with (meaning (deliver t)).
    rewrite meaning_ending; [by rewrite Hu|]. rewrite Et, Eb. by eapply deliver_consumes. }
  destruct (R_run _ _ _ _ _ _ _ _ _ e_R0 e_task0 e_frames0 e_resumable0 e_entered0 Hnu) as (m' & fl' & Hr & HR' & Hi & Hw).
  exists m', fl'. split; [done|]. split; [done|]. destruct e_resumable0 as [Hhd Hres].
  assert (started (deliver t) = true /\ pending (deliver t) = None) as [Hst Hpe].
  { unfold deliver. destruct (started t) eqn:Es; [|done]. destruct Hres as [|[v Hv]]; [done|]. by rewrite Hv. }
  destruct e_left0 as (n0 & Hn0 & Hle). pose proof (total_spend φ r n0 n Hn0 Hle).
  rewrite e_waiting0 in Hw. split.
  { eapply (Good_ran h sc W o q u (h :: q) s (Sched.set_machine m' s)); try done; [by rewrite Et, Eb|lia]. }
  intros g Hg. rewrite Hg in Hw. destruct (state (deliver t)) as [| | |l tok k st] eqn:Est; try done. cbn in Hw. split; [done|].
  destruct (proj2 (leaf_iff _ _ _ _ g l HR')) as (fr & k' & Hf & Hc); [|by exists fr, l, k'].
  exists r, (deliver t), fl', tok, k, st. by rewrite !lookup_insert_eq.
Qed.

(** The answer [v] for the coroutine [g] in a leaf. *)
Lemma Entry_answered v sc W o q ts fls φ u g fr l k :
  Good (Answered g) sc W o q ts fls φ u -> frames (machine W) !! g = Some fr -> code fr = InLeaf l k ->
  exists n s r t fl n0, ts !! r = Some t /\ fls !! r = Some fl /\ head fl = Some g /\ φ !! r = Some n0 /\ (n <= n0)%nat /\
    Entry n sc W o q s (<[r := answered v t]> ts) fls φ u r (answered v t) fl g (resume_leaf g v (machine W)).
Proof.
  intros G Hf Hc. pose proof (g_tasks _ _ _ _ _ _ _ _ _ _ _ G) as HR.
  destruct (leaf_task _ _ _ _ _ _ _ _ HR Hf Hc) as (r & t & fl & st & Ht & Hfl & Hhd & Hs & Est).
  destruct (g_task _ _ _ _ _ _ _ _ _ _ _ G r t Ht) as (Hp & Hd & n0 & Hn0 & Hb). rewrite Hs in Hb. cbn [owes] in Hb.
  destruct (R_complete r t v (Sched.mkSched (machine W) o q ∅) ts fls HR Ht Hs Hp) as (s' & E & HR'); [by rewrite Est|].
  assert (Sched.machine s' = machine W /\ Sched.owned s' = o /\ Sched.ready s' = q ++ [g]) as (Em & Eo & Eq).
  { unfold Sched.complete in E. destruct (Sched.leaf_of _ _ r) as [f|] eqn:El; [|done]. cbn [mbind option_bind] in E.
    case_decide; [done|]. injection E as <-. split_and!; [done|done|]. cbn. f_equal. f_equal.
    destruct (R_task _ _ _ _ HR r t Ht) as (fl' & Efl & Hth). simplify_eq. unfold task_holds in Hth. rewrite Hs in Hth. destruct Hth as [Hh _].
    destruct (waiting_leaf r _ fl _ (next (machine W)) Hh) as (g' & Hg' & Hl'); [by rewrite Est|intros x Hx; by eapply (R_frames_lt _ _ _ _ _ _ _ HR)|].
    change (Sched.leaf_of (next (machine W)) (frames (machine W)) r = Some f) in El.
    change (Sched.leaf_of (next (machine W)) (frames (machine W)) r = Some g') in Hl'. rewrite Hl' in El. congruence. }
  assert (deliver (answered v t) = mkAT (at_tok t) (at_body t) true (consumed t ++ [v]) None) as Ed by (unfold deliver; cbn; by rewrite Hs).
  destruct (feed_budgeted D _ _ v Hb) as (n & Hn & Hbn); [by rewrite Est|].
  exists n, s', r, t, fl, n0. split_and!; [done..|lia|]. split; try done.
  - by eapply Base_answered.
  - eapply R_perm; [|exact HR']. rewrite Eq. by rewrite Permutation_app_comm.
  - by rewrite lookup_insert_eq.
  - split; [done|]. right. cbn. eauto.
  - unfold resume_leaf. rewrite Hf. cbn [mbind option_bind]. rewrite Hc. split_and!; [by rewrite Em|by rewrite Em|]. cbn. rewrite Hs. by exists fr, l, k, v.
  - unfold resume_leaf. rewrite Hf. cbn [mbind option_bind]. by rewrite Hc.
  - unfold state. rewrite Ed. cbn [at_tok at_body consumed]. rewrite after_snoc. exact Hbn.
  - exists n0. split; [done|lia].
  - intros r1 t1 Ht1 Hr1. rewrite lookup_insert_ne in Ht1 by done. by apply (g_task _ _ _ _ _ _ _ _ _ _ _ G).
  - apply G.
Qed.

(** Tasks only take more answers. *)
Definition outgrows (t t' : ATask (V := V) (A := Leaf)) : Prop :=
  at_tok t' = at_tok t /\ at_body t' = at_body t /\ consumed t `prefix_of` consumed t'.

Definition tasks_grown (ts ts' : gmap nat (ATask (V := V) (A := Leaf))) : Prop :=
  (forall r t, ts !! r = Some t -> exists t', ts' !! r = Some t' /\ outgrows t t') /\ forall r, is_Some (ts' !! r) -> is_Some (ts !! r).

Lemma tasks_grown_refl ts : tasks_grown ts ts.
Proof. split; [|done]. intros r t Ht. exists t. done. Qed.

Lemma tasks_grown_trans ts1 ts2 ts3 : tasks_grown ts1 ts2 -> tasks_grown ts2 ts3 -> tasks_grown ts1 ts3.
Proof.
  intros [X1 D1] [X2 D2]. split; [|auto]. intros r t Ht. destruct (X1 _ _ Ht) as (t2 & Ht2 & ? & ? & P2). destruct (X2 _ _ Ht2) as (t3 & Ht3 & ? & ? & P3).
  exists t3. split; [done|]. split; [congruence|]. split; [congruence|by etrans].
Qed.

Lemma tasks_grown_insert ts r t t' : ts !! r = Some t -> outgrows t t' -> tasks_grown ts (<[r := t']> ts).
Proof.
  intros Ht Ho. split.
  - intros r1 t1 Ht1. rewrite lookup_insert. case_decide as Hd; [destruct Hd; simplify_eq; eauto|]. exists t1. done.
  - intros r1. rewrite lookup_insert. case_decide as Hd; [destruct Hd; eauto|done].
Qed.

Lemma outgrows_deliver q (s : Sched.Sched V Leaf) ts fls r t : R q s ts fls -> ts !! r = Some t -> outgrows t (deliver t).
Proof.
  intros HR Ht. destruct (R_task _ _ _ _ HR r t Ht) as (fl & _ & Hth). unfold task_holds in Hth. unfold outgrows, deliver.
  destruct (started t); [|by destruct Hth as (_ & _ & -> & _)]. destruct (pending t); [|done]. cbn. split_and!; [done..|]. by apply prefix_app_r.
Qed.

Lemma outgrows_answered v t : outgrows t (answered v t).
Proof. done. Qed.

Lemma store_store m m' W : store m' (store m W) = store m' W.
Proof. done. Qed.

Lemma go_on_spec n : forall sc W o q s ts fls φ u r t fl h m0,
  Entry n sc W o q s ts fls φ u r t fl h m0 ->
  exists N W' ts' fls' φ' u', (forall fuel k, (N <= fuel)%nat -> (N <= k)%nat -> go_on ret fuel k (store m0 W) = Some W') /\
    Good Nobody sc W' o q ts' fls' φ' u' /\ tasks_grown ts ts' /\ (u' + total φ' <= u + total φ)%nat.
Proof.
  induction n as [n IH] using lt_wf_ind. intros sc W o q s ts fls φ u r t fl h m0 E.
  destruct (Entry_run _ _ _ _ _ _ _ _ _ _ _ _ _ _ _ E) as (m' & fl' & Hr & Hi & G & Hleaf). destruct (runs_on_drives _ _ Hr Hi) as [N1 HN1].
  pose proof (outgrows_deliver _ _ _ _ r t (e_R _ _ _ _ _ _ _ _ _ _ _ _ _ _ _ E) (e_task _ _ _ _ _ _ _ _ _ _ _ _ _ _ _ E)) as Hod.
  pose proof (tasks_grown_insert ts r t (deliver t) (e_task _ _ _ _ _ _ _ _ _ _ _ _ _ _ _ E) Hod) as Esp.
  destruct (e_left _ _ _ _ _ _ _ _ _ _ _ _ _ _ _ E) as (n0 & Hn0 & Hle0). pose proof (total_spend φ r n0 n Hn0 Hle0) as Hsp.
  unfold reached in G. destruct (waiting m') as [g|] eqn:Ew.
  2:{ exists (S N1), (store m' W), (<[r := deliver t]> ts), (<[r := fl']> fls), (<[r := n]> φ), u. split; [|split; [done|split; [done|lia]]].
    intros fuel [|k] Hf Hk; [lia|]. cbn [go_on]. rewrite machine_store, HN1 by lia. cbn [fst]. by rewrite Hi, Ew, store_store. }
  (* it waits in the leaf [g] *)
  destruct (Hleaf g eq_refl) as (Hhd & fr & l & k & Hf & Hc).
  destruct (Good_pay _ _ _ _ _ _ _ _ _ _ _ fr l k G) as (Hlk & Htk & Hu & r1 & fl1 & n1 & Hfl1 & Hhd1 & Hn1 & Hpos & G1); [by rewrite machine_store|done|].
  assert (r1 = r) as ->.
  { eapply (heads_differ _ _ _ _ _ _ _ _ g (g_tasks _ _ _ _ _ _ _ _ _ _ _ G)); [exact Hfl1|by rewrite lookup_insert_eq|done|done]. }
  rewrite lookup_insert_eq in Hn1. injection Hn1 as <-.
  pose proof (total_spend (<[r := n]> φ) r n (n - 1) (lookup_insert_eq _ _ _) ltac:(lia)) as Hsp1.
  destruct (await_any ret D t0 sc (store m' W) o q _ _ _ u g (cancel_token (promise fr)) Htk (g_wheel _ _ _ _ _ _ _ _ _ _ _ G) ltac:(lia) G1 l)
    as (x & W2 & E2 & Em2 & G2); [exists fr, k; by rewrite machine_store|done|]. rewrite machine_store in Em2.
  assert (await_transform (promise fr) None = cancel_token (promise fr)) as Etok by (unfold await_transform; by destruct (cancel_token (promise fr))).
  assert (forall fuel k0, (N1 <= fuel)%nat -> go_on ret fuel (S k0) (store m0 W) = match x with None => Some W2 | Some v => go_on ret fuel k0 (store (resume_leaf g v m') W2) end) as Hgo.
  { intros fuel k0 Hfuel. cbn [go_on]. rewrite machine_store, HN1 by lia. cbn [fst]. rewrite Hi, Ew, store_store, Hf. cbn [mbind option_bind].
    rewrite Hc, Etok, E2. cbn [mbind option_bind]. destruct x; [by rewrite Em2|done]. }
  destruct x as [v|].
  2:{ eexists (S N1), W2, _, _, _, _. split; [|split; [exact G2|split; [done|lia]]]. intros fuel [|k0] Hfu Hk; [lia|]. rewrite Hgo by lia. done. }
  destruct (Entry_answered v _ _ _ _ _ _ _ _ _ fr l k G2) as (n2 & s2 & r2 & t2 & fl2 & n3 & Ht2 & Hfl2 & Hhd2 & Hn3 & Hle & En2); [by rewrite Em2|done|].
  rewrite Em2 in En2.
  assert (r2 = r) as ->.
  { eapply (heads_differ _ _ _ _ _ _ _ _ g (g_tasks _ _ _ _ _ _ _ _ _ _ _ G)); [exact Hfl2|by rewrite lookup_insert_eq|done|done]. }
  rewrite lookup_insert_eq in Hn3. injection Hn3 as <-.
  destruct (IH n2 ltac:(lia) _ _ _ _ _ _ _ _ _ _ _ _ _ _ En2) as (N2 & W' & ts' & fls' & φ' & u' & Hgo2 & G' & Esp' & Hb').
  exists (S (N1 + N2)), W', ts', fls', φ', u'. split; [|split; [done|split; [|lia]]].
  - intros fuel [|k0] Hfu Hk; [lia|]. rewrite Hgo by lia. apply Hgo2; lia.
  - eapply tasks_grown_trans; [exact Esp|]. eapply tasks_grown_trans; [by apply (tasks_grown_insert _ r t2 (answered v t2) Ht2)|done].
Qed.

End Run.
End CoRun.
