(* ===== verification/CoLoop.v ===== *)
(** * CoLoop: iterations of the loop over coroutines

    Resuming the queue, cleaning up and waiting for events keep the invariant
    [CoInv.Good]; so does spawning. *)

From S2P Require Import Prelude Core TimerWheel TimerInv TimerSpec TimerProps Reactor ReactorProps World Awaiters AwaiterProps EventLoop.
From S2P Require Import WakeUp Waits Combinators Task TaskProps Sched SchedProps Coroutines CoBudget CoTimers CoInv CoSteps CoAwait CoRun.

Module CoLoop.
Import ReactorProps Awaiters AwaiterProps Combinators Task TaskProps SchedProps Coroutines CoBudget CoTimers CoInv CoSteps CoAwait CoRun.

Section Loop.
Context {K V : Type} `{EpollLaws K} `{EventLoop.LoopKernel K}.
Variable ret : Result unit -> V.
#[local] Abbreviation CWorld := (World (K * Co V)).
Implicit Types W : CWorld.
Variable D : gset nat.
Variable t0 : Z.
#[local] Abbreviation Good := (Good D t0).

(** ** Taking a settled coroutine out *)

Lemma Good_take h sc W o q ts fls φ u l ob :
  Good Nobody (Some h :: sc) W o q ts fls φ u -> waits_in W h l ob -> unreferenced (wait_of h l ob) W -> queue_count sc h W = 0%nat ->
  Good (Answered h) sc (drop h W) o q ts fls φ u.
Proof.
  intros G Hh [[Uw Ut] Hcb] Hq. destruct (wait_of_handle h l ob) as (Eh & Es & Er). rewrite Es in Hcb.
  assert (machine (drop h W) = machine W) as Em by (by apply machine_same).
  assert (forall g l' ob', waits_in (drop h W) g l' ob' <-> waits_in W g l' ob' /\ g <> h) as Hwi.
  { intros g l' ob'. unfold waits_in, in_leaf. rewrite Em. change (objects (drop h W)) with (delete h (objects W)). rewrite lookup_delete_Some. naive_solver. }
  assert (h ∉ q) as Hhq.
  { destruct Hh as [_ (fr & k & Hf & Hc)]. eapply (unstarted_not_leaf _ _ _ _ _ _ _ _ (g_tasks _ _ _ _ _ _ _ _ _ _ _ G)); [intros r t; by eapply good_pending|done..]. }
  assert (forall g, g <> h -> is_Some (objects W !! g) -> is_Some (delete h (objects W) !! g)) as Hkeep by (intros g Hn; by rewrite lookup_delete_ne).
  pose proof G as [G1 G2 G3 G4 G5 G6 G7 G8 G9 Ga G10 G11 G12 G13 G14 G15 G16]. split; rewrite ?Em; try done; change (objects (drop h W)) with (delete h (objects W)).
  - intros g. unfold in_leaf. rewrite Em. cbn [running]. destruct (decide (g = h)) as [->|Hn].
    + rewrite lookup_delete_eq. split; [by intros [? [=]]|by intros [_ Hx]].
    + rewrite lookup_delete_ne by done. rewrite G7. cbn [running]. unfold in_leaf. split; intros [? _]; (split; [done|]); [congruence|done].
  - intros g l' ob' [Hg Hn]%Hwi. destruct (G8 _ _ _ Hg) as (? & ? & I). split_and!; [done|done|].
    destruct (wait_of_handle g l' ob') as (Eg & Esg & Erg).
    pose proof (WInv_head (wait_of g l' ob') h sc W ltac:(by rewrite Eg) I) as I'. eapply Inv_mem; [exact I'|..].
    + done.
    + rewrite Esg. cbn. by rewrite lookup_delete_ne.
    + rewrite Erg. cbn. by rewrite lookup_delete_ne.
  - intros g l' ob' [Hg Hn]%Hwi Hio. cbn. rewrite lookup_delete_ne by done. eauto.
  - intros g l' ob' [Hg Hn]%Hwi Ht. destruct (Ga _ _ _ Hg Ht) as (? & ? & Hp). destruct (wait_of_handle g l' ob') as (_ & Eg & _).
    split_and!; [done|done|]. rewrite Eg in Hp |- *. cbn. by rewrite lookup_delete_ne.
  - intros fd d x Hx. destruct (G10 _ _ _ Hx) as (g & Hp & Ho). exists g. split; [done|]. apply Hkeep; [|done]. intros ->.
    apply (Uw _ _ _ Hx). right. left. by rewrite Eh.
  - intros id e Hx. destruct (G11 _ _ Hx) as (g & Hp & Ho). exists g. split; [done|]. apply Hkeep; [|done]. intros ->.
    apply (Ut _ _ Hx). right. by rewrite Eh.
  - intros s st cb Hs Hin. destruct (G12 _ _ _ Hs Hin) as (g & l' & ob' & Hg & ->). exists g, l', ob'. split; [|done]. apply Hwi. split; [done|].
    intros ->. apply (Hcb _ _ _ Hs Hin). by destruct (wait_of_handle h l' ob') as (_ & ? & _).
  - intros g Hg. change (queue_count sc g (drop h W)) with (queue_count sc g W). destruct (decide (g = h)) as [->|Hn]; [by rewrite decide_False|].
    rewrite lookup_delete_ne in Hg by done. specialize (G14 g Hg). rewrite queue_count_head, decide_False in G14 by done. done.
Qed.

(** The handle of a suspended coroutine is queued only when its wait is settled,
    and then once. *)
Lemma settled_once h sc W o q ts fls φ u l ob :
  Good Nobody (Some h :: sc) W o q ts fls φ u -> waits_in W h l ob ->
  queue_count sc h W = 0%nat /\ exists v, ws_cells (mem W) !! h = Some v /\ v <> Pending.
Proof.
  intros G Hh. destruct (g_wait _ _ _ _ _ _ _ _ _ _ _ G _ _ _ Hh) as (_ & _ & I). destruct (wait_of_handle h l ob) as (Eh & Es & _).
  pose proof (inv_tokens _ _ _ _ _ I) as Htk. unfold tokens in Htk. rewrite Eh, Es in Htk. fold (queue_count (Some h :: sc) h W) in Htk.
  rewrite queue_count_head, decide_True in Htk by done. split; [lia|]. pose proof (inv_cell _ _ _ _ _ I) as [v Hv]. rewrite Es in Hv. exists v.
  split; [done|]. intros ->. unfold pending_token in Htk. rewrite decide_True in Htk by done. lia.
Qed.

Lemma resume_awaiter_spec h sc W o q ts fls φ u l ob :
  Good Nobody (Some h :: sc) W o q ts fls φ u -> waits_in W h l ob ->
  exists v W', resume_awaiter ret h l W = Some (v, W') /\ machine W' = machine W /\ Good (Answered h) sc W' o q ts fls φ u.
Proof.
  intros G Hh. destruct (settled_once _ _ _ _ _ _ _ _ _ _ _ G Hh) as (Hq & v & Hv & Hnp).
  destruct (g_wait _ _ _ _ _ _ _ _ _ _ _ G _ _ _ Hh) as ((Ef & Es & Er) & Hns & I). destruct (wait_of_handle h l ob) as (Eh & Ews & Ewr).
  assert (ws_cells (mem W) !! w_state (wait_of h l ob) = Some v) as Hv' by (by rewrite Ews).
  pose proof Hh as [Ho _]. unfold resume_awaiter. rewrite Ho. cbn [mbind option_bind].
  enough (exists res W1, match l with LReady _ _ => io_await_resume (ob_awaiter ob) W | LTimed d _ _ => timed_await_resume d (ob_timer ob) (ob_awaiter ob) W
    | LSleep _ => sleep_await_resume (ob_awaiter ob) W | LStop _ => None end = Some (res, W1) /\ left_by t0 h W W1 /\ unreferenced (wait_of h l ob) W1)
    as (res & W1 & -> & L & U).
  { exists (ret res), (drop h W1). split; [done|]. pose proof (proj1 (moves_machine _ _ _ (lb_moves _ _ _ _ L))) as Em. split; [rewrite <- Em; by apply machine_same|].
    eapply Good_take; [by eapply Good_left| |exact U|].
    - by apply (waits_in_moves _ _ _ _ _ _ (lb_moves _ _ _ _ L)).
    - pose proof (lb_keeps _ _ _ _ L _ _ I) as I1. pose proof (inv_tokens _ _ _ _ _ I1) as Htk. unfold tokens in Htk. rewrite Eh in Htk.
      fold (queue_count (Some h :: sc) h W1) in Htk. rewrite queue_count_head, decide_True in Htk by done. lia. }
  assert (is_Some (ws_cells (mem W) !! h)) as Hc by (rewrite Hv; eauto).
  destruct l as [d fd|d fd timeout|delay|s]; [| | |done]; cbn in Es, Er.
  - destruct (io_resume_left t0 (ob_awaiter ob) h W Es Er Hc) as (res & W1 & E & L); [by eapply g_result|].
    exists res, W1. split; [done|]. split; [done|]. by eapply (io_resume_spec _ (wait_of h (LReady d fd) ob)).
  - destruct (timed_resume_left t0 d (ob_timer ob) (ob_awaiter ob) h W Es Er Hc) as (res & W1 & E & L); [by eapply g_result| |].
    { intros _. apply (own_timer_spent W h); [exact (g_armed _ _ _ _ _ _ _ _ _ _ _ G _ _ _ Hh eq_refl)|congruence]. }
    exists res, W1. split; [done|]. split; [done|]. by eapply (timed_resume_spec _ (wait_of h (LTimed d fd timeout) ob)).
  - destruct (sleep_resume_left t0 (ob_awaiter ob) h W Es Hc) as (res & W1 & E & L).
    exists res, W1. split; [done|]. split; [done|]. by eapply (sleep_resume_spec _ (wait_of h (LSleep delay) ob)).
Qed.

(** ** Resuming *)

(** A queued handle that is not that of a suspended coroutine starts a task. *)
Lemma queued_unstarted h sc W o q ts fls φ u :
  Good Nobody (Some h :: sc) W o q ts fls φ u -> objects W !! h = None ->
  h ∈ q /\ exists t, ts !! h = Some t /\ fls !! h = Some [h] /\ started t = false /\ frames (machine W) !! h = Some (first_frame (at_tok t) (at_body t)).
Proof.
  intros G Ho. pose proof (g_queue _ _ _ _ _ _ _ _ _ _ _ G h Ho) as Hq. rewrite queue_count_head, (decide_True (P := h = h)) in Hq by done.
  case_decide as Hin; [|lia]. split; [done|]. pose proof (g_tasks _ _ _ _ _ _ _ _ _ _ _ G) as HR.
  apply (R_queue _ _ _ _ HR) in Hin as (r & t & fl & Ht & Hfl & Hhd & [Hs|[v Hv]]); [|by rewrite (good_pending _ _ _ _ _ _ _ _ _ _ _ _ _ G Ht) in Hv].
  destruct (R_task _ _ _ _ HR r t Ht) as (fl' & E & Hth). simplify_eq. unfold task_holds in Hth. rewrite Hs in Hth.
  destruct Hth as (-> & Hr & _). injection Hhd as ->. eauto.
Qed.

(** Such a handle can be resumed. *)
Lemma queued_live h sc W o q ts fls φ u :
  Good Nobody (Some h :: sc) W o q ts fls φ u -> Core.resumable (Some h) (mem W) = Some true.
Proof.
  intros G. cbn. destruct (objects W !! h) as [ob|] eqn:Ho.
  - destruct (object_waits _ _ _ _ _ _ _ _ _ _ _ h G) as (l & ob' & Hh); [rewrite Ho; eauto|].
    destruct (waits_cell _ _ _ _ _ _ _ _ _ _ _ _ _ _ G Hh) as [_ ->]. done.
  - destruct (queued_unstarted _ _ _ _ _ _ _ _ _ G Ho) as (_ & t & _ & _ & _ & Hf).
    rewrite (g_frames _ _ _ _ _ _ _ _ _ _ _ G), lookup_fmap, Hf. done.
Qed.

Lemma Entry_unstarted h sc W o q ts fls φ u t :
  Good Nobody (Some h :: sc) W o q ts fls φ u -> h ∈ q -> ts !! h = Some t -> fls !! h = Some [h] -> started t = false ->
  exists n q', q ≡ₚ h :: q' /\ Entry D t0 n sc W o q' (Sched.mkSched (machine W) o q ∅) ts fls φ u h t [h] h
    (mkMachine (frames (machine W)) (next (machine W)) (Enter h) None (log (machine W))).
Proof.
  intros G Hq Ht Hfl Hs. apply elem_of_Permutation in Hq as [q' Eq].
  destruct (g_task _ _ _ _ _ _ _ _ _ _ _ G h t Ht) as (Hp & Hd & n & Hn & Hb). rewrite Hs in Hb. destruct Hb as [Htk Hb]. exists n, q'. split; [done|].
  split; try done.
  - by eapply Base_unstarted.
  - eapply R_perm; [exact Eq|apply G].
  - split; [done|by left].
  - split; [done|]. split; [done|]. by rewrite Hs.
  - unfold state, deliver. rewrite Hs. cbn. by apply susp_budgeted.
  - eauto.
  - intros r1 t1 Ht1 _. by apply (g_task _ _ _ _ _ _ _ _ _ _ _ G).
  - apply G.
Qed.

Lemma resume_spec h sc W o q ts fls φ u :
  Good Nobody (Some h :: sc) W o q ts fls φ u ->
  exists N W' q' ts' fls' φ' u', (forall fuel, (N <= fuel)%nat -> resume ret fuel h W = Some W') /\
    Good Nobody sc W' o q' ts' fls' φ' u' /\ tasks_grown ts ts' /\ (u' + total φ' <= u + total φ)%nat.
Proof.
  intros G. destruct (objects W !! h) as [ob|] eqn:Ho.
  - destruct (object_waits _ _ _ _ _ _ _ _ _ _ _ h G) as (l & ob' & Hh); [rewrite Ho; eauto|].
    destruct (resume_awaiter_spec _ _ _ _ _ _ _ _ _ _ _ G Hh) as (v & W1 & E1 & Em & G1). destruct Hh as [_ (fr & k & Hf & Hc)].
    destruct (Entry_answered D t0 v _ _ _ _ _ _ _ _ _ fr l k G1) as (n & s & r & t & fl & n0 & Ht & _ & _ & _ & _ & En); [by rewrite Em|done|].
    destruct (go_on_spec ret D t0 _ _ _ _ _ _ _ _ _ _ _ _ _ _ _ En) as (N & W' & ts' & fls' & φ' & u' & Hgo & G' & Esp & Hb).
    exists N, W', q, ts', fls', φ', u'. split; [|split; [done|split; [|done]]].
    2:{ eapply tasks_grown_trans; [by apply (tasks_grown_insert _ r t (answered v t) Ht)|done]. }
    intros fuel Hfuel. unfold resume. rewrite Hf. cbn [mbind option_bind]. rewrite Hc, E1. cbn [mbind option_bind fst snd]. by apply Hgo.
  - destruct (queued_unstarted _ _ _ _ _ _ _ _ _ G Ho) as (Hq & t & Ht & Hfl & Hs & Hf).
    destruct (Entry_unstarted _ _ _ _ _ _ _ _ _ _ G Hq Ht Hfl Hs) as (n & q' & _ & En).
    destruct (go_on_spec ret D t0 _ _ _ _ _ _ _ _ _ _ _ _ _ _ _ En) as (N & W' & ts' & fls' & φ' & u' & Hgo & G' & Esp).
    exists N, W', q', ts', fls', φ', u'. split; [|done].
    intros fuel Hfuel. unfold resume. rewrite Hf. cbn [mbind option_bind]. by apply Hgo.
Qed.

Lemma resume_all_spec sc : forall W o q ts fls φ u,
  Good Nobody sc W o q ts fls φ u ->
  exists N W' q' ts' fls' φ' u', (forall fuel, (N <= fuel)%nat -> EventLoop.resume_all (resume ret fuel) sc W = Some W') /\
    Good Nobody [] W' o q' ts' fls' φ' u' /\ tasks_grown ts ts' /\ (u' + total φ' <= u + total φ)%nat.
Proof.
  induction sc as [|h sc IH]; intros W o q ts fls φ u G; [by exists O, W, q, ts, fls, φ, u; eauto using tasks_grown_refl|]. destruct h as [h|].
  - destruct (resume_spec _ _ _ _ _ _ _ _ _ G) as (N1 & W1 & q1 & ts1 & fls1 & φ1 & u1 & E1 & G1 & S1 & B1).
    destruct (IH _ _ _ _ _ _ _ G1) as (N2 & W2 & q2 & ts2 & fls2 & φ2 & u2 & E2 & G2 & S2 & B2).
    exists (N1 + N2)%nat, W2, q2, ts2, fls2, φ2, u2. split; [|split; [done|split; [by eapply tasks_grown_trans|lia]]].
    intros fuel Hf. cbn [EventLoop.resume_all]. rewrite (queued_live _ _ _ _ _ _ _ _ _ G). cbn [mbind option_bind]. rewrite E1 by lia.
    cbn [mbind option_bind]. apply E2. lia.
  - destruct (IH W o q ts fls φ u) as (N2 & W2 & q2 & ts2 & fls2 & φ2 & u2 & E2 & G2 & S2 & B2).
    { destruct G. split; try done. intros g l ob Hg. destruct (g_wait0 _ _ _ Hg) as (? & ? & I). split_and!; [done|done|].
      eapply Inv_weaken; [exact I|done..|]. unfold tokens. cbn [app]. unfold count at 6. rewrite filter_cons_False by done. done. }
    exists N2, W2, q2, ts2, fls2, φ2, u2. split; [|done]. intros fuel Hf. cbn [EventLoop.resume_all Core.resumable mbind option_bind]. by apply E2.
Qed.

(** The iteration takes the queue. *)
Lemma Good_scratch W o q ts fls φ u :
  Good Nobody [] W o q ts fls φ u ->
  Good Nobody (ready_queue (loop W)) (set_loop (set_ready_queue [] (loop W)) W) o q ts fls φ u.
Proof.
  intros []. split; try done.
  - intros g l ob Hg. destruct (g_wait0 _ _ _ Hg) as (? & ? & I). split_and!; [done|done|].
    eapply Inv_weaken; [exact I|done..|]. unfold tokens. cbn. by rewrite app_nil_r.
  - intros h Hh. rewrite <- g_queue0 by done. unfold queue_count. cbn. by rewrite app_nil_r.
Qed.

(** ** Cleaning up *)

Lemma erase_agree l : forall ts (fs : gmap nat (Frame V Leaf)) m keep fs',
  ot_handle <$> ts = Some <$> l -> Core.frames m = is_final <$> fs -> Sched.erase_done l fs = Some (keep, fs') ->
  exists keep' m', EventLoop.erase_completed ts m = Some (keep', m') /\ ot_handle <$> keep' = Some <$> keep /\
    Core.frames m' = is_final <$> fs' /\ ws_cells m' = ws_cells m /\ res_cells m' = res_cells m /\
    forall h, fs' !! h = fs !! h \/ fs' !! h = None /\ is_final <$> fs !! h = Some true.
Proof.
  induction l as [|r l IH]; intros ts fs m keep fs' Eh Em E.
  { destruct ts; [|done]. injection E as <- <-. exists [], m. split_and!; [done..|by left]. }
  destruct ts as [|o ts]; [done|]. injection Eh as Eo Eh. cbn in E. destruct (done fs r) as [d|] eqn:Ed; [|done]. cbn [mbind option_bind] in E.
  assert (Core.frames m !! r = Some d /\ is_final <$> fs !! r = Some d) as [Ec Ef].
  { unfold done in Ed. destruct (fs !! r) as [fr|] eqn:Hr; [|done]. injection Ed as <-. by rewrite Em, lookup_fmap, Hr. }
  destruct (Sched.erase_done l _) as [[keep1 fs1]|] eqn:E1; [|done]. injection E as <- <-.
  set (m1 := if d then EventLoop.destroy_frame (ot_handle o) m else m).
  destruct (IH ts (if d then delete r fs else fs) m1 keep1 fs1 Eh) as (keep' & m' & E' & Hk & Hf & Hw & Hr & Hs).
  { unfold m1. destruct d; [|done]. rewrite Eo. cbn. by rewrite Em, fmap_delete. }
  { exact E1. }
  exists (if d then keep' else o :: keep'), m'. cbn. unfold EventLoop.completed. rewrite Eo, Ec. cbn [mbind option_bind]. unfold m1 in *.
  rewrite Eo in E', Hw, Hr. rewrite E'. split; [done|]. split; [destruct d; cbn; by rewrite ?Eo, Hk|]. split; [done|].
  split; [by destruct d|]. split; [by destruct d|]. intros h. destruct (Hs h) as [->|[-> Hx]].
  - destruct d; [|by left]. cbn. rewrite lookup_delete. case_decide as Hh; [destruct Hh; by right|by left].
  - right. split; [done|]. destruct d; [|done]. cbn in Hx. rewrite lookup_delete in Hx. by case_decide.
Qed.

Lemma Good_cleanup W o q ts fls φ u :
  Good Nobody [] W o q ts fls φ u ->
  exists W' o' fls', EventLoop.cleanup_completed W = Some W' /\ Good Nobody [] W' o' q (SchedProps.live ts) fls' φ u.
Proof.
  intros G. destruct (R_cleanup (Sched.mkSched (machine W) o q ∅) ts fls (g_tasks _ _ _ _ _ _ _ _ _ _ _ G)) as (s' & fls' & E & Eq & HR).
  unfold Sched.cleanup_completed in E. cbn [Sched.owned Sched.machine] in E.
  destruct (Sched.erase_done o _) as [[keep fs']|] eqn:E1; [|done]. cbn [mbind option_bind] in E. injection E as <-. cbn in HR.
  pose proof (R_idle _ _ _ _ (g_tasks _ _ _ _ _ _ _ _ _ _ _ G)) as Hidle. cbn in Hidle.
  destruct (erase_agree o (owned_tasks (loop W)) _ (mem W) _ _ (g_owned _ _ _ _ _ _ _ _ _ _ _ G) (g_frames _ _ _ _ _ _ _ _ _ _ _ G) E1)
    as (keep' & m' & E2 & Hk & Hf & Hw & Hr & Hs).
  unfold EventLoop.cleanup_completed. rewrite E2. cbn [mbind option_bind]. set (W' := set_mem m' _).
  assert (machine W' = goto Idle fs' (machine W)) as Em.
  { unfold machine, goto. cbn. f_equal; [|by symmetry]. apply map_eq. intros h. rewrite live_lookup, Hf, lookup_fmap.
    assert (frames (machine W) !! h = match Core.frames (mem W) !! h with Some _ => frames (co_machine (kern W).2) !! h | None => None end) as Hl
      by apply live_lookup.
    destruct (Hs h) as [Eh|[Eh _]]; rewrite Eh; [|done]. rewrite Hl. cbn.
    destruct (Core.frames (mem W) !! h); [|done]. by destruct (frames (co_machine (kern W).2) !! h). }
  assert (forall g l, in_leaf W' g l <-> in_leaf W g l) as Hleaf.
  { intros g l. unfold in_leaf. rewrite Em. change (frames (goto Idle fs' (machine W))) with fs'. split; intros (fr & k & Hfr & Hc); exists fr, k; (split; [|done]).
    - destruct (Hs g) as [<-|[Hn _]]; [done|congruence].
    - destruct (Hs g) as [->|[_ Hx]]; [done|]. rewrite Hfr in Hx. cbn in Hx. unfold is_final in Hx. by rewrite Hc in Hx. }
  assert (forall g l ob, waits_in W' g l ob <-> waits_in W g l ob) as Hwi by (intros; unfold waits_in; by rewrite Hleaf).
  exists W', keep, fls'. split; [done|]. destruct G as [G1 G2 G3 G4 G5 G6 G7 G8 G9 Ga G10 G11 G12 G13 G14 G15 G16].
  split; rewrite ?Em; try done.
  - intros r t [Ht _]%map_lookup_filter_Some. destruct (G2 r t Ht) as (? & ? & n & ? & ?). split; [done|]. split; [done|]. by exists n.
  - intros g. setoid_rewrite Hleaf. apply G7.
  - intros g l ob Hg%Hwi. destruct (G8 _ _ _ Hg) as (? & ? & I). split_and!; [done|done|]. eapply Inv_mem; [exact I|..]; cbn; [|by rewrite ?Hw, ?Hr..].
    destruct (wait_of_handle g l ob) as (-> & _). rewrite Hf, lookup_fmap. pose proof (inv_live _ _ _ _ _ I) as Hl.
    destruct (wait_of_handle g l ob) as (Eh & _). rewrite Eh, G6, lookup_fmap in Hl. rewrite G6, lookup_fmap.
    destruct (Hs g) as [->|[_ Hx]]; [done|]. congruence.
  - intros g l ob Hg%Hwi. cbn. rewrite Hr. eauto.
  - intros g l ob Hg%Hwi Ht. destruct (Ga _ _ _ Hg Ht) as (? & ? & Hp). split_and!; [done|done|]. cbn. rewrite Hw. exact Hp.
  - intros s st cb Hst Hin. destruct (G12 _ _ _ Hst Hin) as (g & l & ob & Hg & ->). exists g, l, ob. split; [by apply Hwi|done].
Qed.

(** ** One iteration *)

(** A task that has taken [answers] has ended. *)
Definition ends_on (tok : stop_token) (b : Body V Leaf) (answers : list V) : Prop :=
  (exists v, (direct tok b answers).2 = Value v []) \/ (direct tok b answers).2 = Exception [].

Lemma ended_on run sc W o q ts fls φ u r t :
  Good run sc W o q ts fls φ u -> ts !! r = Some t -> ended t = true -> ends_on (at_tok t) (at_body t) (consumed t).
Proof.
  intros G Ht [Hs Hw]%andb_prop. pose proof (g_tasks _ _ _ _ _ _ _ _ _ _ _ G) as HR.
  pose proof (started_consumes _ _ _ _ _ _ HR Ht Hs) as Hc. destruct (g_task _ _ _ _ _ _ _ _ _ _ _ G r t Ht) as (_ & Hd & _).
  specialize (Hd (consumed t)). unfold ends_on. change ((direct _ _ _).2) with (meaning t) in Hd |- *. rewrite (meaning_ending t Hc) in Hd |- *.
  destruct (state t); cbn in Hd, Hw |- *; [eauto|by right|done|done].
Qed.

(** An iteration gives answers to the tasks; those that have ended are gone. *)
Definition outcome (ts ts' : gmap nat (ATask (V := V) (A := Leaf))) : Prop :=
  (forall r t, ts !! r = Some t ->
    (exists t', ts' !! r = Some t' /\ outgrows t t') \/
    ts' !! r = None /\ exists answers, consumed t `prefix_of` answers /\ ends_on (at_tok t) (at_body t) answers) /\
  forall r, is_Some (ts' !! r) -> is_Some (ts !! r).

Lemma outcome_live run sc W o q ts ts' fls φ u :
  Good run sc W o q ts' fls φ u -> tasks_grown ts ts' -> outcome ts (SchedProps.live ts').
Proof.
  intros G [Hg Hd]. split.
  - intros r t Ht. destruct (Hg _ _ Ht) as (t' & Ht' & Et & Eb & Hp). destruct (ended t') eqn:He.
    + right. split; [apply map_lookup_filter_None; right; intros x Hx; cbn; congruence|]. exists (consumed t'). split; [done|].
      rewrite <- Et, <- Eb. by eapply ended_on.
    + left. exists t'. split; [by apply map_lookup_filter_Some|done].
  - intros r [t [Ht _]%map_lookup_filter_Some]. eauto.
Qed.

Lemma no_tasks_owned run sc W o q ts fls φ u : Good run sc W o q ts fls φ u -> EventLoop.no_tasks W = true <-> o = [].
Proof.
  intros G. pose proof (g_owned _ _ _ _ _ _ _ _ _ _ _ G) as E. unfold EventLoop.no_tasks. destruct (owned_tasks (loop W)), o; done.
Qed.

Hypothesis clock_bound : forall k : K, (EventLoop.clock_now k).1 < t0 + 2 ^ 61.

Lemma iteration_spec W o q ts fls φ u :
  Good Nobody [] W o q ts fls φ u ->
  exists N c W' o' q' ts' fls' φ' u', (forall fuel, (N <= fuel)%nat -> iteration ret fuel W = Some (c, W')) /\
    Good Nobody [] W' o' q' ts' fls' φ' u' /\ (u' + total φ' <= u + total φ)%nat /\
    (forall r t, ts' !! r = Some t -> ended t = false) /\ outcome ts ts' /\
    (c = EventLoop.Continue \/ (exists e, c = EventLoop.Break (Err e)) \/ c = EventLoop.Break (Ok tt) /\ o' = []).
Proof.
  intros G. destruct (resume_all_spec _ _ _ _ _ _ _ _ (Good_scratch _ _ _ _ _ _ _ G)) as (N & W1 & q1 & ts1 & fls1 & φ1 & u1 & E1 & G1 & S1 & B1).
  destruct (Good_cleanup _ _ _ _ _ _ _ G1) as (W2 & o2 & fls2 & E2 & G2).
  assert (forall fuel, (N <= fuel)%nat -> iteration ret fuel W = if EventLoop.no_tasks W2 then
    (if EventLoop.no_tasks (EventLoop.drain_cross_core W2) then Some (EventLoop.Break (Ok tt), EventLoop.drain_cross_core W2)
     else EventLoop.wait_for_events (EventLoop.drain_cross_core W2)) else EventLoop.wait_for_events W2) as Hit.
  { intros fuel Hf. unfold iteration, EventLoop.iteration. rewrite E1 by done. cbn [mbind option_bind]. by rewrite E2. }
  enough (exists c W', (forall fuel, (N <= fuel)%nat -> iteration ret fuel W = Some (c, W')) /\ Good Nobody [] W' o2 q1 (SchedProps.live ts1) fls2 φ1 u1 /\
    (c = EventLoop.Continue \/ (exists e, c = EventLoop.Break (Err e)) \/ c = EventLoop.Break (Ok tt) /\ o2 = [])) as (c & W' & Hc & G' & Hd).
  { exists N, c, W', o2, q1, (SchedProps.live ts1), fls2, φ1, u1. split_and!; [done|done|done| | |done].
    - by intros r t [_ ?]%map_lookup_filter_Some.
    - by eapply outcome_live. }
  destruct (EventLoop.no_tasks W2) eqn:En.
  - pose proof (Good_drain_cross _ _ _ _ _ _ _ _ _ _ _ G2) as G3. apply (no_tasks_owned _ _ _ _ _ _ _ _ _ G2) in En.
    pose proof (proj2 (no_tasks_owned _ _ _ _ _ _ _ _ _ G3) En) as En3. rewrite En3 in Hit.
    eexists _, _. split; [exact Hit|]. split; [done|]. by right; right.
  - destruct (Good_wait_for_events D t0 clock_bound _ _ _ _ _ _ _ _ _ G2) as (c & W' & E3 & G3 & Hc). rewrite E3 in Hit.
    exists c, W'. split; [done|]. split; [done|]. destruct Hc as [?|?]; eauto.
Qed.

(** ** Spawning *)

Lemma total_insert_le φ r n : (total (<[r := n]> φ) <= n + total φ)%nat.
Proof.
  destruct (φ !! r) as [m|] eqn:Hr; [|by rewrite total_insert]. rewrite <- (insert_delete_id φ r m Hr) at 2.
  rewrite <- insert_delete_eq, !total_insert by apply lookup_delete_eq. lia.
Qed.

Lemma Good_spawn tok b n W o q ts fls φ u :
  Good Nobody [] W o q ts fls φ u -> tok_ok D tok -> budget D n b -> (forall answers, (direct tok b answers).2 <> Undefined) ->
  Z.of_nat (u + total φ + n) < 2 ^ 24 ->
  let r := next (machine W) in
  ts !! r = None /\ Good Nobody [] (spawn tok b W) (o ++ [r]) (q ++ [r]) (<[r := mkAT tok b false [] None]> ts) (<[r := [r]]> fls) (<[r := n]> φ) u.
Proof.
  intros G Htok Hbud Hdef Hcap r. pose proof (R_spawn tok b (Sched.mkSched (machine W) o q ∅) ts fls (g_tasks _ _ _ _ _ _ _ _ _ _ _ G)) as HR.
  cbn [Sched.machine Sched.ready] in HR. fold r in HR. unfold Sched.spawn in HR. cbn [Sched.machine Sched.ready Sched.owned Sched.results] in HR. fold r in HR.
  pose proof (g_tasks _ _ _ _ _ _ _ _ _ _ _ G) as HR0. pose proof (R_fresh _ _ _ _ HR0) as Hfr. cbn in Hfr.
  assert (frames (machine W) !! r = None) as Hr by (apply Hfr; unfold r; lia).
  assert (ts !! r = None) as Htr.
  { destruct (ts !! r) as [t|] eqn:Ht; [|done]. destruct (R_task _ _ _ _ HR0 r t Ht) as (fl & Hfl & Hth).
    destruct (task_holds_live _ _ _ _ r Hth (task_holds_root _ _ _ _ Hth)) as [x Hx].
    change (frames (machine W) !! r = Some x) in Hx. congruence. }
  split; [done|]. set (fr := mkFrame (mkPromise (Err make_cancelled_error) None None tok) (Initial b)) in HR.
  assert (forall g, is_Some (objects W !! g) -> g <> r) as Hor.
  { intros g Hg ->. destruct (proj1 (g_objects _ _ _ _ _ _ _ _ _ _ _ G r) Hg) as [(l & fr' & k & Hx & _) _]. congruence. }
  set (W' := spawn tok b W).
  assert (machine W' = mkMachine (<[r := fr]> (frames (machine W))) (S r) (control (machine W)) (waiting (machine W)) (log (machine W))) as Em
    by (apply machine_store).
  assert (forall g l, in_leaf W' g l <-> in_leaf W g l) as Hleaf.
  { intros g l. unfold in_leaf. rewrite Em. cbn [frames]. split; intros (fr' & k & Hx & Hc); exists fr', k; (split; [|done]).
    - rewrite lookup_insert in Hx. case_decide; [|done]. injection Hx as <-. done.
    - rewrite lookup_insert_ne; [done|]. congruence. }
  assert (forall g l ob, waits_in W' g l ob <-> waits_in W g l ob) as Hwi by (intros; unfold waits_in; by rewrite Hleaf).
  assert (forall h, queue_count [] h W' = (queue_count [] h W + if decide (h = r) then 1 else 0)%nat) as Hqc.
  { intros h. unfold queue_count. change ([] ++ ready_queue (loop W')) with (ready_queue (loop W) ++ [Some r]).
    change (timer (loop W')) with (timer (loop W)). change (reactor (loop W')) with (reactor (loop W)). rewrite app_nil_l, count_app, count_single, Nat.add_assoc. destruct (decide (h = r)) as [->|Hn]; [by rewrite decide_True|].
    by rewrite decide_False by congruence. }
  pose proof (total_insert_le φ r n). destruct G as [G1 G2 G3 G4 G5 G6 G7 G8 G9 Ga G10 G11 G12 G13 G14 G15 G16].
  split; rewrite ?Em; try done; change (objects W') with (objects W).
  - intros r1 t1. rewrite lookup_insert. case_decide as Hd; [destruct Hd|].
    + intros [= <-]. split; [done|]. split; [done|]. exists n. by rewrite lookup_insert_eq.
    + intros Ht1. destruct (G2 r1 t1 Ht1) as (? & ? & n1 & ? & ?). split; [done|]. split; [done|]. exists n1. by rewrite lookup_insert_ne.
  - cbn. by rewrite !fmap_app, G3.
  - intros g. setoid_rewrite Hleaf. apply G7.
  - intros g l ob Hg. pose proof (proj1 (Hwi _ _ _) Hg) as Hg0. destruct (G8 _ _ _ Hg0) as (? & ? & I). split_and!; [done|done|].
    assert (g <> r) as Hgr by (apply Hor; destruct Hg0; eauto). destruct (wait_of_handle g l ob) as (Eh & Es & Er).
    eapply Inv_weaken; [eapply Inv_mem; [exact I|..]|..]; try done.
    + change (Core.frames (mem W')) with (is_final <$> (<[r := fr]> (frames (machine W)))). rewrite Eh, lookup_fmap, lookup_insert_ne by congruence.
      by rewrite <- lookup_fmap, <- G6.
    + unfold tokens. change ([] ++ ready_queue (loop W')) with (ready_queue (loop W) ++ [Some r]). rewrite app_nil_l, (count_app _ _ [Some r]), count_single, decide_False by congruence.
      change (timer (loop W')) with (timer (loop W)). change (reactor (loop W')) with (reactor (loop W)). lia.
  - intros g l ob Hg%Hwi. by apply G9.
  - intros g l ob Hg%Hwi. exact (Ga _ _ _ Hg).
  - intros s st cb Hst Hin. destruct (G12 _ _ _ Hst Hin) as (g & l & ob & Hg & ->). exists g, l, ob. split; [by apply Hwi|done].
  - intros h Hh. rewrite Hqc, (G14 h Hh).
    assert (r ∉ q) as Hrq. { intros (r1 & t1 & fl & Ht1 & Hfl & Hhd & _)%(R_queue _ _ _ _ HR0). pose proof (R_frames_lt _ _ _ _ _ _ r HR0 Hfl ltac:(by destruct fl; [|injection Hhd as ->; constructor])). cbn in *. unfold r in *. lia. }
    assert (h ∈ q ++ [r] <-> h ∈ q \/ h = r) as Hqr by (by rewrite elem_of_app, list_elem_of_singleton).
    destruct (decide (h = r)) as [->|]; repeat case_decide; tauto || lia.
  - lia.
Qed.

(** ** The start *)

Lemma Good_make_world graceful k l k' (sources : gmap nat StopState) :
  EventLoop.create graceful k = (Ok l, k') -> Timer.start_time (timer l) = t0 -> D ⊆ dom sources ->
  (forall s st, sources !! s = Some st -> callbacks st = []) ->
  Good Nobody [] (set_installed true (make_world (V := V) l sources k')) [] [] ∅ ∅ ∅ 0.
Proof.
  unfold EventLoop.create, Reactor.create. destruct (Reactor.epoll_create1 k) as [[fd|e] k1]; [|done].
  destruct (EventLoop.eventfd k1) as [[wfd|e] k2]; [|by destruct (Reactor.close _ _) as [[]]].
  destruct (Reactor.add wfd _ _ k2) as [[[]|e] k3]; [|by destruct (Reactor.close _ _) as [[]]].
  destruct (EventLoop.clock_now k3) as [now k4]. intros [= <- <-] Ht Hdom Hcb. cbn in Ht.
  assert (machine (set_installed true (make_world (K := K) (V := V) (mkLoop (Reactor.mkReactor fd [] []) (Timer.make_wheel now) None [] [] false graceful wfd []) sources k4))
    = mkMachine ∅ 0 Idle None []) as Em by (unfold machine; cbn; f_equal; apply live_all; by rewrite fmap_empty).
  assert (forall g l, ~ in_leaf (set_installed true (make_world (K := K) (V := V) (mkLoop (Reactor.mkReactor fd [] []) (Timer.make_wheel now) None [] [] false graceful wfd []) sources k4)) g l)
    as Hno by (intros g l (fr & kk & Hf & _); by rewrite Em in Hf).
  split; rewrite ?Em; try done; cbn [loop set_installed make_world].
  - by eapply R_results; [apply R_init|..].
  - intros g. split; [by intros [? ?]|]. intros [[l Hl] _]. by destruct (Hno g l).
  - intros g l ob [Hg _]. done.
  - intros g l ob [Hg _]. done.
  - intros g l ob [Hg _]. done.
  - intros fd' d x. unfold waiter. cbn. by destruct (fd' <? 0).
  - intros s st cb Hs Hin. rewrite (Hcb _ _ Hs) in Hin. by apply not_elem_of_nil in Hin.
  - split; cbn; [eexists; split; [apply TimerSpec.Rel_make_wheel|done]|done|lia|apply used_make_wheel].
Qed.

End Loop.
End CoLoop.
