(* ===== verification/CoProps.v ===== *)
(** * CoProps: coroutines on a loop behave as in direct style

    The traces of a loop that runs coroutines ([Coroutines.v]), the abstract
    system of tasks that take answers, and the theorems that every trace is one of
    the abstract system, that no iteration fails, and that a loop that is done
    holds nothing. *)

From S2P Require Import Prelude Core TimerWheel TimerInv TimerSpec TimerProps Reactor ReactorProps World Awaiters AwaiterProps EventLoop.
From S2P Require Import WakeUp Waits Combinators Task TaskProps Sched SchedProps Coroutines CoBudget CoTimers CoInv CoSteps CoAwait CoRun CoLoop.

Module CoProps.
Import ReactorProps Awaiters AwaiterProps Combinators Task TaskProps SchedProps Coroutines CoBudget CoTimers CoInv CoSteps CoAwait CoRun CoLoop.

(** ** More fuel than enough changes nothing *)

Section Fuel.
Context {K V : Type} `{Reactor.EpollKernel K} `{EventLoop.LoopKernel K}.
Variable ret : Result unit -> V.
#[local] Abbreviation CWorld := (World (K * Co V)).
Implicit Types W : CWorld.
Variables (fuel fuel' : nat).
Hypothesis more : (fuel <= fuel')%nat.

Lemma drives_more (m : Machine V Leaf) : control (drives fuel (m, [])).1 = Idle -> drives fuel' (m, []) = drives fuel (m, []).
Proof.
  intros Hi. apply drives_stop; [done|]. pose proof (drives_answers fuel m) as Ha. destruct (drives fuel (m, [])) as [m1 an].
  cbn in Hi, Ha. subst an. unfold drive. rewrite Hi. by destruct (waiting m1).
Qed.

Lemma go_on_more n n' W W' : (n <= n')%nat -> go_on ret fuel n W = Some W' -> go_on ret fuel' n' W = Some W'.
Proof.
  intros Hn. induction n as [|n IH] in n', W, Hn |- *; [done|]. destruct n' as [|n']; [lia|]. cbn [go_on].
  destruct (control (drives fuel (machine W, [])).1) eqn:Hi; try done. rewrite (drives_more _ Hi), Hi.
  destruct (waiting _) as [g|]; [|done]. destruct (_ !! g) as [fr|]; [|done]. cbn [mbind option_bind].
  destruct (code fr) as [| |l k|]; try done. destruct (await_leaf _ _ _ _ _) as [[[v|] W1]|]; try done. cbn [mbind option_bind]. apply IH. lia.
Qed.

Lemma co_resume_more h W W' : resume ret fuel h W = Some W' -> resume ret fuel' h W = Some W'.
Proof.
  unfold resume. destruct (_ !! h) as [fr|]; [|done]. cbn [mbind option_bind].
  destruct (code fr) as [| |l k|]; try by apply go_on_more. destruct (resume_awaiter _ _ _ _) as [x|]; [|done]. by apply go_on_more.
Qed.

Lemma co_resume_all_more q W W' : EventLoop.resume_all (resume ret fuel) q W = Some W' -> EventLoop.resume_all (resume ret fuel') q W = Some W'.
Proof.
  induction q as [|h q IH] in W |- *; [done|]. cbn [EventLoop.resume_all]. destruct (Core.resumable h (mem W)) as [go|]; [|done]. cbn [mbind option_bind].
  destruct h as [h|]; [|apply IH]. destruct go; [|apply IH]. destruct (resume ret fuel h W) as [W1|] eqn:E; [|done].
  rewrite (co_resume_more _ _ _ E). apply IH.
Qed.

Lemma iteration_more W x : iteration ret fuel W = Some x -> iteration ret fuel' W = Some x.
Proof.
  unfold iteration, EventLoop.iteration. destruct (EventLoop.resume_all (resume ret fuel) _ _) as [W1|] eqn:E; [|done].
  by rewrite (co_resume_all_more _ _ _ E).
Qed.
End Fuel.

Section Props.
Context {K V : Type} `{EpollLaws K} `{EventLoop.LoopKernel K}.
Variable ret : Result unit -> V.
#[local] Abbreviation CWorld := (World (K * Co V)).
Implicit Types W : CWorld.

(** The stop sources of the program, and when the loop was made. *)
Variable D : gset nat.
Variable t0 : Z.

(** ** Traces of the loop *)

Inductive Event := ESpawn (tok : stop_token) (b : Body V Leaf) | EIteration.

(** A loop is made, [run] installs it and leaves, coroutines are spawned, and
    [run] goes through an iteration.  The bodies name existing stop sources, their
    delays are representable, and no exception escapes from a task they await,
    which would be undefined; [c] is the number of awaits that the spawned
    coroutines may make in all. *)
Inductive trace : list Event -> CWorld -> nat -> Prop :=
| t_make graceful k l k' sources :
    EventLoop.create graceful k = (Ok l, k') -> Timer.start_time (timer l) = t0 -> dom sources = D ->
    (forall s st, sources !! s = Some st -> callbacks st = []) -> trace [] (make_world l sources k') 0
| t_install x es W c : trace es W c -> trace es (set_installed x W) c
| t_spawn tok b n es W c :
    trace es W c -> tok_ok D tok -> budget D n b -> (forall answers, (direct tok b answers).2 <> Undefined) ->
    Z.of_nat (c + n) < 2 ^ 24 -> trace (ESpawn tok b :: es) (spawn tok b W) (c + n)
| t_iteration fuel ctl W' es W c :
    trace es W c -> installed W = true -> iteration ret fuel W = Some (ctl, W') -> trace (EIteration :: es) W' c.

(** ** The abstract system *)

(** A task, with the token it was given, its body and the answers it got. *)
Abbreviation Tasks := (gmap nat (stop_token * Body V Leaf * list V)).

(** A task starts with no answer; an iteration gives answers to tasks, and removes
    those that have ended with them. *)
Inductive abstract : list Event -> Tasks -> Prop :=
| a_make : abstract [] ∅
| a_spawn r tok b es A : abstract es A -> A !! r = None -> abstract (ESpawn tok b :: es) (<[r := (tok, b, [])]> A)
| a_iteration es A A' :
    abstract es A ->
    (forall r tok b answers, A !! r = Some (tok, b, answers) -> exists more,
      A' !! r = Some (tok, b, answers ++ more) \/ A' !! r = None /\ ends_on tok b (answers ++ more)) ->
    (forall r, is_Some (A' !! r) -> is_Some (A !! r)) -> abstract (EIteration :: es) A'.

(** [g] is suspended: its wait is pending and its handle in no queue, or the wait
    is settled and the handle queued once. *)
Definition suspended_or_queued W (g : nat) : Prop :=
  ws_cells (mem W) !! g = Some Pending /\ queue_count [] g W = 0%nat \/
  (exists v, ws_cells (mem W) !! g = Some v /\ v <> Pending) /\ queue_count [] g W = 1%nat.

(** The task [r] is where its body in direct style is after [answers]: not
    started, its handle queued once; or its innermost frame [g] is suspended in
    the leaf, with the token, that direct style reaches last. *)
Definition where_direct W (r : nat) (tok : stop_token) (b : Body V Leaf) (answers : list V) : Prop :=
  answers = [] /\ frames (machine W) !! r = Some (first_frame tok b) /\ queue_count [] r W = 1%nat \/
  exists g fr l k awaits, direct tok b answers = (awaits ++ [(l, cancel_token (promise fr))], Blocked) /\
    Sched.leaf_of (next (machine W)) (frames (machine W)) r = Some g /\ frames (machine W) !! g = Some fr /\ code fr = InLeaf l k /\
    is_Some (objects W !! g) /\ suspended_or_queued W g.

Definition agrees W (A : Tasks) : Prop :=
  (forall r, Some r ∈ ot_handle <$> owned_tasks (loop W) <-> is_Some (A !! r)) /\
  forall r tok b answers, A !! r = Some (tok, b, answers) -> where_direct W r tok b answers.

(** Every waiter of the reactor, every timer and every stop callback is that of a
    coroutine suspended in the leaf that asked for it. *)
Definition accounted W : Prop :=
  (forall fd d x, waiter (reactor (loop W)) fd d = Some x -> exists g l ob, waits_in W g l ob /\
    x = Reactor.mkPending (Some g) (Some g) (Some g) Ready /\ (l = LReady d fd \/ exists timeout, l = LTimed d fd timeout)) /\
  (forall id e, Timer.lookup (timer (loop W)) id = Some e -> exists g l ob, waits_in W g l ob /\ Timer.te_handle e = Some g /\
    ob_timer ob = id /\ ((exists delay, l = LSleep delay) \/ exists d fd timeout, l = LTimed d fd timeout)) /\
  (forall s st cb, stops W !! s = Some st -> cb ∈ callbacks st -> exists g l ob, waits_in W g l ob /\ cb = wait_callback (wait_of g l ob)).

(** ** The simulation *)

#[local] Abbreviation Good := (Good D t0).

(** The clock stays within 2{^61} nanoseconds, 73 years, of the time when the loop
    was made. *)
Hypothesis clock_bound : forall k : K, (EventLoop.clock_now k).1 < t0 + 2 ^ 61.

Definition answers_of (ts : gmap nat ATask) : Tasks := (fun t => (at_tok t, at_body t, consumed t)) <$> ts.

Lemma answers_of_Some ts r tok b answers :
  answers_of ts !! r = Some (tok, b, answers) <-> exists t, ts !! r = Some t /\ at_tok t = tok /\ at_body t = b /\ consumed t = answers.
Proof.
  unfold answers_of. rewrite lookup_fmap. destruct (ts !! r) as [t|]; cbn; [|naive_solver]. split; [intros [= <- <- <-]; eauto|].
  intros (t' & [= <-] & -> & -> & ->). done.
Qed.

(** What holds of the loop between two steps. *)
Definition simulates (es : list Event) W (c : nat) : Prop :=
  exists o q ts fls φ u, Good Nobody [] (set_installed true W) o q ts fls φ u /\ (u + total φ <= c)%nat /\
    (forall r t, ts !! r = Some t -> ended t = false) /\ abstract es (answers_of ts).

Lemma abstract_outcome es ts ts' : abstract es (answers_of ts) -> outcome ts ts' -> abstract (EIteration :: es) (answers_of ts').
Proof.
  intros HA [Ho Hd]. eapply a_iteration; [exact HA|..].
  - intros r tok b an (t & Ht & <- & <- & <-)%answers_of_Some. destruct (Ho _ _ Ht) as [(t' & Ht' & E1 & E2 & more & E3)|[Hn (an & [more ->] & He)]]; exists more.
    + left. apply answers_of_Some. by exists t'.
    + right. split; [|done]. unfold answers_of. by rewrite lookup_fmap, Hn.
  - intros r. unfold answers_of. rewrite !lookup_fmap, !fmap_is_Some. apply Hd.
Qed.

Lemma trace_simulates es W c : trace es W c -> simulates es W c.
Proof.
  induction 1 as [graceful k l k' sources Hl Ht0 HD Hcb|x es W c _ IH|tok b n es W c _ IH Htok Hb Hdef Hc|fuel ctl W' es W c _ IH Hin Hi].
  - exists [], [], ∅, ∅, ∅, O. split; [|split; [done|split; [done|]]]; [by eapply Good_make_world; rewrite ?HD|].
    unfold answers_of. rewrite fmap_empty. constructor.
  - exact IH.
  - destruct IH as (o & q & ts & fls & φ & u & G & Hle & He & HA).
    destruct (Good_spawn D t0 tok b n _ _ _ _ _ _ _ G Htok Hb Hdef ltac:(lia)) as [Hr G']. eexists _, _, _, _, _, _. split; [exact G'|].
    split; [pose proof (total_insert_le φ (next (machine (set_installed true W))) n); lia|]. split.
    + intros r t. rewrite lookup_insert. case_decide; [by intros [= <-]|]. apply He.
    + unfold answers_of. rewrite fmap_insert. constructor; [done|]. by rewrite lookup_fmap, Hr.
  - destruct IH as (o & q & ts & fls & φ & u & G & Hle & He & HA).
    assert (set_installed true W = W) as EW by (destruct W; cbn in Hin; by subst). rewrite EW in G.
    destruct (iteration_spec ret D t0 clock_bound _ _ _ _ _ _ _ G) as (N & c' & W1 & o' & q' & ts' & fls' & φ' & u' & HN & G' & Hle' & He' & Ho & _).
    pose proof (iteration_more ret fuel (fuel `max` N) ltac:(lia) _ _ Hi) as Hm. rewrite HN in Hm by lia. injection Hm as -> ->.
    exists o', q', ts', fls', φ', u'. split; [|split; [lia|split; [done|by eapply abstract_outcome]]].
    pose proof (g_installed _ _ _ _ _ _ _ _ _ _ _ G') as Hin'. assert (set_installed true W' = W') as -> by (destruct W'; cbn in Hin'; by subst). done.
Qed.

(** Direct style reaches the leaf of the suspension last. *)
Lemma follow_last (s : Susp (V := V) (A := Leaf)) answers l tok k st :
  consumes s answers -> after s answers = Wait l tok k st -> exists awaits, follow s answers = (awaits ++ [(l, tok)], Blocked).
Proof.
  induction answers as [|v answers IH] in s |- *; cbn [consumes].
  - intros _ E. cbn in E. subst s. by exists [].
  - intros [Hw Hc] E. destruct s as [w| | |a tok1 k1 st1]; try done. destruct (IH _ Hc E) as [aw Haw]. exists ((a, tok1) :: aw).
    cbn in Haw |- *. by rewrite Haw.
Qed.

Lemma Good_suspended_or_queued W o q ts fls φ u g :
  Good Nobody [] W o q ts fls φ u -> is_Some (objects W !! g) -> suspended_or_queued W g.
Proof.
  intros G Ho. destruct (object_waits D t0 _ _ _ _ _ _ _ _ _ g G Ho) as (l & ob & Hg). destruct (g_wait _ _ _ _ _ _ _ _ _ _ _ G _ _ _ Hg) as (_ & _ & I).
  destruct (wait_of_handle g l ob) as (Eh & Es & _). pose proof (inv_tokens _ _ _ _ _ I) as Htk. unfold tokens in Htk. rewrite Eh, Es in Htk.
  fold (queue_count [] g W) in Htk. pose proof (inv_cell _ _ _ _ _ I) as [v Hv]. rewrite Es in Hv. unfold pending_token in Htk.
  destruct (decide (v = Pending)) as [->|Hn].
  - left. rewrite decide_True in Htk by done. split; [done|lia].
  - right. rewrite decide_False in Htk by congruence. split; [eauto|lia].
Qed.

Lemma Good_agrees W o q ts fls φ u :
  Good Nobody [] W o q ts fls φ u -> (forall r t, ts !! r = Some t -> ended t = false) -> agrees W (answers_of ts).
Proof.
  intros G He. pose proof (g_tasks _ _ _ _ _ _ _ _ _ _ _ G) as HR. split.
  - intros r. rewrite (g_owned _ _ _ _ _ _ _ _ _ _ _ G). unfold answers_of. rewrite lookup_fmap, fmap_is_Some, <- (proj2 (R_owned _ _ _ _ HR) r).
    cbn. rewrite list_elem_of_fmap. split; [by intros (? & [= <-] & ?)|eauto].
  - intros r tok b an (t & Ht & <- & <- & <-)%answers_of_Some. destruct (R_task _ _ _ _ HR r t Ht) as (fl & Hfl & Hth).
    unfold task_holds in Hth. destruct (started t) eqn:Hs.
    + right. destruct Hth as [Hh Hc]. specialize (He r t Ht). unfold ended in He. rewrite Hs in He. cbn in He. apply negb_false_iff in He.
      destruct (waiting_leaf r _ fl _ (next (machine W)) Hh He) as (g & Hg & Hl); [intros h Hin; by eapply (R_frames_lt _ _ _ _ _ _ _ HR)|].
      destruct (state t) as [| | |l tok k st] eqn:Est; try done. destruct Hh as (_ & g' & frg & fr & Hsg & Hg' & Hcg & Htk & _).
      destruct (seg_head _ _ _ _ _ Hsg) as [fl' ->]. injection Hg as ->. destruct (follow_last _ _ _ _ _ _ Hc Est) as [aw Haw]. rewrite follow_direct in Haw.
      assert (is_Some (objects W !! g)) as Ho by (apply (g_objects _ _ _ _ _ _ _ _ _ _ _ G); split; [by exists l, frg, k|done]).
      exists g, frg, l, k, aw. rewrite Htk. split_and!; try done. by eapply Good_suspended_or_queued.
    + left. destruct Hth as (-> & Hr & Hc & _). split; [done|]. split; [done|].
      rewrite (g_queue _ _ _ _ _ _ _ _ _ _ _ G).
      * rewrite decide_True; [done|]. apply (R_queue _ _ _ _ HR). exists r, t, [r]. do 2 (split; [done|]). split; [done|by left].
      * destruct (objects W !! r) eqn:Eo; [|done]. destruct (proj1 (g_objects _ _ _ _ _ _ _ _ _ _ _ G r)) as [(l & fr & k & Hf & Hcd) _]; [eauto|].
        change (frames (machine W) !! r = Some (first_frame (at_tok t) (at_body t))) in Hr. rewrite Hf in Hr. injection Hr as ->. done.
Qed.

Lemma Good_accounted W o q ts fls φ u : Good Nobody [] W o q ts fls φ u -> accounted W.
Proof.
  intros G. split_and!.
  - intros fd d x Hx. destruct (waiter_owner D t0 _ _ _ _ _ _ _ _ _ _ _ _ G Hx) as (g & l & ob & Hg & Hio & -> & -> & ->).
    exists g, l, ob. split; [done|]. split; [done|]. destruct l as [d fd|d fd timeout|delay|s]; try done; cbn; eauto.
  - intros id e Hx. destruct (timer_owner D t0 _ _ _ _ _ _ _ _ _ _ _ G Hx) as (g & l & ob & Hg & _ & Hh & _ & -> & Ht).
    exists g, l, ob. split; [done|]. split; [done|]. pose proof (g_wait _ _ _ _ _ _ _ _ _ _ _ G _ _ _ Hg) as (_ & Hn & _).
    destruct l as [d fd|d fd timeout|delay|s]; try done; cbn; eauto 6.
  - apply G.
Qed.

(** A loop that owns no task holds nothing. *)
Definition holds_nothing W : Prop :=
  frames (machine W) = ∅ /\ objects W = ∅ /\ (forall fd d, waiter (reactor (loop W)) fd d = None) /\
  (forall id, Timer.lookup (timer (loop W)) id = None) /\ (forall s st, stops W !! s = Some st -> callbacks st = []) /\
  forall h, queue_count [] h W = 0%nat.

Lemma Good_idle W q ts fls φ u : Good Nobody [] W [] q ts fls φ u -> holds_nothing W.
Proof.
  intros G. pose proof (g_tasks _ _ _ _ _ _ _ _ _ _ _ G) as HR.
  assert (ts = ∅) as ->.
  { apply map_eq. intros r. rewrite lookup_empty. destruct (ts !! r) eqn:E; [|done]. destruct (not_elem_of_nil r). apply (proj2 (R_owned _ _ _ _ HR)). eauto. }
  assert (frames (machine W) = ∅) as Ef.
  { apply map_eq. intros h. rewrite lookup_empty. destruct (frames (machine W) !! h) eqn:E; [|done].
    destruct (R_cover _ _ _ _ HR h) as (r & fl & Hfl & _); [eauto|]. by destruct (R_dom _ _ _ _ HR r) as [t Ht]; [eauto|]. }
  assert (forall g, objects W !! g = None) as Ho.
  { intros g. destruct (objects W !! g) eqn:E; [|done]. destruct (proj1 (g_objects _ _ _ _ _ _ _ _ _ _ _ G g)) as [(l & fr & k & Hf & _) _]; [eauto|].
    by rewrite Ef in Hf. }
  split_and!; [done|by apply map_eq| | | |].
  - intros fd d. destruct (waiter _ fd d) as [x|] eqn:E; [|done]. destruct (g_waiter _ _ _ _ _ _ _ _ _ _ _ G _ _ _ E) as (g & _ & [ob Hg]). by rewrite Ho in Hg.
  - intros id. destruct (Timer.lookup _ id) as [e|] eqn:E; [|done]. destruct (g_timer _ _ _ _ _ _ _ _ _ _ _ G _ _ E) as (g & _ & [ob Hg]). by rewrite Ho in Hg.
  - intros s st Hs. destruct (callbacks st) as [|cb cbs] eqn:E; [done|]. destruct (g_callback _ _ _ _ _ _ _ _ _ _ _ G s st cb Hs) as (g & l & ob & [Hg _] & _).
    + rewrite E. constructor.
    + by rewrite Ho in Hg.
  - intros h. rewrite (g_queue _ _ _ _ _ _ _ _ _ _ _ G) by done. apply decide_False. intros (r & t & fl & Ht & _)%(R_queue _ _ _ _ HR). done.
Qed.

(** ** Theorems *)

(** C1: The coroutine runtime implements tasks in direct style.  Whatever a
    program spawns and however the loop's iterations go, there is a run of the
    abstract system with the same events - a task starts with no answer, an
    iteration gives answers to tasks and removes those that have ended - whose
    tasks are those that the loop owns; each of them is where its body in direct
    style is after its answers: queued once and not started, or suspended in the
    leaf that direct style reaches last, with its token, and then its wait is
    pending and its handle not queued, or settled and queued exactly once.  Every
    waiter, timer and stop callback is that of such a coroutine. *)
Theorem coroutines_refine_direct_style es W c :
  trace es W c -> (exists A, abstract es A /\ agrees W A) /\ accounted W.
Proof.
  intros (o & q & ts & fls & φ & u & G & _ & He & HA)%trace_simulates. split.
  - exists (answers_of ts). split; [done|]. exact (Good_agrees _ _ _ _ _ _ _ G He).
  - exact (Good_accounted _ _ _ _ _ _ _ G).
Qed.

(** An iteration ends with an error only when [epoll_wait] fails, other than by an
    interruption, and with that error. *)
Definition epoll_wait_failed (e : SystemError) (W' : CWorld) : Prop :=
  exists timeout k x,
    Reactor.epoll_wait (Reactor.epoll_fd (reactor (loop W'))) Reactor.kMaxEventsPerPoll (Reactor.timeout_ms timeout) k = (SErr x, kern W') /\
    x <> EINTR /\ e = from_errno x.

Lemma wait_for_events_error W e W' : EventLoop.wait_for_events W = Some (EventLoop.Break (Err e), W') -> epoll_wait_failed e W'.
Proof.
  unfold EventLoop.wait_for_events. destruct (EventLoop.clock_now _) as [now k].
  set (timeout := EventLoop.poll_timeout _ _). unfold Reactor.poll.
  destruct (Reactor.epoll_wait _ _ _ k) as [[evs|x] k'] eqn:Ew.
  - destruct (Reactor.handle_events _ _) as [[[[r m] c] k1]|]; [|done]. cbn [mbind option_bind].
    do 2 case_match. by destruct (Timer.advance_to _ _ _) as [[[m2 t2] f2]|].
  - cbn [mbind option_bind]. destruct (Z.eqb_spec x EINTR) as [|Hx].
    + do 2 case_match. by destruct (Timer.advance_to _ _ _) as [[[m2 t2] f2]|].
    + intros [= <- <-]. by exists timeout, k, x.
Qed.

Lemma iteration_error fuel W e W' : iteration ret fuel W = Some (EventLoop.Break (Err e), W') -> epoll_wait_failed e W'.
Proof.
  unfold iteration, EventLoop.iteration. destruct (EventLoop.resume_all _ _ _) as [W1|]; [|done]. cbn [mbind option_bind].
  destruct (EventLoop.cleanup_completed W1) as [W2|]; [|done]. cbn [mbind option_bind].
  destruct (EventLoop.no_tasks W2); [|apply wait_for_events_error].
  destruct (EventLoop.no_tasks _); [done|apply wait_for_events_error].
Qed.

(** C6: An iteration of the loop returns: no handle it resumes is dangling, no
    coroutine runs into undefined behaviour, nothing that wakes, settles or
    cancels a wait touches a wait that is gone, and with enough fuel for the
    coroutines the iteration goes to the next one, ends with the error of
    [epoll_wait], or ends the loop when no task is left. *)
Theorem iterations_return es W c :
  trace es W c -> installed W = true ->
  exists N ctl W', (forall fuel, (N <= fuel)%nat -> iteration ret fuel W = Some (ctl, W')) /\
    (ctl = EventLoop.Continue \/ (exists e, ctl = EventLoop.Break (Err e) /\ epoll_wait_failed e W') \/
     ctl = EventLoop.Break (Ok tt) /\ owned_tasks (loop W') = []).
Proof.
  intros (o & q & ts & fls & φ & u & G & _)%trace_simulates Hin. assert (set_installed true W = W) as EW by (destruct W; cbn in Hin; by subst). rewrite EW in G.
  destruct (iteration_spec ret D t0 clock_bound _ _ _ _ _ _ _ G) as (N & ctl & W' & o' & q' & ts' & fls' & φ' & u' & HN & G' & _ & _ & _ & Hc).
  exists N, ctl, W'. split; [done|]. destruct Hc as [?|[[e ->]|[? ->]]]; [eauto| |].
  { right; left. exists e. split; [done|]. eapply (iteration_error N), HN. lia. }
  right; right. split; [done|].
  pose proof (g_owned _ _ _ _ _ _ _ _ _ _ _ G') as E. by destruct (owned_tasks (loop W')).
Qed.

Lemma run_loop_done fuel n : forall es W c W',
  trace es W c -> installed W = true -> EventLoop.run_loop (resume ret fuel) n W = Some (Ok tt, W') ->
  stop_requested (loop W') = true \/ holds_nothing W'.
Proof.
  induction n as [|n IH]; intros es W c W' HT Hin; cbn [EventLoop.run_loop]; destruct (stop_requested (loop W)) eqn:Es; try done.
  1,2: by intros [= <-]; left.
  change (EventLoop.iteration (resume ret fuel) W) with (iteration ret fuel W).
  destruct (iteration ret fuel W) as [[ctl W1]|] eqn:Ei; [|done]. cbn [mbind option_bind].
  pose proof (trace_simulates _ _ _ HT) as (o & q & ts & fls & φ & u & G & _). assert (set_installed true W = W) as EW by (destruct W; cbn in Hin; by subst). rewrite EW in G.
  destruct (iteration_spec ret D t0 clock_bound _ _ _ _ _ _ _ G) as (N & c' & W2 & o' & q' & ts' & fls' & φ' & u' & HN & G' & _ & _ & _ & Hc).
  pose proof (iteration_more ret fuel (fuel `max` N) ltac:(lia) _ _ Ei) as Hm. rewrite HN in Hm by lia. injection Hm as -> ->.
  destruct Hc as [->|[[e ->]|[-> ->]]]; [|done|].
  - eapply IH; [by eapply t_iteration|]. apply (g_installed _ _ _ _ _ _ _ _ _ _ _ G').
  - intros [= <-]. right. by eapply Good_idle.
Qed.

(** C7: When [run] returns successfully and no stop of the loop was requested,
    nothing is left of the coroutines: no frame, no awaiter, no waiter in the
    reactor, no timer in the wheel, no callback at a stop source, and no handle in
    a queue. *)
Theorem run_leaves_nothing es W c fuel n W' :
  trace es W c -> EventLoop.run (resume ret fuel) n W = Some (Ok tt, W') -> stop_requested (loop W') = true \/ holds_nothing W'.
Proof.
  intros HT. unfold EventLoop.run. destruct (EventLoop.run_loop _ n _) as [[r W1]|] eqn:E; [|done]. intros [= -> <-].
  pose proof (run_loop_done fuel n es _ c W1 (t_install true _ _ _ HT) eq_refl E) as Hd. exact Hd.
Qed.

(** ** Sleeping *)

Definition timed_leaf (l : Leaf) : bool := match l with LTimed _ _ _ | LSleep _ => true | _ => false end.

(** The clock as the wait of the loop reads it after its poll. *)
Definition read_after_poll W : option Z :=
  let '(now, k) := EventLoop.clock_now (kern W) in
  p ← Reactor.poll (EventLoop.poll_timeout (Timer.next_deadline (timer (loop W))) now) (reactor (loop W)) (mem W) k;
  let '(_, _, _, k) := p in Some (EventLoop.clock_now k).1.

(** A pending sleep has a live timer, whose deadline the wheel has not passed. *)
Lemma Good_sleeping W o q ts fls φ u g l ob :
  Good Nobody [] W o q ts fls φ u -> waits_in W g l ob -> timed_leaf l = true -> ws_cells (mem W) !! g = Some Pending ->
  exists e, Timer.lookup (timer (loop W)) (ob_timer ob) = Some e /\ Timer.te_state e = Some g /\ Timer.te_handle e = Some g /\
    Timer.current_time (timer (loop W)) <= Timer.te_deadline e.
Proof.
  intros G Hg Ht Hp. assert (w_timed (wait_of g l ob) = true /\ w_timer (wait_of g l ob) = ob_timer ob) as [Hw Ei] by (by destruct l).
  destruct (wait_of_handle g l ob) as (_ & Es & _). destruct (g_armed _ _ _ _ _ _ _ _ _ _ _ G _ _ _ Hg Hw) as (_ & Ho & Hl). rewrite Ei, Es in Ho, Hl.
  destruct (Hl Hp) as [e He]. exists e. split; [done|]. destruct (timer_owner D t0 _ _ _ _ _ _ _ _ _ _ _ G He) as (g' & l' & ob' & _ & Hs & Hh & _).
  rewrite (Ho e He) in Hs. injection Hs as <-. split; [by apply Ho|]. split; [done|].
  destruct (g_wheel _ _ _ _ _ _ _ _ _ _ _ G) as [(a & Ha & Hpu) Hst _ _]. rewrite (TimerProps.Rel_lookup _ _ _ Ha) in He.
  destruct (TimerSpec.due a !! ob_timer ob) as [[E e']|] eqn:Ed; [|done]. injection He as ->. specialize (Hpu _ _ _ Ed).
  pose proof (TimerProps.Rel_not_overdue _ _ _ _ _ Ha Ed). rewrite (TimerProps.Rel_current _ _ Ha), Hst. unfold Timer.kMillisecond in *. lia.
Qed.

Lemma advance_loop_time k : forall target total m w m' w' f, Timer.advance_loop k target total m w = Some (m', w', f) -> target <= Timer.current_time w'.
Proof.
  induction k as [|k IH]; intros target total m w m' w' f; cbn [Timer.advance_loop];
    destruct (Z.ltb_spec (Timer.current_time w) target); try done; try (intros [= _ <- _]; lia).
  destruct (Timer.tick m w) as [[[m1 w1] f1]|]; cbn [mbind option_bind]; [apply IH|done].
Qed.

Lemma wait_reads W W' :
  EventLoop.wait_for_events W = Some (EventLoop.Continue, W') ->
  exists t, read_after_poll W = Some t /\ t <= Timer.current_time (timer (loop W')).
Proof.
  unfold EventLoop.wait_for_events, read_after_poll. destruct (EventLoop.clock_now (kern W)) as [now k].
  destruct (Reactor.poll _ _ _ _) as [[[[res r] m] k1]|]; [|done]. cbn [mbind option_bind]. destruct res as [n|e]; [|done].
  destruct (Reactor.drain_ready_into _ _) as [q1 r1]. cbn [kern set_kern set_loop set_mem mem loop timer set_ready_queue set_tasks set_reactor].
  destruct (EventLoop.clock_now k1) as [now' k2]. destruct (Timer.advance_to _ _ _) as [[[m' t] f]|] eqn:Ea; [|done]. cbn [mbind option_bind].
  destruct (Timer.drain_ready_into _ t) as [q2 t2] eqn:Ed. intros [= <-]. exists now'. split; [done|].
  apply advance_loop_time in Ea. injection Ed as _ <-. exact Ea.
Qed.

Lemma iteration_waits fuel W W' :
  iteration ret fuel W = Some (EventLoop.Continue, W') -> exists W1, EventLoop.wait_for_events W1 = Some (EventLoop.Continue, W').
Proof.
  unfold iteration, EventLoop.iteration. destruct (EventLoop.resume_all _ _ _) as [W1|]; [|done]. cbn [mbind option_bind].
  destruct (EventLoop.cleanup_completed W1) as [W2|]; [|done]. cbn [mbind option_bind].
  destruct (EventLoop.no_tasks W2); [destruct (EventLoop.no_tasks _)|]; [done|eauto..].
Qed.

(** C5: No coroutine oversleeps.  After an iteration, a coroutine that is still
    waiting in [sleep_for] or in a wait with a timeout, its wait pending, has a
    live timer in the wheel with its own handle and wait state, and the clock,
    read after the poll of that iteration, has not passed the timer's deadline:
    whatever else was scheduled, fired, cancelled or reported meanwhile, a
    coroutine whose deadline has passed is woken. *)
Theorem no_coroutine_oversleeps es W c fuel W' :
  trace es W c -> installed W = true -> iteration ret fuel W = Some (EventLoop.Continue, W') ->
  exists W1 t, EventLoop.wait_for_events W1 = Some (EventLoop.Continue, W') /\ read_after_poll W1 = Some t /\
    forall g l ob, waits_in W' g l ob -> timed_leaf l = true -> ws_cells (mem W') !! g = Some Pending ->
      exists e, Timer.lookup (timer (loop W')) (ob_timer ob) = Some e /\ Timer.te_state e = Some g /\ Timer.te_handle e = Some g /\
        t <= Timer.te_deadline e.
Proof.
  intros HT Hin Hi. destruct (iteration_waits _ _ _ Hi) as [W1 E1]. destruct (wait_reads _ _ E1) as (t & Et & Hle). exists W1, t.
  split; [done|]. split; [done|]. pose proof (t_iteration _ _ _ _ _ _ HT Hin Hi) as HT'.
  apply trace_simulates in HT' as (o & q & ts & fls & φ & u & G & _). intros g l ob Hg Htl Hp.
  destruct (Good_sleeping _ _ _ _ _ _ _ _ _ _ G Hg Htl Hp) as (e & He & Hs & Hh & Hd). exists e. split_and!; [done..|].
  etrans; [exact Hle|exact Hd].
Qed.

End Props.

(** ** Witnesses: three coroutines and a stop *)

Section Witness.
Import ReactorProps.SimEpoll.

(** The clock of the kernel advances by 20 ms with every reading, up to a limit. *)
#[local] Instance ticking_kernel : EventLoop.LoopKernel (Sim * Z) := {
  eventfd k := (SOk 4, k);
  eventfd_write _ k := (SOk tt, k);
  eventfd_read _ k := k;
  close_fd _ k := k;
  clock_now k := (Z.min k.2 (2 ^ 60), (k.1, k.2 + 20000000));
}.

#[local] Abbreviation WWorld := (World (Sim * Z * Co Z)).

Lemma ticking_bound (k : Sim * Z) : (EventLoop.clock_now k).1 < 0 + 2 ^ 61.
Proof. cbn. lia. Qed.

Definition errno_of (r : Result unit) : Z := match r with Ok _ => 0 | Err e => Core.code e end.

(** The first waits for input in a task it awaits and then sleeps; the second waits
    for output for at most 50 ms; the third sleeps and then stops the first. *)
Definition wit_reader : Body Z Leaf :=
  AwaitTask None (AwaitLeaf (LReady Reactor.DRead 5) Return) (fun v => AwaitLeaf (LSleep 20000000) (fun _ => Return v)).
Definition wit_writer : Body Z Leaf := AwaitLeaf (LTimed Reactor.DWrite 6 50000000) Return.
Definition wit_stopper : Body Z Leaf := AwaitLeaf (LSleep 100000000) (fun _ => AwaitLeaf (LStop 0) Return).

Definition wit_made : Result Loop * (Sim * Z) := EventLoop.create 1 (mkSim ∅ [], 0).
Definition wit_sources : gmap nat StopState := {[ 0%nat := mkStop false []; 1%nat := mkStop false [] ]}.
Definition wit_start : WWorld :=
  match wit_made with
  | (Ok l, k) => EventLoop.guard_enter (spawn None wit_stopper (spawn None wit_writer (spawn (Some 0%nat) wit_reader (make_world l wit_sources k))))
  | (Err _, k) => make_world (mkLoop (Reactor.mkReactor 3 [] []) (Timer.make_wheel 0) None [] [] false 1 4 []) ∅ k
  end.
Definition wit_next (W : WWorld) : WWorld := match iteration errno_of 30 W with Some (_, W') => W' | None => W end.

Definition wit_D : gset nat := dom wit_sources.
#[local] Abbreviation wit_trace := (trace errno_of wit_D 0).
Definition wit_events : list (Event (V := Z)) := [ESpawn None wit_stopper; ESpawn None wit_writer; ESpawn (Some 0%nat) wit_reader].

Lemma wit_reader_defined answers : (direct (Some 0%nat) wit_reader answers).2 <> Undefined.
Proof. by destruct answers as [|? [|? ?]]. Qed.
Lemma wit_writer_defined answers : (direct None wit_writer answers).2 <> Undefined.
Proof. by destruct answers. Qed.
Lemma wit_stopper_defined answers : (direct None wit_stopper answers).2 <> Undefined.
Proof. by destruct answers as [|? [|? ?]]. Qed.

Lemma wit_started : wit_trace wit_events wit_start 5.
Proof.
  assert (exists l k, wit_made = (Ok l, k)) as (l & k & E) by (eexists _, _; vm_compute; reflexivity).
  assert (0%nat ∈ wit_D) as H0 by (apply (bool_decide_unpack _); vm_compute; reflexivity).
  unfold wit_start, wit_events. rewrite E. apply t_install. apply (t_spawn _ _ _ None wit_stopper 2 _ _ 3).
  - apply (t_spawn _ _ _ None wit_writer 1 _ _ 2).
    + apply (t_spawn _ _ _ (Some 0%nat) wit_reader 2 _ _ 0).
      * eapply t_make; [exact E| |done|].
        -- transitivity (match wit_made.1 with Ok l => Timer.start_time (timer l) | Err _ => 0 end); [by rewrite E|by vm_compute].
        -- intros s st Hs. apply elem_of_map_to_list in Hs. vm_compute in Hs.
           repeat (apply elem_of_cons in Hs; destruct Hs as [[= -> ->]|Hs]; [done|]). by apply not_elem_of_nil in Hs.
      * exact H0.
      * split; [done|]. exists 1%nat, 1%nat. split; [lia|]. split; [split; [done|]; exists O; split; [lia|done]|].
        intros v. split; [cbn; lia|]. exists O. split; [lia|done].
      * apply wit_reader_defined.
      * done.
    + done.
    + split; [cbn; lia|]. exists O. split; [lia|done].
    + apply wit_writer_defined.
    + done.
  - done.
  - split; [cbn; lia|]. exists 1%nat. split; [lia|]. intros v. split; [exact H0|]. exists O. split; [lia|done].
  - apply wit_stopper_defined.
  - done.
Qed.

Lemma wit_iterated es W c :
  wit_trace es W c -> installed W = true -> bool_decide (is_Some (iteration errno_of 30 W)) = true -> wit_trace (EIteration :: es) (wit_next W) c.
Proof.
  intros HT Hin [[ctl W'] E]%bool_decide_eq_true. unfold wit_next. rewrite E. by eapply t_iteration.
Qed.

(** After two iterations: the reader is suspended in its inner task and the stopper
    sleeps, both pending; the writer has timed out and is queued. *)
Definition wit_middle : WWorld := wit_next (wit_next wit_start).

Lemma wit_reached : wit_trace (EIteration :: EIteration :: wit_events) wit_middle 5.
Proof. apply wit_iterated; [apply wit_iterated; [apply wit_started|..]|..]; vm_compute; reflexivity. Qed.

Lemma coroutines_refine_direct_style_witness :
  (ready_queue (loop wit_middle) = [Some 1%nat] /\ ws_cells (mem wit_middle) = {[ 1%nat := TimedOut; 2%nat := Pending; 3%nat := Pending ]} /\
   is_Some (waiter (reactor (loop wit_middle)) 5 Reactor.DRead)) /\
  (exists A, abstract (EIteration :: EIteration :: wit_events) A /\ agrees wit_middle A) /\ accounted wit_middle.
Proof.
  split; [split; [|split]; vm_compute; eauto|].
  apply (coroutines_refine_direct_style errno_of wit_D 0 ticking_bound _ _ 5). apply wit_reached.
Defined.

Lemma iterations_return_witness :
  exists N ctl W', (forall fuel, (N <= fuel)%nat -> iteration errno_of fuel wit_middle = Some (ctl, W')) /\
    (ctl = EventLoop.Continue \/ (exists e, ctl = EventLoop.Break (Err e) /\ epoll_wait_failed e W') \/
     ctl = EventLoop.Break (Ok tt) /\ owned_tasks (loop W') = []).
Proof.
  apply (iterations_return errno_of wit_D 0 ticking_bound (EIteration :: EIteration :: wit_events) wit_middle 5); [apply wit_reached|vm_compute; reflexivity].
Defined.

Lemma run_leaves_nothing_witness :
  exists W', EventLoop.run (resume errno_of 30) 20 wit_start = Some (Ok tt, W') /\ stop_requested (loop W') = false /\ holds_nothing W'.
Proof.
  destruct (EventLoop.run (resume errno_of 30) 20 wit_start) as [[res W']|] eqn:E; [|vm_compute in E; discriminate E].
  assert (res = Ok tt /\ stop_requested (loop W') = false) as [-> Hs]. { vm_compute in E. injection E as <- <-. split; reflexivity. }
  exists W'. split; [reflexivity|]. split; [exact Hs|].
  destruct (run_leaves_nothing errno_of wit_D 0 ticking_bound wit_events wit_start 5 30 20 W' wit_started E) as [Hx|Hx]; [|exact Hx].
  rewrite Hs in Hx. discriminate Hx.
Defined.

(** In the middle the stopper sleeps on, and its timer is ahead of the clock. *)
Lemma no_coroutine_oversleeps_witness :
  exists W1 t e, EventLoop.wait_for_events W1 = Some (EventLoop.Continue, wit_middle) /\ read_after_poll W1 = Some t /\
    Timer.lookup (timer (loop wit_middle)) 16777217 = Some e /\ Timer.te_handle e = Some 2%nat /\ t <= Timer.te_deadline e.
Proof.
  destruct (iteration errno_of 30 (wit_next wit_start)) as [[ctl W']|] eqn:E; [|vm_compute in E; discriminate E].
  assert (ctl = EventLoop.Continue) as ->. { vm_compute in E. injection E as <- _. reflexivity. }
  assert (W' = wit_middle) as -> by (unfold wit_middle, wit_next at 1; rewrite E; reflexivity).
  destruct (no_coroutine_oversleeps errno_of wit_D 0 ticking_bound (EIteration :: wit_events) (wit_next wit_start) 5 30 wit_middle) as (W1 & t & E1 & Et & Hs);
    [apply wit_iterated; [apply wit_started|vm_compute; reflexivity..]|vm_compute; reflexivity|exact E|].
  exists W1, t. destruct (Hs 2%nat (LSleep 100000000) (mkObject (mkAwaiter (-1) 2 2 None) 16777217)) as (e & He & _ & Hh & Hd).
  - split; [vm_compute; reflexivity|]. eexists _, _. split; [vm_compute; reflexivity|reflexivity].
  - reflexivity.
  - vm_compute. reflexivity.
  - exists e. split_and!; [exact E1|exact Et|exact He|exact Hh|exact Hd].
Defined.

(** A coroutine that waits for input with a timeout of zero is never registered,
    but its [await_resume] deregisters the descriptor all the same: the coroutine
    that was already waiting for input there stays suspended with its wait pending,
    in no queue, and without a waiter, a timer or a callback that could wake it. *)
Definition strand_start : WWorld :=
  match wit_made with
  | (Ok l, k) => EventLoop.guard_enter (spawn None (AwaitLeaf (LTimed Reactor.DRead 5 0) Return)
      (spawn None (AwaitLeaf (LReady Reactor.DRead 5) Return) (make_world l wit_sources k)))
  | (Err _, k) => make_world (mkLoop (Reactor.mkReactor 3 [] []) (Timer.make_wheel 0) None [] [] false 1 4 []) ∅ k
  end.

Lemma zero_timeout_strands_reader :
  let W := wit_next strand_start in
  owned_tasks (loop W) = [mkOwned (Some 0%nat)] /\ ws_cells (mem W) = {[ 0%nat := Pending ]} /\ queue_count [] 0 W = 0%nat /\
  waiter (reactor (loop W)) 5 Reactor.DRead = None /\ Timer.active_count (timer (loop W)) = 0 /\ callbacks <$> stops W = {[ 0%nat := []; 1%nat := [] ]}.
Proof. vm_compute. split_and!; reflexivity. Qed.

End Witness.
End CoProps.
