(* ===== verification/Pipes.v ===== *)
(** * Pipes: the pipe operators and [retry] as coroutines

    [Combinators.v] writes [operator|] and [retry] ([async/combinators.hpp]) as
    functions; in the program they are coroutines with frames of their own.  Here
    they are bodies of the frame machine of [Task.v], and running their frames gives
    what the functions give; [retry] on frames is also compared with a relation
    that lists its attempts.  The machine has one value type, which all stages of
    a pipeline share; [inspect] and [inspect_err], whose functions act on the
    caller's state, are in [Combinators.v] only. *)

From S2P Require Import Prelude Core World Combinators CombinatorProps Task TaskProps SchedProps.

Module Pipes.
Import CombinatorProps Task TaskProps.

Section Pipes.
Context {T A : Type}.
#[local] Abbreviation V := (Result T).
#[local] Abbreviation B := (Body V A).

(** ** The coroutines *)

Definition and_then (task : B) (f : T -> B) : B :=
  AwaitTask None task (fun result => match result with Err e => Return (Err e) | Ok v => AwaitTask None (f v) Return end).

Definition map (task : B) (f : T -> T) : B :=
  AwaitTask None task (fun result => match result with Err e => Return (Err e) | Ok v => Return (Ok (f v)) end).

Definition map_err (task : B) (f : SystemError -> SystemError) : B :=
  AwaitTask None task (fun result => match result with Err e => Return (Err (f e)) | Ok v => Return (Ok v) end).

Definition or_else (task : B) (f : SystemError -> B) : B :=
  AwaitTask None task (fun result => match result with Err e => AwaitTask None (f e) Return | Ok v => Return (Ok v) end).

(** [sleep_for d]: the leaf awaiter of a delay, whose result is dropped. *)
Variable sleep_for : Z -> A.
Variable g_timer : bool.

Fixpoint retry_loop (factory : B) (todo : nat) (delay_between : Z) : B :=
  match todo with
  | O => Return (Err Combinators.make_cancelled_error)
  | S todo =>
    AwaitTask None factory (fun result =>
      if is_ok result then Return result
      else
        match todo with
        | O => Return result
        | _ =>
          if (0 <? delay_between) && g_timer then AwaitLeaf (sleep_for delay_between) (fun _ => retry_loop factory todo delay_between)
          else retry_loop factory todo delay_between
        end)
  end.

Definition retry (factory : B) (max_attempts delay_between : Z) : B := retry_loop factory (Z.to_nat max_attempts) delay_between.

(** ** Direct style as a task of [Combinators.v]

    The state: the answers still to come, and the leaf awaits made so far with the
    token each was given. *)

Definition St : Type := list V * list (A * stop_token).

Definition interp (tok : stop_token) (b : B) : Combinators.Task St V := fun s =>
  match direct tok b s.1 with (l, Value v rest) => Some (v, (rest, s.2 ++ l)) | _ => None end.

Definition sleep (tok : stop_token) (d : Z) (s : St) : option St :=
  match s.1 with [] => None | _ :: rest => Some (rest, s.2 ++ [(sleep_for d, tok)]) end.

Lemma interp_await tok c k :
  same (interp tok (AwaitTask None c k)) (Combinators.co_await (interp tok c) (fun v => interp tok (k v))).
Proof.
  intros [an lg]. unfold interp, Combinators.co_await. cbn [direct fst snd].
  replace (if has_value tok then tok else None) with tok by (by destruct tok).
  destruct (direct tok c an) as [l [v rest|rest| |]]; cbn; try done.
  destruct (direct tok (k v) rest) as [l' []]; cbn; try done. by rewrite app_assoc.
Qed.

Lemma interp_return tok v : same (interp tok (Return v)) (Combinators.co_return v).
Proof. intros [an lg]. unfold interp. cbn. by rewrite app_nil_r. Qed.

(** Returning what a task gives. *)
Lemma interp_forward tok b : same (interp tok (AwaitTask None b Return)) (interp tok b).
Proof. rewrite interp_await. rewrite <- (co_await_return (interp tok b)) at 2. apply co_await_ext. intros v. apply interp_return. Qed.

Lemma interp_leaf tok a k an lg :
  interp tok (AwaitLeaf a k) (an, lg) = match an with [] => None | v :: rest => interp tok (k v) (rest, lg ++ [(a, tok)]) end.
Proof.
  unfold interp. cbn. destruct an as [|v rest]; [done|]. destruct (direct tok (k v) rest) as [l []]; cbn; try done.
  by rewrite <- app_assoc.
Qed.

Lemma interp_retry_loop tok factory d n :
  same (interp tok (retry_loop factory n d)) (Combinators.retry_loop (sleep tok) g_timer (interp tok factory) n d).
Proof.
  induction n as [|n IH]; cbn [retry_loop Combinators.retry_loop]; [apply interp_return|].
  intros s. rewrite (interp_await tok factory _ s). unfold Combinators.co_await.
  destruct (interp tok factory s) as [[r [an lg]]|]; cbn [mbind option_bind fst snd]; [|done].
  destruct (is_ok r); [apply interp_return|]. destruct n as [|n]; [apply interp_return|].
  destruct ((0 <? d) && g_timer); cbn [mbind option_bind]; [|apply IH].
  rewrite interp_leaf. unfold sleep. cbn [fst snd]. destruct an as [|v rest]; [done|]. apply IH.
Qed.

(** ** Running the frames *)

(** Running the frames of a task with body [b] and token [tok] ends with what [t]
    gives: value, remaining answers and leaf awaits; and nothing but the root is
    left. *)
Definition runs_as (tok : stop_token) (b : B) (t : Combinators.Task St V) : Prop :=
  forall answers v rest l,
  t (answers, []) = Some (v, (rest, l)) <->
  exists fuel m, drives fuel (start tok b, answers) = (m, rest) /\ control m = Idle /\ waiting m = None /\ log m = l /\
    frames m = {[ O := mkFrame (mkPromise (Ok v) None None tok) Final ]}.

Lemma drives_unique f1 f2 (x : Machine V A * list V) : drive (drives f1 x) = None -> drive (drives f2 x) = None -> drives f1 x = drives f2 x.
Proof.
  intros H1 H2. rewrite <- (SchedProps.drives_stop f1 (f1 `max` f2) x) by (done || lia). apply SchedProps.drives_stop; [lia|done].
Qed.

Lemma interp_runs tok b : runs_as tok b (interp tok b).
Proof.
  intros an v rest l. unfold interp. cbn [fst snd app].
  destruct (run_direct tok b an) as (fuel & m & an' & Hd & Hend & H). destruct (direct tok b an) as [l0 e]. destruct H as [<- He]. split.
  - intros E. destruct e as [v0 r0|r0| |]; try done. injection E as -> -> <-. destruct He as (-> & Hc & Hw & Hf). by exists fuel, m.
  - intros (fuel' & m' & Hd' & Hc & Hw & Hl & Hf).
    assert ((m, an') = (m', rest)) as [= -> ->].
    { rewrite <- Hd, <- Hd'. apply drives_unique; [by rewrite Hd|]. rewrite Hd'. unfold drive. by rewrite Hc, Hw. }
    destruct e as [v0 r0|r0| |]; cbn in He.
    + destruct He as (-> & _ & _ & Hf0). rewrite Hf0 in Hf. apply map_singleton_inj in Hf as [_ [= ->]]. by rewrite Hl.
    + destruct He as (-> & _ & _ & Hf0). rewrite Hf0 in Hf. by apply map_singleton_inj in Hf as [_ [=]].
    + destruct He as (_ & _ & [g Hg]). congruence.
    + congruence.
Qed.

Lemma runs_as_same tok b t : same (interp tok b) t -> runs_as tok b t.
Proof. intros E an v rest l. rewrite <- E. apply interp_runs. Qed.

(** *** The attempts of [retry]

    [tries pause n answers l v rest]: [n] attempts give errors, each followed by a
    pause when [pause] is set, and one more gives [v]; [l] are the leaf awaits
    made, [rest] the answers left. *)
Definition paused (tok : stop_token) (pause : bool) (d : Z) (answers rest : list V) (l : list (A * stop_token)) : Prop :=
  if pause then (exists x, answers = x :: rest) /\ l = [(sleep_for d, tok)] else answers = rest /\ l = [].

Inductive tries (tok : stop_token) (factory : B) (pause : bool) (d : Z) : nat -> list V -> list (A * stop_token) -> V -> list V -> Prop :=
| tries_last answers l v rest :
    direct tok factory answers = (l, Value v rest) -> tries tok factory pause d 0 answers l v rest
| tries_failed n answers l1 e an1 l2 an2 l3 v rest :
    direct tok factory answers = (l1, Value (Err e) an1) -> paused tok pause d an1 an2 l2 ->
    tries tok factory pause d n an2 l3 v rest -> tries tok factory pause d (S n) answers (l1 ++ l2 ++ l3) v rest.

(** What an awaited task and the code after it give. *)
Lemma direct_await_value tok (c : B) (k : V -> B) an l v rest :
  direct tok (AwaitTask None c k) an = (l, Value v rest) <->
  exists l1 x an1 l2, direct tok c an = (l1, Value x an1) /\ direct tok (k x) an1 = (l2, Value v rest) /\ l = l1 ++ l2.
Proof.
  cbn [direct]. replace (if has_value tok then tok else None) with tok by (by destruct tok).
  destruct (direct tok c an) as [l1 [x an1|an1| |]]; cbn; try naive_solver.
  destruct (direct tok (k x) an1) as [l2 o2] eqn:E2. split.
  - intros [= <- ->]. exists l1, x, an1, l2. by rewrite E2.
  - intros (l1' & x' & an1' & l2' & [= <- <- <-] & E & ->). rewrite E2 in E. by injection E as <- ->.
Qed.

Lemma direct_return tok (w : V) an l v rest : direct tok (Return w : B) an = (l, Value v rest) <-> w = v /\ an = rest /\ l = [].
Proof. cbn. naive_solver. Qed.

Lemma direct_leaf_value tok a (k : V -> B) an l v rest :
  direct tok (AwaitLeaf a k) an = (l, Value v rest) <->
  exists x an1 l2, an = x :: an1 /\ direct tok (k x) an1 = (l2, Value v rest) /\ l = (a, tok) :: l2.
Proof.
  cbn. destruct an as [|x an1]; [naive_solver|]. destruct (direct tok (k x) an1) as [l2 o2] eqn:E2. split.
  - intros [= <- ->]. exists x, an1, l2. by rewrite E2.
  - intros (x' & an1' & l2' & [= <- <-] & E & ->). rewrite E2 in E. by injection E as <- ->.
Qed.

Lemma tries_zero tok factory pause d an l v rest :
  tries tok factory pause d 0 an l v rest <-> direct tok factory an = (l, Value v rest).
Proof. split; [by inversion 1|apply tries_last]. Qed.

Lemma tries_succ tok factory pause d n an l v rest :
  tries tok factory pause d (S n) an l v rest <->
  exists l1 e an1 l2 an2 l3, direct tok factory an = (l1, Value (Err e) an1) /\ paused tok pause d an1 an2 l2 /\
    tries tok factory pause d n an2 l3 v rest /\ l = l1 ++ l2 ++ l3.
Proof.
  split; [inversion 1; subst; eauto 12|]. intros (l1 & e & an1 & l2 & an2 & l3 & H1 & H2 & H3 & ->). by eapply tries_failed.
Qed.

(** The pause between two attempts. *)
Lemma direct_pause tok d b an l v rest :
  direct tok (if (0 <? d) && g_timer then AwaitLeaf (sleep_for d) (fun _ => b) else b) an = (l, Value v rest) <->
  exists l2 an2 l3, paused tok ((0 <? d) && g_timer) d an an2 l2 /\ direct tok b an2 = (l3, Value v rest) /\ l = l2 ++ l3.
Proof.
  unfold paused. destruct ((0 <? d) && g_timer); [rewrite direct_leaf_value|]; naive_solver.
Qed.

Lemma direct_retry tok factory d todo : forall an l v rest,
  direct tok (retry_loop factory (S todo) d) an = (l, Value v rest) <->
  exists n, (n <= todo)%nat /\ tries tok factory ((0 <? d) && g_timer) d n an l v rest /\ (is_ok v = true \/ n = todo).
Proof.
  induction todo as [|todo IH]; intros an l v rest; cbn [retry_loop]; rewrite direct_await_value.
  - split.
    + intros (l1 & x & an1 & l2 & H1 & H2 & ->). assert (direct tok (Return x : B) an1 = (l2, Value v rest)) as H3 by (by destruct (is_ok x)).
      apply direct_return in H3 as (-> & -> & ->). exists O. rewrite tries_zero, app_nil_r. auto.
    + intros (n & Hn & Ht & _). assert (n = O) as -> by lia. apply tries_zero in Ht. exists l, v, rest, [].
      rewrite app_nil_r. split_and!; [done| |done]. by destruct (is_ok v).
  - split.
    + intros (l1 & [x|e] & an1 & l2 & H1 & H2 & ->); cbn [is_ok] in H2.
      * apply direct_return in H2 as (<- & -> & ->). exists O. rewrite tries_zero, app_nil_r. split_and!; [lia|done|by left].
      * apply direct_pause in H2 as (l3 & an2 & l4 & Hp & H3 & ->). apply IH in H3 as (n & Hn & Ht & Hv).
        exists (S n). rewrite tries_succ. split_and!; [lia|naive_solver|destruct Hv; [by left|right; lia]].
    + intros ([|n] & Hn & Ht & Hv).
      * apply tries_zero in Ht. destruct Hv as [Hv|]; [|done]. exists l, v, rest, []. rewrite Hv, app_nil_r. done.
      * apply tries_succ in Ht as (l1 & e & an1 & l2 & an2 & l3 & H1 & Hp & Ht & ->).
        exists l1, (Err e), an1, (l2 ++ l3). split_and!; [done| |done]. cbn [is_ok]. apply direct_pause.
        exists l2, an2, l3. split_and!; [done| |done]. apply IH. exists n. split_and!; [lia|done|destruct Hv; [by left|right; lia]].
Qed.

(** C30: [retry] runs until the first success.  With at least one attempt allowed,
    running the frames of the coroutine ends with a value exactly when there are
    [n] attempts that give errors and one more that gives this value, where the
    last one is a success or the last of [max_attempts]: every attempt is a new
    run of the factory's task, in turn; there is one pause after each failed
    attempt but the last, if a delay was asked for and there is a timer, and none
    otherwise; all leaf awaits, in this order, carry the cancellation token of the
    whole; and nothing but [retry]'s own frame, with the value in it, is left. *)
Theorem retry_until_success tok (factory : B) max_attempts d answers v rest l :
  0 < max_attempts ->
  (exists n, Z.of_nat n < max_attempts /\ tries tok factory ((0 <? d) && g_timer) d n answers l v rest /\
     (is_ok v = true \/ Z.of_nat n = max_attempts - 1)) <->
  exists fuel m, drives fuel (start tok (retry factory max_attempts d), answers) = (m, rest) /\
    control m = Idle /\ waiting m = None /\ log m = l /\
    frames m = {[ O := mkFrame (mkPromise (Ok v) None None tok) Final ]}.
Proof.
  intros Hm. unfold retry. assert (exists todo, Z.to_nat max_attempts = S todo /\ max_attempts = Z.of_nat todo + 1) as (todo & -> & ->).
  { exists (Z.to_nat (max_attempts - 1)). lia. }
  rewrite <- (interp_runs tok _ answers v rest l). unfold interp. cbn [fst snd app].
  transitivity (direct tok (retry_loop factory (S todo) d) answers = (l, Value v rest)).
  - rewrite direct_retry. split; intros (n & Hn & Ht & Hv); exists n; (split_and!; [lia|done|destruct Hv; [by left|right; lia]]).
  - destruct (direct tok _ answers) as [l' []]; naive_solver.
Qed.

(** The pipe operators and [retry] are the functions of [Combinators.v].  Each
    is a coroutine that awaits the frames of its operands; running all the frames,
    with the same answers to the leaf awaiters, ends with a value exactly when the
    function on the operands in direct style gives that value, after the same leaf
    awaits in the same order and each with the cancellation token of the whole
    pipeline, and nothing but the pipeline's own frame is left. *)
Theorem pipes_are_coroutines tok (task : B) (f : T -> B) (p : T -> T) (g : SystemError -> B) (q : SystemError -> SystemError) n d :
  runs_as tok (and_then task f) (Combinators.and_then (interp tok task) (fun v => interp tok (f v))) /\
  runs_as tok (map task p) (Combinators.map (interp tok task) p) /\
  runs_as tok (or_else task g) (Combinators.or_else (interp tok task) (fun e => interp tok (g e))) /\
  runs_as tok (map_err task q) (Combinators.map_err (interp tok task) q) /\
  runs_as tok (retry task n d) (Combinators.retry (sleep tok) g_timer (interp tok task) n d).
Proof.
  split_and!; apply runs_as_same; [..|apply interp_retry_loop]; (etrans; [apply interp_await|]); apply co_await_ext;
    intros []; first [apply interp_return|apply interp_forward].
Qed.

End Pipes.

(** ** Witness: the first attempt fails, the second gives 21 *)

Lemma retry_until_success_witness :
  let request : Body (Result Z) string := AwaitLeaf "request"%string Return in
  exists fuel m,
    drives fuel (start (Some 7%nat) (retry (fun _ => "sleep"%string) true request 3 1000),
      [Err (from_errno EPIPE); Ok 0; Ok 21; Ok 99]) = (m, [Ok 99]) /\
    control m = Idle /\ waiting m = None /\
    log m = [("request"%string, Some 7%nat); ("sleep"%string, Some 7%nat); ("request"%string, Some 7%nat)] /\
    frames m = {[ O := mkFrame (mkPromise (Ok (Ok 21)) None None (Some 7%nat)) Final ]}.
Proof.
  cbn zeta. apply (retry_until_success (fun _ => "sleep"%string) true (Some 7%nat) (AwaitLeaf "request"%string Return) 3 1000); [lia|].
  exists 1%nat. split; [lia|]. split; [|by left].
  apply (tries_failed _ _ _ _ _ 0 _ [("request"%string, Some 7%nat)] (from_errno EPIPE) [Ok 0; Ok 21; Ok 99]
    [("sleep"%string, Some 7%nat)] [Ok 21; Ok 99] [("request"%string, Some 7%nat)]); [reflexivity| |apply tries_last; reflexivity].
  split; [by exists (Ok 0)|reflexivity].
Defined.

(** ** Example: a request that fails once is retried after a pause, then doubled

    The first attempt's leaf is answered with an error, the pause and the second
    attempt follow; the frames end with the value. *)
Example pipeline :
  let request : Body (Result Z) string := AwaitLeaf "request" Return in
  let b := map (retry (fun d => "sleep") true request 3 1000) (fun v => 2 * v) in
  let '(m, rest) := drives 40 (start (Some 7%nat) b, [Err (from_errno EPIPE); Ok 0; Ok 21]) in
  rest = [] /\ log m = [("request", Some 7%nat); ("sleep", Some 7%nat); ("request", Some 7%nat)] /\
  frames m = {[ O := mkFrame (mkPromise (Ok (Ok 42)) None None (Some 7%nat)) Final ]}.
Proof. vm_compute. repeat split. Qed.

End Pipes.
