(* ===== verification/Bridge.v ===== *)
(** * Bridge: [runtime/bridge.hpp]

    The eventfd notifier and [spawn_blocking]: a coroutine registers an eventfd
    with the reactor, hands a closure to the thread pool and suspends; a worker
    thread runs the closure, stores the result in a state shared with the
    coroutine and increments the eventfd; the loop thread is woken, resumes the
    coroutine, which takes the result.  The steps of the two threads
    interleave. *)

From S2P Require Import Prelude Core Reactor Channel ThreadPool.

Module Bridge.
Import Reactor.

(** The eventfd system calls: [eventfd], [write] of the value 1, [read],
    [close]. *)
Class EventfdKernel (K : Type) := {
  efd_create : K -> SysRet Z * K;
  efd_write : Z -> K -> SysRet unit * K;
  efd_read : Z -> K -> SysRet Z * K;
  efd_close : Z -> K -> SysRet unit * K;
}.

(** ** [CrossThreadNotifier]: its descriptor *)

Section Notifier.
Context {K : Type} `{EventfdKernel K}.

Definition notifier_create (k : K) : Result Z * K :=
  match efd_create k with
  | (SErr e, k) => (Err (from_errno e), k)
  | (SOk fd, k) => (Ok fd, k)
  end.

Definition notify (fd : Z) (k : K) : Result unit * K :=
  match efd_write fd k with
  | (SErr e, k) => (Err (from_errno e), k)
  | (SOk _, k) => (Ok tt, k)
  end.

(** Nothing to read is not an error. *)
Definition acknowledge (fd : Z) (k : K) : Result Z * K :=
  match efd_read fd k with
  | (SErr e, k) => if e =? EAGAIN then (Ok 0, k) else (Err (from_errno e), k)
  | (SOk v, k) => (Ok v, k)
  end.

Definition notifier_valid (fd : Z) : bool := 0 <=? fd.

(** The result, the descriptor left and the kernel. *)
Definition notifier_close (fd : Z) (k : K) : Result unit * Z * K :=
  if fd <? 0 then (Ok tt, fd, k)
  else
    match efd_close fd k with
    | (SErr e, k) => (Err (from_errno e), -1, k)
    | (SOk _, k) => (Ok tt, -1, k)
    end.

(** The move constructor and the move assignment: descriptors of the target and
    of the source. *)
Definition notifier_move_construct (other : Z) : Z * Z := (other, -1).
Definition notifier_move_assign (self other : Z) (k : K) : Z * Z * K :=
  let '(_, _, k) := notifier_close self k in (other, -1, k).

Definition notifier_destroy (fd : Z) (k : K) : K := (notifier_close fd k).2.

End Notifier.

(** ** [BlockingState] and [BlockingAwaiter] *)

Section Blocking.
Context {K : Type} `{EpollKernel K} `{EventfdKernel K}.
Context {T J : Type}.

Definition not_completed : SystemError := make_error ECANCELED "blocking task not completed".
Definition work_exception : SystemError := make_error EPERM "exception in spawn_blocking task".

Record BlockingState := mkBlocking { notifier : Z; result : Result T }.

(** The constructor of the awaiter makes the shared state. *)
Definition make_blocking (fd : Z) : BlockingState := mkBlocking fd (Err not_completed).

(** The closure built by [set_work], in its two halves: run [f] and store what
    it gives ([None] when it throws), then notify. *)
Definition work_store (f : option T) (st : BlockingState) : BlockingState :=
  mkBlocking (notifier st) (match f with Some v => Ok v | None => Err work_exception end).

Definition work_notify (st : BlockingState) (k : K) : Result unit * BlockingState * K :=
  match notify (notifier st) k with
  | (Err e, k) => (Err e, if is_ok (result st) then mkBlocking (notifier st) (Err e) else st, k)
  | (Ok u, k) => (Ok u, st, k)
  end.

(** [readiness]: the awaiter's own result cell; [job]: the closure as the pool
    sees it; [c]: the pool's channel. *)
Definition blocking_await_suspend (h : handle) (readiness : ptr) (job : J) (st : BlockingState)
    (r : Reactor) (c : Channel.Channel (T := J)) (k : K)
  : bool * BlockingState * Reactor * Channel.Channel * list Channel.Notify * K :=
  match register_read (notifier st) h readiness None Ready r k with
  | (Err e, r, k) => (false, mkBlocking (notifier st) (Err e), r, c, [], k)
  | (Ok _, r, k) =>
    match ThreadPool.spawn job c with
    | (Err e, c, ns) => (false, mkBlocking (notifier st) (Err e), deregister (notifier st) r, c, ns, k)
    | (Ok _, c, ns) => (true, st, r, c, ns, k)
    end
  end.

Definition blocking_await_resume (st : BlockingState) (r : Reactor) (k : K) : Result T * Reactor * K :=
  match acknowledge (notifier st) k with
  | (Err e, k) => (Err e, deregister (notifier st) r, k)
  | (Ok _, k) => (result st, deregister (notifier st) r, k)
  end.

(** [spawn_blocking] up to its [co_await]: no notifier, no awaiter. *)
Definition spawn_blocking_start (k : K) : Result BlockingState * K :=
  match notifier_create k with
  | (Err e, k) => (Err e, k)
  | (Ok fd, k) => (Ok (make_blocking fd), k)
  end.

(** ** The two threads

    [Worker]: the closure is queued or running, has stored its result, has
    notified, or failed to notify.  [outcome]: what [co_await] gave. *)

Inductive Worker := Queued | Stored | Notified | NotifyFailed.

Record Bridge := mkBridge {
  shared : BlockingState; reactor : Reactor; mem : Mem; kern : K; worker : Worker; outcome : option (Result T)
}.

(** What the rest of the program does between the steps of this call: it may
    change the reactor, the memory and the kernel, but not this awaiter's
    waiter, its place in the ready queue or the eventfd.  [foreign] is given
    by the properties. *)
Inductive bridge_step (f : option T) (h : nat) (foreign : Bridge -> Bridge -> Prop) : Bridge -> Bridge -> Prop :=
| step_store b :
    worker b = Queued ->
    bridge_step f h foreign b (mkBridge (work_store f (shared b)) (reactor b) (mem b) (kern b) Stored (outcome b))
| step_notify b res st k :
    worker b = Stored -> work_notify (shared b) (kern b) = (res, st, k) ->
    bridge_step f h foreign b
      (mkBridge st (reactor b) (mem b) k (if is_ok res then Notified else NotifyFailed) (outcome b))
| step_poll b timeout res r m k :
    poll timeout (reactor b) (mem b) (kern b) = Some (res, r, m, k) ->
    bridge_step f h foreign b (mkBridge (shared b) r m k (worker b) (outcome b))
| step_resume b q1 q2 res r k :
    ready (reactor b) = q1 ++ Some h :: q2 ->
    blocking_await_resume (shared b) (set_ready (q1 ++ q2) (reactor b)) (kern b) = (res, r, k) ->
    bridge_step f h foreign b (mkBridge (shared b) r (mem b) k (worker b) (Some res))
| step_foreign b b' : foreign b b' -> bridge_step f h foreign b b'.

End Blocking.
Arguments BlockingState : clear implicits.
Arguments Bridge : clear implicits.
End Bridge.
