(* ===== verification/BridgeProps.v ===== *)
(** * BridgeProps: a blocking result is neither early nor lost *)

From S2P Require Import Prelude Core Reactor ReactorProps Channel ThreadPool Bridge.

Module BridgeProps.
Import Reactor ReactorProps Bridge.

(** ** What the bridge relies on

    [counter k fd]: the value of the eventfd [fd], when it is one. *)
Class EventfdLaws (K : Type) `{EpollKernel K} `{EventfdKernel K} := {
  counter : K -> Z -> option Z;
  (** eventfd(2): [write] adds, [read] takes the whole value and fails on
      zero; a failed call changes nothing. *)
  write_adds fd k k' :
    efd_write fd k = (SOk tt, k') -> exists n, counter k fd = Some n /\ counter k' fd = Some (n + 1);
  write_fails fd k e k' : efd_write fd k = (SErr e, k') -> counter k' fd = counter k fd;
  read_takes fd k v k' :
    efd_read fd k = (SOk v, k') -> counter k fd = Some v /\ 0 < v /\ counter k' fd = Some 0;
  read_fails fd k e k' : efd_read fd k = (SErr e, k') -> counter k' fd = counter k fd;
  (** epoll(7): watching changes no value, and an eventfd is reported readable
      (or in error) only when its value is not zero. *)
  ctl_counter ep op fd ev k r k' fd' : epoll_ctl ep op fd ev k = (r, k') -> counter k' fd' = counter k fd';
  wait_counter ep n t k r k' fd : epoll_wait ep n t k = (r, k') -> counter k' fd = counter k fd;
  wait_readable ep n t k evs k' fd e v :
    epoll_wait ep n t k = (SOk evs, k') -> (fd, e) ∈ evs -> hits e DRead = true -> counter k fd = Some v -> 0 < v;
}.

Section Props.
Context {K : Type} `{EL : EpollLaws K} `{EventfdKernel K} `{!EventfdLaws K}.
Context {T J : Type}.

(** ** The value of the eventfd under the reactor's own operations *)

Lemma ensure_counter fd ev r (k : K) fd' : counter (ensure fd ev r k).2 fd' = counter k fd'.
Proof.
  unfold ensure. destruct (epoll_ctl _ EPOLL_CTL_MOD _ _ _) as [[u|e] k1] eqn:E1; [by eapply ctl_counter|].
  destruct (e =? ENOENT); [|by eapply ctl_counter].
  destruct (epoll_ctl _ EPOLL_CTL_ADD _ _ _) as [[u|e'] k2] eqn:E2; cbn;
    rewrite (ctl_counter _ _ _ _ _ _ _ _ E2); by eapply ctl_counter.
Qed.

Lemma rearm_counter fd r (k : K) fd' : counter (rearm_or_erase fd r k) fd' = counter k fd'.
Proof.
  unfold rearm_or_erase. destruct (out_of_table fd r); [done|]. destruct (slots r !! _) as [e|]; [|done].
  destruct (idle e); [done|apply ensure_counter].
Qed.

Lemma register_counter d fd w r (k : K) res r' k' fd' :
  register d fd w r k = (res, r', k') -> counter k' fd' = counter k fd'.
Proof.
  unfold register. destruct (fd <? 0); [by intros [= <- <- <-]|].
  destruct (get_dir d _); [by intros [= <- <- <-]|].
  match goal with |- context [ensure ?a ?b ?c ?d] => pose proof (ensure_counter a b c d fd') as Hk end.
  destruct (ensure _ _ _ _) as [[u|e] k1]; intros [= <- <- <-]; exact Hk.
Qed.

Lemma handle_event_counter fd ep r m c k r' m' c' (k' : K) fd' :
  handle_event fd ep (r, m, c, k) = Some (r', m', c', k') -> counter k' fd' = counter k fd'.
Proof.
  unfold handle_event. destruct (out_of_table fd r); [by intros [= <- <- <- <-]|].
  destruct (slots r !! _) as [e|]; [|done]. cbn [mbind option_bind]. destruct (idle e); [by intros [= <- <- <- <-]|].
  destruct (fire_dir DRead _ _ _) as [st|]; [|done]. cbn [mbind option_bind].
  destruct (fire_dir DWrite _ _ _) as [[[r2 m2] c2]|]; [|done]. intros [= <- <- <- <-]. apply rearm_counter.
Qed.

Lemma handle_events_counter evs : forall r m c k r' m' c' (k' : K) fd',
  handle_events evs (r, m, c, k) = Some (r', m', c', k') -> counter k' fd' = counter k fd'.
Proof.
  induction evs as [|[fd ep] evs IH]; intros r m c k r' m' c' k' fd'; cbn [handle_events]; [by intros [= <- <- <- <-]|].
  destruct (handle_event fd ep (r, m, c, k)) as [[[[r1 m1] c1] k1]|] eqn:E1; [|done]. cbn [mbind option_bind].
  intros E2%(IH _ _ _ _ _ _ _ _ fd'). rewrite E2. by eapply handle_event_counter.
Qed.

(** A poll on live waiters, from the point of view of one descriptor. *)
Lemma poll_view timeout r m (k : K) res r' m' k' fd :
  valid_waiters m r -> poll timeout r m k = Some (res, r', m', k') ->
  counter k' fd = counter k fd /\ valid_waiters m' r' /\
  exists (hit : Z -> Dir -> bool) (hs : list handle), ready r' = ready r ++ hs /\
    (forall fd' d, waiter r' fd' d = if hit fd' d then None else waiter r fd' d) /\
    (forall x, x ∈ hs -> exists fd' d w, waiter r fd' d = Some w /\ hit fd' d = true /\ pe_handle w = x) /\
    (forall d w h, waiter r fd d = Some w -> hit fd d = true -> pe_state w = None -> pe_handle w = Some h -> Some h ∈ hs) /\
    (hit fd DRead = true -> forall n, counter k fd = Some n -> 0 < n) /\
    (forall evs k1, epoll_wait (epoll_fd r) kMaxEventsPerPoll (timeout_ms timeout) k = (SOk evs, k1) ->
       hit = event_hits evs).
Proof.
  intros V. unfold poll. destruct (epoll_wait _ _ _ _) as [[evs|e] k1] eqn:Ew.
  - destruct (wait_ok _ _ _ _ _ _ Ew) as (Hnd & _ & _ & Hin).
    destruct (handle_events_spec evs r m 0 k1) as (r2 & m2 & c2 & k2 & hs & E & D); [done| |done|].
    { apply Forall_forall. intros x Hx%Hin. tauto. }
    rewrite E. cbn [mbind option_bind]. intros [= <- <- <- <-].
    split; [by rewrite (handle_events_counter _ _ _ _ _ _ _ _ _ fd E), (wait_counter _ _ _ _ _ _ _ Ew)|].
    split; [by eapply valid_waiters_dispatched|]. exists (event_hits evs), hs.
    split_and!; [apply D|apply D|intros x (fd' & d & w & ? & ? & ? & _)%(disp_from _ _ _ _ _ _ _ _ _ D); naive_solver|intros d w h; apply (disp_plain _ _ _ _ _ _ _ _ _ D)| |by intros ? ? [= -> _]].
    intros Hh n Hn. unfold event_hits in Hh. apply existsb_exists in Hh as ([fd' ep] & Hi%list_elem_of_In & Hh).
    unfold one_event in Hh. cbn in Hh. case_bool_decide; [subst|done]. cbn in Hh. by eapply wait_readable.
  - intros [= <- <- <- <-]. split; [by eapply wait_counter|]. split; [done|]. exists (fun _ _ => false), [].
    rewrite app_nil_r. split_and!; try done. by intros x []%not_elem_of_nil.
Qed.

(** ** The invariant of one call *)

Section Call.
Variable f : option T.
Variable h : nat.
Variable fd : Z.

Definition stored : Result T := match f with Some v => Ok v | None => Err work_exception end.

(** What [co_await] may give: the closure's value or exception, or an error of
    reading the eventfd. *)
Definition delivered (res : Result T) : Prop :=
  res = stored \/ exists e k k', efd_read (K := K) fd k = (SErr e, k') /\ e <> EAGAIN /\ res = Err (from_errno e).

(** What other activity may do between the steps. *)
Record foreign (b b' : Bridge K T) : Prop := {
  f_shared : shared b' = shared b;
  f_worker : worker b' = worker b;
  f_outcome : outcome b' = outcome b;
  f_waiter d : waiter (reactor b') fd d = waiter (reactor b) fd d;
  f_ready : Some h ∈ ready (reactor b') <-> Some h ∈ ready (reactor b);
  f_others fd' d w : waiter (reactor b') fd' d = Some w -> pe_handle w = Some h -> fd' = fd;
  f_valid : valid_waiters (mem b') (reactor b');
  f_counter : counter (kern b') fd = counter (kern b) fd;
}.

Record BridgeInv (b : Bridge K T) : Prop := {
  bi_fd : notifier (shared b) = fd;
  bi_valid : valid_waiters (mem b) (reactor b);
  bi_counter : exists n, counter (kern b) fd = Some n /\ (0 < n -> worker b = Notified);
  bi_ready : Some h ∈ ready (reactor b) -> worker b = Notified;
  bi_own fd' d w : waiter (reactor b) fd' d = Some w -> pe_handle w = Some h -> fd' = fd;
  bi_only d w : waiter (reactor b) fd d = Some w ->
    d = DRead /\ pe_handle w = Some h /\ pe_state w = None;
  bi_result : worker b = Stored \/ worker b = Notified -> result (shared b) = stored;
  bi_outcome res : outcome b = Some res -> worker b = Notified /\ delivered res;
}.

Lemma BridgeInv_poll b timeout res r m k :
  BridgeInv b -> poll timeout (reactor b) (mem b) (kern b) = Some (res, r, m, k) ->
  BridgeInv (mkBridge (shared b) r m k (worker b) (outcome b)).
Proof.
  intros I E. destruct (poll_view _ _ _ _ _ _ _ _ fd (bi_valid _ I) E)
    as (Hc & V & hit & hs & Hr & Hw & Hfrom & _ & Hread & _).
  destruct I. destruct bi_counter0 as (n & Hn & Hpos). split; cbn; try done.
  - exists n. by rewrite Hc.
  - rewrite Hr. intros [Hx|Hx]%elem_of_app; [by apply bi_ready0|].
    destruct (Hfrom _ Hx) as (fd' & d & w & Hww & Hh & Ehd). pose proof (bi_own0 _ _ _ Hww Ehd) as ->.
    destruct (bi_only0 _ _ Hww) as (-> & _). apply Hpos. by apply Hread.
  - intros fd' d w. rewrite Hw. destruct (hit fd' d); [done|]. apply bi_own0.
  - intros d w. rewrite Hw. destruct (hit fd d); [done|]. apply bi_only0.
Qed.

Lemma BridgeInv_step b b' : bridge_step f h foreign b b' -> BridgeInv b -> BridgeInv b'.
Proof.
  destruct 1 as [b Hw|b res st k Hw E|b timeout res r m k E|b q1 q2 res r k Eq E|b b' F]; intros I.
  - destruct I. destruct bi_counter0 as (n & Hn & Hpos). split; cbn; try done.
    + exists n. split; [done|]. intros Hp%Hpos. congruence.
    + intros Hr%bi_ready0. congruence.
    + intros res [? _]%bi_outcome0. congruence.
  - destruct I. destruct bi_counter0 as (n & Hn & Hpos). specialize (bi_result0 (or_introl Hw)).
    unfold work_notify, notify in E. rewrite bi_fd0 in E.
    destruct (efd_write fd (kern b)) as [[[]|e] k1] eqn:Ek; injection E as <- <- <-; cbn [is_ok].
    + apply write_adds in Ek as (n' & Hn' & Hk). split; cbn; try done; [by exists (n' + 1)|].
      intros res [? _]%bi_outcome0. congruence.
    + apply write_fails in Ek as Hk. split; cbn; try done.
      * by destruct (is_ok (result (shared b))).
      * exists n. rewrite Hk. split; [done|]. intros Hp%Hpos. congruence.
      * intros Hr%bi_ready0. congruence.
      * by intros [].
      * intros res [? _]%bi_outcome0. congruence.
  - by eapply BridgeInv_poll.
  - destruct I. assert (worker b = Notified) as Hnot by (apply bi_ready0; rewrite Eq; set_solver).
    unfold blocking_await_resume, acknowledge in E. rewrite bi_fd0 in E.
    assert (forall fd' d w, waiter (deregister fd (set_ready (q1 ++ q2) (reactor b))) fd' d = Some w ->
      fd' <> fd /\ waiter (reactor b) fd' d = Some w) as Hcl by (intros fd' d w Hw%waiter_clear; exact Hw).
    assert (exists n, counter k fd = Some n) as [n' Hn'].
    { destruct bi_counter0 as (n & Hn & _). destruct (efd_read fd (kern b)) as [[v|e] k1] eqn:Ek.
      - apply read_takes in Ek as (_ & _ & Hk). injection E as <- <- <-. eauto.
      - apply read_fails in Ek. rewrite Hn in Ek. destruct (e =? EAGAIN); injection E as <- <- <-; eauto. }
    assert (r = deregister fd (set_ready (q1 ++ q2) (reactor b)) /\ delivered res) as [-> Hres].
    { rewrite (bi_result0 (or_intror Hnot)) in E.
      destruct (efd_read fd (kern b)) as [[v|e] k1] eqn:Ek; [injection E as <- <- <-; split; [done|by left]|].
      destruct (Z.eqb_spec e EAGAIN); injection E as <- <- <-; (split; [done|]); [by left|].
      right. by exists e, (kern b), k1. }
    split; cbn; try done.
    + intros fd' d w [_ Hw]%Hcl. by eapply bi_valid0.
    + by exists n'.
    + intros fd' d w [_ Hw]%Hcl. by eapply bi_own0.
    + by intros d w [? _]%Hcl.
    + by intros ? [= <-].
  - destruct I, F. split; rewrite ?f_shared0, ?f_worker0, ?f_outcome0, ?f_counter0; try done.
    + by rewrite f_ready0.
    + intros d w. rewrite f_waiter0. apply bi_only0.
Qed.

Inductive reaches (b : Bridge K T) : Bridge K T -> Prop :=
| reaches_start : reaches b b
| reaches_step b1 b2 : reaches b b1 -> bridge_step f h foreign b1 b2 -> reaches b b2.

Lemma reaches_inv b b' : reaches b b' -> BridgeInv b -> BridgeInv b'.
Proof. induction 1; [done|]. intros I. eapply BridgeInv_step; eauto. Qed.

(** The suspended call satisfies the invariant. *)
Lemma BridgeInv_suspended readiness (job : J) r c m (k : K) st r' c' ns k' :
  counter k fd = Some 0 -> Some h ∉ ready r -> valid_waiters m r -> (forall d, waiter r fd d = None) ->
  (forall fd' d w, waiter r fd' d = Some w -> pe_handle w <> Some h) ->
  (forall p, readiness = Some p -> is_Some (res_cells m !! p)) ->
  blocking_await_suspend (Some h) readiness job (make_blocking fd) r c k = (true, st, r', c', ns, k') ->
  BridgeInv (mkBridge st r' m k' Queued None).
Proof.
  intros Hc Hr V Hfd Hh Hres E. unfold blocking_await_suspend in E. cbn [notifier make_blocking] in E.
  destruct (register_read _ _ _ _ _ _ _) as [[[u|e] r1] k1] eqn:Er; [|done].
  destruct (ThreadPool.spawn job c) as [[[u'|e'] c1] ns1]; [|done]. injection E as <- <- <- <- <-.
  unfold register_read in Er. pose proof (register_counter _ _ _ _ _ _ _ _ fd Er) as Hk.
  apply register_frame in Er as [Hq Hw]. cbn [is_ok andb] in Hw.
  split; cbn; try done.
  - intros fd' d w. rewrite Hw. case_bool_decide; [|apply V]. intros [= <-]. split; cbn; [done|exact Hres].
  - exists 0. rewrite Hk. split; [done|lia].
  - rewrite Hq. done.
  - intros fd' d w. rewrite Hw. case_bool_decide as Hd; [by destruct Hd|]. intros Hx Hy. by destruct (Hh _ _ _ Hx).
  - intros d w. rewrite Hw. case_bool_decide as Hd; [destruct Hd as [_ ->]; by intros [= <-]|]. by rewrite Hfd.
  - by intros [].
Qed.

End Call.


End Props.

(** ** The interface can be implemented

    One epoll instance and one eventfd, number 5, reported while it is armed
    and its value is not zero. *)

Module SimEventfd.

Record Sim := mkSim { ilist : gmap Z Z; value : gmap Z Z }.

Definition sim_ctl (op : CtlOp) (fd ev : Z) (s : Sim) : SysRet unit * Sim :=
  let '(r, e) := SimEpoll.sim_ctl op fd ev (SimEpoll.mkSim (ilist s) []) in
  (r, mkSim (SimEpoll.ilist e) (value s)).

Definition sim_wait (n : nat) (s : Sim) : SysRet (list (Z * Z)) * Sim :=
  match ilist s !! 5, value s !! 5 with
  | Some ev, Some v =>
    if (0 <? v) && negb (Z.land ev EPOLLIN =? 0) && Nat.ltb 0 n
    then (SOk [(5, EPOLLIN)], mkSim (<[5 := SimEpoll.disarm ev]> (ilist s)) (value s))
    else (SOk [], s)
  | _, _ => (SOk [], s)
  end.

Definition sim_write (fd : Z) (s : Sim) : SysRet unit * Sim :=
  match value s !! fd with
  | Some v => (SOk tt, mkSim (ilist s) (<[fd := v + 1]> (value s)))
  | None => (SErr EBADF, s)
  end.

Definition sim_read (fd : Z) (s : Sim) : SysRet Z * Sim :=
  match value s !! fd with
  | Some v => if 0 <? v then (SOk v, mkSim (ilist s) (<[fd := 0]> (value s))) else (SErr EAGAIN, s)
  | None => (SErr EBADF, s)
  end.

#[export] Instance sim_kernel : EpollKernel Sim := {
  epoll_create1 s := (SOk 3, mkSim ∅ (value s));
  epoll_ctl _ op fd ev s := sim_ctl op fd ev s;
  epoll_wait _ n _ s := sim_wait n s;
  epoll_close _ s := (SOk tt, s);
}.

#[export] Instance sim_eventfd : EventfdKernel Sim := {
  efd_create s := (SOk 5, mkSim (ilist s) (<[5 := 0]> (value s)));
  efd_write := sim_write;
  efd_read := sim_read;
  efd_close fd s := (SOk tt, mkSim (ilist s) (delete fd (value s)));
}.

Lemma sim_wait_cases n s :
  sim_wait n s = (SOk [], s) \/
  exists ev v, ilist s !! 5 = Some ev /\ value s !! 5 = Some v /\ 0 < v /\ (0 < n)%nat /\
    sim_wait n s = (SOk [(5, EPOLLIN)], mkSim (<[5 := SimEpoll.disarm ev]> (ilist s)) (value s)).
Proof.
  unfold sim_wait. destruct (ilist s !! 5) as [ev|]; [|by left]. destruct (value s !! 5) as [v|]; [|by left].
  destruct (Z.ltb_spec 0 v); [|by left]. destruct (negb _); [|by left]. destruct (Nat.ltb_spec 0 n); [|by left].
  right. by exists ev, v.
Qed.

Lemma sim_ctl_inv op fd ev s r s' :
  sim_ctl op fd ev s = (r, s') ->
  SimEpoll.sim_ctl op fd ev (SimEpoll.mkSim (ilist s) []) = (r, SimEpoll.mkSim (ilist s') []) /\ value s' = value s.
Proof.
  unfold sim_ctl, SimEpoll.sim_ctl. destruct op; cbn; destruct (ilist s !! fd); intros [= <- <-]; by destruct s.
Qed.

#[export] Program Instance sim_laws : EpollLaws Sim := { interest s _ := ilist s }.
Next Obligation. cbn. intros ep op fd ev s s' [E _]%sim_ctl_inv. exact (SimEpoll.sim_laws.(ctl_ok) ep op fd ev _ _ E). Qed.
Next Obligation. cbn. intros ep op fd ev s e s' [E _]%sim_ctl_inv. exact (SimEpoll.sim_laws.(ctl_err) ep op fd ev _ _ _ E). Qed.
Next Obligation. cbn. intros ep fd ev s s' [E _]%sim_ctl_inv. exact (SimEpoll.sim_laws.(ctl_add) ep fd ev _ _ E). Qed.
Next Obligation.
  cbn. intros _ n _ s evs s'. destruct (sim_wait_cases n s) as [->|(ev & v & Ei & Ev & Hv & Hn & ->)]; intros [= <- <-]; cbn.
  - split_and!; [constructor|lia|done|set_solver].
  - split_and!; [apply NoDup_singleton|lia| |].
    + intros fd' Hd. rewrite lookup_insert_ne by set_solver. done.
    + intros fd' ->%list_elem_of_singleton. rewrite lookup_insert_eq. split; [lia|eauto].
Qed.
Next Obligation. cbn. intros _ n _ s e s'. by destruct (sim_wait_cases n s) as [->|(? & ? & _ & _ & _ & _ & ->)]. Qed.

#[export] Program Instance sim_eventfd_laws : EventfdLaws Sim := { counter s fd := value s !! fd }.
Next Obligation.
  cbn. intros fd s s'. unfold sim_write. destruct (value s !! fd) as [v|] eqn:E; [|done].
  intros [= <-]. exists v. cbn. by rewrite lookup_insert_eq.
Qed.
Next Obligation. cbn. intros fd s e s'. unfold sim_write. destruct (value s !! fd) eqn:E; [done|]. intros [= _ <-]. done. Qed.
Next Obligation.
  cbn. intros fd s v s'. unfold sim_read. destruct (value s !! fd) as [v'|] eqn:E; [|done].
  destruct (Z.ltb_spec 0 v'); [|done]. intros [= <- <-]. cbn. by rewrite lookup_insert_eq.
Qed.
Next Obligation.
  cbn. intros fd s e s'. unfold sim_read. destruct (value s !! fd) as [v'|] eqn:E; [|by intros [= _ <-]].
  destruct (0 <? v'); [done|]. by intros [= _ <-].
Qed.
Next Obligation. cbn. intros ep op fd ev s r s' fd' [_ E]%sim_ctl_inv. by rewrite E. Qed.
Next Obligation.
  cbn. intros _ n _ s r s' fd. destruct (sim_wait_cases n s) as [->|(? & ? & _ & _ & _ & _ & ->)]; by intros [= <- <-].
Qed.
Next Obligation.
  cbn. intros _ n _ s evs s' fd e v. destruct (sim_wait_cases n s) as [->|(ev & v' & _ & Ev & Hv & _ & ->)]; intros [= <- <-].
  - by intros []%not_elem_of_nil.
  - intros [= -> ->]%list_elem_of_singleton _. rewrite Ev. by intros [= <-].
Qed.

End SimEventfd.

(** ** A call: the worker answers 7 and the loop resumes coroutine 1 *)

Section Witness.
Import SimEventfd.

Definition call_r : Reactor := mkReactor 3 [] [].
Definition call_k : Sim := mkSim ∅ {[ 5 := 0 ]}.
Definition call_c : Channel.Channel (T := nat) := Channel.mkChannel [] 4 false.

Lemma call_waiter fd d : waiter call_r fd d = None.
Proof. unfold waiter. destruct (fd <? 0); [done|]. by destruct (Z.to_nat fd). Qed.


End Witness.
End BridgeProps.
