(* ===== verification/Owners.v ===== *)
(** * Owners: the objects that own a descriptor

    [OwnedFd] ([fs/detail.hpp]), [TcpStream] and [TcpListener] ([net/]),
    [CrossThreadNotifier] ([runtime/bridge.hpp]), [EpollReactor]
    ([async/io_reactor.hpp]), [SignalSet] ([async/signal.hpp]) and [Task]
    ([async/task.hpp]) are written separately and keep the same discipline.  [Owner] is what they have in
    common, [OwnerLaws] the discipline; programs that create, move, close and
    destroy such objects are run against the interface. *)

From S2P Require Import Prelude Core Reactor Signal Fs Net Task Bridge.

Module Owners.

(** [owns]: there is something to close; [give_back]: the system calls that
    release it.  [move_construct] gives the new object and what is left of the
    old one; [move_assign] the target, the source and the state, its flag says
    whether the two are the same object ([this == &other]). *)
Class Owner (O S : Type) := {
  owns : O -> bool;
  give_back : O -> S -> S;
  move_construct : O -> O * O;
  move_assign : bool -> O -> O -> S -> O * O * S;
  close : O -> S -> O * S;
  destroy : O -> S -> S;
}.

Class OwnerLaws (O S : Type) `{Owner O S} := {
  move_keeps o : (move_construct o).1 = o;
  move_empties o : owns (move_construct o).2 = false;
  close_gives_back o s : (close o s).2 = if owns o then give_back o s else s;
  close_empties o s : owns (close o s).1 = false;
  assign_closes a b s : (move_assign false a b s).2 = (close a s).2;
  assign_keeps a b s : (move_assign false a b s).1.1 = b;
  assign_empties a b s : owns (move_assign false a b s).1.2 = false;
  assign_self a s : move_assign true a a s = (a, a, s);
  destroy_closes o s : destroy o s = (close o s).2;
}.

(** ** Programs over owners *)

Section Programs.
Context {O S : Type} `{OwnerLaws O S}.

(** The objects live in numbered places: variables, members, frames.  [Acquire]:
    a factory has returned [o]. *)
Inductive Cmd :=
| Acquire (x : nat) (o : O)
| MoveConstruct (x y : nat)
| MoveAssign (x y : nat)
| Close (x : nat)
| Destroy (x : nat).

(** [None]: the program uses a place that holds no object, or builds an object
    where there is one. *)
Definition exec (c : Cmd) (st : gmap nat O * S) : option (gmap nat O * S) :=
  let '(objs, s) := st in
  match c with
  | Acquire x o => match objs !! x with Some _ => None | None => Some (<[x := o]> objs, s) end
  | MoveConstruct x y =>
    other ← objs !! y;
    match objs !! x with
    | Some _ => None
    | None => let '(new, rest) := move_construct other in Some (<[x := new]> (<[y := rest]> objs), s)
    end
  | MoveAssign x y =>
    self ← objs !! x; other ← objs !! y;
    let '(self, rest, s) := move_assign (bool_decide (x = y)) self other s in
    Some (<[x := self]> (<[y := rest]> objs), s)
  | Close x => o ← objs !! x; let '(o, s) := close o s in Some (<[x := o]> objs, s)
  | Destroy x => o ← objs !! x; Some (delete x objs, destroy o s)
  end.

Fixpoint run (prog : list Cmd) (st : gmap nat O * S) : option (gmap nat O * S) :=
  match prog with [] => Some st | c :: prog => st ← exec c st; run prog st end.

(** What a program acquires, and what the objects of a state still own. *)
Definition acquired (prog : list Cmd) : list O :=
  c ← prog; match c with Acquire _ o => if owns o then [o] else [] | _ => [] end.

Definition owned (o : O) : list O := if owns o then [o] else [].
Definition held (objs : gmap nat O) : list O := (map_to_list objs).*2 ≫= owned.

(** Everything a program acquires is given back once or still owned once. *)
Definition conserved (prog : list Cmd) (objs : gmap nat O) (s : S) (objs' : gmap nat O) (s' : S) : Prop :=
  exists closed, s' = foldl (fun s o => give_back o s) s closed /\ closed ++ held objs' ≡ₚ acquired prog ++ held objs.

Lemma held_insert x o objs : objs !! x = None -> held (<[x := o]> objs) ≡ₚ owned o ++ held objs.
Proof. intros Hx. unfold held. by rewrite map_to_list_insert. Qed.

Lemma held_lookup x o objs : objs !! x = Some o -> held objs ≡ₚ owned o ++ held (delete x objs).
Proof. intros Hx. rewrite <- (insert_delete_id objs x o Hx) at 1. apply held_insert, lookup_delete_eq. Qed.

Lemma held_update x o o' objs : objs !! x = Some o -> owned o ++ held (<[x := o']> objs) ≡ₚ owned o' ++ held objs.
Proof.
  intros Hx. rewrite (held_lookup x o objs Hx), (held_lookup x o' (<[x := o']> objs)) by apply lookup_insert_eq.
  rewrite delete_insert_eq. solve_Permutation.
Qed.

Lemma owned_empty o : owns o = false -> owned o = [].
Proof. unfold owned. by intros ->. Qed.

(** What closing [o] gives back. *)
Lemma close_owned o s : (close o s).2 = foldl (fun s o => give_back o s) s (owned o).
Proof. rewrite close_gives_back. unfold owned. by destruct (owns o). Qed.

Lemma exec_conserved c objs s objs' s' : exec c (objs, s) = Some (objs', s') -> conserved [c] objs s objs' s'.
Proof.
  unfold conserved, acquired, exec. intros E. destruct c as [x o|x y|x y|x|x]; cbn [mbind list_bind app].
  - destruct (objs !! x) eqn:Ex; [done|]. injection E as <- <-. exists []. split; [done|]. rewrite app_nil_r, held_insert by done. done.
  - destruct (objs !! y) as [other|] eqn:Ey; [|done]. cbn in E. destruct (objs !! x) eqn:Ex; [done|].
    pose proof (move_keeps (S := S) other) as Hk. pose proof (move_empties (S := S) other) as He.
    destruct (move_construct other) as [new rest]. cbn in Hk, He. subst new. injection E as <- <-. exists []. split; [done|].
    cbn [app]. rewrite held_insert by (by rewrite lookup_insert_ne by congruence).
    rewrite held_update by done. by rewrite owned_empty.
  - destruct (objs !! x) as [self|] eqn:Ex; [|done]. destruct (objs !! y) as [other|] eqn:Ey; [|done]. cbn in E.
    case_bool_decide as Hxy.
    { subst y. assert (other = self) as -> by congruence. rewrite assign_self in E. injection E as <- <-.
      exists []. split; [done|]. by rewrite !insert_id by (rewrite ?insert_id by done; done). }
    pose proof (assign_closes self other s) as Hs. pose proof (assign_keeps self other s) as Hk.
    pose proof (assign_empties self other s) as He. destruct (move_assign false self other s) as [[self' rest] s1].
    cbn in Hs, Hk, He. subst self' s1. injection E as <- <-. exists (owned self). split; [apply close_owned|].
    rewrite held_update by (by rewrite lookup_insert_ne by congruence). rewrite held_update by done. by rewrite owned_empty.
  - destruct (objs !! x) as [o|] eqn:Ex; [|done]. cbn in E. pose proof (close_owned o s) as Hs. pose proof (close_empties o s) as He.
    destruct (close o s) as [o' s1]. cbn in Hs, He. subst s1. injection E as <- <-. exists (owned o). split; [done|].
    rewrite held_update by done. by rewrite owned_empty.
  - destruct (objs !! x) as [o|] eqn:Ex; [|done]. injection E as <- <-. exists (owned o).
    split; [by rewrite destroy_closes, close_owned|]. by rewrite <- held_lookup.
Qed.

Lemma run_conserved prog : forall objs s objs' s', run prog (objs, s) = Some (objs', s') -> conserved prog objs s objs' s'.
Proof.
  induction prog as [|c prog IH]; intros objs s objs' s'; cbn [run]; [intros [= <- <-]; by exists []|].
  destruct (exec c (objs, s)) as [[objs1 s1]|] eqn:E; cbn [mbind option_bind]; [|done]. intros Hr.
  destruct (exec_conserved _ _ _ _ _ E) as (cl1 & -> & P1). destruct (IH _ _ _ _ Hr) as (cl2 & -> & P2).
  exists (cl1 ++ cl2). split; [by rewrite foldl_app|].
  assert (acquired (c :: prog) = acquired [c] ++ acquired prog) as -> by (unfold acquired; cbn; by rewrite app_nil_r).
  rewrite <- app_assoc, P2. transitivity (acquired prog ++ (cl1 ++ held objs1)); [solve_Permutation|]. rewrite P1. solve_Permutation.
Qed.

End Programs.
Arguments Cmd : clear implicits.

(** ** The owners of the program *)

Definition open_fd (fd : Z) : bool := 0 <=? fd.

(** The laws of an owner: the operations evaluated in each case of its
    descriptor and of the system call. *)
Ltac owner := intros; repeat match goal with st : prod _ _ |- _ => destruct st end; cbn; try done.
Ltac owner_cases :=
  unfold open_fd in *;
  repeat (match goal with |- context [match ?x with _ => _ end] =>
    lazymatch x with context [match _ with _ => _ end] => fail | _ => destruct x eqn:? end end; cbn); simplify_eq/=; try done; first [lia|exfalso; lia].

Section Instances.
Context {K : Type}.

Section Files.
Context `{Fs.FileKernel K}.

#[export] Instance owned_fd : Owner Z K := {
  owns := open_fd;
  give_back fd k := (Fs.sys_close fd k).2;
  move_construct := Fs.owned_move_construct;
  move_assign same self other k := if same then (self, other, k) else Fs.owned_move_assign self other k;
  close fd k := let '(_, fd, k) := Fs.owned_close fd k in (fd, k);
  destroy := Fs.owned_destroy;
}.

#[export] Instance owned_fd_laws : OwnerLaws Z K (H := owned_fd).
Proof. split; owner; unfold Fs.owned_destroy, Fs.owned_move_assign, Fs.owned_close; owner_cases. Qed.

End Files.
Section Notifiers.
Context `{Bridge.EventfdKernel K}.

#[export] Instance notifier : Owner Z K := {
  owns := open_fd;
  give_back fd k := (Bridge.efd_close fd k).2;
  move_construct := Bridge.notifier_move_construct;
  move_assign same self other k := if same then (self, other, k) else Bridge.notifier_move_assign self other k;
  close fd k := let '(_, fd, k) := Bridge.notifier_close fd k in (fd, k);
  destroy := Bridge.notifier_destroy;
}.

#[export] Instance notifier_laws : OwnerLaws Z K (H := notifier).
Proof. split; owner; unfold Bridge.notifier_destroy, Bridge.notifier_move_assign, Bridge.notifier_close; owner_cases. Qed.

End Notifiers.

Section Signals.
Context `{Signal.SignalKernel K}.

(** The signalfd is closed and the mask of before restored. *)
#[export] Instance signal_set : Owner Signal.SignalSet K := {
  owns s := open_fd (Signal.fd s);
  give_back s k := (Signal.pthread_sigmask Signal.SIG_SETMASK (Signal.old_mask s) (Signal.sig_close (Signal.fd s) k).2).2;
  move_construct := Signal.move_construct;
  move_assign same self other k := if same then (self, other, k) else Signal.move_assign self other k;
  close s k := let '(_, s, k) := Signal.close s k in (s, k);
  destroy := Signal.destroy;
}.

#[export] Instance signal_set_laws : OwnerLaws Signal.SignalSet K (H := signal_set).
Proof. split; owner; unfold Signal.destroy, Signal.move_assign, Signal.close; owner_cases. Qed.

End Signals.

Section Reactors.
Context `{Reactor.EpollKernel K}.

#[export] Instance reactor : Owner Reactor.Reactor K := {
  owns r := open_fd (Reactor.epoll_fd r);
  give_back r k := (Reactor.epoll_close (Reactor.epoll_fd r) k).2;
  move_construct := Reactor.move_construct;
  move_assign same self other k := if same then (self, other, k) else Reactor.move_assign self other k;
  close r k := let '(_, r, k) := Reactor.close r k in (r, k);
  destroy := Reactor.destroy;
}.

#[export] Instance reactor_laws : OwnerLaws Reactor.Reactor K (H := reactor).
Proof. split; owner; unfold Reactor.destroy, Reactor.move_assign, Reactor.close; owner_cases. Qed.

(** Streams and listeners of one loop: closing also takes the descriptor out of
    the loop's reactor. *)
Context `{Net.SocketKernel K} `{Net.IoEnv K}.

Definition forget_and_close (fd : Z) (st : option Reactor.Reactor * K) : option Reactor.Reactor * K :=
  let '(r, k) := match st.1 with
                 | None => (None, st.2)
                 | Some r => let '(_, r, k) := Reactor.remove fd r st.2 in (Some r, k)
                 end in
  (r, (Net.sk_close fd k).2).

#[export] Instance tcp_stream : Owner Net.TcpStream (option Reactor.Reactor * K) := {
  owns s := open_fd (Net.fd_ s);
  give_back s := forget_and_close (Net.fd_ s);
  move_construct := Net.stream_move_construct;
  move_assign same self other st :=
    if same then (self, other, st)
    else let '(r, self, other, k) := Net.stream_move_assign st.1 self other st.2 in (self, other, (r, k));
  close s st := let '(_, r, s, k) := Net.stream_close st.1 s st.2 in (s, (r, k));
  destroy s st := Net.stream_destroy st.1 s st.2;
}.

#[export] Instance tcp_stream_laws : OwnerLaws Net.TcpStream (option Reactor.Reactor * K) (H := tcp_stream).
Proof.
  split; intros; try match goal with st : prod _ _ |- _ => destruct st end;
    repeat match goal with s : Net.TcpStream |- _ => destruct s end; owner;
    unfold forget_and_close, Net.stream_destroy, Net.stream_move_assign, Net.stream_close, Net.destroy, Net.move_assign, Net.close_fd; owner_cases. Qed.

#[export] Instance tcp_listener : Owner Z (option Reactor.Reactor * K) := {
  owns := open_fd;
  give_back := forget_and_close;
  move_construct := Net.listener_move_construct;
  move_assign same self other st :=
    if same then (self, other, st)
    else let '(r, self, other, k) := Net.listener_move_assign st.1 self other st.2 in (self, other, (r, k));
  close fd st := let '(_, r, fd, k) := Net.close_fd st.1 fd st.2 in (fd, (r, k));
  destroy fd st := Net.listener_destroy st.1 fd st.2;
}.

#[export] Instance tcp_listener_laws : OwnerLaws Z (option Reactor.Reactor * K) (H := tcp_listener).
Proof. split; owner; unfold forget_and_close, Net.listener_destroy, Net.listener_move_assign, Net.close_fd; owner_cases. Qed.

End Reactors.
End Instances.

(** A [Task] owns its coroutine frame; it is emptied by assigning a task without
    one. *)
#[export] Instance task {V A : Type} : Owner handle (gmap nat (Task.Frame V A)) := {
  owns h := has_value h;
  give_back := Task.destroy;
  move_construct := Task.task_move_construct;
  move_assign same self other fs := if same then (self, other, fs) else Task.task_move_assign self other fs;
  close h fs := let '(h, _, fs) := Task.task_move_assign h Task.no_handle fs in (h, fs);
  destroy := Task.destroy;
}.

#[export] Instance task_laws {V A : Type} : OwnerLaws handle (gmap nat (Task.Frame V A)) (H := task).
Proof. split; owner. by destruct o. Qed.

(** ** Every descriptor is closed once *)

(** A program that starts without objects gives back, in some order and once
    each, exactly what it has acquired and does not own at its end. *)
Definition closes_once {O S} (own : Owner O S) : Prop :=
  forall prog s objs s', run prog (∅, s) = Some (objs, s') ->
  exists closed, s' = foldl (fun s o => give_back o s) s closed /\ closed ++ held objs ≡ₚ acquired prog.

Lemma owner_closes_once {O S} (own : Owner O S) (laws : OwnerLaws O S) : closes_once own.
Proof.
  intros prog s objs s' Hr. destruct (run_conserved prog _ _ _ _ Hr) as (closed & E & P).
  exists closed. split; [done|]. by rewrite P, app_nil_r.
Qed.

(** C26: No descriptor is leaked or closed twice by the objects that own one, and
    no coroutine frame by the task that owns it.  For files, sockets, listeners,
    notifiers, reactors, signal sets and tasks alike: whatever a program does with
    such objects - moving them into new ones, assigning over others, to
    themselves, closing them explicitly or not, destroying them - the system has
    been asked to release exactly what was acquired and what no object owns any
    more, each once, also when closing reports an error; the state is changed by
    nothing else. *)
Theorem descriptors_closed_once (K : Type) `{Fs.FileKernel K} `{Bridge.EventfdKernel K} `{Signal.SignalKernel K}
    `{Reactor.EpollKernel K} `{Net.SocketKernel K} `{Net.IoEnv K} :
  closes_once owned_fd /\ closes_once tcp_stream /\ closes_once tcp_listener /\
  closes_once notifier /\ closes_once reactor /\ closes_once signal_set /\
  forall V A : Type, closes_once (task (V := V) (A := A)).
Proof. split_and!; [apply owner_closes_once, _..|]. intros V A. apply owner_closes_once, _. Qed.

(** ** Example: an object moved twice, assigned over and destroyed *)

Section Example.

(** A kernel that records what is closed, and fails. *)
#[local] Instance log_kernel : Bridge.EventfdKernel (list Z) := {
  efd_create k := (SOk 3, k);
  efd_write _ k := (SOk tt, k);
  efd_read _ k := (SOk 1, k);
  efd_close fd k := (SErr EIO, k ++ [fd]);
}.

Example notifiers_run :
  run (H := notifier) [Acquire 0 3; Acquire 1 4; MoveConstruct 2 0; MoveAssign 1 2; MoveAssign 1 1; Destroy 0; Destroy 2; Close 1; Destroy 1] (∅, [])
  = Some (∅, [4; 3]).
Proof. reflexivity. Qed.

End Example.
End Owners.
