(* ===== verification/Executor.v ===== *)
(** * Executor: [runtime/executor.hpp]

    One event loop per core, each on its own thread: construction, setup and
    start, the fault policy, stopping, graceful stopping with a deadline, and
    joining.  The threads that take part are the workers, the owner of the
    executor and the watchdog of [graceful_stop]; each is a program counter with
    a step function, and a step relation interleaves them with the rest of the
    program.  An iteration of a loop is one step. *)

From S2P Require Import Prelude Core Diagnostics Reactor World Awaiters EventLoop.

Module Executor.
Import EventLoop.

Inductive FaultPolicy := FailFast | LogOnly.

Definition kFallbackCoreCount : Z := 1.

(** [hw]: [std::thread::hardware_concurrency()]. *)
Definition default_core_count (hw : Z) : Z := if 0 <? hw then hw else kFallbackCoreCount.

(** [sigaction(SIGPIPE, SIG_IGN)] *)
Class ProcKernel (K : Type) := { sigaction_sigpipe_ignore : K -> SysRet unit * K }.

(** What the owner is asked to do. *)
Inductive Op := OpStop | OpStopAndJoin | OpRequestGraceful | OpGraceful (deadline : Z) | OpJoin.

(** A worker: started, inside [run()], [run()] returned an error, stopping
    loop [j] and the following ones, after that, gone. *)
Inductive Thread := Spawned | Running | Failed (e : SystemError) | StopOthers (j : nat) | Leaving | Exited.

(** The owner: in the loop of [stop] or [request_graceful_stop] at loop [j], in
    [join] waiting for thread [j], waiting for the watchdog, returned. *)
Inductive Main :=
| MIdle | MStop (op : Op) (j : nat) | MDrain (op : Op) (j : nat) | MJoin (op : Op) (j : nat)
| MWaitDog (op : Op) (r : Result unit) | MReturned (op : Op) (r : Result unit).

(** The watchdog: none, polling until [end_], stopping loop [j], returned. *)
Inductive Watchdog := NoDog | Watching (end_ : Z) | DogStop (j : nat) | DogDone.

(** ** Thread-locals

    The pointers of a thread ([g_metrics] and the runtime's [g_thread_pool]) and
    the callbacks of the executor that work on them. *)

Record Locals := mkLocals { g_metrics : option nat; g_thread_pool : option nat }.

Definition fresh_locals : Locals := mkLocals None None.
Definition set_g_metrics (p : option nat) (l : Locals) : Locals := mkLocals p (g_thread_pool l).
Definition set_g_thread_pool (p : option nat) (l : Locals) : Locals := mkLocals (g_metrics l) p.

Record Callbacks := mkCallbacks { thread_init_ : option (nat -> Locals -> Locals); teardown_ : option (nat -> Locals -> Locals) }.

Definition on_thread_init (fn : nat -> Locals -> Locals) (c : Callbacks) : Callbacks := mkCallbacks (Some fn) (teardown_ c).
Definition on_teardown (fn : nat -> Locals -> Locals) (c : Callbacks) : Callbacks := mkCallbacks (thread_init_ c) (Some fn).

(** What the body of worker [i] does to them before and after [loop.run()]. *)
Definition worker_enter (i : nat) (c : Callbacks) (l : Locals) : Locals :=
  default (fun _ l => l) (thread_init_ c) i (set_g_metrics (Some i) l).
Definition worker_leave (i : nat) (c : Callbacks) (l : Locals) : Locals :=
  set_g_metrics None (default (fun _ l => l) (teardown_ c) i l).

Section Exec.
Context {K : Type} `{Reactor.EpollKernel K} `{LoopKernel K} `{ProcKernel K}.

(** [worlds]: the loops with what each thread works on; [outcomes]: the
    [run_result] of the workers whose [run()] has returned; [registry] and
    [store]: the registry of counters and the counters (those of core [i] are
    at address [i]); [emitted]: the events given to [diag::emit]. *)
Record Exec := mkExec {
  worlds : list (World K); kernel : K; threads : list Thread; outcomes : gmap nat (Result unit);
  faults : list SystemError; policy : FaultPolicy;
  registry : list nat; store : gmap nat Diag.CoreMetrics; emitted : list Diag.Event;
  main : Main; dog : Watchdog; drained : bool
}.

Definition set_worlds (ws : list (World K)) (k : K) (X : Exec) : Exec :=
  mkExec ws k (threads X) (outcomes X) (faults X) (policy X) (registry X) (store X) (emitted X) (main X) (dog X) (drained X).
Definition set_threads (ts : list Thread) (X : Exec) : Exec :=
  mkExec (worlds X) (kernel X) ts (outcomes X) (faults X) (policy X) (registry X) (store X) (emitted X) (main X) (dog X) (drained X).
Definition set_thread (i : nat) (t : Thread) (X : Exec) : Exec := set_threads (<[i := t]> (threads X)) X.
Definition set_outcome (i : nat) (r : Result unit) (X : Exec) : Exec :=
  mkExec (worlds X) (kernel X) (threads X) (<[i := r]> (outcomes X)) (faults X) (policy X) (registry X) (store X)
    (emitted X) (main X) (dog X) (drained X).
Definition set_faults (fs : list SystemError) (X : Exec) : Exec :=
  mkExec (worlds X) (kernel X) (threads X) (outcomes X) fs (policy X) (registry X) (store X) (emitted X) (main X) (dog X) (drained X).
Definition set_diag (r : list nat) (s : gmap nat Diag.CoreMetrics) (es : list Diag.Event) (X : Exec) : Exec :=
  mkExec (worlds X) (kernel X) (threads X) (outcomes X) (faults X) (policy X) r s es (main X) (dog X) (drained X).
Definition set_main (m : Main) (X : Exec) : Exec :=
  mkExec (worlds X) (kernel X) (threads X) (outcomes X) (faults X) (policy X) (registry X) (store X) (emitted X) m (dog X) (drained X).
Definition set_dog (d : Watchdog) (b : bool) (X : Exec) : Exec :=
  mkExec (worlds X) (kernel X) (threads X) (outcomes X) (faults X) (policy X) (registry X) (store X) (emitted X) (main X) d b.

Definition core_count (X : Exec) : nat := length (worlds X).

(** Out of range is undefined. *)
Definition loop_at (index : nat) (X : Exec) : option Loop := loop <$> worlds X !! index.

Definition fault_policy (p : FaultPolicy) (X : Exec) : Exec :=
  mkExec (worlds X) (kernel X) (threads X) (outcomes X) (faults X) p (registry X) (store X) (emitted X) (main X) (dog X) (drained X).

(** ** Construction *)

(** A loop that goes out of scope: its destructor, then the reactor's. *)
Definition destroy_loop (k : K) (l : Loop) : K :=
  let '(_, _, k) := Reactor.close (reactor l) (EventLoop.destroy l k) in k.

(** The loop of [create]; [i]: the loops made so far.  Each loop is moved into the
    vector and what is left of the local is destroyed; the loops already made are
    destroyed when one fails. *)
Fixpoint create_loops (n i : nat) (loops : list Loop) (k : K) : Result (list Loop) * K :=
  match n with
  | O => (Ok loops, k)
  | S n =>
    match EventLoop.create i k with
    | (Err e, k) => (Err e, foldl destroy_loop k loops)
    | (Ok l, k) =>
      let '(l, rest) := EventLoop.move_construct i l in
      create_loops n (S i) (loops ++ [l]) (destroy_loop k rest)
    end
  end.

Definition new_world (k : K) (l : Loop) : World K :=
  mkWorld l empty_mem {[ graceful_source l := mkStop false [] ]} ∅ false k.

(** The members' initial values; [cores]: what is in the global registry. *)
Definition make_exec (cores : list nat) (loops : list Loop) (k : K) : Exec :=
  mkExec (new_world k <$> loops) k [] ∅ [] FailFast cores ∅ [] MIdle NoDog false.

Definition create (num_cores : nat) (cores : list nat) (k : K) : Result Exec * K :=
  match create_loops num_cores 0 [] k with
  | (Err e, k) => (Err e, k)
  | (Ok loops, k) => (Ok (make_exec cores loops k), k)
  end.

(** ** Working on one loop *)

(** [f] runs on loop [i] against the shared kernel. *)
Definition on_loop {A} (i : nat) (f : World K -> option (A * World K)) (X : Exec) : option (A * Exec) :=
  W ← worlds X !! i;
  r ← f (set_kern (kernel X) W);
  Some (r.1, set_worlds (<[i := r.2]> (worlds X)) (kern r.2) X).

Definition stop_loop (j : nat) (X : Exec) : option Exec :=
  snd <$> on_loop j (fun W => Some (tt, EventLoop.request_stop W)) X.

(** [request_graceful_stop] runs the stop callbacks of loop [j] on the calling
    thread, whose own [g_event_loop] is null. *)
Definition drain_loop (j : nat) (X : Exec) : option Exec :=
  snd <$> on_loop j (fun W => W' ← EventLoop.request_graceful_stop (set_installed false W);
                              Some (tt, set_installed (installed W) W')) X.

(** ** [run] *)

Definition ignore_sigpipe (k : K) : Result unit * K :=
  match sigaction_sigpipe_ignore k with
  | (SErr e, k) => (Err (from_errno e), k)
  | (SOk _, k) => (Ok tt, k)
  end.

(** [stop], when no other thread is running. *)
Fixpoint stop_all (n j : nat) (X : Exec) : option Exec :=
  match n with
  | O => Some X
  | S n => X ← stop_loop j X; stop_all n (S j) X
  end.

(** The setup loop, from core [i] on. *)
Fixpoint setup_loop (setup : nat -> World K -> option (Result unit * World K)) (n i : nat) (X : Exec)
  : option (Result unit * Exec) :=
  match n with
  | O => Some (Ok tt, X)
  | S n =>
    r ← on_loop i (setup i) X;
    match r with
    | (Err e, X) => Some (Err e, X)
    | (Ok _, X) => setup_loop setup n (S i) X
    end
  end.

Definition run (setup : nat -> World K -> option (Result unit * World K)) (X : Exec) : option (Result unit * Exec) :=
  match ignore_sigpipe (kernel X) with
  | (Err e, k) => Some (Err e, set_worlds (worlds X) k X)
  | (Ok _, k) =>
    r ← setup_loop setup (core_count X) 0 (set_worlds (worlds X) k X);
    match r with
    | (Err e, X) => X ← stop_all (core_count X) 0 X; Some (Err e, X)   (* [stop_and_join], no thread yet *)
    | (Ok _, X) =>
      let ids := seq 0 (core_count X) in
      let X := set_diag (registry X) (list_to_map ((fun i => (i, Diag.fresh_metrics)) <$> ids)) (emitted X) X in
      Some (Ok tt, set_threads (replicate (core_count X) Spawned) X)
    end
  end.

(** ** The workers *)

(** User code: resuming a coroutine, and the two callbacks of a thread (the
    identity when none was set). *)
Variable resume : nat -> World K -> option (World K).
Variable thread_init : nat -> K -> K.
Variable teardown : nat -> K -> K.

(** The turn of the [while] loop in [EventLoop::run]. *)
Definition loop_turn (W : World K) : option (Control * World K) :=
  if stop_requested (loop W) then Some (Break (Ok tt), W) else iteration resume W.

Definition run_failed (e : SystemError) : Diag.Event := Diag.mkEvent "loop.run_failed" Diag.Error (Some e) [].

Definition worker_step (i : nat) (X : Exec) : option Exec :=
  t ← threads X !! i;
  match t with
  | Spawned =>
    W ← worlds X !! i;
    let X := set_diag (Diag.registry_add i (registry X)) (store X) (emitted X) X in
    Some (set_thread i Running (set_worlds (<[i := set_installed true W]> (worlds X)) (thread_init i (kernel X)) X))
  | Running =>
    r ← on_loop i loop_turn X;
    match r with
    | (Continue, X) => Some X
    | (Break res, X) =>
      W ← worlds X !! i;
      let X := set_worlds (<[i := set_installed false W]> (worlds X)) (kernel X) X in
      Some (set_thread i (match res with Err e => Failed e | Ok _ => Leaving end) (set_outcome i res X))
    end
  | Failed e =>
    st ← Diag.count (Some i) Diag.LoopRunErrors 1 (store X);
    let X := set_diag (registry X) st (emitted X ++ [run_failed e]) X in
    let X := set_faults (faults X ++ [e]) X in
    Some (set_thread i (match policy X with FailFast => StopOthers 0 | LogOnly => Leaving end) X)
  | StopOthers j =>
    if (j <? core_count X)%nat then X ← stop_loop j X; Some (set_thread i (StopOthers (S j)) X)
    else Some (set_thread i Leaving X)
  | Leaving =>
    let X := set_worlds (worlds X) (teardown i (kernel X)) X in
    Some (set_thread i Exited (set_diag (Diag.registry_remove i (registry X)) (store X) (emitted X) X))
  | Exited => None
  end.

(** ** The owner *)

Definition first_fault (X : Exec) : Result unit := match faults X with [] => Ok tt | e :: _ => Err e end.

Definition call (op : Op) (X : Exec) : option Exec :=
  match main X with
  | MIdle | MReturned _ _ =>
    Some (set_main (match op with
                    | OpStop | OpStopAndJoin => MStop op 0
                    | OpRequestGraceful | OpGraceful _ => MDrain op 0
                    | OpJoin => MJoin op 0
                    end) X)
  | _ => None
  end.

(** The destructor's body; the members are destroyed after it. *)
Definition destruct (X : Exec) : option Exec := call OpStopAndJoin X.

(** [now]: the clock when the watchdog thread starts. *)
Definition main_step (now : Z) (X : Exec) : option Exec :=
  match main X with
  | MIdle | MReturned _ _ => None
  | MStop op j =>
    if (j <? core_count X)%nat then X ← stop_loop j X; Some (set_main (MStop op (S j)) X)
    else Some (set_main (match op with OpStopAndJoin => MJoin op 0 | _ => MReturned op (Ok tt) end) X)
  | MDrain op j =>
    if (j <? core_count X)%nat then X ← drain_loop j X; Some (set_main (MDrain op (S j)) X)
    else
      match op with
      | OpGraceful deadline => Some (set_main (MJoin op 0) (set_dog (Watching (now + deadline)) false X))
      | _ => Some (set_main (MReturned op (Ok tt)) X)
      end
  | MJoin op j =>
    match threads X !! j with
    | Some Exited => Some (set_main (MJoin op (S j)) X)
    | Some _ => None
    | None =>
      let X := set_threads [] X in
      Some (match op with
            | OpGraceful _ => set_main (MWaitDog op (first_fault X)) (set_dog (dog X) true X)
            | OpStopAndJoin => set_main (MReturned op (Ok tt)) X
            | _ => set_main (MReturned op (first_fault X)) X
            end)
    end
  | MWaitDog op r =>
    match dog X with DogDone => Some (set_main (MReturned op r) (set_dog NoDog (drained X) X)) | _ => None end
  end.

(** ** The watchdog; [now]: what [steady_clock::now] gives at its check. *)

Definition dog_step (now : Z) (X : Exec) : option Exec :=
  match dog X with
  | Watching end_ =>
    Some (set_dog (if now <? end_ then if drained X then DogDone else Watching end_ else DogStop 0) (drained X) X)
  | DogStop j =>
    if (j <? core_count X)%nat then X ← stop_loop j X; Some (set_dog (DogStop (S j)) (drained X) X)
    else Some (set_dog DogDone (drained X) X)
  | NoDog | DogDone => None
  end.

(** ** Interleaving

    [by_outside]: other threads work on loop [j] ([submit], [request_stop], and
    the like) or on the kernel; a stop request is never withdrawn. *)

Inductive exec_step : Exec -> Exec -> Prop :=
| by_worker i X X' : worker_step i X = Some X' -> exec_step X X'
| by_main now X X' : main_step now X = Some X' -> exec_step X X'
| by_dog now X X' : dog_step now X = Some X' -> exec_step X X'
| by_call op X X' : call op X = Some X' -> exec_step X X'
| by_outside j W W' k X :
    worlds X !! j = Some W -> (stop_requested (loop W) = true -> stop_requested (loop W') = true) ->
    exec_step X (set_worlds (<[j := W']> (worlds X)) k X).

Inductive exec_reachable (X : Exec) : Exec -> Prop :=
| exec_init : exec_reachable X X
| exec_next X1 X2 : exec_reachable X X1 -> exec_step X1 X2 -> exec_reachable X X2.

End Exec.
Arguments Exec : clear implicits.
End Executor.
