(* ===== verification/ExecutorProps.v ===== *)
(** * ExecutorProps: starting, failing, stopping and joining the cores *)

From S2P Require Import Prelude Core Diagnostics DiagnosticsProps TimerWheel Reactor ReactorProps World Awaiters EventLoop Executor.

Module ExecutorProps.
Import ReactorProps Awaiters EventLoop Executor.

Section Props.
Context {K : Type} `{Reactor.EpollKernel K} `{LoopKernel K} `{ProcKernel K}.

(** ** Stop requests are never withdrawn *)

Definition stopped (W : World K) : Prop := stop_requested (loop W) = true.

Lemma cancel_keeps_stop cb (W W' : World K) :
  run_callback cb W = Some W' -> stop_requested (loop W') = stop_requested (loop W).
Proof.
  unfold run_callback, cancel_io_wait, cancel_timed_wait, cancel_sleep, notify_handle, reactor_deregister, timer_cancel.
  destruct (cb_kind cb) as [fd dir|fd dir id|id]; (destruct (ws_cells (mem W) !! cb_state cb) as [v|]; [|done]);
    cbn [mbind option_bind]; (case_decide; [|by intros [= <-]]);
    try (destruct (Reactor.deregister_dir _ _ _ _)); intros [= <-]; repeat case_match; done.
Qed.

Lemma request_stop_keeps_stop s (W W' : World K) :
  Awaiters.request_stop s W = Some W' -> stop_requested (loop W') = stop_requested (loop W).
Proof.
  unfold Awaiters.request_stop. destruct (stops W !! s) as [st|]; [|done]. cbn [mbind option_bind].
  destruct (requested st); [by intros [= <-]|]. change (loop W) with (loop (set_stops (<[s := mkStop true []]> (stops W)) W)).
  generalize (set_stops (<[s := mkStop true []]> (stops W)) W). induction (callbacks st) as [|cb cbs IH]; intros V; cbn; [by intros [= <-]|].
  destruct (run_callback cb V) as [V1|] eqn:E; [|done]. cbn. intros ->%IH. by eapply cancel_keeps_stop.
Qed.

Lemma wake_if_open_loop (W : World K) : loop (wake_if_open W) = loop W.
Proof. unfold wake_if_open, wake_owner. destruct (0 <=? _); [|done]. by destruct (eventfd_write _ _) as [[] ?]. Qed.

Lemma graceful_keeps_stop (W W' : World K) :
  EventLoop.request_graceful_stop W = Some W' -> stop_requested (loop W') = stop_requested (loop W).
Proof.
  unfold EventLoop.request_graceful_stop. destruct (Awaiters.request_stop _ W) as [W1|] eqn:E; [|done]. cbn.
  intros [= <-]. rewrite wake_if_open_loop. by eapply request_stop_keeps_stop.
Qed.

Lemma request_stop_stops (W : World K) : stopped (EventLoop.request_stop W).
Proof. unfold stopped, EventLoop.request_stop. by rewrite wake_if_open_loop. Qed.

Variable resume : nat -> World K -> option (World K).
Variable thread_init : nat -> K -> K.
Variable teardown : nat -> K -> K.
(** User code cannot withdraw a stop request: [std::stop_source] has no
    operation for it. *)
Hypothesis resume_stop : forall f (W W' : World K), resume f W = Some W' -> stopped W -> stopped W'.

Lemma resume_all_stop scratch : forall W W' : World K, resume_all resume scratch W = Some W' -> stopped W -> stopped W'.
Proof.
  induction scratch as [|h scratch IH]; intros W W'; cbn; [by intros [= <-]|].
  destruct (resumable h (mem W)) as [go|]; [|done]. cbn. destruct h as [f|]; [|apply IH].
  destruct go; [|apply IH]. destruct (resume f W) as [W1|] eqn:E; [|done]. cbn. eauto.
Qed.

Lemma wait_for_events_stop (W : World K) c W' :
  wait_for_events W = Some (c, W') -> stop_requested (loop W') = stop_requested (loop W).
Proof.
  unfold wait_for_events. destruct (clock_now (kern W)) as [now k].
  destruct (Reactor.poll _ _ _ _) as [[[[res r] m] k1]|]; [|done]. cbn [mbind option_bind].
  destruct res; [|by intros [= <- <-]]. cbn [Reactor.drain_ready_into Timer.drain_ready_into].
  destruct (clock_now _) as [now' k2]. destruct (Timer.advance_to _ _ _) as [[[m2 t2] f2]|]; [|done].
  cbn [mbind option_bind]. by intros [= <- <-].
Qed.

Lemma iteration_stop (W : World K) c W' : iteration resume W = Some (c, W') -> stopped W -> stopped W'.
Proof.
  unfold iteration. destruct (resume_all resume _ _) as [W1|] eqn:E1; [|done]. cbn [mbind option_bind].
  unfold cleanup_completed. destruct (erase_completed _ _) as [[keep m]|]; [|done]. cbn [mbind option_bind].
  intros E HW. apply resume_all_stop in E1; [|exact HW].
  destruct (no_tasks _); [destruct (no_tasks _)|];
    [by injection E as <- <-|unfold stopped; rewrite (wait_for_events_stop _ _ _ E); exact E1..].
Qed.

Lemma loop_turn_stop (W : World K) c W' : loop_turn resume W = Some (c, W') -> stopped W -> stopped W'.
Proof. unfold loop_turn. destruct (stop_requested (loop W)); [by intros [= <- <-]|apply iteration_stop]. Qed.

(** ** The loops of an executor *)

Definition flag (X : Exec K) (i : nat) : option bool := (fun W => stop_requested (loop W)) <$> worlds X !! i.

Definition all_stopped (X : Exec K) : Prop := forall j, (j < core_count X)%nat -> flag X j = Some true.

(** [X'] differs from [X] in its loops and the kernel only, and no stop request
    was withdrawn. *)
Record loops_only (X X' : Exec K) : Prop := {
  lo_count : core_count X' = core_count X;
  lo_flag i : flag X i = Some true -> flag X' i = Some true;
  lo_rest : exists ws k, X' = set_worlds ws k X;
}.

Lemma loops_only_insert (X : Exec K) j W W' k :
  worlds X !! j = Some W -> (stopped W -> stopped W') -> loops_only X (set_worlds (<[j := W']> (worlds X)) k X).
Proof.
  intros Hj HW. split; [apply length_insert| |eauto]. intros i. unfold flag. cbn.
  destruct (decide (i = j)) as [->|]; [|by rewrite list_lookup_insert_ne].
  rewrite list_lookup_insert_eq by (by eapply lookup_lt_Some). rewrite Hj. cbn. intros [= Hs]. f_equal. by apply HW.
Qed.

Lemma loops_only_trans X Y Z : loops_only X Y -> loops_only Y Z -> loops_only X Z.
Proof.
  intros [C1 F1 (ws1 & k1 & ->)] [C2 F2 (ws2 & k2 & ->)]. split; [congruence|eauto|]. by exists ws2, k2.
Qed.

Lemma on_loop_spec {A} j (f : World K -> option (A * World K)) X a X' :
  on_loop j f X = Some (a, X') ->
  exists W W', worlds X !! j = Some W /\ f (set_kern (kernel X) W) = Some (a, W') /\
    X' = set_worlds (<[j := W']> (worlds X)) (kern W') X.
Proof.
  unfold on_loop. destruct (worlds X !! j) as [W|]; [|done]. cbn. destruct (f _) as [[a1 W1]|] eqn:E; [|done]. cbn.
  intros [= <- <-]. eauto.
Qed.

Lemma on_loop_only {A} j (f : World K -> option (A * World K)) X a X' :
  (forall W a W', f W = Some (a, W') -> stopped W -> stopped W') -> on_loop j f X = Some (a, X') -> loops_only X X'.
Proof. intros Hf (W & W' & Hj & E & ->)%on_loop_spec. eapply loops_only_insert; [done|]. by apply (Hf _ _ _ E). Qed.

Lemma stop_loop_spec j X : (j < core_count X)%nat -> exists X', stop_loop j X = Some X'.
Proof. intros [W Hj]%lookup_lt_is_Some_2. unfold stop_loop, on_loop. rewrite Hj. cbn. eauto. Qed.

Lemma stop_loop_only j X X' : stop_loop j X = Some X' -> loops_only X X' /\ flag X' j = Some true.
Proof.
  unfold stop_loop. destruct (on_loop j _ X) as [[u X1]|] eqn:E; [|done]. cbn. intros [= <-]. split.
  - eapply on_loop_only; [|exact E]. intros W a W' [= _ <-] _. apply request_stop_stops.
  - apply on_loop_spec in E as (W & W' & Hj & [= _ <-] & ->). unfold flag. cbn.
    rewrite list_lookup_insert_eq by (by eapply lookup_lt_Some). cbn. f_equal. apply request_stop_stops.
Qed.

Lemma drain_loop_only j X X' : drain_loop j X = Some X' -> loops_only X X'.
Proof.
  unfold drain_loop. destruct (on_loop j _ X) as [[u X1]|] eqn:E; [|done]. cbn. intros [= <-].
  eapply on_loop_only; [|exact E]. intros W a W'. cbn beta. destruct (EventLoop.request_graceful_stop (set_installed false W)) as [V|] eqn:Eg; [|done].
  apply graceful_keeps_stop in Eg. cbn. intros [= _ <-]. unfold stopped. cbn. by rewrite Eg.
Qed.

(** ** The invariant *)

(** [run()] has returned on core [i]; its error, if any, is recorded and under
    [FailFast] has stopped every loop. *)
Definition ended (X : Exec K) (i : nat) : Prop :=
  exists r, outcomes X !! i = Some r /\
    forall e, r = Err e -> e ∈ faults X /\ (policy X = FailFast -> all_stopped X).

Definition stopped_below (X : Exec K) (j : nat) : Prop := forall j', (j' < j)%nat -> (j' < core_count X)%nat -> flag X j' = Some true.

Definition thread_ok (X : Exec K) (i : nat) (t : Thread) : Prop :=
  match t with
  | Spawned => (i ∉ registry X) /\ outcomes X !! i = None
  | Running => i ∈ registry X /\ outcomes X !! i = None
  | Failed e => i ∈ registry X /\ outcomes X !! i = Some (Err e)
  | StopOthers j => i ∈ registry X /\ (exists e, outcomes X !! i = Some (Err e) /\ e ∈ faults X) /\ stopped_below X j
  | Leaving => i ∈ registry X /\ ended X i
  | Exited => (i ∉ registry X) /\ ended X i
  end.

Definition main_ok (X : Exec K) : Prop :=
  match main X with
  | MIdle => True
  | MStop op j => (op = OpStop \/ op = OpStopAndJoin) /\ stopped_below X j
  | MDrain op _ => op = OpRequestGraceful \/ exists d, op = OpGraceful d
  | MJoin op j =>
    (op = OpJoin \/ (op = OpStopAndJoin /\ all_stopped X) \/ exists d, op = OpGraceful d) /\
    (forall i, (i < j)%nat -> threads X !! i = Some Exited \/ threads X !! i = None)
  | MWaitDog op r => (exists d, op = OpGraceful d) /\ threads X = [] /\ r = first_fault X
  | MReturned op r =>
    match op with
    | OpStop => all_stopped X
    | OpStopAndJoin => all_stopped X /\ threads X = []
    | OpRequestGraceful => True
    | OpGraceful _ | OpJoin => threads X = [] /\ r = first_fault X
    end
  end.

Definition dog_ok (X : Exec K) : Prop := match dog X with DogStop j => stopped_below X j | _ => True end.

Record ExecInv (X : Exec K) : Prop := {
  inv_store i : (i < core_count X)%nat -> is_Some (store X !! i);
  inv_threads : threads X = [] /\ (forall i, (i < core_count X)%nat -> (i ∉ registry X) /\ ended X i) \/
    length (threads X) = core_count X /\ (forall i t, threads X !! i = Some t -> thread_ok X i t);
  inv_out i r : outcomes X !! i = Some r -> (i < core_count X)%nat;
  inv_faults e : e ∈ faults X -> exists i, outcomes X !! i = Some (Err e);
  inv_main : main_ok X;
  inv_dog : dog_ok X;
}.

(** What no step takes back, as core [i] sees it. *)
Record grows (i : nat) (X X' : Exec K) : Prop := {
  gr_count : core_count X' = core_count X;
  gr_policy : policy X' = policy X;
  gr_flag j : flag X j = Some true -> flag X' j = Some true;
  gr_faults e : e ∈ faults X -> e ∈ faults X';
  gr_registry : i ∈ registry X' <-> i ∈ registry X;
  gr_out : outcomes X' !! i = outcomes X !! i;
}.

Lemma grows_loops i X X' : loops_only X X' -> grows i X X'.
Proof. intros [C F (ws & k & ->)]. split; done. Qed.

Lemma grows_stopped_below i X X' j : grows i X X' -> stopped_below X j -> stopped_below X' j.
Proof. intros [] Hs j' Hj. rewrite gr_count0. eauto. Qed.

Lemma grows_all_stopped i X X' : grows i X X' -> all_stopped X -> all_stopped X'.
Proof. intros [] Hs j. rewrite gr_count0. eauto. Qed.

Lemma grows_ended i X X' : grows i X X' -> ended X i -> ended X' i.
Proof.
  intros G (r & Hr & He). pose proof G as []. exists r. rewrite gr_out0. split; [done|]. intros e Ee.
  destruct (He e Ee) as [Hf Ha]. split; [auto|]. rewrite gr_policy0. intros Hp. by eapply grows_all_stopped, Ha.
Qed.

Lemma grows_thread_ok i X X' t : grows i X X' -> thread_ok X i t -> thread_ok X' i t.
Proof.
  intros G. pose proof G as []. destruct t; cbn; rewrite ?gr_registry0, ?gr_out0; try done.
  - intros (? & (e & ? & ?) & ?). split_and!; [done|eauto|by eapply grows_stopped_below].
  - intros []. split; [done|]. by eapply grows_ended.
  - intros []. split; [done|]. by eapply grows_ended.
Qed.

(** Steps that touch loops, kernel, owner and watchdog only. *)
Lemma ExecInv_loops X X' Y :
  ExecInv X -> loops_only X X' ->
  worlds Y = worlds X' -> threads Y = threads X -> outcomes Y = outcomes X -> faults Y = faults X -> policy Y = policy X ->
  registry Y = registry X -> store Y = store X -> main_ok Y -> dog_ok Y -> ExecInv Y.
Proof.
  intros I L Ew Et Eo Ef Ep Er Es Hm Hd.
  assert (forall i, grows i X Y) as G.
  { intros i. destruct (grows_loops i _ _ L) as [C _ F _ _ _]. split; unfold core_count, flag in *; rewrite ?Ew, ?Ef, ?Er, ?Eo; done. }
  destruct I. assert (core_count Y = core_count X) as C by apply (G 0%nat). split; rewrite ?C, ?Es, ?Et, ?Eo, ?Ef; try done.
  destruct inv_threads0 as [[Hn Ha]|[Hl Ha]]; [left|right]; (split; [done|]).
  - intros i Hi. rewrite Er. destruct (Ha i Hi) as [Hr He]. split; [done|]. by eapply grows_ended.
  - intros i t Hi. eapply grows_thread_ok; [done|by apply Ha].
Qed.

(** A step of worker [i] from [t] to [t']. *)
Lemma ExecInv_worker X X' i t t' :
  ExecInv X -> threads X !! i = Some t -> t <> Exited ->
  (forall i', i' <> i -> grows i' X X') -> threads X' = <[i := t']> (threads X) -> thread_ok X' i t' ->
  dom (store X') = dom (store X) -> main X' = main X -> dog X' = dog X ->
  (forall e, e ∈ faults X' -> exists i, outcomes X' !! i = Some (Err e)) -> ExecInv X'.
Proof.
  intros [] Hi Ht G Et Ok' Es Em Ed Hf. destruct inv_threads0 as [[Hn _]|[Hl Ha]]; [rewrite Hn in Hi; done|].
  assert (i < core_count X)%nat as Hlt by (rewrite <- Hl; by eapply lookup_lt_Some).
  pose proof (G (S i) ltac:(lia)) as G1. pose proof (gr_count _ _ _ G1) as C.
  split; rewrite ?C; try done.
  - intros j Hj. apply elem_of_dom. rewrite Es. apply elem_of_dom. auto.
  - right. rewrite Et, length_insert. split; [done|]. intros j u. destruct (decide (j = i)) as [->|Hne].
    + rewrite list_lookup_insert_eq by lia. by intros [= <-].
    + rewrite list_lookup_insert_ne by done. intros Hu. eapply grows_thread_ok; [by apply G|by apply Ha].
  - intros j r Hr. destruct (decide (j = i)) as [->|Hne]; [done|]. rewrite (gr_out _ _ _ (G j Hne)) in Hr. eauto.
  - unfold main_ok in *. rewrite Em. assert (threads X <> []) as Hne by (intros Hn; rewrite Hn in Hi; done).
    destruct (main X) as [|op j|op j|op j|op r|op r]; try done.
    + destruct inv_main0. split; [done|]. by eapply grows_stopped_below.
    + destruct inv_main0 as [Ha' Hj]. split; [pose proof (grows_all_stopped _ _ _ G1); naive_solver|]. intros j' Hj'. rewrite Et.
      destruct (decide (j' = i)) as [->|Hne']; [|rewrite list_lookup_insert_ne by done; auto].
      destruct (Hj i Hj') as [He|He]; congruence.
    + naive_solver.
    + destruct op; try done; [by eapply grows_all_stopped|by destruct inv_main0..].
  - unfold dog_ok in *. rewrite Ed. destruct (dog X); try done. by eapply grows_stopped_below.
Qed.

Lemma main_ok_loops X X' : loops_only X X' -> main_ok X -> main_ok X'.
Proof.
  intros L. pose proof (grows_loops 0 _ _ L) as G. pose proof (fun j => grows_stopped_below 0 X X' j) as Hb.
  pose proof (grows_all_stopped 0 _ _ G) as Ha. destruct L as [_ _ (ws & k & ->)]. unfold main_ok. cbn.
  destruct (main X) as [|op j|op j|op j|op r|op r]; try done; [intros []; split; [done|by eapply Hb]|naive_solver|].
  destruct op; try done. intros []. auto.
Qed.

Lemma dog_ok_loops X X' : loops_only X X' -> dog_ok X -> dog_ok X'.
Proof.
  intros L. pose proof (fun j => grows_stopped_below 0 X X' j) as Hb. pose proof (grows_loops 0 _ _ L) as G.
  destruct L as [_ _ (ws & k & ->)]. unfold dog_ok. cbn. destruct (dog X); try done. by eapply Hb.
Qed.

Lemma ExecInv_loops_only X X' : ExecInv X -> loops_only X X' -> ExecInv X'.
Proof.
  intros I L. pose proof (main_ok_loops _ _ L (inv_main _ I)). pose proof (dog_ok_loops _ _ L (inv_dog _ I)).
  eapply (ExecInv_loops X X' X'); try done; destruct L as [_ _ (ws & k & ->)]; done.
Qed.

(** Marking a loop as installed or not. *)
Lemma installed_loops X i W b k :
  worlds X !! i = Some W -> loops_only X (set_worlds (<[i := set_installed b W]> (worlds X)) k X).
Proof. intros Hi. by eapply loops_only_insert. Qed.

Lemma stopped_below_S X X' j : loops_only X X' -> flag X' j = Some true -> stopped_below X j -> stopped_below X' (S j).
Proof.
  intros L Hj Hb j' Hlt Hn. destruct (decide (j' = j)) as [->|]; [done|].
  eapply (grows_stopped_below 0); [by apply grows_loops|exact Hb|lia|done].
Qed.

Lemma stopped_below_all X j : (core_count X <= j)%nat -> stopped_below X j -> all_stopped X.
Proof. intros Hj Hb j' Hlt. apply Hb; lia. Qed.

Lemma ExecInv_turn X X' i c :
  ExecInv X -> on_loop i (loop_turn resume) X = Some (c, X') -> ExecInv X'.
Proof.
  intros I E. eapply ExecInv_loops_only; [done|]. eapply on_loop_only; [|exact E]. intros W a W'. apply loop_turn_stop.
Qed.

(** [run()] returns [res] on core [i]. *)
Lemma ExecInv_return X i W res k :
  ExecInv X -> threads X !! i = Some Running -> worlds X !! i = Some W ->
  ExecInv (set_thread i (match res with Err e => Failed e | Ok _ => Leaving end)
    (set_outcome i res (set_worlds (<[i := set_installed false W]> (worlds X)) k X))).
Proof.
  intros I Hi HW. pose proof (installed_loops X i W false k HW) as L. pose proof I as [_ Ht _ Hf _ _].
  destruct Ht as [[Hn _]|[_ Ha]]; [rewrite Hn in Hi; done|]. destruct (Ha _ _ Hi) as [Hr Ho].
  eapply (ExecInv_worker X _ i Running); [done|done|done| |done| |done..|].
  - intros i' Hne. destruct (grows_loops i' _ _ L). split; try done. cbn. by rewrite lookup_insert_ne.
  - destruct res as [u|e]; cbn; (split; [done|]); [|by rewrite lookup_insert_eq].
    exists (Ok u). cbn. rewrite lookup_insert_eq. by split.
  - intros e (i' & He)%Hf. exists i'. cbn. rewrite lookup_insert_ne; [done|]. congruence.
Qed.

(** The error of core [i] is recorded. *)
Lemma ExecInv_fault X i e st es :
  ExecInv X -> threads X !! i = Some (Failed e) -> dom st = dom (store X) ->
  ExecInv (set_thread i (match policy X with FailFast => StopOthers 0 | LogOnly => Leaving end)
    (set_faults (faults X ++ [e]) (set_diag (registry X) st es X))).
Proof.
  intros I Hi Hst. pose proof I as [_ Ht _ Hf _ _].
  destruct Ht as [[Hn _]|[_ Ha]]; [rewrite Hn in Hi; done|]. destruct (Ha _ _ Hi) as [Hr Ho].
  eapply (ExecInv_worker X _ i (Failed e)); [done|done|done| |done| |done..|].
  - intros i' Hne. split; try done. cbn. intros e' He'. apply elem_of_app. by left.
  - destruct (policy X) eqn:Ep; cbn; (split; [done|]).
    + split; [|intros j' Hj'; lia]. exists e. split; [done|]. set_solver.
    + exists (Err e). split; [done|]. cbn. intros e' [= <-]. split; [set_solver|congruence].
  - cbn. intros e' [He'| ->%list_elem_of_singleton]%elem_of_app; [by apply Hf|eauto].
Qed.

Lemma ExecInv_worker_step i X X' : worker_step resume thread_init teardown i X = Some X' -> ExecInv X -> ExecInv X'.
Proof.
  intros E I. unfold worker_step in E. destruct (threads X !! i) as [t|] eqn:Hi; [|done]. cbn [mbind option_bind] in E.
  pose proof I as [Hst Ht _ Hf _ _]. destruct Ht as [[Hn _]|[Hlen Ha]]; [rewrite Hn in Hi; done|].
  assert (i < core_count X)%nat as Hlt by (rewrite <- Hlen; by eapply lookup_lt_Some).
  pose proof (Ha _ _ Hi) as Hok. destruct t as [| |e|j| |].
  - destruct (worlds X !! i) as [W|] eqn:HW; [|done]. injection E as <-.
    pose proof (installed_loops X i W true (thread_init i (kernel X)) HW) as L.
    eapply (ExecInv_worker X _ i Spawned Running); [done|done|done| |done| |done..].
    + intros i' Hne. destruct (grows_loops i' _ _ L). split; try done. cbn. unfold Diag.registry_add.
      rewrite elem_of_app, list_elem_of_singleton. naive_solver.
    + destruct Hok. split; [cbn; unfold Diag.registry_add; set_solver|done].
  - destruct (on_loop i (loop_turn resume) X) as [[c X1]|] eqn:Eo; [|done]. cbn [mbind option_bind] in E.
    pose proof (ExecInv_turn _ _ _ _ I Eo) as I1. apply on_loop_spec in Eo as (W & W' & HW & _ & ->).
    destruct c as [|res]; [by injection E as <-|]. cbn in E.
    destruct (<[i := W']> (worlds X) !! i) as [V|] eqn:HV; [|done]. cbn in E. injection E as <-.
    by apply (ExecInv_return _ i V res (kern W') I1).
  - unfold Diag.count in E. destruct (Hst i Hlt) as [m Hm]. rewrite Hm in E. cbn [mbind option_bind] in E. injection E as <-.
    apply (ExecInv_fault X i e); [done|done|]. apply dom_insert_lookup_L. eauto.
  - destruct (Nat.ltb_spec j (core_count X)).
    + destruct (stop_loop j X) as [X1|] eqn:Es; [|done]. cbn in E. injection E as <-.
      apply stop_loop_only in Es as [L Hj]. pose proof (stopped_below_S _ _ _ L Hj) as HS.
      destruct Hok as (Hr & He & Hb). specialize (HS Hb). pose proof (fun i => grows_loops i _ _ L) as G.
      destruct L as [_ _ (ws & k & ->)].
      eapply (ExecInv_worker X (set_thread i (StopOthers (S j)) (set_worlds ws k X)) i (StopOthers j)); try done.
      intros i' _. destruct (G i'). by split.
    + injection E as <-. destruct Hok as (Hr & (e & He & Hef) & Hb).
      eapply (ExecInv_worker X _ i (StopOthers j)); [done|done|done|done|done| |done..]. split; [done|]. exists (Err e).
      split; [done|]. intros e' [= <-]. split; [done|]. intros _. by eapply stopped_below_all.
  - injection E as <-. destruct Hok as [Hr He].
    eapply (ExecInv_worker X _ i Leaving); [done|done|done| |done| |done..].
    + intros i' Hne. split; try done. cbn. rewrite DiagProps.registry_remove_elem. naive_solver.
    + split; [cbn; rewrite DiagProps.registry_remove_elem; naive_solver|exact He].
  - done.
Qed.

Lemma loops_only_refl X : loops_only X X.
Proof. split; [done..|]. exists (worlds X), (kernel X). by destruct X. Qed.

(** The owner's and the watchdog's program counters. *)
Lemma ExecInv_set_main X m : ExecInv X -> main_ok (set_main m X) -> ExecInv (set_main m X).
Proof. intros I Hm. apply (ExecInv_loops X X); try done; [apply loops_only_refl|apply I]. Qed.

Lemma ExecInv_set_dog X d b : ExecInv X -> dog_ok (set_dog d b X) -> ExecInv (set_dog d b X).
Proof. intros I Hd. apply (ExecInv_loops X X); try done; [apply loops_only_refl|apply I]. Qed.

(** [threads_.clear()] after every thread was joined. *)
Lemma ExecInv_clear X : ExecInv X -> Forall (.= Exited) (threads X) -> main_ok (set_threads [] X) -> ExecInv (set_threads [] X).
Proof.
  intros [] Hall Hm. split; try done. left. split; [done|]. intros i. change (core_count (set_threads [] X)) with (core_count X).
  intros Hi. destruct inv_threads0 as [[_ Ha]|[Hl Ha]]; [by apply Ha|].
  destruct (lookup_lt_is_Some_2 (threads X) i) as [t Ht]; [lia|]. pose proof (Ha _ _ Ht) as Hok.
  by rewrite (proj1 (Forall_lookup _ _) Hall _ _ Ht) in Hok.
Qed.

Lemma joined_all X op j : ExecInv X -> main X = MJoin op j -> threads X !! j = None -> Forall (.= Exited) (threads X).
Proof.
  intros I Em Hj. pose proof (inv_main _ I) as Hm. unfold main_ok in Hm. rewrite Em in Hm. destruct Hm as [_ Hex].
  apply Forall_lookup. intros i t Ht. destruct (Hex i) as [He|He]; [|congruence..].
  apply lookup_ge_None in Hj. apply lookup_lt_Some in Ht. lia.
Qed.

Lemma ExecInv_join_end X op j :
  ExecInv X -> main X = MJoin op j -> threads X !! j = None ->
  ExecInv (match op with
           | OpGraceful _ => set_main (MWaitDog op (first_fault X)) (set_dog (dog X) true (set_threads [] X))
           | OpStopAndJoin => set_main (MReturned op (Ok tt)) (set_threads [] X)
           | _ => set_main (MReturned op (first_fault X)) (set_threads [] X)
           end).
Proof.
  intros I Em Hj. pose proof (joined_all _ _ _ I Em Hj) as Hall. pose proof (inv_main _ I) as Hm. unfold main_ok in Hm.
  rewrite Em in Hm. destruct Hm as [Hop _].
  assert (ExecInv (set_threads [] X)) as I1.
  { apply ExecInv_clear; [done|done|]. unfold main_ok. cbn. rewrite Em. split; [exact Hop|by right]. }
  destruct Hop as [->|[[-> Ha]|[d ->]]].
  - by apply ExecInv_set_main.
  - apply ExecInv_set_main; [done|]. by split.
  - apply ExecInv_set_main; [apply ExecInv_set_dog; [done|exact (inv_dog _ I1)]|]. unfold main_ok. cbn. eauto.
Qed.

Lemma ExecInv_main_step now X X' : main_step now X = Some X' -> ExecInv X -> ExecInv X'.
Proof.
  intros E I. pose proof (inv_main _ I) as Hm. unfold main_step, main_ok in *.
  destruct (main X) as [|op j|op j|op j|op r|op r] eqn:Em; try done.
  - destruct Hm as [Hop Hm]. destruct (Nat.ltb_spec j (core_count X)).
    + destruct (stop_loop j X) as [X1|] eqn:Es; [|done]. cbn in E. injection E as <-. apply stop_loop_only in Es as [L Hj].
      apply ExecInv_set_main; [by eapply ExecInv_loops_only|]. split; [done|]. exact (stopped_below_S X X1 j L Hj ltac:(assumption)).
    + injection E as <-. apply stopped_below_all in Hm; [|done]. apply ExecInv_set_main; [done|].
      unfold main_ok. cbn. destruct Hop as [-> | ->]; [done|]. split; [by right; left|intros i Hi; lia].
  - destruct (Nat.ltb_spec j (core_count X)).
    + destruct (drain_loop j X) as [X1|] eqn:Es; [|done]. cbn in E. injection E as <-. apply drain_loop_only in Es.
      apply ExecInv_set_main; [by eapply ExecInv_loops_only|done].
    + destruct Hm as [->|[d ->]]; injection E as <-; [by apply ExecInv_set_main|].
      apply ExecInv_set_main; [by apply ExecInv_set_dog|]. split; [eauto|intros i Hi; lia].
  - destruct (threads X !! j) as [t|] eqn:Et.
    + destruct t; try done. injection E as <-. apply ExecInv_set_main; [done|]. destruct Hm as [Ha Hex]. split; [exact Ha|].
      intros i Hi. destruct (decide (i = j)) as [->|]; [by left|]. apply Hex. lia.
    + injection E as <-. by apply (ExecInv_join_end X op j).
  - destruct (dog X); try done. injection E as <-. apply ExecInv_set_main; [by apply ExecInv_set_dog|].
    destruct Hm as ([d ->] & Hm). exact Hm.
Qed.

Lemma ExecInv_dog_step now X X' : dog_step now X = Some X' -> ExecInv X -> ExecInv X'.
Proof.
  intros E I. pose proof (inv_dog _ I) as Hd. unfold dog_step, dog_ok in *. destruct (dog X) as [|end_|j|] eqn:Ed; try done.
  - injection E as <-. apply ExecInv_set_dog; [done|]. unfold dog_ok. cbn.
    destruct (now <? end_); [by destruct (drained X)|]. intros j' Hj'. lia.
  - destruct (Nat.ltb_spec j (core_count X)).
    + destruct (stop_loop j X) as [X1|] eqn:Es; [|done]. cbn in E. injection E as <-. apply stop_loop_only in Es as [L Hj].
      apply ExecInv_set_dog; [by eapply ExecInv_loops_only|]. exact (stopped_below_S X X1 j L Hj ltac:(assumption)).
    + injection E as <-. by apply ExecInv_set_dog.
Qed.

Lemma ExecInv_step X X' : exec_step resume thread_init teardown X X' -> ExecInv X -> ExecInv X'.
Proof.
  destruct 1 as [i X X' E|now X X' E|now X X' E|op X X' E|j W W' k X Hj HW]; intros I.
  - by eapply ExecInv_worker_step.
  - by eapply ExecInv_main_step.
  - by eapply ExecInv_dog_step.
  - unfold call in E. assert (main_ok (set_main (match op with
      | OpStop | OpStopAndJoin => MStop op 0 | OpRequestGraceful | OpGraceful _ => MDrain op 0 | OpJoin => MJoin op 0 end) X)) as Hm.
    { unfold main_ok. destruct op; cbn; eauto; (split; [eauto|intros j' Hj'; lia]). }
    destruct (main X); try done; injection E as <-; by apply ExecInv_set_main.
  - eapply ExecInv_loops_only; [done|]. by eapply loops_only_insert.
Qed.

Lemma ExecInv_reachable X0 X : exec_reachable resume thread_init teardown X0 X -> ExecInv X0 -> ExecInv X.
Proof. induction 1; [done|]. intros I. eapply ExecInv_step; eauto. Qed.

(** ** Starting *)

(** An executor that was created and not yet run; [policy] may have been set. *)
Record unstarted (X : Exec K) : Prop := {
  un_threads : threads X = [];
  un_outcomes : outcomes X = ∅;
  un_faults : faults X = [];
  un_main : main X = MIdle;
  un_dog : dog X = NoDog;
  un_registry i : (i < core_count X)%nat -> i ∉ registry X;
}.

Lemma on_loop_frame {A} j (f : World K -> option (A * World K)) X a X' :
  on_loop j f X = Some (a, X') -> exists ws k, X' = set_worlds ws k X /\ length ws = length (worlds X).
Proof. intros (W & W' & _ & _ & ->)%on_loop_spec. eexists _, _. split; [done|]. apply length_insert. Qed.

Lemma setup_loop_frame setup n : forall i (X : Exec K) r X',
  setup_loop setup n i X = Some (r, X') -> exists ws k, X' = set_worlds ws k X /\ length ws = length (worlds X).
Proof.
  induction n as [|n IH]; intros i X r X'; cbn.
  - intros [= <- <-]. exists (worlds X), (kernel X). by destruct X.
  - destruct (on_loop i (setup i) X) as [[[u|e] X1]|] eqn:E; [| |done]; cbn; apply on_loop_frame in E as (ws & k & -> & Hl).
    + intros (ws2 & k2 & -> & Hl2)%IH. exists ws2, k2. split; [done|]. by rewrite Hl2.
    + intros [= <- <-]. eauto.
Qed.

Lemma setup_loop_error setup n : forall i (X : Exec K) e X',
  setup_loop setup n i X = Some (Err e, X') ->
  exists j W W', (i <= j < i + n)%nat /\ setup j W = Some (Err e, W') /\
    forall j', (j < j')%nat -> worlds X' !! j' = worlds X !! j'.
Proof.
  induction n as [|n IH]; intros i X e X'; cbn; [done|].
  destruct (on_loop i (setup i) X) as [[[u|e'] X1]|] eqn:E; [| |done]; cbn; apply on_loop_spec in E as (W & W' & Hi & E & ->).
  - intros (j & V & V' & Hj & Ej & Hr)%IH. exists j, V, V'. split; [lia|]. split; [done|]. intros j' Hj'. rewrite Hr by done.
    cbn. rewrite list_lookup_insert_ne by lia. done.
  - intros [= <- <-]. exists i, (set_kern (kernel X) W), W'. split; [lia|]. split; [done|]. intros j' Hj'. cbn.
    rewrite list_lookup_insert_ne by lia. done.
Qed.

(** Stopping loop [j], one loop at a time: only its stop flag changes. *)
Lemma stop_loop_world j X X' i W :
  stop_loop j X = Some X' -> worlds X !! i = Some W ->
  exists V, worlds X' !! i = Some V /\ mem V = mem W /\
    loop V = if decide (i = j) then set_stop_requested true (loop W) else loop W.
Proof.
  unfold stop_loop. destruct (on_loop j _ X) as [[u X1]|] eqn:E; [|done]. intros [= <-] Hi.
  apply on_loop_spec in E as (W0 & W' & Hj & [= _ <-] & ->). cbn. destruct (decide (i = j)) as [->|Hne].
  - rewrite list_lookup_insert_eq by (by eapply lookup_lt_Some). eexists. split; [done|].
    assert (W0 = W) as -> by congruence. unfold EventLoop.request_stop. rewrite wake_if_open_loop. split; [|done].
    unfold wake_if_open, wake_owner. destruct (0 <=? _); [|done]. by destruct (eventfd_write _ _) as [[] ?].
  - rewrite list_lookup_insert_ne by done. eauto.
Qed.

Lemma stop_all_spec n : forall j (X : Exec K) X', stop_all n j X = Some X' ->
  loops_only X X' /\ (forall i, (j <= i < j + n)%nat -> flag X' i = Some true) /\
  (forall i W, worlds X !! i = Some W -> exists V, worlds X' !! i = Some V /\ mem V = mem W /\
     loop V = if decide (j <= i < j + n)%nat then set_stop_requested true (loop W) else loop W).
Proof.
  induction n as [|n IH]; intros j X X'; cbn.
  - intros [= <-]. split_and!; [apply loops_only_refl|lia|]. intros i W Hi. rewrite decide_False by lia. eauto.
  - destruct (stop_loop j X) as [X1|] eqn:E; [|done]. cbn. intros (L2 & F2 & W2)%IH.
    pose proof (stop_loop_only _ _ _ E) as [L1 F1]. split_and!.
    + by eapply loops_only_trans.
    + intros i Hi. destruct (decide (i = j)) as [->|]; [by apply L2|apply F2; lia].
    + intros i W Hi. destruct (stop_loop_world _ _ _ _ _ E Hi) as (V & HV & Em & El).
      destruct (W2 _ _ HV) as (V' & HV' & Em' & El'). exists V'. split_and!; [done|congruence|]. rewrite El', El.
      repeat case_decide; try lia; done.
Qed.

Lemma run_started setup X X0 :
  unstarted X -> run setup X = Some (Ok tt, X0) ->
  ExecInv X0 /\ core_count X0 = core_count X /\ policy X0 = policy X /\ threads X0 = replicate (core_count X) Spawned.
Proof.
  intros [] E. unfold run in E. destruct (ignore_sigpipe (kernel X)) as [[u|e] k]; [|done].
  destruct (setup_loop setup _ 0 _) as [[[u'|e'] X1]|] eqn:Es; cbn [mbind option_bind] in E; [|by destruct (stop_all _ _ _)|done].
  apply setup_loop_frame in Es as (ws & k1 & -> & Hl). injection E as <-. cbn in Hl.
  unfold core_count. cbn. rewrite Hl. split_and!; [|done..].
  split; unfold core_count; cbn; rewrite ?Hl.
  - intros i Hi. apply elem_of_dom. rewrite dom_list_to_map_L. apply elem_of_list_to_set.
    rewrite <- list_fmap_compose. apply list_elem_of_fmap. exists i. split; [done|]. apply elem_of_seq. lia.
  - right. rewrite length_replicate. split; [done|]. intros i t [-> Hi]%lookup_replicate_1. split; cbn.
    + by apply un_registry0.
    + by rewrite un_outcomes0.
  - intros i r. by rewrite un_outcomes0.
  - intros e. by rewrite un_faults0; intros []%not_elem_of_nil.
  - unfold main_ok. cbn. by rewrite un_main0.
  - unfold dog_ok. cbn. by rewrite un_dog0.
Qed.


(** ** Failing *)

(** The default fault policy.  Under [FailFast], in every reachable state, a
    core whose [run()] returned an error and whose worker has gone through its
    handler has that error recorded, and every loop of the executor has been
    asked to stop; under either policy the error is recorded. *)
Theorem fail_fast_stops_all setup X0 X1 X i e :
  unstarted X0 -> run setup X0 = Some (Ok tt, X1) -> exec_reachable resume thread_init teardown X1 X ->
  outcomes X !! i = Some (Err e) -> threads X !! i = Some Leaving \/ threads X !! i = Some Exited \/ threads X = [] ->
  e ∈ faults X /\ (policy X = FailFast -> forall j, (j < core_count X)%nat -> flag X j = Some true).
Proof.
  intros U E R Ho Ht. apply run_started in E as (I1 & _); [|done]. pose proof (ExecInv_reachable _ _ R I1) as I.
  assert (ended X i) as (r & Hr & He).
  { destruct (inv_threads _ I) as [[Hn Ha]|[Hl Ha]]; [by apply Ha; eapply (inv_out _ I)|].
    destruct Ht as [Ht|[Ht|Ht]]; [by apply (Ha _ _ Ht)..|]. apply (inv_out _ I) in Ho as Hi. rewrite Ht in Hl. cbn in Hl. lia. }
  rewrite Ho in Hr. injection Hr as <-. by apply He.
Qed.

(** ** Joining *)

(** C19: [join] and [graceful_stop] tell the truth.  When one of them has
    returned, in any interleaving, [run()] has returned on every core, no worker
    is left, no counters of this executor are registered any more (a scraper
    cannot reach them), and the result is success exactly when every core
    succeeded; a reported error is that of some core, the first recorded one. *)
Theorem join_reports_faults setup X0 X1 X op r :
  unstarted X0 -> run setup X0 = Some (Ok tt, X1) -> exec_reachable resume thread_init teardown X1 X ->
  main X = MReturned op r -> op = OpJoin \/ (exists d, op = OpGraceful d) ->
  threads X = [] /\
  (forall i, (i < core_count X)%nat -> is_Some (outcomes X !! i) /\ i ∉ registry X) /\
  (r = Ok tt <-> forall i, (i < core_count X)%nat -> outcomes X !! i = Some (Ok tt)) /\
  (forall e, r = Err e -> head (faults X) = Some e /\ exists i, outcomes X !! i = Some (Err e)).
Proof.
  intros U E R Em Hop. apply run_started in E as (I1 & _); [|done]. pose proof (ExecInv_reachable _ _ R I1) as I.
  pose proof (inv_main _ I) as Hm. unfold main_ok in Hm. rewrite Em in Hm.
  assert (threads X = [] /\ r = first_fault X) as [Ht ->] by (destruct Hop as [->|[d ->]]; exact Hm).
  assert (forall i, (i < core_count X)%nat -> (i ∉ registry X) /\ ended X i) as Ha.
  { destruct (inv_threads _ I) as [[_ Ha]|[Hl _]]; [done|]. rewrite Ht in Hl. cbn in Hl. intros i Hi. lia. }
  assert (forall e, e ∈ faults X -> exists i, outcomes X !! i = Some (Err e)) as Hf by apply I.
  split_and!; [done|..].
  - intros i Hi. destruct (Ha i Hi) as [Hr (r & Ho & _)]. by rewrite Ho.
  - unfold first_fault. split.
    + destruct (faults X) as [|e fs] eqn:Ef; [|done]. intros _ i Hi. destruct (Ha i Hi) as [_ (r & Ho & He)].
      destruct r as [[]|e]; [done|]. destruct (He e eq_refl) as [Hin _]. rewrite Ef in Hin. by apply not_elem_of_nil in Hin.
    + intros Hall. destruct (faults X) as [|e fs] eqn:Ef; [done|]. destruct (Hf e) as [i Hi]; [constructor|].
      rewrite Hall in Hi by (by eapply (inv_out _ I)). done.
  - unfold first_fault. intros e. destruct (faults X) as [|e' fs] eqn:Ef; [done|]. intros [= ->].
    split; [done|]. apply Hf. constructor.
Qed.

(** ** Stopping *)

(** The steps a worker has left once every loop is stopped. *)
Definition thread_weight (n : nat) (t : Thread) : nat :=
  match t with
  | Spawned => 3
  | Running => 2
  | Failed _ => n + 3
  | StopOthers j => (n - j) + 2
  | Leaving => 1
  | Exited => 0
  end.

Definition weight (X : Exec K) : nat := sum_list (thread_weight (core_count X) <$> threads X).

Lemma sum_list_insert (f : Thread -> nat) (l : list Thread) i t t' :
  l !! i = Some t -> (f t' < f t)%nat -> (sum_list (f <$> <[i := t']> l) < sum_list (f <$> l))%nat.
Proof.
  revert i. induction l as [|x l IH]; intros i Hi Hlt; [done|]. destruct i as [|i]; cbn in *.
  - injection Hi as ->. lia.
  - by apply Nat.add_lt_mono_l, IH.
Qed.

Lemma set_thread_lighter X Y i t t' :
  threads X !! i = Some t -> core_count Y = core_count X -> threads Y = threads X ->
  (thread_weight (core_count X) t' < thread_weight (core_count X) t)%nat -> (weight (set_thread i t' Y) < weight X)%nat.
Proof.
  intros Hi C Et Hw. unfold weight. change (core_count (set_thread i t' Y)) with (core_count Y). rewrite C. cbn. rewrite Et.
  by eapply sum_list_insert.
Qed.

Lemma stopped_worker_step X i t :
  ExecInv X -> all_stopped X -> threads X !! i = Some t -> t <> Exited ->
  exists X', worker_step resume thread_init teardown i X = Some X' /\ all_stopped X' /\ (weight X' < weight X)%nat.
Proof.
  intros I Hs Hi Ht. pose proof (inv_threads _ I) as [[Hn _]|[Hlen Ha]]; [rewrite Hn in Hi; done|].
  assert (i < core_count X)%nat as Hlt by (rewrite <- Hlen; by eapply lookup_lt_Some).
  destruct (lookup_lt_is_Some_2 (worlds X) i Hlt) as [W HW]. unfold worker_step. rewrite Hi. cbn [mbind option_bind].
  destruct t as [| |e|j| |]; [..|done].
  - rewrite HW. cbn [mbind option_bind]. eexists. split; [reflexivity|].
    pose proof (installed_loops X i W true (thread_init i (kernel X)) HW) as L. split.
    + exact (grows_all_stopped 0 _ _ (grows_loops 0 _ _ L) Hs).
    + eapply set_thread_lighter; [done|exact (lo_count _ _ L)|done|cbn; lia].
  - pose proof (Hs i Hlt) as Hf. unfold flag in Hf. rewrite HW in Hf. cbn in Hf. injection Hf as Hf.
    unfold on_loop. rewrite HW. cbn [mbind option_bind]. unfold loop_turn. cbn [set_kern loop]. rewrite Hf. cbn.
    rewrite list_lookup_insert_eq by done. cbn. eexists. split; [reflexivity|].
    assert (loops_only X (set_worlds (<[i := set_installed false (set_kern (kernel X) W)]> (<[i := set_kern (kernel X) W]> (worlds X))) (kernel X) X)) as L.
    { rewrite list_insert_insert_eq. by eapply loops_only_insert. }
    split; [exact (grows_all_stopped 0 _ _ (grows_loops 0 _ _ L) Hs)|].
    eapply set_thread_lighter; [done|exact (lo_count _ _ L)|done|cbn; lia].
  - unfold Diag.count. destruct (inv_store _ I i Hlt) as [m Hm]. rewrite Hm. cbn [mbind option_bind]. eexists. split; [reflexivity|].
    split; [exact Hs|]. eapply set_thread_lighter; [done|done|done|cbn; destruct (policy X); cbn; lia].
  - destruct (Nat.ltb_spec j (core_count X)).
    + destruct (stop_loop_spec j X) as [X1 E]; [done|]. rewrite E. cbn. apply stop_loop_only in E as [L _].
      eexists. split; [reflexivity|]. split; [exact (grows_all_stopped 0 _ _ (grows_loops 0 _ _ L) Hs)|].
      eapply set_thread_lighter; [done|exact (lo_count _ _ L)| |cbn; lia]. by destruct L as [_ _ (ws & k & ->)].
    + eexists. split; [reflexivity|]. split; [exact Hs|]. eapply set_thread_lighter; [done|done|done|cbn; lia].
  - eexists. split; [reflexivity|]. split; [exact Hs|]. eapply set_thread_lighter; [done|done|done|cbn; lia].
Qed.

(** C20: stopping works.  When [stop] has returned, when [stop_and_join] is
    joining, or when the watchdog of [graceful_stop] has run through its hard
    stop, every loop has been asked to stop.  From then on every worker that is
    still there can step, each of its steps leads closer to its end (at most
    [weight] steps remain in all), and once the workers have exited [join] goes
    on. *)
Theorem stop_ends_workers setup X0 X1 X :
  unstarted X0 -> run setup X0 = Some (Ok tt, X1) -> exec_reachable resume thread_init teardown X1 X ->
  (exists r, main X = MReturned OpStop r) \/ (exists j, main X = MJoin OpStopAndJoin j) \/
    dog X = DogStop (core_count X) \/ all_stopped X ->
  all_stopped X /\
  (forall i t, threads X !! i = Some t -> t <> Exited ->
     exists X', worker_step resume thread_init teardown i X = Some X' /\ all_stopped X' /\ (weight X' < weight X)%nat) /\
  (forall op j now, main X = MJoin op j -> Forall (.= Exited) (threads X) -> is_Some (main_step now X)).
Proof.
  intros U E R Hst. apply run_started in E as (I1 & _); [|done]. pose proof (ExecInv_reachable _ _ R I1) as I.
  assert (all_stopped X) as Hs.
  { pose proof (inv_main _ I) as Hm. pose proof (inv_dog _ I) as Hd. unfold main_ok, dog_ok in *.
    destruct Hst as [[r Em]|[[j Em]|[Ed|Hs]]]; [rewrite Em in Hm; exact Hm|rewrite Em in Hm; naive_solver| |exact Hs].
    rewrite Ed in Hd. by eapply stopped_below_all. }
  split_and!; [done|..].
  - intros i t. by apply stopped_worker_step.
  - intros op j now Em Hall. unfold main_step. rewrite Em. destruct (threads X !! j) as [t|] eqn:Et; [|eauto].
    rewrite (proj1 (Forall_lookup _ _) Hall _ _ Et). eauto.
Qed.

(** ** Graceful stop from outside the loop *)

(** What running stop callbacks on a thread without an event loop leaves as it
    was: nothing is queued anywhere. *)
Record unqueued (W W' : World K) : Prop := {
  uq_installed : installed W' = installed W;
  uq_queue : ready_queue (loop W') = ready_queue (loop W);
  uq_ready : Reactor.ready (reactor (loop W')) = Reactor.ready (reactor (loop W));
  uq_timer : timer (loop W') = timer (loop W);
  uq_stops : stops W' = stops W;
  uq_waiter fd d : waiter (reactor (loop W')) fd d = waiter (reactor (loop W)) fd d \/ waiter (reactor (loop W')) fd d = None;
}.

Lemma unqueued_trans V W U : unqueued V W -> unqueued W U -> unqueued V U.
Proof.
  intros [] []. split; try congruence. intros fd d. destruct (uq_waiter0 fd d) as [E|E], (uq_waiter1 fd d) as [E'|E']; rewrite ?E'; auto.
Qed.

Definition io_callback (cb : Callback) (fd : Z) (d : Reactor.Dir) : Prop := cb_kind cb = CbIo fd (Reactor.dir_event d).

(** The callback finds no loop to notify. *)
Lemma cancel_offloop cb fd d v (W : World K) :
  installed W = false -> io_callback cb fd d -> ws_cells (mem W) !! cb_state cb = Some v ->
  exists W', run_callback cb W = Some W' /\ unqueued W W' /\
    (forall p, p <> cb_state cb -> ws_cells (mem W') !! p = ws_cells (mem W) !! p) /\
    (v = Pending -> ws_cells (mem W') !! cb_state cb = Some Cancelled /\ waiter (reactor (loop W')) fd d = None).
Proof.
  intros Hin Hk Hv. unfold run_callback. rewrite Hk. unfold cancel_io_wait. rewrite Hv. cbn [mbind option_bind].
  destruct (decide (v = Pending)) as [->|Hn].
  2:{ exists W. split_and!; [done| |done|done]. by split; try left. }
  unfold notify_handle, reactor_deregister. cbn [set_mem loop kern mem installed].
  destruct (Reactor.deregister_dir _ _ _ _) as [r k] eqn:E. apply deregister_dir_frame in E as (Hr & _ & Hw & _).
  cbn [set_kern set_loop set_mem installed]. rewrite Hin. cbn [andb]. eexists. split; [reflexivity|]. cbn. split_and!.
  - split; try done. cbn. intros fd' d'. rewrite Hw. case_decide; auto.
  - intros p Hp. by rewrite lookup_insert_ne.
  - intros _. rewrite lookup_insert_eq. split; [done|]. rewrite Hw, decide_True; [done|]. split; [done|]. by destruct d.
Qed.

Lemma callbacks_offloop cbs : forall W : World K,
  installed W = false -> NoDup (cb_state <$> cbs) ->
  Forall (fun cb => (exists fd d, io_callback cb fd d) /\ is_Some (ws_cells (mem W) !! cb_state cb)) cbs ->
  exists W', run_callbacks cbs W = Some W' /\ unqueued W W' /\
    (forall p, p ∉ cb_state <$> cbs -> ws_cells (mem W') !! p = ws_cells (mem W) !! p) /\
    (forall cb fd d, cb ∈ cbs -> io_callback cb fd d -> ws_cells (mem W) !! cb_state cb = Some Pending ->
       ws_cells (mem W') !! cb_state cb = Some Cancelled /\ waiter (reactor (loop W')) fd d = None).
Proof.
  induction cbs as [|cb cbs IH]; intros W Hin Hnd Hall; cbn.
  { exists W. split_and!; [done|by split; try left|done|]. by intros cb fd d []%not_elem_of_nil. }
  cbn in Hnd. apply NoDup_cons in Hnd as [Hnew Hnd]. apply Forall_cons in Hall as [[(fd & d & Hk) [v Hv]] Hall].
  destruct (cancel_offloop cb fd d v W Hin Hk Hv) as (W1 & -> & U1 & F1 & C1). cbn.
  destruct (IH W1) as (W2 & -> & U2 & F2 & C2); [by rewrite (uq_installed _ _ U1)|done| |].
  { apply Forall_forall. intros x Hx. destruct (proj1 (Forall_forall _ _) Hall x Hx) as [Hkx Hvx]. split; [done|].
    rewrite F1; [done|]. intros Ex. apply Hnew. rewrite <- Ex. by apply list_elem_of_fmap_2. }
  exists W2. split_and!; [done|by eapply unqueued_trans| |].
  - intros p [Hp1 Hp2]%not_elem_of_cons. by rewrite F2, F1.
  - intros x fd' d' [->|Hx]%elem_of_cons Hkx Hvx.
    + assert (v = Pending) as -> by congruence. destruct (C1 eq_refl) as [S1 D1].
      unfold io_callback in Hk, Hkx. rewrite Hk in Hkx. injection Hkx as <- Ed.
      assert (d' = d) as -> by (by destruct d, d'). rewrite F2 by done. split; [done|].
      destruct (uq_waiter _ _ U2 fd d) as [-> | ->]; done.
    + apply (C2 x); [done|done|]. rewrite F1; [done|]. intros Ex. apply Hnew. rewrite <- Ex. by apply list_elem_of_fmap_2.
Qed.

(** C21: a graceful stop requested from outside the loop strands its services.
    [Executor::request_graceful_stop] on the owner's thread runs the stop
    callbacks of loop [j] there, where [g_event_loop] is null: every service
    that waits for I/O is marked cancelled and its registration is removed, but
    its coroutine is put into no queue, and the callbacks are gone.  Nothing is
    left that could resume it, so the loop does not drain before it is stopped
    hard. *)
Theorem graceful_stop_strands_services X j W st :
  worlds X !! j = Some W -> stops W !! graceful_source (loop W) = Some st -> requested st = false ->
  NoDup (cb_state <$> callbacks st) ->
  Forall (fun cb => (exists fd d, io_callback cb fd d) /\ is_Some (ws_cells (mem W) !! cb_state cb)) (callbacks st) ->
  exists X' W', drain_loop j X = Some X' /\ worlds X' !! j = Some W' /\
    ready_queue (loop W') = ready_queue (loop W) /\
    Reactor.ready (reactor (loop W')) = Reactor.ready (reactor (loop W)) /\ timer (loop W') = timer (loop W) /\
    stops W' !! graceful_source (loop W) = Some (mkStop true []) /\
    (forall cb fd d, cb ∈ callbacks st -> io_callback cb fd d -> ws_cells (mem W) !! cb_state cb = Some Pending ->
       ws_cells (mem W') !! cb_state cb = Some Cancelled /\ waiter (reactor (loop W')) fd d = None).
Proof.
  intros Hj Hst Hreq Hnd Hall.
  set (W0 := set_stops (<[graceful_source (loop W) := mkStop true []]> (stops W)) (set_installed false (set_kern (kernel X) W))).
  destruct (callbacks_offloop (callbacks st) W0) as (W1 & E & U & _ & C); [done|done|done|].
  unfold drain_loop, on_loop. rewrite Hj. cbn [mbind option_bind]. unfold EventLoop.request_graceful_stop, Awaiters.request_stop.
  cbn [set_installed set_kern stops loop]. rewrite Hst. cbn [mbind option_bind]. rewrite Hreq.
  change (set_stops _ (set_installed false _)) with W0. rewrite E. cbn. eexists _, _. split; [reflexivity|].
  cbn. rewrite list_lookup_insert_eq by (by eapply lookup_lt_Some). split; [reflexivity|]. cbn.
  rewrite wake_if_open_loop. destruct U.
  assert (stops (wake_if_open W1) = stops W1 /\ mem (wake_if_open W1) = mem W1) as [-> ->].
  { unfold wake_if_open, wake_owner. destruct (0 <=? _); [|done]. by destruct (eventfd_write _ _) as [[] ?]. }
  split_and!; [done|done|done| |done]. rewrite uq_stops0. cbn. by rewrite lookup_insert_eq.
Qed.

(** ** Schedules *)

Inductive Actor := AWorker (i : nat) | AMain (now : Z) | ADog (now : Z) | ACall (op : Op).

Definition act (a : Actor) (X : Exec K) : option (Exec K) :=
  match a with
  | AWorker i => worker_step resume thread_init teardown i X
  | AMain now => main_step now X
  | ADog now => dog_step now X
  | ACall op => call op X
  end.

Fixpoint play (sched : list Actor) (X : Exec K) : option (Exec K) :=
  match sched with [] => Some X | a :: sched => X ← act a X; play sched X end.

Lemma play_reachable sched : forall X0 X X', exec_reachable resume thread_init teardown X0 X -> play sched X = Some X' ->
  exec_reachable resume thread_init teardown X0 X'.
Proof.
  induction sched as [|a sched IH]; intros X0 X X' R; cbn; [by intros [= <-]|].
  destruct (act a X) as [X1|] eqn:E; [|done]. cbn. apply IH. eapply exec_next; [exact R|].
  destruct a; [by eapply by_worker|by eapply by_main|by eapply by_dog|by eapply by_call].
Qed.

End Props.

(** ** Two cores in a kernel whose [epoll_wait] fails

    Core 0 has a task that never finishes, so its [run()] fails; core 1 is idle
    and its [run()] returns at once. *)

Section Witness.

Definition Broken : Type := unit.

#[local] Instance broken_epoll : Reactor.EpollKernel Broken := {
  epoll_create1 k := (SOk 3, k);
  epoll_ctl _ _ _ _ k := (SOk tt, k);
  epoll_wait _ _ _ k := (SErr EBADF, k);
  epoll_close _ k := (SOk tt, k);
}.
#[local] Instance broken_loop : LoopKernel Broken := {
  eventfd k := (SOk 4, k);
  eventfd_write _ k := (SOk tt, k);
  eventfd_read _ k := k;
  close_fd _ k := k;
  clock_now k := (0, k);
}.
#[local] Instance broken_proc : ProcKernel Broken := { sigaction_sigpipe_ignore k := (SOk tt, k) }.

Definition sleeper (f : nat) (W : World Broken) : option (World Broken) := Some W.

Definition one_task (i : nat) (W : World Broken) : option (Result unit * World Broken) :=
  match i with
  | O => Some (Ok tt, spawn (Some 7%nat) (set_mem (mkMem ∅ ∅ {[ 7%nat := false ]}) W))
  | _ => Some (Ok tt, W)
  end.

Definition same_kernel (i : nat) (k : Broken) : Broken := k.

Definition created : Exec Broken :=
  match create 2 [] (tt : Broken) with (Ok X, _) => X | (Err _, k) => make_exec [] [] k end.

Lemma created_unstarted : unstarted created.
Proof. split; try (vm_compute; reflexivity). intros i _. vm_compute. by intros []%not_elem_of_nil. Qed.

Lemma sleeper_stop : forall f (W W' : World Broken), sleeper f W = Some W' -> stopped W -> stopped W'.
Proof. by intros f W W' [= <-]. Qed.

Definition to_the_end : list Actor :=
  replicate 7 (AWorker 0) ++ replicate 3 (AWorker 1) ++ [ACall OpJoin] ++ replicate 3 (AMain 0).

(** A setup that fails on the second core. *)
Definition second_fails (i : nat) (W : World Broken) : option (Result unit * World Broken) :=
  match i with 1%nat => Some (Err (from_errno EPERM), W) | _ => one_task i W end.


Lemma join_reports_faults_witness :
  exists X1 X, run one_task created = Some (Ok tt, X1) /\ play sleeper same_kernel same_kernel to_the_end X1 = Some X /\
    main X = MReturned OpJoin (Err (from_errno EBADF)) /\ threads X = [] /\ head (faults X) = Some (from_errno EBADF).
Proof.
  destruct (run one_task created) as [[r X1]|] eqn:E1; [|vm_compute in E1; done].
  assert (r = Ok tt) as -> by (vm_compute in E1; congruence).
  destruct (play sleeper same_kernel same_kernel to_the_end X1) as [X|] eqn:E2.
  2:{ exfalso. vm_compute in E1. injection E1 as <-. vm_compute in E2. done. }
  assert (main X = MReturned OpJoin (Err (from_errno EBADF))) as Em.
  { assert (main <$> play sleeper same_kernel same_kernel to_the_end X1 = Some (MReturned OpJoin (Err (from_errno EBADF)))) as Hm.
    { clear E2. vm_compute in E1. injection E1 as <-. vm_compute. reflexivity. }
    rewrite E2 in Hm. by injection Hm. }
  exists X1, X. split; [done|]. split; [done|]. split; [done|].
  destruct (join_reports_faults sleeper same_kernel same_kernel sleeper_stop one_task created X1 X OpJoin
    (Err (from_errno EBADF)) created_unstarted E1) as (Ht & _ & _ & He).
  - eapply play_reachable; [apply exec_init|exact E2].
  - done.
  - by left.
  - split; [done|]. by apply He.
Defined.

Lemma fail_fast_stops_all_witness :
  exists X1 X, run one_task created = Some (Ok tt, X1) /\ play sleeper same_kernel same_kernel to_the_end X1 = Some X /\
    flag X 0 = Some true /\ flag X 1 = Some true.
Proof.
  destruct (run one_task created) as [[r X1]|] eqn:E1; [|vm_compute in E1; done].
  assert (r = Ok tt) as -> by (vm_compute in E1; congruence).
  destruct (play sleeper same_kernel same_kernel to_the_end X1) as [X|] eqn:E2.
  2:{ exfalso. vm_compute in E1. injection E1 as <-. vm_compute in E2. done. }
  assert ((threads X, policy X, core_count X, outcomes X !! 0%nat) = ([], FailFast, 2%nat, Some (Err (from_errno EBADF)))) as Em.
  { assert ((fun X => (threads X, policy X, core_count X, outcomes X !! 0%nat)) <$> play sleeper same_kernel same_kernel to_the_end X1
      = Some ([], FailFast, 2%nat, Some (Err (from_errno EBADF)))) as Hm.
    { clear E2. vm_compute in E1. injection E1 as <-. vm_compute. reflexivity. }
    rewrite E2 in Hm. by injection Hm as <- <- <- <-. }
  injection Em as Ht Hp Hc Ho. exists X1, X. split; [done|]. split; [done|].
  destruct (fail_fast_stops_all sleeper same_kernel same_kernel sleeper_stop one_task created X1 X 0 (from_errno EBADF)
    created_unstarted E1) as [_ Hf].
  - eapply play_reachable; [apply exec_init|exact E2].
  - done.
  - by right; right.
  - rewrite Hc in Hf. split; apply Hf; [done|lia|done|lia].
Defined.

Lemma stop_ends_workers_witness :
  exists X1 X, run one_task created = Some (Ok tt, X1) /\
    play sleeper same_kernel same_kernel [AWorker 0; ACall OpStop; AMain 0; AMain 0; AMain 0] X1 = Some X /\
    all_stopped X /\ exists X', worker_step sleeper same_kernel same_kernel 0 X = Some X' /\ (weight X' < weight X)%nat.
Proof.
  destruct (run one_task created) as [[r X1]|] eqn:E1; [|vm_compute in E1; done].
  assert (r = Ok tt) as -> by (vm_compute in E1; congruence).
  set (sched := [AWorker 0; ACall OpStop; AMain 0; AMain 0; AMain 0]).
  destruct (play sleeper same_kernel same_kernel sched X1) as [X|] eqn:E2.
  2:{ exfalso. vm_compute in E1. injection E1 as <-. vm_compute in E2. done. }
  assert ((main X, threads X !! 0%nat) = (MReturned OpStop (Ok tt), Some Running)) as Em.
  { assert ((fun X => (main X, threads X !! 0%nat)) <$> play sleeper same_kernel same_kernel sched X1
      = Some (MReturned OpStop (Ok tt), Some Running)) as Hm.
    { clear E2. vm_compute in E1. injection E1 as <-. vm_compute. reflexivity. }
    rewrite E2 in Hm. by injection Hm as <- <-. }
  injection Em as Em Ht. exists X1, X. split; [done|]. split; [done|].
  destruct (stop_ends_workers sleeper same_kernel same_kernel sleeper_stop one_task created X1 X created_unstarted E1) as (Hs & Hw & _).
  - eapply play_reachable; [apply exec_init|exact E2].
  - left. eauto.
  - split; [done|]. destruct (Hw 0%nat Running Ht) as (X' & E' & _ & Hlt); [done|]. eauto.
Defined.

(** An accept loop, coroutine 7, waits on descriptor 5 under the graceful token. *)
Definition accepting : World Broken :=
  mkWorld (mkLoop (Reactor.mkReactor 3 (replicate 5 Reactor.empty_fd ++
             [Reactor.mkFd (Some (Reactor.mkPending (Some 7%nat) None (Some 70%nat) Ready)) None]) [])
             (Timer.make_wheel 0) None [mkOwned (Some 7%nat)] [] false 0 4 [])
    (mkMem {[ 70%nat := Pending ]} ∅ {[ 7%nat := false ]})
    {[ 0%nat := mkStop false [mkCallback 70 (Some 7%nat) (CbIo 5 IoEvent.Read)] ]} ∅ true (tt : Broken).

Lemma graceful_stop_strands_services_witness :
  exists X' W', drain_loop 0 (set_worlds [accepting] (tt : Broken) created) = Some X' /\ worlds X' !! 0%nat = Some W' /\
    ready_queue (loop W') = [] /\ Reactor.ready (reactor (loop W')) = [] /\
    ws_cells (mem W') !! 70%nat = Some Cancelled /\ waiter (reactor (loop W')) 5 Reactor.DRead = None /\
    owned_tasks (loop W') = [mkOwned (Some 7%nat)].
Proof.
  destruct (graceful_stop_strands_services (set_worlds [accepting] (tt : Broken) created) 0 accepting
    (mkStop false [mkCallback 70 (Some 7%nat) (CbIo 5 IoEvent.Read)])) as (X' & W' & E & Hw & Hq & Hr & _ & _ & Hc);
    [reflexivity..| | |].
  - cbn. apply NoDup_singleton.
  - cbn. repeat constructor; [|by eexists]. by exists 5, Reactor.DRead.
  - destruct (Hc (mkCallback 70 (Some 7%nat) (CbIo 5 IoEvent.Read)) 5 Reactor.DRead) as [Hc1 Hc2]; [constructor|done|done|].
    exists X', W'. split_and!; try done.
    assert ((fun W => owned_tasks (loop W)) <$> (X ← drain_loop 0 (set_worlds [accepting] (tt : Broken) created); worlds X !! 0%nat)
      = Some [mkOwned (Some 7%nat)]) as Ho by (vm_compute; reflexivity).
    rewrite E in Ho. cbn [mbind option_bind] in Ho. rewrite Hw in Ho. by injection Ho.
Defined.

End Witness.
End ExecutorProps.
