(* ===== verification/Runtime.v ===== *)
(** * Runtime: [runtime/runtime.hpp]

    [Runtime] and its builder, and [block_on]: a temporary loop runs the task
    together with a coroutine that joins it and stores its result where the
    caller can read it after the loop has destroyed the frames.  [block_on] is
    modelled on the frame machine of [Task.v], with the loop resuming the two
    spawned coroutines in order, destroying the frames of finished ones after
    each batch, and then answering leaf awaiters. *)

From S2P Require Import Prelude Core Diagnostics World Reactor EventLoop Executor ThreadPool Combinators Task.

Module Runtime.
Import Task.

(** ** The builder *)

Record Builder := mkBuilder { workers : Z; blockers : Z; queue_cap : Z; enable_blocking_ : bool }.

(** [Runtime::builder()]; [hw]: [hardware_concurrency()]. *)
Definition builder (hw : Z) : Builder :=
  mkBuilder (Executor.default_core_count hw) (Executor.default_core_count hw) ThreadPool.kDefaultTaskQueueCapacity true.

Definition worker_threads (n : Z) (b : Builder) : Builder := mkBuilder n (blockers b) (queue_cap b) (enable_blocking_ b).
Definition blocking_threads (n : Z) (b : Builder) : Builder := mkBuilder (workers b) n (queue_cap b) (enable_blocking_ b).
Definition blocking_queue_capacity (n : Z) (b : Builder) : Builder := mkBuilder (workers b) (blockers b) n (enable_blocking_ b).
Definition enable_blocking (e : bool) (b : Builder) : Builder := mkBuilder (workers b) (blockers b) (queue_cap b) e.

Section Build.
Context {K T : Type} `{Reactor.EpollKernel K} `{EventLoop.LoopKernel K}.

Record Runtime := mkRuntime { executor : Executor.Exec K; pool : option (ThreadPool.Pool T) }.

Definition has_thread_pool (rt : Runtime) : bool := has_value (pool rt).

(** The pool is made only when the executor could be. *)
Definition build (b : Builder) (cores : list nat) (k : K) : Result Runtime * K :=
  match Executor.create (Z.to_nat (workers b)) cores k with
  | (Err e, k) => (Err e, k)
  | (Ok ex, k) =>
    (Ok (mkRuntime ex (if enable_blocking_ b then Some (ThreadPool.make_pool (Z.to_nat (blockers b)) (queue_cap b)) else None)), k)
  end.

(** [pool_ ? &*pool_ : nullptr]; [addr]: where the pool was allocated. *)
Definition pool_ptr (addr : nat) (rt : Runtime) : option nat := (fun _ => addr) <$> pool rt.

(** [thread_pool]: dereferences the box. *)
Definition thread_pool (rt : Runtime) : option (ThreadPool.Pool T) := pool rt.

Definition core_count (rt : Runtime) : nat := Executor.core_count (executor rt).

Context `{Executor.ProcKernel K}.

(** [run]: the workers will install the pool; [c]: the executor's callbacks. *)
Definition run (addr : nat) (setup : nat -> World K -> option (Result unit * World K)) (rt : Runtime) (c : Executor.Callbacks)
  : option (Result unit * Runtime * Executor.Callbacks) :=
  let c := Executor.on_thread_init (fun _ => Executor.set_g_thread_pool (pool_ptr addr rt)) c in
  r ← Executor.run setup (executor rt);
  Some (r.1, mkRuntime r.2 (pool rt), c).

(** The members that forward to the executor. *)
Definition forward (op : Executor.Op) (rt : Runtime) : option Runtime :=
  X ← Executor.call op (executor rt); Some (mkRuntime X (pool rt)).
Definition stop : Runtime -> option Runtime := forward Executor.OpStop.
Definition request_graceful_stop : Runtime -> option Runtime := forward Executor.OpRequestGraceful.
Definition graceful_stop (deadline : Z) : Runtime -> option Runtime := forward (Executor.OpGraceful deadline).
Definition join : Runtime -> option Runtime := forward Executor.OpJoin.
Definition stop_and_join : Runtime -> option Runtime := forward Executor.OpStopAndJoin.

End Build.

(** ** Thread-locals in [block_on], and [spawn_blocking] *)

(** [metrics]: the address of the local counters; [ptr]: the runtime's pool. *)
Definition block_enter (metrics : nat) (ptr : option nat) (l : Executor.Locals) : Executor.Locals :=
  Executor.set_g_thread_pool ptr (Executor.set_g_metrics (Some metrics) l).
Definition block_leave (l : Executor.Locals) : Executor.Locals :=
  Executor.set_g_metrics None (Executor.set_g_thread_pool None l).

(** The arguments [spawn_blocking] passes on: both pointers are dereferenced. *)
Definition spawn_blocking_pool (installed : bool) (l : Executor.Locals) : option nat :=
  if installed then Executor.g_thread_pool l else None.

(** ** The convenience functions *)

Section Global.
Context {K : Type} `{EventLoop.LoopKernel K}.

(** [spawn]: without a running loop the task is dropped. *)
Definition spawn (task : handle) (W : World K) : World K :=
  if installed W then EventLoop.spawn task W else W.

(** [spawn_with_handle]: dereferences [g_event_loop]. *)
Definition spawn_with_handle (task : handle) (W : World K) : option (handle * World K) :=
  if installed W then Some (EventLoop.spawn_with_handle task W) else None.

Definition spawn_on (target : World K) (task : handle) : Result unit * World K := EventLoop.submit task target.

End Global.

(** ** [block_on] *)

Section BlockOn.
Context {V A : Type}.

(** The frames of the task and of [capture_into]. *)
Definition task_id : nat := 0.
Definition capture_id : nat := 1.

(** [capture_into] before its [co_await], suspended in it, finished. *)
Inductive Capture := CapStart | CapWaiting | CapDone.

(** [queue]: coroutines the loop has yet to resume; [owned]: its [owned_tasks_];
    [slot]: the optional on the stack of [block_on]. *)
Record Block := mkBlock {
  machine : Machine V A; queue : list nat; owned : list nat; cap : Capture; slot : option (Result V)
}.

Definition set_machine (m : Machine V A) (b : Block) : Block := mkBlock m (queue b) (owned b) (cap b) (slot b).

(** [loop.spawn_with_handle(task)] and [loop.spawn(capture_into(...))]. *)
Definition block_start (body : Body V A) : Block :=
  mkBlock (mkMachine {[ task_id := new_frame body ]} 2 Idle None []) [task_id; capture_id] [task_id; capture_id] CapStart None.

(** Storing the joined result and finishing. *)
Definition capture_store (b : Block) : option Block :=
  r ← join_await_resume (Some task_id) (frames (machine b));
  Some (mkBlock (goto Idle (frames (machine b)) (machine b)) (queue b) (owned b) CapDone (Some r)).

(** The coroutine [capture_into] is resumed. *)
Definition capture_resume (b : Block) : option Block :=
  match cap b with
  | CapStart =>
    ready ← join_await_ready (Some task_id) (frames (machine b));
    if (ready : bool) then capture_store b
    else
      s ← join_await_suspend (Some task_id) capture_id (frames (machine b));
      let '(susp, fs) := s in
      let b := set_machine (goto Idle fs (machine b)) b in
      if (susp : bool) then Some (mkBlock (machine b) (queue b) (owned b) CapWaiting (slot b)) else capture_store b
  | CapWaiting => capture_store b
  | CapDone => None
  end.

(** [handle.done()] of an owned task; undefined on a destroyed frame. *)
Definition task_done (b : Block) (h : nat) : option bool :=
  if (h =? capture_id)%nat then Some match cap b with CapDone => true | _ => false end
  else done (frames (machine b)) h.

(** [cleanup_completed]: the tasks that stay owned, and the frames left when the
    others are destroyed. *)
Fixpoint cleanup_completed (b : Block) (hs : list nat) : option (list nat * gmap nat (Frame V A)) :=
  match hs with
  | [] => Some ([], frames (machine b))
  | h :: hs =>
    d ← task_done b h;
    x ← cleanup_completed b hs;
    Some (if (d : bool) then (x.1, destroy (Some h) x.2) else (h :: x.1, x.2))
  end.

(** One step of [run()]: run the coroutine that has control, or resume the next
    one in the queue; when all have been resumed, destroy the finished tasks; then
    leave the loop if no task is left, or complete the leaf awaiter the task
    waits for. *)
Definition block_drive (x : Block * list V) : option (Block * list V) :=
  let '(b, answers) := x in
  let m := machine b in
  match control m with
  | Enter f =>
    if (f =? capture_id)%nat then b ← capture_resume b; Some (b, answers)
    else r ← drive (m, answers); Some (set_machine r.1 b, r.2)
  | Idle =>
    match queue b with
    | h :: q => Some (mkBlock (goto (Enter h) (frames m) m) q (owned b) (cap b) (slot b), answers)
    | [] =>
      match cleanup_completed b (owned b) with
      | None => Some (set_machine (goto Fault (frames m) m) b, answers)
      | Some (live, fs) =>
        if (length live <? length (owned b))%nat then Some (mkBlock (goto Idle fs m) [] live (cap b) (slot b), answers)
        else match live with [] => None | _ => r ← drive (m, answers); Some (set_machine r.1 b, r.2) end
      end
    end
  | _ => r ← drive (m, answers); Some (set_machine r.1 b, r.2)
  end.

Fixpoint block_drives (fuel : nat) (x : Block * list V) : Block * list V :=
  match fuel with
  | O => x
  | S fuel => match block_drive x with Some x => block_drives fuel x | None => x end
  end.

(** How the call ends: it returns, it aborts the process, or it is undefined. *)
Inductive Ended := Returned (v : V) | Aborted | Undefined.

(** [err]: how an error becomes a [T] when [T] is a [Result]; otherwise there is
    no channel for it. *)
Definition report (err : option (SystemError -> V)) (e : SystemError) : Ended :=
  match err with Some f => Returned (f e) | None => Aborted end.

Definition run_failed (e : SystemError) : Diag.Event := Diag.mkEvent "block_on.run_failed" Diag.Error (Some e) [].

(** The state of the loop when [run()] returns. *)
Definition block_run (fuel : nat) (body : Body V A) (answers : list V) : Block :=
  (block_drives fuel (block_start body, answers)).1.

(** [created]: what [EventLoop::create] gave; [answers]: how the leaf awaits of
    the task are answered until the loop stops; [run_result]: what [run()]
    returned; [metrics]: the address of the local counters, [cores] the
    registry. The result, the registry and the events after the call. *)
Definition block_on (err : option (SystemError -> V)) (created run_result : Result unit) (fuel : nat) (body : Body V A)
    (answers : list V) (metrics : nat) (cores : list nat) : Ended * list nat * list Diag.Event :=
  match created with
  | Err e => (report err e, cores, [])
  | Ok _ =>
    let cores := Diag.registry_add metrics cores in
    let b := block_run fuel body answers in
    let events := match run_result with Err e => [run_failed e] | Ok _ => [] end in
    let cores := Diag.registry_remove metrics cores in
    match control (machine b) with
    | Fault => (Undefined, cores, events)
    | _ =>
      match default (Err Combinators.make_cancelled_error) (slot b) with
      | Ok v => (Returned v, cores, events)
      | Err e => (report err e, cores, events)
      end
    end
  end.

End BlockOn.
Arguments Block : clear implicits.
Arguments Ended : clear implicits.
End Runtime.
