(* ===== verification/RuntimeProps.v ===== *)
(** * RuntimeProps: [block_on] returns the task's result *)

From S2P Require Import Prelude Core Diagnostics DiagnosticsProps World Combinators Task TaskProps Runtime.

Module RuntimeProps.
Import Task TaskProps Runtime.

Section Props.
Context {V A : Type}.
Implicit Types m : Machine V A.

(** ** Joining changes only the task's continuation *)

Definition continue_in (h : nat) (fr : Frame V A) : Frame V A := set_promise (set_continuation (Some h) (promise fr)) fr.

(** The machine once [capture_into] waits for the task. *)
Definition retarget m : Machine V A :=
  mkMachine (alter (continue_in capture_id) task_id (frames m)) (next m) (control m) (waiting m) (log m).

(** Frames of a run that started from the task alone. *)
Record clean m : Prop := {
  cl_next : (2 <= next m)%nat;
  cl_control : match control m with Enter f | Exec f _ => f <> capture_id | _ => True end;
  cl_waiting : waiting m <> Some capture_id;
  cl_idle : match control m with Enter _ | Exec _ _ => waiting m = None | _ => True end;
  cl_continuation f fr : frames m !! f = Some fr -> continuation (promise fr) <> Some capture_id;
  cl_root fr : frames m !! task_id = Some fr ->
    continuation (promise fr) = None /\ (code fr = Final -> control m = Idle /\ waiting m = None);
  cl_live : is_Some (frames m !! task_id);
  cl_child f fr g k : frames m !! f = Some fr -> code fr = InTask g k -> g <> task_id;
}.

Definition about_to_finish m : Prop :=
  match control m with Exec f (Return _) | Exec f Throw => f = task_id | _ => False end.

Lemma continue_insert f fr (fs : gmap nat (Frame V A)) :
  alter (continue_in capture_id) task_id (<[f := fr]> fs) =
  <[f := if decide (f = task_id) then continue_in capture_id fr else fr]> (alter (continue_in capture_id) task_id fs).
Proof.
  apply map_eq. intros i. rewrite lookup_insert, !lookup_alter, !lookup_insert.
  repeat case_decide; subst; try done; congruence.
Qed.

Lemma continue_delete g (fs : gmap nat (Frame V A)) :
  alter (continue_in capture_id) task_id (delete g fs) = delete g (alter (continue_in capture_id) task_id fs).
Proof.
  apply map_eq. intros i. rewrite lookup_delete, !lookup_alter, !lookup_delete. repeat case_decide; subst; done.
Qed.

Lemma continue_lookup f (fs : gmap nat (Frame V A)) :
  alter (continue_in capture_id) task_id fs !! f =
  (if decide (f = task_id) then continue_in capture_id else fun fr => fr) <$> fs !! f.
Proof. rewrite lookup_alter. destruct (decide (task_id = f)), (decide (f = task_id)); subst; try done. by destruct (fs !! f). Qed.

(** A step of the machine is the same step with the continuation set, except the
    one that finishes the task. *)
Lemma retarget_drive m answers :
  clean m -> ~ about_to_finish m ->
  drive (retarget m, answers) = (fun x => (retarget x.1, x.2)) <$> drive (m, answers).
Proof.
  intros C Hf. unfold drive. change (control (retarget m)) with (control m). change (waiting (retarget m)) with (waiting m).
  destruct (control m) as [f b|f| |] eqn:Ec; [..|done].
  - cbn. do 2 f_equal. unfold exec. change (frames (retarget m)) with (alter (continue_in capture_id) task_id (frames m)).
    rewrite continue_lookup. destruct (frames m !! f) as [fr|] eqn:Ef; cbn [fmap option_fmap option_map]; [|done].
    unfold about_to_finish in Hf. rewrite Ec in Hf.
    destruct b as [v| |tok c k|a k]; cbn [promise].
    + rewrite decide_False by done. unfold finish, goto, retarget. cbn [frames next control waiting log]. by rewrite continue_insert, decide_False by done.
    + rewrite decide_False by done. unfold finish, goto, retarget. cbn [frames next control waiting log]. by rewrite continue_insert, decide_False by done.
    + change (next (retarget m)) with (next m). pose proof (cl_next _ C). unfold task_await_suspend. rewrite !lookup_insert_eq.
      cbn [mbind option_bind]. unfold retarget. cbn [frames]. rewrite !continue_insert.
      assert (next m <> task_id) by (unfold task_id; lia). rewrite !(decide_False (P := next m = task_id)) by done.
      by destruct (decide (f = task_id)).
    + unfold retarget. cbn [frames next control waiting log]. rewrite continue_insert. by destruct (decide (f = task_id)).
  - cbn. do 2 f_equal. unfold enter. change (frames (retarget m)) with (alter (continue_in capture_id) task_id (frames m)).
    rewrite continue_lookup. destruct (frames m !! f) as [fr|] eqn:Ef; cbn [fmap option_fmap option_map]; [|done].
    assert (code ((if decide (f = task_id) then continue_in capture_id else fun fr => fr) fr) = code fr) as -> by (by destruct (decide _)).
    destruct (code fr) as [b|g k|a k|]; [done| |done|done].
    assert (task_await_resume g (alter (continue_in capture_id) task_id (frames m)) = task_await_resume g (frames m)) as ->.
    { unfold task_await_resume. rewrite continue_lookup. destruct (frames m !! g) as [fg|]; [|done]. cbn. by destruct (decide _). }
    destruct (task_await_resume g (frames m)); [|done]. unfold goto, retarget. cbn. by rewrite continue_delete.
  - destruct (waiting m) as [f|], answers as [|v answers]; try done. cbn. do 2 f_equal. unfold resume_leaf.
    change (frames (retarget m)) with (alter (continue_in capture_id) task_id (frames m)). rewrite continue_lookup.
    destruct (frames m !! f) as [fr|]; [|done]. cbn. destruct (decide _); cbn; by destruct (code fr).
Qed.

(** ** Runs stay clean *)

(** A frame other than the root, or the root before its end, changes. *)
Lemma clean_insert m f fr n c w l :
  clean m -> control m <> Idle -> f <> capture_id -> (next m <= n)%nat ->
  continuation (promise fr) <> Some capture_id -> (f = task_id -> continuation (promise fr) = None) ->
  (f = task_id -> code fr = Final -> c = Idle /\ w = None) -> (forall g k, code fr = InTask g k -> g <> task_id) ->
  match c with Enter f | Exec f _ => f <> capture_id | _ => True end -> w <> Some capture_id -> match c with Enter _ | Exec _ _ => w = None | _ => True end ->
  clean (mkMachine (<[f := fr]> (frames m)) n c w l).
Proof.
  intros [] Hc Hf Hn H1 H2 H3 H4 Hctl Hw Hi. split; cbn; try done.
  - lia.
  - intros f' fr'. rewrite lookup_insert. case_decide; [by intros [= <-]|]. apply cl_continuation0.
  - intros fr'. rewrite lookup_insert. case_decide; [subst; intros [= <-]; auto|]. intros Hr.
    destruct (cl_root0 _ Hr) as [Hk Hfin]. split; [done|]. intros Hd. by destruct (Hfin Hd).
  - rewrite lookup_insert. case_decide; eauto.
  - intros f' fr' g k. rewrite lookup_insert. case_decide; [by intros [= <-]; eauto|]. eauto.
Qed.

(** Only control, waiting and log change, or a child frame goes. *)
Lemma clean_goto m fs c w l :
  clean m -> fs = frames m \/ (exists g, g <> task_id /\ fs = delete g (frames m)) ->
  (forall fr, frames m !! task_id = Some fr -> code fr <> Final) ->
  match c with Enter f | Exec f _ => f <> capture_id | _ => True end -> w <> Some capture_id -> match c with Enter _ | Exec _ _ => w = None | _ => True end ->
  clean (mkMachine fs (next m) c w l).
Proof.
  intros [] Hfs Hnf Hctl Hw Hi.
  assert (forall f fr, fs !! f = Some fr -> frames m !! f = Some fr) as Hsub.
  { intros f fr. destruct Hfs as [->|(g & _ & ->)]; [done|]. by intros [_ ?]%lookup_delete_Some. }
  split; cbn; try done; eauto.
  - intros fr Hr%Hsub. split; [by apply cl_root0|]. intros Hd. by destruct (Hnf _ Hr).
  - destruct Hfs as [->|(g & Hg & ->)]; [done|]. by rewrite lookup_delete_ne.
Qed.

Lemma clean_drive m answers m' answers' : clean m -> drive (m, answers) = Some (m', answers') -> clean m'.
Proof.
  intros C E. unfold drive in E.
  assert (control m <> Idle -> forall fr, frames m !! task_id = Some fr -> code fr <> Final) as Hnf.
  { intros Hc fr Hr Hd. destruct (cl_root _ C _ Hr) as [_ Hfin]. by destruct (Hfin Hd). }
  pose proof (cl_control _ C) as Hctl. pose proof (cl_idle _ C) as Hidle.
  destruct (control m) as [f b|f| |] eqn:Ec; [..|done].
  - injection E as <- <-. specialize (Hnf ltac:(done)). unfold exec.
    destruct (frames m !! f) as [fr|] eqn:Ef; [|by apply clean_goto; auto; rewrite Hidle].
    pose proof (cl_continuation _ C _ _ Ef) as Hcont.
    assert (f = task_id -> continuation (promise fr) = None) as Hroot by (intros ->; by apply (cl_root _ C)).
    destruct b as [v| |tok c k|a k].
    + apply clean_insert; cbn; try done; rewrite ?Ec, ?Hidle; try done; try (intros ->; by rewrite Hroot).
      all: destruct (continuation (promise fr)); [congruence|done].
    + apply clean_insert; cbn; try done; rewrite ?Ec, ?Hidle; try done; try (intros ->; by rewrite Hroot).
      all: destruct (continuation (promise fr)); [congruence|done].
    + unfold task_await_suspend. rewrite lookup_insert_eq. cbn [mbind option_bind]. rewrite insert_insert_eq. pose proof (cl_next _ C).
      set (m1 := mkMachine (<[f := mkFrame (promise fr) (InTask (next m) k)]> (frames m)) (next m) (Exec f Throw) (waiting m) (log m)).
      assert (clean m1) as C1.
      { apply clean_insert; cbn; try done; rewrite ?Ec, ?Hidle; try done. intros g k' [= <- _]. unfold task_id. lia. }
      change (<[f := mkFrame (promise fr) (InTask (next m) k)]> (frames m)) with (frames m1).
      apply (clean_insert m1); cbn; try done; try (unfold task_id, capture_id; lia); [congruence|by rewrite Hidle].
    + apply clean_insert; cbn; try done; rewrite ?Ec; try done. congruence.
  - injection E as <- <-. specialize (Hnf ltac:(done)). unfold enter.
    assert (forall fs c, fs = frames m \/ (exists g, g <> task_id /\ fs = delete g (frames m)) ->
      match c with Enter f | Exec f _ => f <> capture_id | _ => True end -> clean (goto c fs m)) as Hgoto.
    { intros fs c Hfs Hc. unfold goto. apply clean_goto; auto; rewrite Hidle; try done; by destruct c. }
    destruct (frames m !! f) as [fr|] eqn:Ef; [|by apply Hgoto; auto].
    destruct (code fr) as [b|g k|a k|] eqn:Ek; try (by apply Hgoto; auto).
    destruct (task_await_resume g (frames m)); apply Hgoto; auto. right. exists g. split; [|done]. by eapply (cl_child _ C).
  - destruct (waiting m) as [f|] eqn:Ew; [|done]. destruct answers as [|v answers]; [done|]. injection E as <- <-.
    assert (forall fr, frames m !! task_id = Some fr -> code fr <> Final) as Hn.
    { intros fr Hr Hd. destruct (cl_root _ C _ Hr) as [_ Hfin]. destruct (Hfin Hd). congruence. }
    assert (f <> capture_id) as Hf by (intros ->; by apply (cl_waiting _ C)).
    unfold resume_leaf. destruct (frames m !! f ≫= _) as [k|]; apply clean_goto; auto; try done. congruence.
Qed.

(** ** The simulation *)

Definition block_runs (x y : Block V A * list V) : Prop := block_drive x = Some y.

Lemma block_rtc_drives x y : rtc block_runs x y -> block_drive y = None ->
  exists fuel0, forall fuel, (fuel0 <= fuel)%nat -> block_drives fuel x = y.
Proof.
  induction 1 as [x|x x1 y Hs _ IH]; intros Hy.
  - exists O. intros [|fuel] _; [done|]. cbn. by rewrite Hy.
  - destruct (IH Hy) as [fuel0 E]. exists (S fuel0). intros [|fuel] Hle; [lia|]. cbn. rewrite Hs. apply E. lia.
Qed.

Definition root_final m : bool :=
  match frames m !! task_id with Some fr => match code fr with Final => true | _ => false end | None => false end.

Definition root_result m : option (Result V) := fr ← frames m !! task_id; Some (result (promise fr)).

(** The loop owns both tasks until they are finished. *)
#[local] Abbreviation mk m q c s := (mkBlock m q [task_id; capture_id] c s).

(** Before [capture_into] runs, while it waits, after it has stored. *)
Inductive sim m : Block V A -> Prop :=
| sim_before : sim m (mk m [capture_id] CapStart None)
| sim_waiting : root_final m = false -> sim m (mk (retarget m) [] CapWaiting None)
| sim_stored mr r :
    root_final m = true -> root_result m = Some r -> control m = Idle -> waiting m = None ->
    control mr = Idle -> done (frames mr) task_id = Some true -> sim m (mk mr [] CapDone (Some r)).

Lemma root_final_clean m : clean m -> root_final m = true -> control m = Idle /\ waiting m = None.
Proof.
  intros C. unfold root_final. destruct (cl_live _ C) as [fr Hr]. rewrite Hr. destruct (code fr) eqn:Ef; try done.
  intros _. by apply (cl_root _ C _ Hr).
Qed.

(** [capture_into] starts while the task is suspended. *)
Lemma capture_suspends m answers :
  clean m -> control m = Idle -> root_final m = false ->
  rtc block_runs (mk m [capture_id] CapStart None, answers) (mk (retarget m) [] CapWaiting None, answers).
Proof.
  intros C Ec Hnf. destruct (cl_live _ C) as [fr Hr].
  assert (join_done (Some task_id) (frames m) = Some false) as Hj.
  { cbn. unfold done. rewrite Hr. cbn. unfold root_final in Hnf. rewrite Hr in Hnf. by rewrite Hnf. }
  eapply rtc_l. { unfold block_runs, block_drive. cbn [machine]. rewrite Ec. reflexivity. }
  apply rtc_once. unfold block_runs, block_drive. cbn [machine goto control]. cbn [Nat.eqb capture_id].
  unfold capture_resume, join_await_ready. cbn [cap machine]. change (frames (goto _ _ m)) with (frames m). rewrite Hj.
  unfold join_await_suspend. rewrite Hj. cbn [mbind option_bind]. unfold task_await_suspend. rewrite Hr. cbn.
  unfold retarget. rewrite Ec. assert (alter (continue_in capture_id) task_id (frames m) = <[task_id := continue_in capture_id fr]> (frames m)) as ->;
    [|reflexivity]. apply map_eq. intros i. rewrite lookup_insert, lookup_alter. case_decide; [|done]. subst. by rewrite Hr.
Qed.

(** The task ends and control passes to [capture_into]. *)
Lemma root_finishes m p answers :
  frames m !! task_id = Some (mkFrame p Final) -> control m = Enter capture_id ->
  block_runs (mk m [] CapWaiting None, answers)
    (mk (goto Idle (frames m) m) [] CapDone (Some (result p)), answers).
Proof.
  intros Hr Hc. unfold block_runs, block_drive. cbn [machine]. rewrite Hc. cbn [Nat.eqb capture_id].
  unfold capture_resume, capture_store, join_await_resume. cbn [cap machine]. by rewrite Hr.
Qed.

Lemma root_kept m answers m' answers' :
  clean m -> ~ about_to_finish m -> drive (m, answers) = Some (m', answers') -> root_final m = false -> root_final m' = false.
Proof.
  intros C Hf E Hn. unfold drive in E. assert (forall fs c, fs !! task_id = frames m !! task_id -> root_final (goto c fs m) = false) as Hgoto.
  { intros fs c Hfs. unfold root_final, goto. cbn. by rewrite Hfs. }
  destruct (control m) as [f b|f| |] eqn:Ec; [..|done].
  - injection E as <- <-. unfold exec. destruct (frames m !! f) as [fr|] eqn:Ef; [|by apply Hgoto].
    unfold about_to_finish in Hf. rewrite Ec in Hf. unfold root_final in *.
    destruct b as [v| |tok c k|a k]; cbn.
    + by rewrite lookup_insert_ne.
    + by rewrite lookup_insert_ne.
    + unfold task_await_suspend. rewrite lookup_insert_eq. cbn [mbind option_bind]. cbn [frames]. pose proof (cl_next _ C).
      rewrite !(lookup_insert_ne _ (next m)) by (unfold task_id; lia). rewrite lookup_insert. by case_decide.
    + rewrite lookup_insert. by case_decide.
  - injection E as <- <-. unfold enter. destruct (frames m !! f) as [fr|] eqn:Ef; [|by apply Hgoto].
    destruct (code fr) as [b|g k|a k|] eqn:Ek; try (by apply Hgoto).
    destruct (task_await_resume g (frames m)); apply Hgoto; [|done]. cbn. rewrite lookup_delete_ne; [done|]. by eapply (cl_child _ C).
  - destruct (waiting m) as [f|]; [|done]. destruct answers as [|v answers]; [done|]. injection E as <- <-.
    unfold resume_leaf. by destruct (frames m !! f ≫= _).
Qed.

(** Steps of the machine while [capture_into] waits for the task, with nothing
    queued, and not into [capture_into]: nothing is finished. *)
Lemma block_drive_machine m s answers :
  match control m with Enter f => f <> capture_id | Idle => done (frames m) task_id = Some false | _ => True end ->
  block_drive (mk m [] CapWaiting s, answers) = (fun x => (mk x.1 [] CapWaiting s, x.2)) <$> drive (m, answers).
Proof.
  intros Hc. unfold block_drive. cbn [machine queue]. destruct (control m) as [f b|f| |] eqn:Ec;
    try (destruct (drive (m, answers)); reflexivity).
  - destruct (Nat.eqb_spec f capture_id); [done|]. destruct (drive (m, answers)); reflexivity.
  - cbn [owned cleanup_completed]. unfold task_done. cbn [Nat.eqb task_id capture_id cap machine]. fold task_id. rewrite Hc.
    cbn. destruct (drive (m, answers)); reflexivity.
Qed.

(** When both are finished the loop destroys their frames and has no task left. *)
Lemma block_cleanup m r answers :
  control m = Idle -> done (frames m) task_id = Some true ->
  exists b', block_runs (mk m [] CapDone (Some r), answers) (b', answers) /\ block_drive (b', answers) = None /\
    control (machine b') = Idle /\ slot b' = Some r /\ owned b' = [] /\ frames (machine b') !! task_id = None.
Proof.
  intros Ec Hd. eexists. split; [|split].
  - unfold block_runs, block_drive. cbn [machine queue]. rewrite Ec. cbn [owned cleanup_completed]. unfold task_done.
    cbn [Nat.eqb task_id capture_id cap machine]. fold task_id. rewrite Hd. cbn. reflexivity.
  - reflexivity.
  - split_and!; [done..|]. cbn. apply lookup_delete_eq.
Qed.

(** The task has not finished. *)
Lemma root_running m : clean m -> root_final m = false -> done (frames (retarget m)) task_id = Some false.
Proof.
  intros C Hn. destruct (cl_live _ C) as [fr Hr]. unfold root_final in Hn. rewrite Hr in Hn. unfold done, retarget.
  cbn [frames]. rewrite continue_lookup, Hr, decide_True by done. cbn. by destruct (code fr).
Qed.

Lemma clean_control m :
  clean m -> root_final m = false ->
  match control (retarget m) with Enter f => f <> capture_id | Idle => done (frames (retarget m)) task_id = Some false | _ => True end.
Proof.
  intros C Hn. pose proof (cl_control _ C). change (control (retarget m)) with (control m).
  destruct (control m); [done..| |done]. by apply root_running.
Qed.

(** While [capture_into] waits. *)
Lemma sim_waiting_step m answers m' answers' :
  clean m -> root_final m = false -> drive (m, answers) = Some (m', answers') ->
  exists b', rtc block_runs (mk (retarget m) [] CapWaiting None, answers) (b', answers') /\ sim m' b'.
Proof.
  intros C Hn E. assert (about_to_finish m \/ ~ about_to_finish m) as [Hf|Hf].
  { unfold about_to_finish. destruct (control m) as [f [v| | |]|f| |]; try (right; by intros []); destruct (decide (f = task_id)); auto. }
  - pose proof (cl_idle _ C) as Hidle. unfold drive in E. unfold about_to_finish in Hf.
    destruct (control m) as [f b|f| |] eqn:Ec; [|done..].
    assert (f = task_id /\ (exists v, b = Return v) \/ f = task_id /\ b = Throw) as Hb by (destruct b; naive_solver).
    assert (f = task_id) as -> by naive_solver. injection E as <- <-. destruct (cl_live _ C) as [fr Hr].
    destruct (cl_root _ C _ Hr) as [Hk _].
    set (p := promise fr). set (upd := match b with Return v => return_value v | _ => unhandled_exception end : Promise V -> Promise V).
    assert (exec task_id b m = finish task_id (upd p) m) as Em.
    { unfold exec. rewrite Hr. by destruct Hb as [[_ [v ->]]|[_ ->]]. }
    assert (exec task_id b (retarget m) = finish task_id (upd (set_continuation (Some capture_id) p)) (retarget m)) as Er.
    { unfold exec, retarget. cbn [frames]. rewrite continue_lookup, Hr. cbn. by destruct Hb as [[_ [v ->]]|[_ ->]]. }
    assert (continuation (upd p) = None /\ continuation (upd (set_continuation (Some capture_id) p)) = Some capture_id /\
      result (upd (set_continuation (Some capture_id) p)) = result (upd p)) as (K1 & K2 & R1).
    { by destruct Hb as [[_ [v ->]]|[_ ->]]. }
    eexists. split.
    + eapply rtc_l; [unfold block_runs; rewrite block_drive_machine by (cbn; by rewrite Ec)|].
      { unfold drive. change (control (retarget m)) with (control m). rewrite Ec. cbn. rewrite Er. reflexivity. }
      apply rtc_once. eapply root_finishes; unfold finish, goto, final_await_suspend; cbn.
      * by rewrite lookup_insert_eq.
      * by rewrite K2.
    + rewrite Em, R1. apply sim_stored; unfold finish, goto, final_await_suspend, root_final, root_result, Task.done; cbn; rewrite ?lookup_insert_eq, ?K1; done.
  - exists (mk (retarget m') [] CapWaiting None). split; [|apply sim_waiting; exact (root_kept _ _ _ _ C Hf E Hn)].
    apply rtc_once. unfold block_runs. rewrite block_drive_machine by exact (clean_control _ C Hn).
    rewrite retarget_drive by done. rewrite E. done.
Qed.

Lemma sim_step m answers m' answers' b :
  clean m -> sim m b -> drive (m, answers) = Some (m', answers') ->
  exists b', rtc block_runs (b, answers) (b', answers') /\ sim m' b'.
Proof.
  intros C S E. destruct S as [|Hn|mr r Hf Hr Hc Hw Hcr Hwr].
  - destruct (control m) as [f b0|f| |] eqn:Ec.
    3:{ assert (root_final m = false) as Hn.
        { destruct (root_final m) eqn:Hf; [|done]. apply root_final_clean in Hf as [_ Hw]; [|done].
          unfold drive in E. rewrite Ec, Hw in E. done. }
        destruct (sim_waiting_step _ _ _ _ C Hn E) as (b' & R & S). exists b'. split; [|done].
        etrans; [by apply capture_suspends|exact R]. }
    3:{ unfold drive in E. by rewrite Ec in E. }
    all: exists (mk m' [capture_id] CapStart None); split; [|constructor]; apply rtc_once;
      unfold block_runs, block_drive; cbn [machine]; rewrite Ec, ?E; try done.
    pose proof (cl_control _ C) as Hctl. rewrite Ec in Hctl. by destruct (Nat.eqb_spec f capture_id).
  - by apply sim_waiting_step.
  - unfold drive in E. rewrite Hc, Hw in E. done.
Qed.

Lemma sim_runs x y : rtc runs x y -> forall b, clean x.1 -> sim x.1 b ->
  exists b', rtc block_runs (b, x.2) (b', y.2) /\ clean y.1 /\ sim y.1 b'.
Proof.
  induction 1 as [x|[m a] [m1 a1] y Hs _ IH]; intros b C S; [by exists b|]. unfold runs in Hs. cbn [fst snd] in *.
  destruct (sim_step _ _ _ _ _ C S Hs) as (b1 & R1 & S1). destruct (IH b1) as (b2 & R2 & C2 & S2); [by eapply clean_drive|done|].
  exists b2. split; [by etrans|done].
Qed.

(** Where the machine stops, [block_on]'s loop stops too, and if the task has
    finished the slot holds its result and its frame is gone. *)
Lemma sim_end m answers b :
  clean m -> sim m b -> drive (m, answers) = None ->
  exists b', rtc block_runs (b, answers) (b', answers) /\ block_drive (b', answers) = None /\
    (control m = Fault <-> control (machine b') = Fault) /\
    (control m = Idle ->
      if root_final m then slot b' = root_result m /\ owned b' = [] /\ frames (machine b') !! task_id = None
      else slot b' = None).
Proof.
  intros C S E. destruct S as [|Hn|mr r Hf Hr Hc Hw Hcr Hd].
  - destruct (control m) as [f b0|f| |] eqn:Ec; [by unfold drive in E; rewrite Ec in E..| |].
    + destruct (root_final m) eqn:Hf.
      * destruct (cl_live _ C) as [fr Hr]. pose proof (root_final_clean _ C Hf) as [_ Hw].
        assert (done (frames m) task_id = Some true) as Hj.
        { unfold done. rewrite Hr. cbn. unfold root_final in Hf. rewrite Hr in Hf. by rewrite Hf. }
        destruct (block_cleanup (goto Idle (frames m) m) (result (promise fr)) answers) as (b' & R & Hend & Hc' & Hs & Ho & Hfr); [done..|].
        exists b'. split_and!; [|done|by rewrite Hc'|].
        -- eapply rtc_l. { unfold block_runs, block_drive. cbn [machine]. rewrite Ec. reflexivity. }
           eapply rtc_l; [|apply rtc_once; exact R]. unfold block_runs, block_drive. cbn [machine goto control]. cbn [Nat.eqb capture_id].
           unfold capture_resume, join_await_ready, join_done, task_await_ready. cbn [cap machine]. change (frames (goto _ _ m)) with (frames m). rewrite Hj.
           cbn [mbind option_bind]. unfold capture_store, join_await_resume. cbn. by rewrite Hr.
        -- intros _. split; [|done]. rewrite Hs. unfold root_result. by rewrite Hr.
      * exists (mk (retarget m) [] CapWaiting None). split_and!; [by apply capture_suspends| |cbn; by rewrite Ec|done].
        rewrite block_drive_machine by exact (clean_control _ C Hf).
        rewrite retarget_drive, E; [done|done|]. unfold about_to_finish. rewrite Ec. by intros [].
    + exists (mk m [capture_id] CapStart None). split_and!; [done| |cbn; by rewrite Ec|done].
      unfold block_drive. cbn [machine]. by rewrite Ec, E.
  - exists (mk (retarget m) [] CapWaiting None). split_and!; [done| |done|by rewrite Hn].
    rewrite block_drive_machine by exact (clean_control _ C Hn).
    rewrite retarget_drive, E; [done|done|]. unfold about_to_finish. unfold drive in E. destruct (control m); try done; by intros [].
  - destruct (block_cleanup mr r answers Hcr Hd) as (b' & R & Hend & Hc' & Hs & Ho & Hfr).
    exists b'. split_and!; [by apply rtc_once|done|by rewrite Hc, Hc'|]. intros _. by rewrite Hf, Hr.
Qed.

(** The loop enters the task first. *)
Lemma block_enters body answers :
  let m := mkMachine {[ task_id := new_frame body ]} 2 (Exec task_id body) None [] in
  rtc block_runs (block_start body, answers) (mk m [capture_id] CapStart None, answers).
Proof.
  cbn zeta. unfold block_start. eapply rtc_l; [reflexivity|]. apply rtc_once. unfold block_runs, block_drive.
  cbn [machine goto control]. change (task_id =? capture_id)%nat with false. cbv iota. unfold drive, enter, goto.
  cbn [control frames next waiting log]. rewrite lookup_singleton_eq. reflexivity.
Qed.

Lemma clean_start body : clean (mkMachine (A := A) {[ task_id := new_frame (V := V) body ]} 2 (Exec task_id body) None []).
Proof.
  split; cbn [next control waiting frames]; try done.
  - intros f fr [_ <-]%lookup_singleton_Some. done.
  - intros fr. rewrite lookup_singleton_eq. by intros [= <-].
  - intros f fr g k [_ <-]%lookup_singleton_Some. done.
Qed.

(** C16: [block_on] returns what the task returns.  For every task body and every
    way its leaf awaits are answered there is a number of steps after which the
    loop has nothing left to do, and then: if the body returns a value in direct
    style, that value is returned; if an exception escapes it, or if the loop
    ended while the task was still waiting, a [Task] of a [Result] gives the
    unhandled-exception error or the cancellation error and any other task
    aborts the process.  When the task has finished, the loop has destroyed its
    frame by then: the result was read before, by [capture_into], and no access to
    a destroyed frame happens.  The counters are registered only during the call;
    a failure of the loop is reported as an event. *)
Theorem block_on_result (err : option (SystemError -> V)) run_result (body : Body V A) answers metrics cores :
  metrics ∉ cores ->
  exists fuel0, forall fuel, (fuel0 <= fuel)%nat ->
    block_on err (Ok tt) run_result fuel body answers metrics cores =
    (match (direct None body answers).2 with
     | Value v _ => Returned v
     | Exception _ => report err unhandled
     | Blocked => report err Combinators.make_cancelled_error
     | TaskProps.Undefined => Undefined
     end, cores, match run_result with Err e => [run_failed e] | Ok _ => [] end) /\
    match (direct None body answers).2 with
    | Value _ _ | Exception _ =>
      owned (block_run fuel body answers) = [] /\ frames (machine (block_run fuel body answers)) !! task_id = None
    | _ => True
    end.
Proof.
  intros Hm. set (m0 := mkMachine {[ task_id := new_frame body ]} 2 (Exec task_id body) None []).
  pose proof (run_body body task_id (new_frame body) m0 answers eq_refl ltac:(apply lookup_singleton_eq)) as H.
  cbn [promise cancel_token new_frame] in H. destruct (direct None body answers) as [l e].
  destruct H as (m' & an' & R & _ & O); [intros g Hg; cbn in Hg; apply lookup_singleton_ne; unfold task_id; lia|done|].
  destruct (sim_runs _ _ R _ (clean_start body) (sim_before m0)) as (b1 & R1 & C1 & S1). cbn [fst snd] in *.
  assert (drive (m', an') = None) as Hend.
  { unfold drive. destruct e; cbn [outcome settled] in O.
    - destruct O as (_ & _ & -> & -> & _). done.
    - destruct O as (_ & _ & -> & -> & _). done.
    - destruct O as (-> & -> & [? ->]). done.
    - by rewrite O. }
  destruct (sim_end _ _ _ C1 S1 Hend) as (b2 & R2 & Hb2 & Hfault & Hslot).
  assert (rtc block_runs (block_start body, answers) (b2, an')) as Rb.
  { etrans; [apply block_enters|]. etrans; [exact R1|exact R2]. }
  destruct (block_rtc_drives _ _ Rb Hb2) as [fuel0 Hfuel].
  exists fuel0. intros fuel Hle. unfold block_on, block_run. rewrite (Hfuel fuel Hle), DiagProps.remove_add by done. cbn [fst snd].
  assert (control m' = Idle -> control (machine b2) <> Fault) as Hok by (rewrite <- Hfault; congruence).
  destruct e as [v rest|rest| |]; cbn [outcome settled] in O.
  - destruct O as (_ & Efr & Ec & _). cbn in Ec. specialize (Hok Ec). specialize (Hslot Ec).
    unfold root_final, root_result in Hslot. rewrite Efr, lookup_insert_eq in Hslot. cbn in Hslot. destruct Hslot as (-> & Hgone).
    split; [|done]. by destruct (control (machine b2)).
  - destruct O as (_ & Efr & Ec & _). cbn in Ec. specialize (Hok Ec). specialize (Hslot Ec).
    unfold root_final, root_result in Hslot. rewrite Efr, lookup_insert_eq in Hslot. cbn in Hslot. destruct Hslot as (-> & Hgone).
    split; [|done]. by destruct (control (machine b2)).
  - destruct O as (_ & Ec & [f Hw]). specialize (Hok Ec). specialize (Hslot Ec).
    destruct (root_final m') eqn:Hf; [apply root_final_clean in Hf as [_ ?]; [congruence|done]|]. rewrite Hslot.
    split; [|done]. by destruct (control (machine b2)).
  - by rewrite (proj1 Hfault O).
Qed.

End Props.

(** A task that awaits a task that awaits a leaf, answered with 20. *)
Definition doubled : Body Z bool := AwaitTask None (AwaitLeaf true (fun v => Return (v + 1))) (fun v => Return (2 * v)).

Lemma block_on_result_witness :
  exists fuel, block_on None (Ok tt) (Ok tt) fuel doubled [20] 0 [] = (Returned 42, [], []) /\
    frames (machine (block_run fuel doubled [20])) !! task_id = None /\
    block_on None (Ok tt) (Err (from_errno EBADF)) fuel doubled [20] 0 [] = (Returned 42, [], [run_failed (from_errno EBADF)]).
Proof.
  destruct (block_on_result None (Ok tt) doubled [20] 0 []) as [f1 E1]; [by intros []%not_elem_of_nil|].
  destruct (block_on_result None (Err (from_errno EBADF)) doubled [20] 0 []) as [f2 E2]; [by intros []%not_elem_of_nil|].
  destruct (E1 (f1 + f2)%nat ltac:(lia)) as (H1 & _ & Hgone). destruct (E2 (f1 + f2)%nat ltac:(lia)) as (H2 & _).
  exists (f1 + f2)%nat. split; [exact H1|]. split; [exact Hgone|exact H2].
Defined.

(** The loop stops before the leaf is answered: a task of a [Result] gives the
    cancellation error. *)
Example block_on_cancelled :
  (block_on (Some (fun e => - Core.code e)) (Ok tt) (Ok tt) 30 doubled [] 0 []).1.1 = Returned (- ECANCELED).
Proof. vm_compute. reflexivity. Qed.

End RuntimeProps.
