(* ===== verification/Construction.v ===== *)
(** * Construction: building loops, executors and runtimes

    [EventLoop::create], [Executor::create] and [Runtime::Builder::build] acquire
    descriptors one after the other; when one step fails, what was acquired is
    released by the destructors of the locals.  With what the workers and
    [block_on] install in the thread's locals. *)

From S2P Require Import Prelude Core TimerWheel Reactor World EventLoop ThreadPool Executor Task Runtime.

Module Construction.
Import EventLoop.

(** ** The descriptors of the process *)

(** What the calls used in construction do to the table of descriptors: a
    successful one gives a number not in use, [close] frees its argument also
    when it reports an error, nothing else changes the table. *)
Class DescriptorLaws (K : Type) `{Reactor.EpollKernel K} `{LoopKernel K} := {
  open_fds : K -> gset Z;
  epoll_create_ok k fd k' : Reactor.epoll_create1 k = (SOk fd, k') -> 0 <= fd /\ (fd ∉ open_fds k) /\ open_fds k' = {[fd]} ∪ open_fds k;
  epoll_create_err k e k' : Reactor.epoll_create1 k = (SErr e, k') -> open_fds k' = open_fds k;
  eventfd_ok k fd k' : eventfd k = (SOk fd, k') -> 0 <= fd /\ (fd ∉ open_fds k) /\ open_fds k' = {[fd]} ∪ open_fds k;
  eventfd_err k e k' : eventfd k = (SErr e, k') -> open_fds k' = open_fds k;
  epoll_ctl_table ep op fd ev k : open_fds (Reactor.epoll_ctl ep op fd ev k).2 = open_fds k;
  epoll_close_table fd k : open_fds (Reactor.epoll_close fd k).2 = open_fds k ∖ {[fd]};
  close_table fd k : open_fds (close_fd fd k) = open_fds k ∖ {[fd]};
  clock_table k : open_fds (clock_now k).2 = open_fds k;
}.

Section Create.
Context {K : Type} `{DescriptorLaws K}.

(** The descriptors a loop owns. *)
Definition loop_fds (l : Loop) : list Z := [Reactor.epoll_fd (reactor l); cross_core_fd l].

Lemma reactor_close_table r (k : K) : open_fds (Reactor.close r k).2 = open_fds k ∖ (if 0 <=? Reactor.epoll_fd r then {[Reactor.epoll_fd r]} else ∅).
Proof.
  unfold Reactor.close. destruct (0 <=? _); [|cbn; set_solver]. rewrite <- epoll_close_table.
  by destruct (Reactor.epoll_close _ k) as [[] ?].
Qed.

(** [fds] are new and the only ones added. *)
Definition acquires (k : K) (fds : list Z) (k' : K) : Prop :=
  NoDup fds /\ Forall (fun fd => 0 <= fd /\ fd ∉ open_fds k) fds /\ open_fds k' = list_to_set fds ∪ open_fds k.

Lemma free_one (a : Z) (S : gset Z) : a ∉ S -> ({[a]} ∪ S) ∖ {[a]} = S.
Proof. set_solver. Qed.

Lemma acquires_two (k k' : K) a b :
  0 <= a -> a ∉ open_fds k -> 0 <= b -> b ∉ {[a]} ∪ open_fds k -> open_fds k' = {[b]} ∪ ({[a]} ∪ open_fds k) -> acquires k [a; b] k'.
Proof.
  unfold acquires. generalize (open_fds k) (open_fds k'). intros S S' Pa Na Pb Nb ->. split_and!.
  - apply NoDup_cons. split; [set_solver|]. apply NoDup_singleton.
  - apply Forall_cons. split; [done|]. apply Forall_singleton. set_solver.
  - set_solver.
Qed.

Lemma loop_create_table g (k : K) :
  match EventLoop.create g k with
  | (Err _, k') => open_fds k' = open_fds k
  | (Ok l, k') => acquires k (loop_fds l) k'
  end.
Proof.
  unfold EventLoop.create, Reactor.create. destruct (Reactor.epoll_create1 k) as [[ep|e] k1] eqn:E1; [|by eapply epoll_create_err].
  apply epoll_create_ok in E1 as (P1 & N1 & T1). destruct (eventfd k1) as [[fd|e] k2] eqn:E2.
  2:{ apply eventfd_err in E2. pose proof (reactor_close_table (Reactor.mkReactor ep [] []) k2) as C.
      destruct (Reactor.close _ k2) as [[] k3]. cbn in C. rewrite C, E2, T1. destruct (Z.leb_spec 0 ep); [by apply free_one|lia]. }
  apply eventfd_ok in E2 as (P2 & N2 & T2). unfold Reactor.add, Reactor.ctl.
  pose proof (epoll_ctl_table ep Reactor.EPOLL_CTL_ADD fd (Reactor.to_epoll_events (IoEvent.or IoEvent.Read IoEvent.EdgeTrig)) k2) as T3.
  cbn [Reactor.epoll_fd]. destruct (Reactor.epoll_ctl _ _ _ _ k2) as [[u|e] k3]; cbn in T3.
  - pose proof (clock_table k3) as T4. destruct (clock_now k3) as [now k4]. cbn in T4. rewrite T1 in N2. apply (acquires_two k k4 ep fd); [done..|]. by rewrite T4, T3, T2, T1.
  - pose proof (reactor_close_table (Reactor.mkReactor ep [] []) (close_fd fd k3)) as C. rewrite close_table in C.
    destruct (Reactor.close _ _) as [[] k4]. cbn in C. rewrite C, T3, T2, free_one by done. rewrite T1.
    destruct (Z.leb_spec 0 ep); [by apply free_one|lia].
Qed.

(** Destroying a loop frees its two descriptors. *)
Lemma destroy_loop_table l (k : K) :
  Forall (fun fd => 0 <= fd) (loop_fds l) -> open_fds (Executor.destroy_loop k l) = open_fds k ∖ list_to_set (loop_fds l).
Proof.
  intros [P1 [P2 _]%Forall_cons]%Forall_cons.
  unfold Executor.destroy_loop, EventLoop.destroy. destruct (Z.leb_spec 0 (cross_core_fd l)); [|lia].
  pose proof (reactor_close_table (reactor l) (close_fd (cross_core_fd l) k)) as C. rewrite close_table in C.
  destruct (Reactor.close _ _) as [[] k1]. cbn in *. rewrite C. destruct (Z.leb_spec 0 (Reactor.epoll_fd (reactor l))); [set_solver|lia].
Qed.

Lemma destroy_loops_table ls : forall k : K,
  Forall (fun fd => 0 <= fd) (ls ≫= loop_fds) -> open_fds (foldl Executor.destroy_loop k ls) = open_fds k ∖ list_to_set (ls ≫= loop_fds).
Proof.
  induction ls as [|l ls IH]; intros k Hp; cbn; [set_solver|].
  change (Forall (fun fd => 0 <= fd) (loop_fds l ++ (ls ≫= loop_fds))) in Hp. apply Forall_app in Hp as [P1 P2].
  rewrite IH, destroy_loop_table by done. set_solver.
Qed.

Lemma acquires_app (k k1 k2 : K) fds fds' : acquires k fds k1 -> acquires k1 fds' k2 -> acquires k (fds ++ fds') k2.
Proof.
  intros (D1 & F1 & T1) (D2 & F2 & T2). rewrite Forall_forall in F1, F2. split_and!.
  - apply NoDup_app. split_and!; [done| |done]. intros x Hx Hy. destruct (F2 x Hy) as [_ []]. rewrite T1. set_solver.
  - apply Forall_app. split; apply Forall_forall; [done|]. intros x Hx. destruct (F2 x Hx) as [P N]. split; [done|]. rewrite T1 in N. set_solver.
  - rewrite T2, T1, list_to_set_app_L. set_solver.
Qed.

(** Moving a loop passes its descriptors on: the destructor of the moved-from one
    closes nothing. *)
Lemma moved_loop g l (k : K) :
  loop_fds (move_construct g l).1 = loop_fds l /\ Executor.destroy_loop k (move_construct g l).2 = k.
Proof. done. Qed.

Lemma create_loops_table n : forall i ls (k0 k : K),
  acquires k0 (ls ≫= loop_fds) k ->
  match Executor.create_loops n i ls k with
  | (Err _, k') => open_fds k' = open_fds k0
  | (Ok ls', k') => acquires k0 (ls' ≫= loop_fds) k' /\ length ls' = (length ls + n)%nat
  end.
Proof.
  induction n as [|n IH]; intros i ls k0 k A; cbn [Executor.create_loops]; [by rewrite Nat.add_0_r|].
  pose proof (loop_create_table i k) as L. destruct (EventLoop.create i k) as [[l|e] k1].
  - destruct (moved_loop i l k1) as [El Ek]. destruct (move_construct i l) as [l' rest]. cbn [fst snd] in El, Ek. rewrite Ek.
    assert (acquires k0 ((ls ++ [l']) ≫= loop_fds) k1) as A1.
    { rewrite bind_app. eapply acquires_app; [done|]. cbn [mbind list_bind]. by rewrite app_nil_r, El. }
    specialize (IH (S i) (ls ++ [l']) k0 k1 A1). destruct (Executor.create_loops _ _ _ _) as [[ls'|e] k2]; [|done].
    rewrite length_app in IH. cbn in IH. split; [apply IH|]. destruct IH as [_ ->]. lia.
  - destruct A as (_ & F & T). rewrite destroy_loops_table.
    + rewrite L, T. rewrite Forall_forall in F. set_solver.
    + eapply Forall_impl; [exact F|]. by intros fd [].
Qed.

Definition exec_fds (X : Executor.Exec K) : list Z := Executor.worlds X ≫= fun W => loop_fds (loop W).

Lemma executor_create_table n cores (k : K) :
  match Executor.create n cores k with
  | (Err _, k') => open_fds k' = open_fds k
  | (Ok X, k') => Executor.core_count X = n /\ length (exec_fds X) = (2 * n)%nat /\ acquires k (exec_fds X) k'
  end.
Proof.
  unfold Executor.create. pose proof (create_loops_table n 0 [] k k) as C.
  destruct (Executor.create_loops _ _ _ _) as [[ls|e] k']; [|by apply C; split_and!; [constructor|constructor|set_solver]].
  destruct C as [A Hl]; [by split_and!; [constructor|constructor|set_solver]|]. cbn in Hl.
  assert (exec_fds (Executor.make_exec cores ls k') = ls ≫= loop_fds) as Ef.
  { unfold exec_fds, Executor.make_exec. cbn. clear. induction ls as [|l ls IH]; [done|]. cbn. by rewrite <- IH. }
  rewrite Ef. split_and!; [|clear -Hl; revert n Hl; induction ls as [|l ls IH]; intros n Hl; cbn in *; [lia|]|done].
  - unfold Executor.core_count, Executor.make_exec. cbn. by rewrite length_fmap.
  - destruct n as [|n]; [done|]. change (length (loop_fds l ++ (ls ≫= loop_fds)) = (2 * S n)%nat). rewrite length_app, (IH n); [cbn; lia|congruence].
Qed.

(** C33: Building a runtime leaks nothing.  [build] either fails with the table of
    descriptors as it was - whichever epoll instance or eventfd of whichever core
    could not be had, and also when closing the others reports errors - or gives
    an executor with the requested number of cores, whose loops own exactly the
    new descriptors, two different ones each; and it has a pool exactly when
    blocking was enabled. *)
Theorem build_leaks_nothing (T : Type) (b : Runtime.Builder) cores (k : K) :
  match Runtime.build (T := T) b cores k with
  | (Err _, k') => open_fds k' = open_fds k
  | (Ok rt, k') =>
    Runtime.core_count rt = Z.to_nat (Runtime.workers b) /\ Runtime.has_thread_pool rt = Runtime.enable_blocking_ b /\
    length (exec_fds (Runtime.executor rt)) = (2 * Z.to_nat (Runtime.workers b))%nat /\
    NoDup (exec_fds (Runtime.executor rt)) /\
    (forall fd, fd ∈ exec_fds (Runtime.executor rt) -> 0 <= fd /\ fd ∉ open_fds k) /\
    open_fds k' = list_to_set (exec_fds (Runtime.executor rt)) ∪ open_fds k
  end.
Proof.
  unfold Runtime.build. pose proof (executor_create_table (Z.to_nat (Runtime.workers b)) cores k) as C.
  destruct (Executor.create _ _ _) as [[X|e] k']; [|done]. cbn. destruct C as (Hc & Hl & D & F & T'). rewrite Forall_forall in F.
  split_and!; try done. unfold Runtime.has_thread_pool. cbn. by destruct (Runtime.enable_blocking_ b).
Qed.

End Create.

(** ** The pool a thread sees *)

Section Locals.
Context {K T : Type} `{Reactor.EpollKernel K} `{LoopKernel K} `{Executor.ProcKernel K}.

(** Every worker started by [Runtime::run] has the runtime's pool installed while
    its loop runs, whatever callbacks were registered before and with whatever its
    thread-locals began, so that [spawn_blocking] and the file operations find it;
    [block_on] installs it for the duration of its loop and leaves both pointers
    null; without a pool the pointer [spawn_blocking] dereferences is null. *)
Theorem workers_see_the_pool addr setup (rt : Runtime.Runtime (K := K) (T := T)) c r rt' c' :
  Runtime.run addr setup rt c = Some (r, rt', c') ->
  Executor.teardown_ c' = Executor.teardown_ c /\
  forall i l, Runtime.spawn_blocking_pool true (Executor.worker_enter i c' l) = Runtime.pool_ptr addr rt /\
    Executor.g_metrics (Executor.worker_enter i c' l) = Some i /\
    Runtime.spawn_blocking_pool true (Runtime.block_enter i (Runtime.pool_ptr addr rt) l) = Runtime.pool_ptr addr rt /\
    Runtime.block_leave (Runtime.block_enter i (Runtime.pool_ptr addr rt) l) = Executor.fresh_locals /\
    (Runtime.has_thread_pool rt = true <-> is_Some (Runtime.pool_ptr addr rt)).
Proof.
  unfold Runtime.run. destruct (Executor.run _ _) as [x|]; [|done]. intros [= _ _ <-]. split; [done|]. intros i l.
  split_and!; try done. unfold Runtime.has_thread_pool, Runtime.pool_ptr. destruct (Runtime.pool rt); cbn; [by split; eauto|].
  split; [done|]. by intros [].
Qed.

End Locals.

(** ** Witness: the second core cannot have its eventfd *)

Section Witness.

(** The descriptors in use; numbers from 9 on are refused, and closing reports an
    error. *)
Definition Table : Type := gset Z.
Definition lowest (k : Table) : option Z := list_find (fun fd => fd ∉ k) [3; 4; 5; 6; 7; 8] ≫= fun x => Some x.2.
Definition take (k : Table) : SysRet Z * Table :=
  match lowest k with Some fd => (SOk fd, {[fd]} ∪ k) | None => (SErr 24, k) end.

#[local] Instance table_epoll : Reactor.EpollKernel Table := {
  epoll_create1 := take;
  epoll_ctl _ _ _ _ k := (SOk tt, k);
  epoll_wait _ _ _ k := (SOk [], k);
  epoll_close fd k := (SErr EIO, k ∖ {[fd]});
}.
#[local] Instance table_loop : LoopKernel Table := {
  eventfd := take;
  eventfd_write _ k := (SOk tt, k);
  eventfd_read _ k := k;
  close_fd fd k := k ∖ {[fd]};
  clock_now k := (0, k);
}.

Lemma take_ok k fd k' : take k = (SOk fd, k') -> 0 <= fd /\ (fd ∉ k) /\ k' = {[fd]} ∪ k.
Proof.
  unfold take, lowest. destruct (list_find _ _) as [[i x]|] eqn:E; cbn; [|done]. intros [= <- <-].
  apply list_find_Some in E as (Hi & Hx & _). split_and!; [|done|done].
  apply list_elem_of_lookup_2 in Hi. repeat (apply elem_of_cons in Hi; destruct Hi as [->|Hi]; [lia|]). by apply not_elem_of_nil in Hi.
Qed.

Lemma take_err k e k' : take k = (SErr e, k') -> k' = k.
Proof. unfold take. destruct (lowest k); [done|]. by intros [= _ <-]. Qed.

#[local] Instance table_laws : DescriptorLaws Table := {
  open_fds k := k;
  epoll_create_ok := take_ok;
  epoll_create_err := take_err;
  eventfd_ok := take_ok;
  eventfd_err := take_err;
  epoll_ctl_table _ _ _ _ _ := eq_refl;
  epoll_close_table _ _ := eq_refl;
  close_table _ _ := eq_refl;
  clock_table _ := eq_refl;
}.

Definition two_cores : Runtime.Builder := Runtime.worker_threads 2 (Runtime.builder 4).
Definition busy : Table := {[4; 6; 8]}.

(** With three numbers left the second core fails and everything is given back;
    with all of them free the two cores own four descriptors. *)
Lemma build_leaks_nothing_witness :
  (exists e k', Runtime.build (T := unit) two_cores [] busy = (Err e, k') /\ k' = busy) /\
  (exists rt k', Runtime.build (T := unit) two_cores [] (∅ : Table) = (Ok rt, k') /\ length (exec_fds (Runtime.executor rt)) = 4%nat).
Proof.
  split.
  - pose proof (build_leaks_nothing unit two_cores [] busy) as H. destruct (Runtime.build two_cores [] busy) as [[rt|e] k'] eqn:E.
    + exfalso. revert E. vm_compute. discriminate.
    + exists e, k'. split; [reflexivity|exact H].
  - pose proof (build_leaks_nothing unit two_cores [] ∅) as H. destruct (Runtime.build two_cores [] ∅) as [[rt|e] k'] eqn:E.
    + exists rt, k'. split; [reflexivity|]. apply H.
    + exfalso. revert E. vm_compute. discriminate.
Defined.

End Witness.
End Construction.
