(* ===== verification/EchoServer.v ===== *)
(** * EchoServer: [rain_tour/examples/coroutines_advanced/echo_server.cpp]

    The tour's echo server: one thread, an epoll instance, one self-destroying
    coroutine per connection and one that accepts.  A suspended coroutine is a
    [Frame]: which [co_await] it is at, with the locals that are live there;
    [g_waiters] maps a descriptor to the handle that waits for it.  Resuming a
    handle whose frame is gone is [None].  System calls are the class
    [EchoKernel]. *)

From S2P Require Import Prelude Core Reactor Address.

Module EchoServer.
Import Reactor.

Definition kPort : Z := 9200.
Definition kBacklog : Z := 128.
Definition kMaxEvents : nat := 64.
Definition kBufSize : nat := 4096.

(** [epoll_wait] gives the [data.fd] of the events it stored; [accept] the new
    descriptor. *)
Class EchoKernel (K : Type) := {
  ek_epoll_create1 : K -> SysRet Z * K;
  ek_epoll_ctl : Z -> CtlOp -> Z -> Z -> K -> SysRet unit * K;
  ek_epoll_wait : Z -> nat -> K -> SysRet (list Z) * K;
  ek_read : Z -> nat -> K -> SysRet (list Z) * K;
  ek_write : Z -> list Z -> K -> SysRet nat * K;
  ek_accept : Z -> K -> SysRet Z * K;
  ek_socket : K -> SysRet Z * K;
  ek_reuseaddr : Z -> K -> SysRet unit * K;
  ek_bind : Z -> list Z -> K -> SysRet unit * K;
  ek_listen : Z -> Z -> K -> SysRet unit * K;
  ek_getfl : Z -> K -> SysRet Z * K;
  ek_setfl : Z -> Z -> K -> SysRet unit * K;
  ek_close : Z -> K -> SysRet unit * K;
}.

(** A coroutine at its [co_await]: of [accept_loop], of the outer loop of
    [handle_connection], or of its write loop with [buf], [n] its length, and
    [off]. *)
Inductive Frame :=
| Accepting (listener : Z)
| Reading (conn : Z)
| Writing (conn : Z) (buf : list Z) (off : nat).

Definition frame_fd (f : Frame) : Z := match f with Accepting fd | Reading fd | Writing fd _ _ => fd end.

Definition frame_events (f : Frame) : Z := match f with Writing _ _ _ => EPOLLOUT | _ => EPOLLIN end.

(** The globals, the frames in memory and the kernel; [next_frame] is fresh. *)
Record Server (K : Type) := mkServer {
  g_epfd : Z;
  g_waiters : gmap Z nat;
  frames : gmap nat Frame;
  next_frame : nat;
  kern : K;
}.
Arguments mkServer {K} _ _ _ _ _.
Arguments g_epfd {K} _.
Arguments g_waiters {K} _.
Arguments frames {K} _.
Arguments next_frame {K} _.
Arguments kern {K} _.

(** [make_addr]: the 16 bytes of a [sockaddr_in]. *)
Definition make_addr (port : Z) : list Z := take 16 (Address.any port).

(** The [events] of [make_event]. *)
Definition make_event (events : Z) : Z := Z.lor events EPOLLONESHOT.

Definition O_NONBLOCK : Z := 0x800.

Section Server.
Context {K : Type} `{EchoKernel K}.

Definition set_kern (k : K) (s : Server K) : Server K := mkServer (g_epfd s) (g_waiters s) (frames s) (next_frame s) k.
Definition set_waiters (w : gmap Z nat) (s : Server K) : Server K := mkServer (g_epfd s) w (frames s) (next_frame s) (kern s).
Definition set_frames (f : gmap nat Frame) (s : Server K) : Server K := mkServer (g_epfd s) (g_waiters s) f (next_frame s) (kern s).

Definition set_nonblocking (fd : Z) (k : K) : K :=
  let '(r, k) := ek_getfl fd k in
  let fl := match r with SOk fl => fl | SErr _ => -1 end in
  (ek_setfl fd (Z.lor fl O_NONBLOCK) k).2.

(** [IoAwaiter::await_suspend] *)
Definition await_suspend (fd events : Z) (h : nat) (s : Server K) : Server K :=
  let s := set_waiters (<[fd := h]> (g_waiters s)) s in
  let ev := make_event events in
  match ek_epoll_ctl (g_epfd s) EPOLL_CTL_MOD fd ev (kern s) with
  | (SOk _, k) => set_kern k s
  | (SErr _, k) => set_kern (ek_epoll_ctl (g_epfd s) EPOLL_CTL_ADD fd ev k).2 s
  end.

(** [co_await] with the frame [h] in the state [f]. *)
Definition suspend (h : nat) (f : Frame) (s : Server K) : Server K :=
  await_suspend (frame_fd f) (frame_events f) h (set_frames (<[h := f]> (frames s)) s).

(** [handle_connection] up to its first [co_await]. *)
Definition handle_connection (conn : Z) (s : Server K) : Server K :=
  let s := set_kern (set_nonblocking conn (kern s)) s in
  let h := next_frame s in
  suspend h (Reading conn) (mkServer (g_epfd s) (g_waiters s) (frames s) (S h) (kern s)).

(** The end of [handle_connection]; its frame is destroyed as it returns. *)
Definition close_connection (h : nat) (conn : Z) (s : Server K) : Server K :=
  let s := set_kern (ek_epoll_ctl (g_epfd s) EPOLL_CTL_DEL conn 0 (kern s)).2 s in
  let s := set_waiters (delete conn (g_waiters s)) s in
  let s := set_kern (ek_close conn (kern s)).2 s in
  set_frames (delete h (frames s)) s.

(** The loop [while (off < n)], then back to the [co_await] of the outer loop. *)
Fixpoint write_loop (fuel : nat) (h : nat) (conn : Z) (buf : list Z) (off : nat) (s : Server K) : option (Server K) :=
  match fuel with
  | O => None
  | S fuel =>
    if (off <? length buf)%nat then
      match ek_write conn (drop off buf) (kern s) with
      | (SErr e, k) =>
        let s := set_kern k s in
        if e =? EAGAIN then Some (suspend h (Writing conn buf off) s) else Some (close_connection h conn s)
      | (SOk w, k) => write_loop fuel h conn buf (off + w) (set_kern k s)
      end
    else Some (suspend h (Reading conn) s)
  end.

(** [handle_connection] resumed at [co_await wait_readable(conn)]. *)
Definition resume_reading (h : nat) (conn : Z) (s : Server K) : option (Server K) :=
  match ek_read conn kBufSize (kern s) with
  | (SErr e, k) =>
    let s := set_kern k s in
    if e =? EAGAIN then Some (suspend h (Reading conn) s) else Some (close_connection h conn s)
  | (SOk [], k) => Some (close_connection h conn (set_kern k s))
  | (SOk buf, k) => write_loop (S (length buf)) h conn buf 0 (set_kern k s)
  end.

(** The inner loop of [accept_loop], then its [co_await]. *)
Fixpoint accept_drain (fuel : nat) (h : nat) (listener : Z) (s : Server K) : option (Server K) :=
  match fuel with
  | O => None
  | S fuel =>
    match ek_accept listener (kern s) with
    | (SErr e, k) =>
      if e =? EINTR then accept_drain fuel h listener (set_kern k s)
      else Some (suspend h (Accepting listener) (set_kern k s))
    | (SOk conn, k) => accept_drain fuel h listener (handle_connection conn (set_kern k s))
    end
  end.

(** [h.resume()] *)
Definition resume (fuel : nat) (h : nat) (s : Server K) : option (Server K) :=
  f ← frames s !! h;
  match f with
  | Accepting listener => accept_drain fuel h listener s
  | Reading conn => resume_reading h conn s
  | Writing conn buf off => write_loop (S (length buf - off)) h conn buf off s
  end.

(** The body of the [for] loop of [run]. *)
Definition dispatch (fuel : nat) (fd : Z) (s : Server K) : option (Server K) :=
  match g_waiters s !! fd with
  | None => Some s
  | Some h => resume fuel h (set_waiters (delete fd (g_waiters s)) s)
  end.

Fixpoint dispatch_all (fuel : nat) (fds : list Z) (s : Server K) : option (Server K) :=
  match fds with
  | [] => Some s
  | fd :: fds => s ← dispatch fuel fd s; dispatch_all fuel fds s
  end.

(** One turn of [run]; the flag tells whether it goes on. *)
Definition run_turn (fuel : nat) (s : Server K) : option (bool * Server K) :=
  match ek_epoll_wait (g_epfd s) kMaxEvents (kern s) with
  | (SErr e, k) => Some (e =? EINTR, set_kern k s)
  | (SOk fds, k) => s ← dispatch_all fuel fds (set_kern k s); Some (true, s)
  end.

(** [run], for at most [turns] turns. *)
Fixpoint run (turns fuel : nat) (s : Server K) : option (Server K) :=
  match turns with
  | O => Some s
  | S turns => x ← run_turn fuel s; if (x.1 : bool) then run turns fuel x.2 else Some x.2
  end.

(** An error of the start-up: the call it names and the [errno] it formats. *)
Definition StartError : Type := string * Z.

Definition make_epoll (k : K) : (StartError + Z) * K :=
  match ek_epoll_create1 k with
  | (SErr e, k) => (inl ("epoll_create1"%string, e), k)
  | (SOk fd, k) => (inr fd, k)
  end.

(** [close(fd)] before [strerror(errno)]: a failing [close] overwrites [errno]. *)
Definition close_then_err (call : string) (e fd : Z) (k : K) : (StartError + Z) * K :=
  match ek_close fd k with
  | (SErr e', k) => (inl (call, e'), k)
  | (SOk _, k) => (inl (call, e), k)
  end.

Definition make_listener (port : Z) (k : K) : (StartError + Z) * K :=
  match ek_socket k with
  | (SErr e, k) => (inl ("socket"%string, e), k)
  | (SOk fd, k) =>
    let k := (ek_reuseaddr fd k).2 in
    match ek_bind fd (make_addr port) k with
    | (SErr e, k) => close_then_err "bind" e fd k
    | (SOk _, k) =>
      match ek_listen fd kBacklog k with
      | (SErr e, k) => close_then_err "listen" e fd k
      | (SOk _, k) => (inr fd, set_nonblocking fd k)
      end
    end
  end.

(** [accept_loop] up to its first [co_await]. *)
Definition accept_loop (listener : Z) (s : Server K) : Server K :=
  let h := next_frame s in
  suspend h (Accepting listener) (mkServer (g_epfd s) (g_waiters s) (frames s) (S h) (kern s)).

(** [main] up to [run()]. *)
Definition start (k : K) : StartError + Server K :=
  match make_epoll k with
  | (inl e, _) => inl e
  | (inr epfd, k) =>
    match make_listener kPort k with
    | (inl e, _) => inl e
    | (inr listener, k) => inr (accept_loop listener (mkServer epfd ∅ ∅ 0 k))
    end
  end.

End Server.
End EchoServer.
