(* ===== verification/EchoProps.v ===== *)
(** * EchoProps: the echo server echoes

    The laws of the system calls the server relies on ([EchoLaws]), the
    invariant of its coroutines, theorems, and a concrete kernel ([SimEcho]). *)

From S2P Require Import Prelude Core Reactor EchoServer.

Module EchoProps.
Import EchoServer.

(** ** What a descriptor has gone through since it was opened

    The bytes read from it and written to it, whether it is armed in epoll, and
    whether the last attempt to add it there was refused. *)

Record Sock := mkSock { consumed : list Z; sent : list Z; armed : bool; refused : bool }.

Definition new_sock : Sock := mkSock [] [] false false.
Definition consume (bs : list Z) (sk : Sock) : Sock := mkSock (consumed sk ++ bs) (sent sk) (armed sk) (refused sk).
Definition deliver (bs : list Z) (sk : Sock) : Sock := mkSock (consumed sk) (sent sk ++ bs) (armed sk) (refused sk).
Definition arm (b : bool) (sk : Sock) : Sock := mkSock (consumed sk) (sent sk) b false.
Definition refuse (sk : Sock) : Sock := mkSock (consumed sk) (sent sk) (armed sk) true.

(** [backlog]: how many more times [accept] can give a connection or be
    interrupted. *)
Class EchoView (K : Type) := { socks : K -> gmap Z Sock; backlog : K -> nat }.

Definition quiet `{EchoView K} (k k' : K) : Prop := socks k' = socks k /\ (backlog k' <= backlog k)%nat.
Definition changes `{EchoView K} (f : Sock -> Sock) (fd : Z) (k k' : K) : Prop :=
  socks k' = alter f fd (socks k) /\ (backlog k' <= backlog k)%nat.

(** Reading consumes and writing delivers a prefix, never nothing; descriptors
    are fresh while open; a successful [epoll_ctl] arms or removes its
    descriptor, and any call may fail ([ENOSPC], [ENOMEM]): a failed one changes
    nothing but the record of a refused addition; one-shot events disarm what
    they report; closing releases the descriptor, also when it reports an
    error. *)
Class EchoLaws (K : Type) `{EchoKernel K, EchoView K} := {
  read_ok fd n k bs k' : ek_read fd n k = (SOk bs, k') -> changes (consume bs) fd k k';
  read_err fd n k e k' : ek_read fd n k = (SErr e, k') -> quiet k k';
  write_ok fd data k w k' : ek_write fd data k = (SOk w, k') ->
    (data <> [] -> (0 < w)%nat) /\ (w <= length data)%nat /\ changes (deliver (take w data)) fd k k';
  write_err fd data k e k' : ek_write fd data k = (SErr e, k') -> quiet k k';
  accept_ok fd k c k' : ek_accept fd k = (SOk c, k') ->
    socks k !! c = None /\ socks k' = <[c := new_sock]> (socks k) /\ (backlog k' < backlog k)%nat;
  accept_err fd k e k' : ek_accept fd k = (SErr e, k') -> quiet k k' /\ (e = EINTR -> (backlog k' < backlog k)%nat);
  ctl_ok ep op fd ev k u k' : ek_epoll_ctl ep op fd ev k = (SOk u, k') ->
    changes (arm match op with Reactor.EPOLL_CTL_DEL => false | _ => true end) fd k k';
  ctl_err ep op fd ev k e k' : ek_epoll_ctl ep op fd ev k = (SErr e, k') ->
    match op with Reactor.EPOLL_CTL_ADD => changes refuse fd k k' | _ => quiet k k' end;
  wait_ok ep n k fds k' : ek_epoll_wait ep n k = (SOk fds, k') ->
    (forall fd, socks k' !! fd = if decide (fd ∈ fds) then arm false <$> socks k !! fd else socks k !! fd) /\
    (backlog k' <= backlog k)%nat;
  wait_err ep n k e k' : ek_epoll_wait ep n k = (SErr e, k') -> quiet k k';
  socket_ok k fd k' : ek_socket k = (SOk fd, k') ->
    socks k !! fd = None /\ socks k' = <[fd := new_sock]> (socks k) /\ (backlog k' <= backlog k)%nat;
  socket_err k e k' : ek_socket k = (SErr e, k') -> quiet k k';
  close_law fd k r k' : ek_close fd k = (r, k') -> socks k' = delete fd (socks k) /\ (backlog k' <= backlog k)%nat;
  create_law k r k' : ek_epoll_create1 k = (r, k') -> quiet k k';
  getfl_law fd k r k' : ek_getfl fd k = (r, k') -> quiet k k';
  setfl_law fd v k r k' : ek_setfl fd v k = (r, k') -> quiet k k';
  reuse_law fd k r k' : ek_reuseaddr fd k = (r, k') -> quiet k k';
  bind_law fd a k r k' : ek_bind fd a k = (r, k') -> quiet k k';
  listen_law fd n k r k' : ek_listen fd n k = (r, k') -> quiet k k';
}.

(** A connection that waits for input has been echoed completely; one that
    waits for room owes the rest of its buffer. *)
Definition frame_ok (f : Frame) (sk : Sock) : Prop :=
  match f with
  | Accepting _ => True
  | Reading _ => sent sk = consumed sk
  | Writing _ buf off => sent sk ++ drop off buf = consumed sk /\ (off < length buf)%nat
  end.

(** Armed, or its addition to epoll was refused. *)
Definition watched (sk : Sock) : bool := armed sk || refused sk.

(** What arming does to a descriptor: it arms it, or it is refused. *)
Definition arming (f : Sock -> Sock) : Prop := f = arm true \/ f = refuse.

Lemma arming_spec f fr sk : arming f -> watched (f sk) = true /\ (frame_ok fr sk -> frame_ok fr (f sk)).
Proof. intros [-> | ->]; (split; [unfold watched; cbn; by rewrite ?orb_true_r|by destruct fr]). Qed.

Section Props.
Context {K : Type} `{EchoLaws K}.

(** [due]: descriptors whose events are still to be dispatched. *)
Record Inv (due : list Z) (s : Server K) : Prop := {
  inv_waiter fd h : g_waiters s !! fd = Some h -> exists f, frames s !! h = Some f /\ frame_fd f = fd;
  inv_frame h f : frames s !! h = Some f -> g_waiters s !! frame_fd f = Some h /\
    exists sk, socks (kern s) !! frame_fd f = Some sk /\ frame_ok f sk /\ (watched sk = true \/ frame_fd f ∈ due);
  inv_fresh h : (next_frame s <= h)%nat -> frames s !! h = None;
}.

(** While the coroutine [h], which owns [fd], runs: the invariant for the others. *)
Record Running (h : nat) (fd : Z) (due : list Z) (s : Server K) : Prop := {
  run_others : Inv due (set_frames (delete h (frames s)) s);
  run_free : g_waiters s !! fd = None;
  run_open : is_Some (socks (kern s) !! fd);
  run_handle : (h < next_frame s)%nat;
}.

Lemma other_fd h fd due s h' f : Running h fd due s -> delete h (frames s) !! h' = Some f -> frame_fd f <> fd.
Proof. intros R E Ef. apply (inv_frame _ _ (run_others _ _ _ _ R)) in E as [Hw _]. cbn in Hw. rewrite Ef, (run_free _ _ _ _ R) in Hw. done. Qed.

(** A call that touches only the running coroutine's descriptor. *)
Lemma Running_kern h fd due s k' :
  Running h fd due s -> (forall fd', fd' <> fd -> socks k' !! fd' = socks (kern s) !! fd') -> is_Some (socks k' !! fd) ->
  Running h fd due (set_kern k' s).
Proof.
  intros R Hk Ho. split; [|apply R|done|apply R]. split; cbn; [apply R| |apply R].
  intros h' f E. rewrite Hk by (by eapply other_fd). by apply R.
Qed.

Lemma Running_changes h fd due s k' f :
  Running h fd due s -> changes f fd (kern s) k' -> Running h fd due (set_kern k' s).
Proof.
  intros R [E _]. apply Running_kern; [done| |].
  - intros fd' Hn. rewrite E, lookup_alter_ne; done.
  - rewrite E, lookup_alter, decide_True by done. destruct (run_open _ _ _ _ R) as [sk ->]. eauto.
Qed.

Lemma Running_quiet h fd due s k' : Running h fd due s -> quiet (kern s) k' -> Running h fd due (set_kern k' s).
Proof. intros R [E _]. apply Running_kern; [done|by intros; rewrite E|rewrite E; apply R]. Qed.

(** *** Waiting *)

(** [await_suspend] arms the descriptor or is refused. *)
Lemma await_suspend_spec fd ev h (s : Server K) :
  exists g k', arming g /\ await_suspend fd ev h s = set_kern k' (set_waiters (<[fd := h]> (g_waiters s)) s) /\
    changes g fd (kern s) k'.
Proof.
  unfold await_suspend. cbn [g_epfd kern set_waiters].
  destruct (ek_epoll_ctl _ Reactor.EPOLL_CTL_MOD _ _ _) as [[u|e] k] eqn:E.
  - exists (arm true), k. split; [by left|]. split; [done|]. exact (ctl_ok _ _ _ _ _ _ _ E).
  - destruct (ctl_err _ _ _ _ _ _ _ E) as [Ek Hb].
    destruct (ek_epoll_ctl _ Reactor.EPOLL_CTL_ADD _ _ _) as [[u|e'] k2] eqn:E2; cbn [snd].
    + exists (arm true), k2. split; [by left|]. split; [done|]. destruct (ctl_ok _ _ _ _ _ _ _ E2) as [Ek2 Hb2].
      split; [by rewrite Ek2, Ek|lia].
    + exists refuse, k2. split; [by right|]. split; [done|]. destruct (ctl_err _ _ _ _ _ _ _ E2) as [Ek2 Hb2].
      split; [by rewrite Ek2, Ek|lia].
Qed.

Lemma suspend_spec h fd f due s :
  Running h fd due s -> frame_fd f = fd -> (forall sk, socks (kern s) !! fd = Some sk -> frame_ok f sk) ->
  Inv due (suspend h f s) /\ (backlog (kern (suspend h f s)) <= backlog (kern s))%nat /\
  frames (suspend h f s) = <[h := f]> (frames s).
Proof.
  intros R Ef Hok. unfold suspend. rewrite Ef. destruct (run_open _ _ _ _ R) as [sk Hsk].
  destruct (await_suspend_spec fd (frame_events f) h (set_frames (<[h := f]> (frames s)) s)) as (g & k' & Hg & -> & [Ek Hb]).
  cbn in *. split; [|done].
  assert (forall h', h' <> h -> delete h (frames s) !! h' = frames s !! h') as Hd by (intros; by rewrite lookup_delete_ne).
  destruct (run_others _ _ _ _ R) as [Iw If Ii]. cbn in Iw, If, Ii. split; cbn.
  - intros fd' h'. rewrite lookup_insert. case_decide as Hf; [intros [= <-]; exists f; rewrite lookup_insert_eq; naive_solver|].
    intros Hw. destruct (Iw _ _ Hw) as (f' & Hf' & <-). exists f'. apply lookup_delete_Some in Hf' as [Hn Hf'].
    by rewrite lookup_insert_ne.
  - intros h' f'. rewrite lookup_insert. case_decide as Hh; subst.
    + intros [= <-]. rewrite lookup_insert_eq. split; [done|]. exists (g sk).
      rewrite Ek, lookup_alter, decide_True, Hsk by done. split; [done|]. destruct (arming_spec g f sk Hg) as [Hw Hf]. auto.
    + intros Hf'. assert (delete h (frames s) !! h' = Some f') as Hdel by (by rewrite Hd by congruence).
      pose proof (other_fd _ _ _ _ _ _ R Hdel) as Hne. rewrite Ek, lookup_insert_ne, lookup_alter_ne by congruence. by apply If.
  - intros h' Hh. pose proof (run_handle _ _ _ _ R). rewrite lookup_insert_ne by lia. rewrite <- Hd by lia. by apply Ii.
Qed.

Lemma close_connection_spec h fd due s :
  Running h fd due s ->
  Inv due (close_connection h fd s) /\ (backlog (kern (close_connection h fd s)) <= backlog (kern s))%nat /\
  frames (close_connection h fd s) = delete h (frames s).
Proof.
  intros R. unfold close_connection. cbn [set_kern set_waiters set_frames g_epfd kern frames g_waiters].
  destruct (ek_epoll_ctl _ _ _ _ _) as [r k1] eqn:E1. destruct (ek_close _ _) as [r2 k2] eqn:E2. cbn [snd] in *.
  apply close_law in E2 as [Ek2 Hb2].
  assert (forall fd', fd' <> fd -> socks k2 !! fd' = socks (kern s) !! fd') as Hk.
  { intros fd' Hn. rewrite Ek2, lookup_delete_ne by done. destruct r as [u|e].
    - apply ctl_ok in E1 as [-> _]. by rewrite lookup_alter_ne.
    - by apply ctl_err in E1 as [-> _]. }
  assert (backlog k1 <= backlog (kern s))%nat by (destruct r; [apply ctl_ok in E1 as [_ ?]|apply ctl_err in E1 as [_ ?]]; done).
  split; [|cbn; split; [lia|done]]. destruct (run_others _ _ _ _ R) as [Iw If Ii]. cbn in Iw, If, Ii. split; cbn.
  - intros fd' h'. rewrite lookup_delete_Some. intros [_ Hw]. by apply Iw.
  - intros h' f Hf. pose proof (other_fd _ _ _ _ _ _ R Hf). rewrite Hk, lookup_delete_ne by congruence. by apply If.
  - apply Ii.
Qed.

(** *** Resuming *)

(** The coroutine [h] has suspended or ended, and the others are as they were. *)
Definition settled (h : nat) (due : list Z) (s s' : Server K) : Prop :=
  Inv due s' /\ (backlog (kern s') <= backlog (kern s))%nat /\
  forall h', h' <> h -> is_Some (frames s !! h') -> frames s' !! h' = frames s !! h'.

Lemma settled_kern h due s k' s' :
  (backlog k' <= backlog (kern s))%nat -> settled h due (set_kern k' s) s' -> settled h due s s'.
Proof. intros Hb (I & Hb' & Hf). cbn in Hb', Hf. split; [done|]. split; [lia|done]. Qed.

Lemma settled_suspend h fd f due s :
  Running h fd due s -> frame_fd f = fd -> (forall sk, socks (kern s) !! fd = Some sk -> frame_ok f sk) ->
  settled h due s (suspend h f s).
Proof.
  intros R Ef Hok. destruct (suspend_spec h fd f due s R Ef Hok) as (I & Hb & Efr). split; [done|]. split; [done|].
  intros h' Hn _. by rewrite Efr, lookup_insert_ne.
Qed.

Lemma settled_close h fd due s : Running h fd due s -> settled h due s (close_connection h fd s).
Proof.
  intros R. destruct (close_connection_spec h fd due s R) as (I & Hb & Efr). split; [done|]. split; [done|].
  intros h' Hn _. by rewrite Efr, lookup_delete_ne.
Qed.

Lemma write_loop_spec fuel h fd buf off due s sk :
  (length buf - off < fuel)%nat -> (off <= length buf)%nat -> Running h fd due s ->
  socks (kern s) !! fd = Some sk -> sent sk ++ drop off buf = consumed sk ->
  exists s', write_loop fuel h fd buf off s = Some s' /\ settled h due s s'.
Proof.
  induction fuel as [|fuel IH] in off, s, sk |- *; intros Hf Ho R Hsk Hs; [lia|]. cbn [write_loop].
  destruct (Nat.ltb_spec off (length buf)) as [Hlt|Hge].
  2:{ eexists. split; [done|]. apply (settled_suspend h fd); [done|done|]. intros sk' Hsk'. simplify_eq.
      rewrite drop_ge, app_nil_r in Hs by lia. done. }
  destruct (ek_write _ _ _) as [[w|e] k] eqn:E.
  - apply write_ok in E as (Hpos & Hw & Hch). rewrite length_drop in Hw.
    assert (0 < w)%nat by (apply Hpos; intros Hnil; apply (f_equal length) in Hnil; rewrite length_drop in Hnil; cbn in Hnil; lia).
    destruct (IH (off + w)%nat (set_kern k s) (deliver (take w (drop off buf)) sk)) as (s' & Es & S').
    + lia.
    + lia.
    + by eapply Running_changes.
    + cbn. destruct Hch as [-> _]. by rewrite lookup_alter, decide_True, Hsk by done.
    + cbn. rewrite <- app_assoc, <- drop_drop, take_drop. done.
    + exists s'. split; [done|]. eapply settled_kern; [apply Hch|done].
  - apply write_err in E as Hq. pose proof (Running_quiet _ _ _ _ _ R Hq) as R'. destruct (e =? EAGAIN); (eexists; split; [done|]).
    + eapply settled_kern; [apply Hq|]. apply (settled_suspend h fd); [done|done|]. intros sk' Hsk'. cbn in Hsk'.
      destruct Hq as [Eq _]. rewrite Eq in Hsk'. simplify_eq. done.
    + eapply settled_kern; [apply Hq|]. by apply settled_close.
Qed.

Lemma resume_reading_spec h fd due s sk :
  Running h fd due s -> socks (kern s) !! fd = Some sk -> sent sk = consumed sk ->
  exists s', resume_reading h fd s = Some s' /\ settled h due s s'.
Proof.
  intros R Hsk Hs. unfold resume_reading. destruct (ek_read _ _ _) as [[bs|e] k] eqn:E.
  - apply read_ok in E as Hch. pose proof (Running_changes _ _ _ _ _ _ R Hch) as R'. destruct bs as [|b bs].
    + eexists. split; [done|]. eapply settled_kern; [apply Hch|]. by apply settled_close.
    + destruct (write_loop_spec (S (length (b :: bs))) h fd (b :: bs) 0 due (set_kern k s) (consume (b :: bs) sk)) as (s' & Es & S').
      * lia.
      * lia.
      * done.
      * cbn [kern set_kern]. destruct Hch as [-> _]. by rewrite lookup_alter, decide_True, Hsk by done.
      * cbn. by rewrite Hs.
      * exists s'. split; [done|]. eapply settled_kern; [apply Hch|done].
  - apply read_err in E as Hq. pose proof (Running_quiet _ _ _ _ _ R Hq) as R'. destruct (e =? EAGAIN); (eexists; split; [done|]).
    + eapply settled_kern; [apply Hq|]. apply (settled_suspend h fd); [done|done|]. intros sk' Hsk'. cbn in Hsk'.
      destruct Hq as [Eq _]. rewrite Eq in Hsk'. simplify_eq. done.
    + eapply settled_kern; [apply Hq|]. by apply settled_close.
Qed.

(** *** Accepting *)

Lemma set_nonblocking_quiet fd (k : K) : quiet k (set_nonblocking fd k).
Proof.
  unfold set_nonblocking. destruct (ek_getfl fd k) as [r k1] eqn:E1. apply getfl_law in E1 as [E1 B1].
  destruct (ek_setfl _ _ _) as [r2 k2] eqn:E2. apply setfl_law in E2 as [E2 B2]. cbn. split; [congruence|lia].
Qed.

(** The next coroutine, not yet suspended, on a descriptor nobody waits for. *)
Definition allocate (s : Server K) : Server K :=
  mkServer (g_epfd s) (g_waiters s) (frames s) (S (next_frame s)) (kern s).

Lemma Running_allocate fd due s :
  Inv due s -> is_Some (socks (kern s) !! fd) -> (forall h f, frames s !! h = Some f -> frame_fd f <> fd) ->
  Running (next_frame s) fd due (allocate s).
Proof.
  intros I Ho Hn. pose proof (inv_fresh _ _ I (next_frame s) (le_n _)) as Hfr.
  split; cbn; [|destruct (g_waiters s !! fd) as [h|] eqn:E; [|done]; apply I in E as (f & Hf & Ef); by destruct (Hn _ _ Hf)|done|lia].
  split; cbn; rewrite (delete_id _ _ Hfr); [apply I|apply I|]. intros h Hh. apply I. lia.
Qed.

Lemma handle_connection_spec fd due s :
  Inv due s -> socks (kern s) !! fd = Some new_sock -> (forall h f, frames s !! h = Some f -> frame_fd f <> fd) ->
  Inv due (handle_connection fd s).
Proof.
  intros I Hsk Hn. destruct (set_nonblocking_quiet fd (kern s)) as [Ek Hb]. set (s1 := set_kern (set_nonblocking fd (kern s)) s).
  assert (Inv due s1) as I1 by (split; cbn; rewrite ?Ek; apply I).
  apply (suspend_spec (next_frame s1) fd (Reading fd)); [|done|].
  - apply Running_allocate; [done|cbn; rewrite Ek, Hsk; eauto|done].
  - intros sk. cbn. rewrite Ek, Hsk. by intros [= <-].
Qed.

Lemma handle_connection_shape fd s :
  exists k', handle_connection fd s = mkServer (g_epfd s) (<[fd := next_frame s]> (g_waiters s))
    (<[next_frame s := Reading fd]> (frames s)) (S (next_frame s)) k' /\ exists g, changes g fd (kern s) k'.
Proof.
  destruct (set_nonblocking_quiet fd (kern s)) as [Ek Hb]. unfold handle_connection, suspend. cbn [frame_fd frame_events].
  edestruct (await_suspend_spec fd Reactor.EPOLLIN) as (g & k' & _ & -> & [Ek' Hb']). exists k'. split; [reflexivity|].
  exists g. cbn in Ek', Hb'. rewrite Ek in Ek'. split; [done|lia].
Qed.

Lemma handle_connection_delete fd h (s : Server K) :
  h <> next_frame s ->
  set_frames (delete h (frames (handle_connection fd s))) (handle_connection fd s) =
  handle_connection fd (set_frames (delete h (frames s)) s).
Proof.
  intros Hn. unfold handle_connection, suspend, await_suspend, set_kern, set_frames, set_waiters. cbn.
  destruct (ek_epoll_ctl _ _ _ _ _) as [[u|e] k]; cbn; by rewrite delete_insert_ne.
Qed.

Lemma Running_accept h l due s c k :
  Running h l due s -> ek_accept l (kern s) = (SOk c, k) ->
  Running h l due (handle_connection c (set_kern k s)) /\
  (backlog (kern (handle_connection c (set_kern k s))) < backlog (kern s))%nat /\
  forall h', is_Some (frames s !! h') -> h' <> h -> frames (handle_connection c (set_kern k s)) !! h' = frames s !! h'.
Proof.
  intros R E. apply accept_ok in E as (Hc & Ek & Hb). pose proof (run_handle _ _ _ _ R) as Hh.
  destruct (run_open _ _ _ _ R) as [skl Hl]. destruct (run_others _ _ _ _ R) as [Iw If Ii]. cbn in Iw, If, Ii.
  assert (c <> l) as Hcl by (intros ->; congruence).
  assert (forall h' f, delete h (frames s) !! h' = Some f -> frame_fd f <> c) as Hne.
  { intros h' f Hf Ef. destruct (If _ _ Hf) as (_ & sk & Hsk & _). rewrite Ef in Hsk. congruence. }
  assert (socks k !! c = Some new_sock) as Hsc by (by rewrite Ek, lookup_insert_eq).
  assert (Inv due (set_frames (delete h (frames s)) (set_kern k s))) as I.
  { split; cbn; [done| |done]. intros h' f Hf. rewrite Ek, lookup_insert_ne by (symmetry; by eapply Hne). by apply If. }
  destruct (handle_connection_shape c (set_kern k s)) as (k' & Es & g & Ek' & Hb'). cbn in Es, Ek', Hb'.
  split; [|split; [rewrite Es; cbn; lia|]].
  - split.
    + rewrite handle_connection_delete by (cbn; lia). apply handle_connection_spec; cbn; [done|done|exact Hne].
    + rewrite Es. cbn. rewrite lookup_insert_ne by done. apply R.
    + rewrite Es. cbn. rewrite Ek', lookup_alter_ne, Ek, lookup_insert_ne by done. eauto.
    + rewrite Es. cbn. lia.
  - intros h' [f Hf] Hn. rewrite Es. cbn. rewrite lookup_insert_ne; [done|]. intros <-.
    specialize (Ii (next_frame s) (le_n _)). rewrite lookup_delete_ne in Ii by done. congruence.
Qed.

Lemma accept_drain_spec fuel h l due s :
  (backlog (kern s) < fuel)%nat -> Running h l due s ->
  exists s', accept_drain fuel h l s = Some s' /\ settled h due s s' /\ frames s' !! h = Some (Accepting l).
Proof.
  induction fuel as [|fuel IH] in s |- *; intros Hf R; [lia|]. cbn [accept_drain].
  destruct (ek_accept _ _) as [[c|e] k] eqn:E.
  - destruct (Running_accept _ _ _ _ _ _ R E) as (R' & Hb & Hfr).
    destruct (IH (handle_connection c (set_kern k s))) as (s' & Es & (I & Hb' & Hfr') & Ha); [lia|done|].
    exists s'. split; [done|]. split; [|done]. split; [done|]. split; [lia|].
    intros h' Hn Hs. rewrite Hfr' by (rewrite ?Hfr by done; done). by apply Hfr.
  - apply accept_err in E as [Hq Hi]. pose proof (Running_quiet _ _ _ _ _ R Hq) as R'. destruct Hq as [Eq Hb].
    destruct (Z.eqb_spec e EINTR) as [->|Hn].
    + specialize (Hi eq_refl). destruct (IH (set_kern k s)) as (s' & Es & S' & Ha); [cbn; lia|done|]. exists s'.
      split; [done|]. split; [|done]. by eapply settled_kern.
    + eexists. split; [done|]. split.
      * eapply settled_kern; [done|]. by apply (settled_suspend h l).
      * destruct (suspend_spec h l (Accepting l) due (set_kern k s)) as (_ & _ & ->); [done..|]. by rewrite lookup_insert_eq.
Qed.

(** *** The loop *)

(** The invariant with the accepting coroutine [0] in place. *)
Definition Serving (due : list Z) (s : Server K) : Prop := Inv due s /\ exists l, frames s !! 0%nat = Some (Accepting l).

Lemma dispatch_spec fuel fd due s :
  (backlog (kern s) < fuel)%nat -> Serving (fd :: due) s ->
  exists s', dispatch fuel fd s = Some s' /\ Serving due s' /\ (backlog (kern s') <= backlog (kern s))%nat.
Proof.
  intros Hf [I [l Hl]]. unfold dispatch. destruct (g_waiters s !! fd) as [h|] eqn:Ew.
  2:{ exists s. split; [done|]. split; [|done]. split; [|eauto]. split; [apply I| |apply I]. intros h f Hh.
      destruct (inv_frame _ _ I _ _ Hh) as (Hw & sk & Hsk & Hok & Ha). split; [done|]. exists sk. split_and!; [done..|].
      destruct Ha as [|Ha]; [by left|]. apply elem_of_cons in Ha as [Ha|]; [congruence|by right]. }
  destruct (inv_waiter _ _ I _ _ Ew) as (f & Hh & Ef). destruct (inv_frame _ _ I _ _ Hh) as (_ & sk & Hsk & Hok & _).
  rewrite Ef in Hsk. set (s1 := set_waiters (delete fd (g_waiters s)) s).
  assert (Running h fd due s1) as R.
  { split; cbn.
    - split; cbn.
      + intros fd' h'. rewrite lookup_delete_Some. intros [Hn Hw]. destruct (inv_waiter _ _ I _ _ Hw) as (f' & Hf' & Ef').
        exists f'. split; [|done]. rewrite lookup_delete_ne; [done|]. intros ->. congruence.
      + intros h' f'. rewrite lookup_delete_Some. intros [Hn Hf']. destruct (inv_frame _ _ I _ _ Hf') as (Hw & sk' & Hsk' & Hok' & Ha).
        assert (frame_fd f' <> fd) by congruence. rewrite lookup_delete_ne by congruence. split; [done|]. exists sk'.
        split_and!; [done..|]. destruct Ha as [|Ha]; [by left|]. apply elem_of_cons in Ha as [Ha|]; [congruence|by right].
      + intros h' Hn. rewrite lookup_delete. case_decide; [done|]. by apply I.
    - by rewrite lookup_delete_eq.
    - eauto.
    - destruct (decide (h < next_frame s)%nat); [done|]. rewrite (inv_fresh _ _ I) in Hh by lia. done. }
  unfold resume. cbn [frames s1 set_waiters]. rewrite Hh. cbn [mbind option_bind].
  assert (forall s', settled h due s1 s' -> h <> 0%nat -> Serving due s' /\ (backlog (kern s') <= backlog (kern s))%nat) as Hdone.
  { intros s' (I' & Hb & Hfr) Hn. split; [|done]. split; [done|]. exists l. rewrite Hfr by eauto. done. }
  destruct f as [l'|c|c buf off]; cbn in Ef, Hok; subst.
  - destruct (accept_drain_spec fuel h fd due s1) as (s' & Es & S' & Ha); [done|done|]. exists s'. split; [done|].
    destruct (decide (h = 0%nat)) as [->|Hn]; [|by apply Hdone]. destruct S' as (I' & Hb & _). split; [|done]. split; eauto.
  - destruct (resume_reading_spec h fd due s1 sk) as (s' & Es & S'); [done..|]. exists s'. split; [done|]. apply Hdone; [done|congruence].
  - destruct Hok as [Hok Hlt].
    destruct (write_loop_spec (S (length buf - off)) h fd buf off due s1 sk) as (s' & Es & S'); [lia|lia|done..|].
    exists s'. split; [done|]. apply Hdone; [done|congruence].
Qed.

Lemma dispatch_all_spec fuel fds s :
  (backlog (kern s) < fuel)%nat -> Serving fds s ->
  exists s', dispatch_all fuel fds s = Some s' /\ Serving [] s' /\ (backlog (kern s') <= backlog (kern s))%nat.
Proof.
  induction fds as [|fd fds IH] in s |- *; intros Hf I; [by exists s|].
  destruct (dispatch_spec fuel fd fds s Hf I) as (s1 & E1 & I1 & Hb1).
  destruct (IH s1) as (s2 & E2 & I2 & Hb2); [lia|done|]. exists s2. cbn. rewrite E1. split; [done|]. split; [done|lia].
Qed.

Lemma run_turn_spec fuel s :
  (backlog (kern s) < fuel)%nat -> Serving [] s ->
  exists b s', run_turn fuel s = Some (b, s') /\ Serving [] s' /\ (backlog (kern s') <= backlog (kern s))%nat.
Proof.
  intros Hf [I Hl]. unfold run_turn. destruct (ek_epoll_wait _ _ _) as [[fds|e] k] eqn:E.
  - apply wait_ok in E as [Ek Hb]. destruct (dispatch_all_spec fuel fds (set_kern k s)) as (s' & -> & I' & Hb'); [cbn; lia| |].
    + split; [|done]. split; cbn; [apply I| |apply I]. intros h f Hh.
      destruct (inv_frame _ _ I _ _ Hh) as (Hw & sk & Hsk & Hok & Ha). split; [done|]. rewrite Ek, Hsk.
      destruct Ha as [Ha|[]%not_elem_of_nil]. case_decide; [exists (arm false sk)|exists sk].
      * split; [done|]. split; [by destruct f|by right].
      * split_and!; [done..|by left].
    + exists true, s'. split; [done|]. split; [done|]. cbn in Hb'. lia.
  - apply wait_err in E as [Ek Hb]. exists (e =? EINTR), (set_kern k s). split; [done|]. split; [|done].
    split; [|done]. split; cbn; rewrite ?Ek; apply I.
Qed.

Lemma run_spec turns fuel s :
  (backlog (kern s) < fuel)%nat -> Serving [] s -> exists s', run turns fuel s = Some s' /\ Serving [] s'.
Proof.
  induction turns as [|turns IH] in s |- *; intros Hf I; [by exists s|].
  destruct (run_turn_spec fuel s Hf I) as (b & s1 & E & I1 & Hb). cbn. rewrite E. cbn.
  destruct b; [apply IH; [lia|done]|eauto].
Qed.

Lemma make_listener_ok port (k : K) l k' :
  make_listener port k = (inr l, k') -> is_Some (socks k' !! l) /\ (backlog k' <= backlog k)%nat.
Proof.
  unfold make_listener, close_then_err. destruct (ek_socket k) as [[fd|e] k1] eqn:E1; [|done].
  destruct (ek_reuseaddr fd k1) as [r2 k2] eqn:E2. cbn [snd].
  destruct (ek_bind _ _ _) as [[u3|e3] k3] eqn:E3; [|by destruct (ek_close _ _) as [[] ?]].
  destruct (ek_listen _ _ _) as [[u4|e4] k4] eqn:E4; [|by destruct (ek_close _ _) as [[] ?]].
  intros [= <- <-]. apply socket_ok in E1 as (_ & E1 & B1). apply reuse_law in E2 as [E2 B2].
  apply bind_law in E3 as [E3 B3]. apply listen_law in E4 as [E4 B4]. destruct (set_nonblocking_quiet fd k4) as [E5 B5].
  rewrite E5, E4, E3, E2, E1, lookup_insert_eq. split; [eauto|lia].
Qed.

Lemma start_serving (k : K) s : start k = inr s -> Serving [] s /\ (backlog (kern s) <= backlog k)%nat.
Proof.
  unfold start, make_epoll. destruct (ek_epoll_create1 k) as [[ep|e] k1] eqn:E1; [|done].
  destruct (make_listener kPort k1) as [[e|l] k2] eqn:E2; [done|]. intros [= <-].
  apply create_law in E1 as [_ B1]. apply make_listener_ok in E2 as [Ho B2].
  set (s0 := mkServer ep ∅ ∅ 0 k2). assert (Inv [] s0) as I by (split; cbn; [done..|]; intros; apply lookup_empty).
  destruct (suspend_spec 0 l (Accepting l) [] (allocate s0)) as (I' & Hb & Hfr).
  - by apply (Running_allocate l [] s0).
  - done.
  - done.
  - change (accept_loop l s0) with (suspend 0 (Accepting l) (allocate s0)). cbn [allocate kern s0] in Hb. split; [|lia]. split; [done|]. exists l. rewrite Hfr. by rewrite lookup_insert_eq.
Qed.

(** C36: The echo server keeps its promise for as long as it runs.  After a
    successful start, any number of turns of the event loop resumes only live
    coroutines, and the accept loop drains; afterwards the accepting coroutine
    is in place, every suspended coroutine is the one that [g_waiters] has for
    its descriptor, which is open and armed in epoll unless the last
    [EPOLL_CTL_ADD] for it was refused (the server ignores that failure, and such
    a coroutine is not woken); a connection that waits for input has been sent
    exactly the bytes it has sent in, in order, and one that waits for room lacks
    exactly the rest of its buffer. *)
Theorem echo_server_echoes (k : K) s0 turns fuel :
  start k = inr s0 -> (backlog k < fuel)%nat ->
  exists s, run turns fuel s0 = Some s /\ (exists l, frames s !! 0%nat = Some (Accepting l)) /\
    forall h f, frames s !! h = Some f -> g_waiters s !! frame_fd f = Some h /\
      exists sk, socks (kern s) !! frame_fd f = Some sk /\ (armed sk = true \/ refused sk = true) /\
        match f with
        | Accepting _ => True
        | Reading _ => sent sk = consumed sk
        | Writing _ buf off => sent sk ++ drop off buf = consumed sk
        end.
Proof.
  intros [S0 Hb]%start_serving Hf. destruct (run_spec turns fuel s0) as (s & Es & I & Hl); [lia|done|].
  exists s. split; [done|]. split; [done|]. intros h f Hh. destruct (inv_frame _ _ I _ _ Hh) as (Hw & sk & Hsk & Hok & Ha).
  split; [done|]. exists sk. split; [done|]. split; [destruct Ha as [Ha|[]%not_elem_of_nil]; by apply orb_true_iff in Ha|]. by destruct f; [| |apply Hok].
Qed.

(** A listener that cannot be set up leaves no socket open. *)
Theorem failed_listener_closes port (k : K) e k' : make_listener port k = (inl e, k') -> socks k' = socks k.
Proof.
  unfold make_listener, close_then_err. destruct (ek_socket k) as [[fd|e0] k1] eqn:E1.
  2:{ intros [= <- <-]. by apply socket_err in E1 as [-> _]. }
  apply socket_ok in E1 as (Hn & E1 & _). destruct (ek_reuseaddr fd k1) as [r2 k2] eqn:E2. apply reuse_law in E2 as [E2 _]. cbn [snd].
  destruct (ek_bind _ _ _) as [[u3|e3] k3] eqn:E3; apply bind_law in E3 as [E3 _].
  2:{ destruct (ek_close _ _) as [[u|e4] k4] eqn:E4; apply close_law in E4 as [E4 _]; intros [= <- <-];
      by rewrite E4, E3, E2, E1, delete_insert_id. }
  destruct (ek_listen _ _ _) as [[u4|e4] k4] eqn:E4; apply listen_law in E4 as [E4 _]; [done|].
  destruct (ek_close _ _) as [[u|e5] k5] eqn:E5; apply close_law in E5 as [E5 _]; intros [= <- <-];
    by rewrite E5, E4, E3, E2, E1, delete_insert_id.
Qed.

End Props.

(** ** A concrete kernel

    Connections to come, one stream of input, writes of one byte, [full] writes
    refused, the batches of events that [epoll_wait] will report, and how many
    descriptors epoll can watch ([ENOSPC] beyond). *)

Module SimEcho.

Record Sim := mkSim {
  open_socks : gmap Z Sock; registered : gset Z; conns : nat; inbox : list Z; full : nat; events : list (list Z);
  max_watches : nat
}.

Definition ENOSPC : Z := 28.

Definition set_socks (m : gmap Z Sock) (s : Sim) : Sim := mkSim m (registered s) (conns s) (inbox s) (full s) (events s) (max_watches s).
Definition set_registered (r : gset Z) (s : Sim) : Sim := mkSim (open_socks s) r (conns s) (inbox s) (full s) (events s) (max_watches s).

Definition disarm (fds : list Z) (m : gmap Z Sock) : gmap Z Sock := foldr (alter (arm false)) m fds.

(** Opens [fd] if it is free. *)
Definition open_fd (fd : Z) (s s' : Sim) : SysRet Z * Sim :=
  match open_socks s !! fd with
  | Some _ => (SErr EBUSY, s)
  | None => (SOk fd, set_socks (<[fd := new_sock]> (open_socks s)) s')
  end.

Definition ctl (op : Reactor.CtlOp) (fd : Z) (s : Sim) : SysRet unit * Sim :=
  match op with
  | Reactor.EPOLL_CTL_ADD =>
    if decide (fd ∈ registered s \/ max_watches s <= size (registered s))%nat
    then (SErr ENOSPC, set_socks (alter refuse fd (open_socks s)) s)
    else (SOk tt, set_registered ({[fd]} ∪ registered s) (set_socks (alter (arm true) fd (open_socks s)) s))
  | Reactor.EPOLL_CTL_MOD =>
    if decide (fd ∈ registered s) then (SOk tt, set_socks (alter (arm true) fd (open_socks s)) s) else (SErr ENOENT, s)
  | Reactor.EPOLL_CTL_DEL =>
    (SOk tt, set_registered (registered s ∖ {[fd]}) (set_socks (alter (arm false) fd (open_socks s)) s))
  end.

#[export] Instance sim_kernel : EchoKernel Sim := {
  ek_epoll_create1 s := (SOk 3, s);
  ek_epoll_ctl _ op fd _ s := ctl op fd s;
  ek_epoll_wait _ _ s :=
    match events s with
    | [] => (SErr EBADF, s)
    | fds :: rest => (SOk fds, mkSim (disarm fds (open_socks s)) (registered s) (conns s) (inbox s) (full s) rest (max_watches s))
    end;
  ek_read fd n s :=
    match inbox s with
    | [] => (SErr EAGAIN, s)
    | _ => let bs := take n (inbox s) in
      (SOk bs, mkSim (alter (consume bs) fd (open_socks s)) (registered s) (conns s) (drop n (inbox s)) (full s) (events s) (max_watches s))
    end;
  ek_write fd data s :=
    match full s with
    | S p => (SErr EAGAIN, mkSim (open_socks s) (registered s) (conns s) (inbox s) p (events s) (max_watches s))
    | O => let w := (length data `min` 1)%nat in (SOk w, set_socks (alter (deliver (take w data)) fd (open_socks s)) s)
    end;
  ek_accept _ s :=
    match conns s with
    | O => (SErr EAGAIN, s)
    | S n => open_fd (10 + Z.of_nat n) s (mkSim (open_socks s) (registered s) n (inbox s) (full s) (events s) (max_watches s))
    end;
  ek_socket s := open_fd 4 s s;
  ek_reuseaddr _ s := (SOk tt, s);
  ek_bind _ _ s := (SOk tt, s);
  ek_listen _ _ s := (SOk tt, s);
  ek_getfl _ s := (SOk 0, s);
  ek_setfl _ _ s := (SOk tt, s);
  ek_close fd s := (SOk tt, set_registered (registered s ∖ {[fd]}) (set_socks (delete fd (open_socks s)) s));
}.

#[export] Instance sim_view : EchoView Sim := { socks := open_socks; backlog := conns }.

Lemma disarm_lookup fds m fd : disarm fds m !! fd = if decide (fd ∈ fds) then arm false <$> m !! fd else m !! fd.
Proof.
  induction fds as [|x fds IH]; [done|]. change (disarm (x :: fds) m) with (alter (arm false) x (disarm fds m)).
  rewrite lookup_alter, IH. destruct (decide (x = fd)) as [->|Hn].
  - rewrite (decide_True (P := fd ∈ fd :: fds)) by constructor. rewrite IH. destruct (m !! fd); by destruct (decide (fd ∈ fds)).
  - assert (fd ∈ x :: fds <-> fd ∈ fds) as Hel by (rewrite elem_of_cons; naive_solver). repeat case_decide; tauto.
Qed.

#[export] Instance sim_laws : EchoLaws Sim.
Proof.
  split.
  - intros fd n k bs k'. cbn. destruct (inbox k); [done|]. by intros [= <- <-].
  - intros fd n k e k'. cbn. destruct (inbox k); [|done]. by intros [= _ <-].
  - intros fd data k w k'. cbn. destruct (full k); [|done]. intros [= <- <-].
    split; [destruct data; [done|cbn; lia]|]. split; [lia|done].
  - intros fd data k e k'. cbn. destruct (full k); [done|]. by intros [= _ <-].
  - intros fd k c k'. cbn. destruct (conns k) as [|n] eqn:En; [done|]. unfold open_fd.
    destruct (open_socks k !! _) eqn:E; [done|]. intros [= <- <-]. split; [done|]. split; [done|]. cbn. lia.
  - intros fd k e k'. cbn. destruct (conns k) as [|n] eqn:En; [by intros [= <- <-]|]. unfold open_fd.
    destruct (open_socks k !! _); [|done]. by intros [= <- <-].
  - intros ep op fd ev k u k'. cbn. unfold ctl. destruct op; repeat case_decide; try done; by intros [= _ <-].
  - intros ep op fd ev k e k'. cbn. unfold ctl. destruct op; repeat case_decide; try done; by intros [= _ <-].
  - intros ep n k fds k'. cbn. destruct (events k); [done|]. intros [= <- <-]. split; [apply disarm_lookup|done].
  - intros ep n k e k'. cbn. destruct (events k); [|done]. by intros [= _ <-].
  - intros k fd k'. cbn. unfold open_fd. destruct (open_socks k !! _) eqn:E; [done|]. by intros [= <- <-].
  - intros k e k'. cbn. unfold open_fd. destruct (open_socks k !! _) eqn:E; [|done]. by intros [= _ <-].
  - intros fd k r k' [= _ <-]. done.
  - intros k r k' [= _ <-]. done.
  - intros fd k r k' [= _ <-]. done.
  - intros fd v k r k' [= _ <-]. done.
  - intros fd k r k' [= _ <-]. done.
  - intros fd a k r k' [= _ <-]. done.
  - intros fd n k r k' [= _ <-]. done.
Qed.

End SimEcho.

(** ** Witness: a client sends two bytes; the first write is refused

    With room for one descriptor only, the listener, the connection is accepted
    and its coroutine waits on a descriptor that epoll refused. *)

Section Witness.
Import SimEcho.

Definition wit_kernel (room : nat) : Sim := mkSim ∅ ∅ 1 [104; 105] 1 [[4]; [10]; [10]] room.

Lemma echo_server_echoes_witness :
  (exists s0 s, start (wit_kernel 8) = inr s0 /\ run 3 2 s0 = Some s /\ frames s !! 1%nat = Some (Reading 10) /\
    exists sk, socks (kern s) !! 10 = Some sk /\ armed sk = true /\ consumed sk = [104; 105] /\ sent sk = [104; 105]) /\
  (exists s0 s, start (wit_kernel 1) = inr s0 /\ run 1 2 s0 = Some s /\ frames s !! 1%nat = Some (Reading 10) /\
    exists sk, socks (kern s) !! 10 = Some sk /\ armed sk = false /\ refused sk = true /\ sent sk = consumed sk).
Proof.
  split.
  - destruct (start (wit_kernel 8)) as [e|s0] eqn:E0; [vm_compute in E0; done|].
    destruct (echo_server_echoes (wit_kernel 8) s0 3 2 E0) as (s & Es & _ & Hs); [cbn; lia|].
    exists s0, s. split; [done|]. split; [done|].
    assert (frames s !! 1%nat = Some (Reading 10) /\ (fun sk => (consumed sk, refused sk)) <$> socks (kern s) !! 10 = Some ([104; 105], false)) as [Hf Hc].
    { vm_compute in E0. injection E0 as <-. vm_compute in Es. injection Es as <-. by split; vm_compute. }
    split; [done|]. destruct (Hs _ _ Hf) as (_ & sk & Hsk & Ha & He). cbn [frame_fd] in Hsk. exists sk.
    split; [done|]. rewrite Hsk in Hc. injection Hc as Hc Hn. split; [destruct Ha; congruence|]. split; [done|]. by rewrite He.
  - destruct (start (wit_kernel 1)) as [e|s0] eqn:E0; [vm_compute in E0; done|].
    destruct (echo_server_echoes (wit_kernel 1) s0 1 2 E0) as (s & Es & _ & Hs); [cbn; lia|].
    exists s0, s. split; [done|]. split; [done|].
    assert (frames s !! 1%nat = Some (Reading 10) /\ armed <$> socks (kern s) !! 10 = Some false) as [Hf Hc].
    { vm_compute in E0. injection E0 as <-. vm_compute in Es. injection Es as <-. by split; vm_compute. }
    split; [done|]. destruct (Hs _ _ Hf) as (_ & sk & Hsk & Ha & He). cbn [frame_fd] in Hsk. exists sk.
    split; [done|]. rewrite Hsk in Hc. injection Hc as Hc. split; [done|]. split; [destruct Ha; congruence|exact He].
Defined.

End Witness.
End EchoProps.
