(* ===== verification/Supervisor.v ===== *)
(** * Supervisor: [rain_tour/examples/process/crash_supervisor.cpp]

    The supervisor process of the tour: it forks workers, replaces those that a
    signal kills and, when its alarm goes off, terminates and reaps them all.
    The pure functions are translated as they are; the process and its children
    are a step relation, in which the system chooses the process identifiers
    that [fork] gives, when a child dies and when [SIGALRM] is delivered. *)

From S2P Require Import Prelude.

Module Supervisor.

Definition kWorkers : nat := 4.
Definition kCrashAtBeat : Z := 3.
Definition SIGSEGV : Z := 11.
Definition SIGTERM : Z := 15.

(** ** Pure functions *)

(** The status macros of [<sys/wait.h>] on Linux. *)
Definition WTERMSIG (status : Z) : Z := Z.land status 0x7f.
Definition WEXITSTATUS (status : Z) : Z := Z.shiftr (Z.land status 0xff00) 8.
Definition signed_char (v : Z) : Z := swrap 8 v.
Definition WIFSIGNALED (status : Z) : bool := 0 <? Z.shiftr (signed_char (Z.land status 0x7f + 1)) 1.

Record Outcome := mkOutcome { crashed : bool; value : Z }.

Definition classify (status : Z) : Outcome :=
  if WIFSIGNALED status then mkOutcome true (WTERMSIG status) else mkOutcome false (WEXITSTATUS status).

Fixpoint find_slot (pids : list Z) (pid : Z) : option nat :=
  match pids with
  | [] => None
  | p :: pids => if p =? pid then Some 0%nat else S <$> find_slot pids pid
  end.

(** Whether [worker_loop] dereferences null at this beat. *)
Definition crashes_at (crash_at_beat : option Z) (beat : Z) : bool :=
  match crash_at_beat with Some c => c <=? beat | None => false end.

(** ** The processes *)

(** A child runs [worker_loop], has been sent a signal that will kill it, or
    is dead and not yet waited for. *)
Inductive Child := Alive (crash_at_beat : option Z) (beat : Z) | Dying (sig : Z) | Zombie (status : Z).

(** Where [main] is: forking worker [slot]; at the test of [while]; past
    it, about to call [waitpid(-1)]; inside that call; forking the replacement of worker [slot]; before the first
    loop over [pids]; inside the second, with what is left of it; returned;
    inside [exit(1)]. *)
Inductive Pc :=
| Starting (slot : nat) | Check | Entering | Waiting | Restarting (slot : nat) | Closing | Reaping (todo : list Z) | Done | Failed.

Record Sup := mkSup {
  pids : list Z; g_shutdown : bool; alarm_set : bool; children : gmap Z Child; restarts : Z; pc : Pc
}.

Definition init : Sup := mkSup (replicate kWorkers 0) false false ∅ 0 (Starting 0).

Definition goto (p : Pc) (s : Sup) : Sup := mkSup (pids s) (g_shutdown s) (alarm_set s) (children s) (restarts s) p.
Definition set_children (c : gmap Z Child) (s : Sup) : Sup := mkSup (pids s) (g_shutdown s) (alarm_set s) c (restarts s) (pc s).

(** [spawn_worker] where [fork] gave [pid], stored in [slot]. *)
Definition spawn_worker (slot : nat) (crash : option Z) (pid : Z) (s : Sup) : Sup :=
  mkSup (<[slot := pid]> (pids s)) (g_shutdown s) (alarm_set s) (<[pid := Alive crash 1]> (children s)) (restarts s) (pc s).

Definition count_restart (s : Sup) : Sup :=
  mkSup (pids s) (g_shutdown s) (alarm_set s) (children s) (restarts s + 1) (pc s).

(** The body of the loop after [waitpid] gave [pid] and [status]. *)
Definition on_child (pid status : Z) (s : Sup) : Sup :=
  let s := set_children (delete pid (children s)) s in
  match find_slot (pids s) pid with
  | None => goto Check s
  | Some slot =>
    if crashed (classify status) then goto (Restarting slot) s
    else goto Check (mkSup (<[slot := 0]> (pids s)) (g_shutdown s) (alarm_set s) (children s) (restarts s) (pc s))
  end.

(** [on_alarm] *)
Definition on_alarm (s : Sup) : Sup := mkSup (pids s) true false (children s) (restarts s) (pc s).

(** [kill(pid, SIGTERM)]: a worker keeps the default action. *)
Definition kill (pid : Z) (c : gmap Z Child) : gmap Z Child :=
  match c !! pid with Some (Alive _ _) => <[pid := Dying SIGTERM]> c | _ => c end.

Fixpoint kill_all (ps : list Z) (c : gmap Z Child) : gmap Z Child :=
  match ps with
  | [] => c
  | p :: ps => kill_all ps (if 0 <? p then kill p c else c)
  end.

(** ** Steps *)

(** Of [main]. *)
Inductive main_step : Sup -> Sup -> Prop :=
| m_start slot pid s : pc s = Starting slot -> (slot < kWorkers)%nat -> 0 < pid -> children s !! pid = None ->
    main_step s (goto (Starting (S slot)) (spawn_worker slot (if (slot =? 1)%nat then Some kCrashAtBeat else None) pid s))
| m_start_fails slot s : pc s = Starting slot -> (slot < kWorkers)%nat -> main_step s (goto Failed s)
| m_alarm s : pc s = Starting kWorkers ->
    main_step s (mkSup (pids s) (g_shutdown s) true (children s) (restarts s) Check)
| m_check s : pc s = Check -> main_step s (goto (if g_shutdown s then Closing else Entering) s)
| m_enter s : pc s = Entering -> main_step s (goto Waiting s)
| m_child pid status s : pc s = Waiting -> children s !! pid = Some (Zombie status) -> main_step s (on_child pid status s)
| m_no_child s : pc s = Waiting -> children s = ∅ -> main_step s (goto Closing s)
| m_restart slot pid s : pc s = Restarting slot -> 0 < pid -> children s !! pid = None ->
    main_step s (goto Check (count_restart (spawn_worker slot None pid s)))
| m_restart_fails slot s : pc s = Restarting slot -> main_step s (goto Failed s)
| m_close s : pc s = Closing -> main_step s (goto (Reaping (pids s)) (set_children (kill_all (pids s) (children s)) s))
| m_skip pid todo s : pc s = Reaping (pid :: todo) -> pid <= 0 -> main_step s (goto (Reaping todo) s)
| m_reap pid todo status s : pc s = Reaping (pid :: todo) -> 0 < pid -> children s !! pid = Some (Zombie status) ->
    main_step s (goto (Reaping todo) (set_children (delete pid (children s)) s))
| m_reap_fails pid todo s : pc s = Reaping (pid :: todo) -> 0 < pid -> children s !! pid = None ->
    main_step s (goto (Reaping todo) s)
| m_done s : pc s = Reaping [] -> main_step s (goto Done s).

(** Of the signal: blocked in [waitpid], the call fails with [EINTR]. *)
Inductive alarm_step : Sup -> Sup -> Prop :=
| a_wait s : alarm_set s = true -> pc s = Waiting -> alarm_step s (goto Check (on_alarm s))
| a_reap pid todo s : alarm_set s = true -> pc s = Reaping (pid :: todo) -> 0 < pid ->
    alarm_step s (goto (Reaping todo) (on_alarm s))
| a_other s : alarm_set s = true -> pc s <> Waiting -> alarm_step s (on_alarm s).

(** Of the children: a beat, the null dereference, the death of one that was
    sent a signal. *)
Inductive child_step : Sup -> Sup -> Prop :=
| c_beat pid crash beat s : children s !! pid = Some (Alive crash beat) -> crashes_at crash beat = false ->
    child_step s (set_children (<[pid := Alive crash (beat + 1)]> (children s)) s)
| c_crash pid crash beat s : children s !! pid = Some (Alive crash beat) -> crashes_at crash beat = true ->
    child_step s (set_children (<[pid := Zombie SIGSEGV]> (children s)) s)
| c_killed pid sig s : children s !! pid = Some (Dying sig) ->
    child_step s (set_children (<[pid := Zombie sig]> (children s)) s).

(** A child ends for a reason outside the program. *)
Inductive death_step : Sup -> Sup -> Prop :=
| d_die pid crash beat status s : children s !! pid = Some (Alive crash beat) ->
    death_step s (set_children (<[pid := Zombie status]> (children s)) s).

(** What the program does by itself. *)
Inductive own_step : Sup -> Sup -> Prop :=
| own_main s s' : main_step s s' -> own_step s s'
| own_alarm s s' : alarm_step s s' -> own_step s s'
| own_child s s' : child_step s s' -> own_step s s'.

Inductive step : Sup -> Sup -> Prop :=
| step_own s s' : own_step s s' -> step s s'
| step_death s s' : death_step s s' -> step s s'.

End Supervisor.
