(* ===== verification/SupervisorProps.v ===== *)
(** * SupervisorProps: the supervisor owns its children, and may miss its alarm *)

From S2P Require Import Prelude Supervisor.

Module SupervisorProps.
Import Supervisor.

(** ** Statuses and slots *)

#[local] Instance Outcome_eq_dec : EqDecision Outcome.
Proof. solve_decision. Defined.

(** [classify] undoes the encoding of a wait status: an exit code in bits
    8-15, or a terminating signal in bits 0-6 with the core flag above. *)
Theorem classify_status :
  (forall code, 0 <= code < 256 -> classify (Z.shiftl code 8) = mkOutcome false code) /\
  (forall sig (core : bool), 1 <= sig <= 64 -> classify (Z.lor sig (if core then 0x80 else 0)) = mkOutcome true sig).
Proof.
  split.
  - intros code Hc. unfold classify, WIFSIGNALED, WEXITSTATUS. assert (Z.land (Z.shiftl code 8) 0x7f = 0) as ->.
    { apply Z.bits_inj'. intros n Hn. rewrite Z.land_spec, Z.bits_0. destruct (Z.ltb_spec n 8).
      - by rewrite Z.shiftl_spec_low.
      - change 0x7f with (Z.ones 7). rewrite Z.ones_spec_high by lia. apply andb_false_r. }
    cbn. f_equal. change 0xff00 with (Z.shiftl (Z.ones 8) 8). rewrite <- Z.shiftl_land, Z.shiftr_shiftl_l by lia.
    rewrite Z.sub_diag, Z.shiftl_0_r, Z.land_ones by lia. apply Z.mod_small. lia.
  - intros sig core Hs. assert (sig ∈ seqZ 1 64) as Hin by (apply elem_of_seqZ; lia). revert sig Hin Hs.
    assert (Forall (fun sig => classify (Z.lor sig (if core then 0x80 else 0)) = mkOutcome true sig) (seqZ 1 64)) as F.
    { destruct core; apply (bool_decide_unpack _); vm_compute; exact I. }
    rewrite Forall_forall in F. eauto.
Qed.

Lemma find_slot_Some ps pid i : find_slot ps pid = Some i -> ps !! i = Some pid.
Proof.
  induction ps as [|p ps IH] in i |- *; cbn; [done|]. destruct (Z.eqb_spec p pid) as [->|]; [by intros [= <-]|].
  destruct (find_slot ps pid) as [j|]; cbn; [|done]. intros [= <-]. by apply IH.
Qed.

Lemma find_slot_None ps pid : find_slot ps pid = None -> pid ∉ ps.
Proof.
  induction ps as [|p ps IH]; cbn; [intros _; apply not_elem_of_nil|]. destruct (Z.eqb_spec p pid) as [->|Hn]; [done|].
  destruct (find_slot ps pid) as [j|]; cbn; [done|]. intros _. rewrite elem_of_cons. naive_solver.
Qed.

(** ** The children are the positive entries of the table *)

Definition owns (ps : list Z) (c : gmap Z Child) : Prop :=
  (forall i j p, 0 < p -> ps !! i = Some p -> ps !! j = Some p -> i = j) /\
  forall p, is_Some (c !! p) <-> 0 < p /\ p ∈ ps.

Lemma owns_dom ps c c' : (forall p, is_Some (c' !! p) <-> is_Some (c !! p)) -> owns ps c -> owns ps c'.
Proof. intros Hd [Hu Ho]. split; [done|]. intros p. by rewrite Hd. Qed.

Lemma insert_dom (c : gmap Z Child) p x : is_Some (c !! p) -> forall q, is_Some (<[p := x]> c !! q) <-> is_Some (c !! q).
Proof. intros Hp q. rewrite lookup_insert. case_decide; subst; [|done]. split; eauto. Qed.

Lemma owns_fill ps c slot q pid x :
  owns ps c -> ps !! slot = Some q -> q <= 0 -> 0 < pid -> c !! pid = None -> owns (<[slot := pid]> ps) (<[pid := x]> c).
Proof.
  intros [Hu Ho] Hq Hq0 Hp Hc. assert (pid ∉ ps) as Hni.
  { intros Hin. assert (is_Some (c !! pid)) as [y Hy] by (by apply Ho). congruence. }
  pose proof (lookup_lt_Some _ _ _ Hq) as Hlt. split.
  - intros i j p Hp0. rewrite !list_lookup_insert_Some. intros [(<- & <- & _)|[Hi Hpi]] [(<- & E & _)|[Hj Hpj]]; try done; subst.
    + by apply list_elem_of_lookup_2 in Hpj.
    + by apply list_elem_of_lookup_2 in Hpi.
    + by apply (Hu i j p).
  - intros p. rewrite lookup_insert. case_decide as Hd; subst.
    + split; [|by eauto]. intros _. split; [done|]. apply list_elem_of_lookup. exists slot. by apply list_lookup_insert_eq.
    + rewrite Ho, !list_elem_of_lookup. split; intros [Hp0 [i Hi]]; split; try done; exists i.
      * rewrite list_lookup_insert_ne; [done|]. intros ->. assert (q = p) by congruence. lia.
      * apply list_lookup_insert_Some in Hi as [(_ & E & _)|[_ Hi]]; [by destruct Hd|done].
Qed.

Lemma owns_clear ps c slot pid : owns ps c -> ps !! slot = Some pid -> 0 < pid -> owns (<[slot := 0]> ps) (delete pid c).
Proof.
  intros [Hu Ho] Hs Hp. pose proof (lookup_lt_Some _ _ _ Hs) as Hlt. split.
  - intros i j p Hp0. rewrite !list_lookup_insert_Some. intros [(_ & <- & _)|[Hi Hpi]] [(_ & E & _)|[Hj Hpj]]; try lia.
    by apply (Hu i j p).
  - intros p. rewrite lookup_delete. case_decide as Hd; subst.
    + split; [by intros []|]. intros [_ Hin]. apply list_elem_of_lookup in Hin as [i Hi].
      apply list_lookup_insert_Some in Hi as [(_ & E & _)|[Hn Hi]]; [lia|]. by destruct Hn, (Hu slot i p).
    + rewrite Ho, !list_elem_of_lookup. split; intros [Hp0 [i Hi]]; split; try done; exists i.
      * rewrite list_lookup_insert_ne; [done|]. intros ->. congruence.
      * apply list_lookup_insert_Some in Hi as [(_ & E & _)|[_ Hi]]; [lia|done].
Qed.

Lemma owns_unknown ps c pid : owns ps c -> pid ∉ ps -> c !! pid = None.
Proof. intros [_ Ho] Hn. destruct (c !! pid) eqn:E; [|done]. destruct (proj1 (Ho pid)); [by eauto|done]. Qed.

Lemma owns_skip p ps c : owns (p :: ps) c -> p <= 0 -> owns ps c.
Proof.
  intros [Hu Ho] Hp. split.
  - intros i j q Hq Hi Hj. assert (S i = S j) by (by apply (Hu (S i) (S j) q)). lia.
  - intros q. rewrite Ho, elem_of_cons. split; [|naive_solver]. intros [Hq [->|?]]; [lia|done].
Qed.

Lemma owns_reap p ps c : owns (p :: ps) c -> 0 < p -> owns ps (delete p c).
Proof. intros Ho Hp. apply (owns_skip 0); [|done]. by apply (owns_clear (p :: ps) c 0 p). Qed.

Lemma kill_dom p c q : is_Some (kill p c !! q) <-> is_Some (c !! q).
Proof. unfold kill. destruct (c !! p) as [[]|] eqn:E; try done. apply insert_dom. eauto. Qed.

Lemma kill_all_dom ps c q : is_Some (kill_all ps c !! q) <-> is_Some (c !! q).
Proof. induction ps as [|p ps IH] in c |- *; cbn; [done|]. rewrite IH. destruct (0 <? p); [apply kill_dom|done]. Qed.

(** ** The invariant *)

(** Every child is dead or about to die. *)
Definition doomed (c : gmap Z Child) : Prop := forall p crash beat, c !! p <> Some (Alive crash beat).

Definition phase_ok (s : Sup) : Prop :=
  match pc s with
  | Starting slot => g_shutdown s = false /\ alarm_set s = false /\ (slot <= kWorkers)%nat /\ (forall i, (slot <= i < kWorkers)%nat -> pids s !! i = Some 0) /\
      owns (pids s) (children s)
  | Check | Entering | Waiting => owns (pids s) (children s)
  | Restarting slot => (slot < kWorkers)%nat /\ owns (<[slot := 0]> (pids s)) (children s)
  | Closing => owns (pids s) (children s) /\ (alarm_set s = true -> children s = ∅)
  | Reaping todo => owns todo (children s) /\ (alarm_set s = true -> children s = ∅) /\ doomed (children s)
  | Done => children s = ∅
  | Failed => True
  end.

Record Inv (s : Sup) : Prop := {
  inv_length : length (pids s) = kWorkers;
  inv_alarm : g_shutdown s = true -> alarm_set s = false;
  inv_phase : phase_ok s;
}.

Lemma kill_not_alive p c crash beat : kill p c !! p <> Some (Alive crash beat).
Proof.
  unfold kill. destruct (c !! p) as [[]|] eqn:E; rewrite ?E; try done. by rewrite lookup_insert_eq.
Qed.

Lemma kill_alive_before p q c crash beat : kill p c !! q = Some (Alive crash beat) -> c !! q = Some (Alive crash beat).
Proof.
  unfold kill. destruct (c !! p) as [[]|] eqn:E; try done. rewrite lookup_insert. case_decide; [done|done].
Qed.

Lemma kill_all_alive_before ps q c crash beat :
  kill_all ps c !! q = Some (Alive crash beat) -> c !! q = Some (Alive crash beat).
Proof.
  induction ps as [|p ps IH] in c |- *; cbn; [done|]. intros E%IH. destruct (0 <? p); [by eapply kill_alive_before|done].
Qed.

Lemma kill_all_not_alive ps c p crash beat : 0 < p -> p ∈ ps -> kill_all ps c !! p <> Some (Alive crash beat).
Proof.
  intros Hp. induction ps as [|q ps IH] in c |- *; cbn; [by intros []%not_elem_of_nil|].
  intros [->|Hin]%elem_of_cons; [|by apply IH]. intros E%kill_all_alive_before.
  apply Z.ltb_lt in Hp. rewrite Hp in E. by eapply kill_not_alive.
Qed.

Lemma Inv_init : Inv init.
Proof.
  split; [done|done|]. split; [done|]. split; [done|]. split; [cbn; lia|]. split.
  - intros i Hi. cbn [pids init]. apply lookup_replicate. split; [done|lia].
  - split.
    + intros i j p Hp Hi. apply lookup_replicate in Hi as [-> _]. lia.
    + intros p. cbn [children init pids]. rewrite lookup_empty. split; [by intros []|]. intros [Hp Hin].
      apply elem_of_replicate in Hin as [-> _]. lia.
Qed.

Lemma no_children (c c' : gmap Z Child) : (forall p, is_Some (c' !! p) -> is_Some (c !! p)) -> c = ∅ -> c' = ∅.
Proof.
  intros Hd ->. apply map_eq. intros p. rewrite lookup_empty. destruct (c' !! p) eqn:E; [|done].
  destruct (Hd p) as [? He]; [eauto|]. by rewrite lookup_empty in He.
Qed.

Lemma owns_nil c : owns [] c -> c = ∅.
Proof.
  intros [_ Ho]. apply map_eq. intros p. rewrite lookup_empty. destruct (c !! p) eqn:E; [|done].
  destruct (proj1 (Ho p)) as [_ []%not_elem_of_nil]. eauto.
Qed.

Lemma owns_positive ps c pid : owns ps c -> is_Some (c !! pid) -> 0 < pid.
Proof. intros [_ Ho] Hs. by apply Ho. Qed.

Lemma Inv_on_child pid status s : Inv s -> pc s = Waiting -> children s !! pid = Some (Zombie status) -> Inv (on_child pid status s).
Proof.
  intros [Hl Ha Hp] Hpc Hc. unfold phase_ok in Hp. rewrite Hpc in Hp. assert (0 < pid) as H0 by (eapply owns_positive; eauto).
  unfold on_child. cbn [pids set_children]. destruct (find_slot (pids s) pid) as [slot|] eqn:Ef.
  - apply find_slot_Some in Ef. pose proof (owns_clear _ _ _ _ Hp Ef H0) as Ho. pose proof (lookup_lt_Some _ _ _ Ef) as Hlt.
    destruct (crashed _); (split; cbn; rewrite ?length_insert; [done|done|]).
    + split; [by rewrite <- Hl|done].
    + done.
  - apply find_slot_None in Ef. by rewrite (owns_unknown _ _ _ Hp Ef) in Hc.
Qed.

Lemma Inv_main s s' : main_step s s' -> Inv s -> Inv s'.
Proof.
  intros Hs I. pose proof I as [Hl Ha Hp]. unfold phase_ok in Hp.
  destruct Hs as [slot pid s E Hlt H0 Hc|slot s E Hlt|s E|s E|s E|pid status s E Hc|s E Hc|slot pid s E H0 Hc|slot s E|s E
    |pid todo s E H0|pid todo status s E H0 Hc|pid todo s E H0 Hc|s E]; rewrite E in Hp.
  - destruct Hp as (Hg & Hal & Hle & Hz & Ho). split; cbn; rewrite ?length_insert; [done|done|].
    split; [done|]. split; [done|]. split; [lia|]. split.
    + intros i Hi. rewrite list_lookup_insert_ne by lia. apply Hz. lia.
    + eapply owns_fill; [done|apply Hz; lia|done|done|done].
  - by split.
  - destruct Hp as (Hg & _ & _ & _ & Ho). split; cbn; [done|congruence|done].
  - split; [done|done|]. cbn. destruct (g_shutdown s) eqn:Eg; [|done]. split; [done|]. cbn. rewrite Ha; done.
  - by split.
  - by apply Inv_on_child.
  - split; [done|done|]. by split.
  - destruct Hp as [Hlt Ho]. split; cbn; rewrite ?length_insert; [done|done|].
    unfold phase_ok. cbn. rewrite <- (list_insert_insert_eq (pids s) slot pid 0).
    eapply owns_fill; [done|apply list_lookup_insert_eq; by rewrite Hl|done|done|done].
  - by split.
  - destruct Hp as [Ho Hn]. split; [done|done|]. split; cbn; [by eapply owns_dom, Ho; intros; apply kill_all_dom|]. split.
    + intros Hal. eapply no_children, Hn, Hal. intros p. apply kill_all_dom.
    + intros p crash beat Hpa. pose proof (kill_all_alive_before _ _ _ _ _ Hpa) as Hb.
      destruct (proj1 (proj2 Ho p)) as [H0 Hin]; [eauto|]. by eapply kill_all_not_alive.
  - destruct Hp as (Ho & Hn & Hd). split; [done|done|]. split; [by eapply owns_skip|by split].
  - destruct Hp as (Ho & Hn & Hd). split; [done|done|]. split; [by eapply owns_reap|]. cbn. split.
    + intros Hal. rewrite (Hn Hal) in Hc. done.
    + intros p crash beat. rewrite lookup_delete_Some. intros [_ Hpa]. by eapply Hd.
  - destruct Hp as (Ho & Hn & Hd). exfalso. destruct (proj2 (proj2 Ho pid)) as [x Hx]; [|congruence]. split; [done|constructor].
  - destruct Hp as (Ho & Hn & Hd). split; [done|done|]. by apply owns_nil.
Qed.

Lemma Inv_alarm s s' : alarm_step s s' -> Inv s -> Inv s'.
Proof.
  intros Hs [Hl Ha Hp]. unfold phase_ok in Hp. destruct Hs as [s Hal E|pid todo s Hal E H0|s Hal E].
  - rewrite E in Hp. by split.
  - rewrite E in Hp. destruct Hp as (Ho & Hn & Hd). split; [done|done|]. rewrite (Hn Hal) in *.
    destruct (proj2 (proj2 Ho pid)) as [x Hx]; [split; [done|constructor]|done].
  - split; [done|done|]. unfold phase_ok. cbn. destruct (pc s); try done.
    + destruct Hp as (_ & Hf & _). congruence.
    + by destruct Hp.
    + by destruct Hp as (? & _ & ?).
Qed.

(** A child that changes its state changes nothing the invariant speaks of,
    unless it came back to life. *)
Lemma Inv_child_change s pid x y :
  children s !! pid = Some x -> ((forall crash beat, y <> Alive crash beat) \/ exists crash beat, x = Alive crash beat) ->
  Inv s -> Inv (set_children (<[pid := y]> (children s)) s).
Proof.
  intros Hx Hy [Hl Ha Hp].
  assert (forall p, is_Some (<[pid := y]> (children s) !! p) <-> is_Some (children s !! p)) as Hd by (apply insert_dom; eauto).
  assert (children s <> ∅) as Hne by (intros E; rewrite E in Hx; done).
  assert (forall ps, owns ps (children s) -> owns ps (<[pid := y]> (children s))) as Ho by (intros; by eapply owns_dom).
  split; [done|done|]. unfold phase_ok in *. cbn [pc set_children pids children alarm_set g_shutdown].
  destruct (pc s).
  - destruct Hp as (? & ? & ? & ? & ?). split_and!; auto.
  - auto.
  - auto.
  - auto.
  - destruct Hp as [? ?]. split; auto.
  - destruct Hp as [? Hn]. split; [auto|]. intros Hal. by destruct Hne, (Hn Hal).
  - destruct Hp as (H1 & H2 & H3). split; [auto|].
    split; [intros Hal; by destruct Hne, (H2 Hal)|]. intros p crash beat. rewrite lookup_insert. case_decide; subst; [|apply H3].
    intros [= ->]. destruct Hy as [Hy|(c' & b' & ->)]; [by eapply Hy|by eapply H3].
  - by destruct Hne.
  - done.
Qed.

Lemma Inv_step s s' : step s s' -> Inv s -> Inv s'.
Proof.
  intros [? ? [? ? Hs|? ? Hs|? ? Hs]|? ? Hs] I; [by eapply Inv_main|by eapply Inv_alarm|..]; destruct Hs;
    (eapply Inv_child_change; [done| |done]); eauto; by left.
Qed.

Lemma Inv_steps s s' : rtc step s s' -> Inv s -> Inv s'.
Proof. induction 1; eauto using Inv_step. Qed.

(** The supervisor owns exactly its children.  Whatever the children do,
    whichever identifiers the system reuses and whenever the alarm comes: while
    the loop runs and when it ends, the positive entries of [pids] are exactly
    the children not yet waited for, each in one slot, so that the final loops
    signal and wait for these processes and no other; and when [main] returns no
    child is left. *)
Theorem supervisor_owns_children s :
  rtc step init s ->
  (pc s = Check \/ pc s = Entering \/ pc s = Waiting \/ pc s = Closing ->
    (forall i j p, 0 < p -> pids s !! i = Some p -> pids s !! j = Some p -> i = j) /\
    forall p, is_Some (children s !! p) <-> 0 < p /\ p ∈ pids s) /\
  (pc s = Done -> children s = ∅).
Proof.
  intros Hs. pose proof (Inv_steps _ _ Hs Inv_init) as [_ _ Hp]. unfold phase_ok in Hp. split.
  - intros [E|[E|[E|E]]]; rewrite E in Hp; [done..|apply Hp].
  - intros E. by rewrite E in Hp.
Qed.

(** *** Closing down ends *)

Definition is_dying (c : option Child) : nat := match c with Some (Dying _) => 1 | _ => 0 end.

Fixpoint dying (c : gmap Z Child) (ps : list Z) : nat :=
  match ps with [] => 0 | p :: ps => is_dying (c !! p) + dying c ps end.

(** What is left to do once [main] has signalled its children. *)
Definition left_to_do (s : Sup) : nat :=
  match pc s with
  | Reaping todo => 2 + length todo + dying (children s) todo + (if alarm_set s then 1 else 0)
  | Done => 1
  | _ => 0
  end.

Lemma dying_buried c ps p sig status :
  p ∈ ps -> c !! p = Some (Dying sig) -> (dying (<[p := Zombie status]> c) ps < dying c ps)%nat.
Proof.
  intros Hin Hp. assert (forall ps, dying (<[p := Zombie status]> c) ps <= dying c ps)%nat as Hle.
  { intros l. induction l as [|q l IH]; cbn; [done|]. rewrite lookup_insert. case_decide; cbn; lia. }
  induction ps as [|q ps IH]; [by apply not_elem_of_nil in Hin|]. cbn. rewrite lookup_insert.
  destruct (decide (p = q)) as [->|Hn].
  - rewrite Hp. cbn. specialize (Hle ps). lia.
  - apply elem_of_cons in Hin as [?|Hin]; [done|]. specialize (IH Hin). lia.
Qed.

Lemma dying_delete c ps p : (dying (delete p c) ps <= dying c ps)%nat.
Proof. induction ps as [|q ps IH]; cbn; [done|]. rewrite lookup_delete. case_decide; cbn; lia. Qed.

Lemma step_cases s s' : step s s' -> main_step s s' \/ alarm_step s s' \/ child_step s s' \/ death_step s s'.
Proof. intros [? ? []|]; auto. Qed.

(** After the signals have been sent, [main] is never stuck for good - some step
    is possible until it has returned - and every step, of whomever, brings it
    closer to returning. *)
Theorem supervisor_closing_terminates s todo :
  rtc step init s -> pc s = Reaping todo ->
  (exists s', own_step s s') /\
  (forall s', step s s' -> (left_to_do s' < left_to_do s)%nat /\ (pc s' = Done \/ exists todo', pc s' = Reaping todo')).
Proof.
  intros Hs E. pose proof (Inv_steps _ _ Hs Inv_init) as [_ _ Hp]. unfold phase_ok in Hp. rewrite E in Hp.
  destruct Hp as (Ho & Hn & Hd). split.
  - destruct todo as [|pid todo]; [eexists; by apply own_main, m_done|].
    destruct (Z.leb_spec pid 0); [eexists; by eapply own_main, m_skip|].
    destruct (proj2 (proj2 Ho pid)) as [[crash beat|sig|status] Hx]; [split; [done|constructor]|by destruct (Hd pid crash beat)|..].
    + eexists. by eapply own_child, c_killed.
    + eexists. by eapply own_main, m_reap.
  - intros s' Hst. apply step_cases in Hst. unfold left_to_do. rewrite E. destruct Hst as [Hm|[Ha|[Hc|Hk]]].
    + inversion Hm; subst; try congruence;
        match goal with Hx : pc _ = Reaping _ |- _ => rewrite E in Hx; simplify_eq end; cbn; try (split; [lia|eauto]).
      match goal with |- context [dying (delete ?p ?c) ?l] => pose proof (dying_delete c l p) end. split; [lia|eauto].
    + inversion Ha as [? Hal E'|? ? ? Hal E' ?|? Hal E']; subst; rewrite E in E'; simplify_eq; cbn; rewrite ?E, ?Hal; (split; [lia|eauto]).
    + inversion Hc as [pid crash beat ? Hx|pid crash beat ? Hx|pid sig ? Hx]; subst; [by destruct (Hd pid crash beat)..|].
      cbn. rewrite E. split; [|eauto]. assert (pid ∈ todo) by (apply Ho; eauto).
      assert (dying (<[pid := Zombie sig]> (children s)) todo < dying (children s) todo)%nat by (by eapply dying_buried). lia.
    + inversion Hk as [pid crash beat]; subst. by destruct (Hd pid crash beat).
Qed.

(** *** The alarm between the test and the call *)

(** The deadline has passed, no alarm is to come, every worker is healthy. *)
Record Hung (s : Sup) : Prop := {
  hung_pc : pc s = Waiting;
  hung_alarm : alarm_set s = false;
  hung_some : children s <> ∅;
  hung_children p c : children s !! p = Some c -> exists beat, c = Alive None beat;
}.

Lemma Hung_step s s' : own_step s s' -> Hung s -> Hung s'.
Proof.
  intros [? ? Hm|? ? Hm|? ? Hm] [Hp Ha Hne Hc]; inversion Hm; subst; try congruence.
  - by destruct (Hc pid (Zombie status)).
  - split; cbn; [done|done| |].
    + intros E. apply (f_equal (fun m => m !! pid)) in E. by rewrite lookup_insert_eq in E.
    + intros p c. rewrite lookup_insert. case_decide; [|apply Hc]. intros [= <-].
      destruct (Hc _ _ H) as [b [= -> ->]]. eauto.
  - destruct (Hc _ _ H) as [b [= -> ->]]. done.
  - by destruct (Hc _ _ H).
Qed.

Lemma Hung_steps s s' : rtc own_step s s' -> Hung s -> Hung s'.
Proof. induction 1; eauto using Hung_step. Qed.

Definition healthy (c : Child) : bool := match c with Alive None _ => true | _ => false end.

Lemma healthy_children (m : gmap Z Child) :
  map_Forall (fun _ c => healthy c = true) m -> forall p c, m !! p = Some c -> exists beat, c = Alive None beat.
Proof. intros Hm p c Hc. specialize (Hm p c Hc). destruct c as [[]| |]; [done|by eexists|done..]. Qed.

Ltac main c := eapply rtc_l; [eapply step_own, own_main, c; first [reflexivity | vm_compute; lia]|].
Ltac child c := eapply rtc_l; [eapply step_own, own_child, c; first [reflexivity | discriminate]|].
Ltac alarm c := eapply rtc_l; [apply step_own, own_alarm, c; first [reflexivity | discriminate]|].
Ltac launch := main (m_start 0 101); main (m_start 1 102); main (m_start 2 103); main (m_start 3 104); main m_alarm.

(** The alarm can be lost.  [SIGALRM] delivered after the test of
    [g_shutdown] and before [waitpid] sets the flag but interrupts nothing: there
    is a run in which the deadline has passed while the supervisor is inside
    [waitpid] with healthy workers only, and from which the program never again
    looks at the flag unless something outside it kills a worker. *)
Theorem supervisor_alarm_lost :
  exists s, rtc step init s /\ g_shutdown s = true /\ forall s', rtc own_step s s' -> pc s' = Waiting.
Proof.
  assert (exists s, rtc step init s /\ g_shutdown s = true /\ Hung s) as (s & Hs & Hg & Hh).
  { eexists. split.
    - launch. main m_check. main m_enter. child (c_beat 102 (Some 3) 1). child (c_beat 102 (Some 3) 2).
      child (c_crash 102 (Some 3) 3). main (m_child 102 11). main (m_restart 1 105). main m_check. alarm a_other.
      main m_enter. apply rtc_refl.
    - split; [reflexivity|]. split; [reflexivity|reflexivity|by vm_compute|].
      apply healthy_children. apply (bool_decide_unpack _). vm_compute. exact I. }
  exists s. split; [done|]. split; [done|]. intros s' Hs'. eapply hung_pc, Hung_steps; done.
Qed.

(** ** Witnesses *)

Lemma closing_reached : exists s, rtc step init s /\ pc s = Closing /\ pids s = [101; 102; 103; 104].
Proof.
  eexists. split; [launch; alarm a_other; main m_check; apply rtc_refl|by split].
Qed.

Lemma supervisor_owns_children_witness :
  exists s, rtc step init s /\ pc s = Closing /\ forall p, is_Some (children s !! p) <-> 0 < p /\ p ∈ [101; 102; 103; 104].
Proof.
  destruct closing_reached as (s & Hs & Hp & Ep). exists s. split; [exact Hs|]. split; [exact Hp|]. rewrite <- Ep.
  apply (supervisor_owns_children s Hs). by right; right; right.
Defined.

End SupervisorProps.
