(* ===== verification/TourPool.v ===== *)
(** * TourPool: [rain_tour/examples/thread/thread_pool_futures.cpp]

    The tour's job pool: a queue, one mutex and one condition variable; workers
    that drain the queue before they stop; futures that receive what a job
    returns or throws.  Each critical section is one step; a client that has
    released the mutex may be delayed before it notifies, a sleeping worker may
    wake for no reason.  A job of [T] yields [run_job] of it. *)

From S2P Require Import Prelude.

Module TourPool.

Section Pool.
Context {T R : Type}.

(** What a job leaves in its future: its value, or the exception. *)
Inductive Outcome := Value (r : R) | Thrown.

Variable run_job : T -> Outcome.

(** Where the caller of [shutdown] is. *)
Inductive Phase := Open | Stopping | Joining | Returned.

(** [awake]: workers about to test the predicate of [wait], [asleep]: inside
    it; [busy]: the jobs being run; [notifies]: clients before [notify_one];
    [futures]: the jobs accepted with the state of their future. *)
Record Pool := mkPool {
  jobs_ : list nat; stopping_ : bool; awake : nat; asleep : nat; busy : list nat; exited : nat;
  notifies : nat; phase : Phase; futures : list (T * option Outcome)
}.

(** The constructor starts [workers] threads. *)
Definition make_pool (workers : nat) : Pool := mkPool [] false workers 0 [] 0 0 Open [].

(** [submit] up to the end of its critical section; [None]: it throws.  A job
    is the index of its future. *)
Definition submit (job : T) (p : Pool) : option (nat * Pool) :=
  if stopping_ p then None
  else
    let fut := length (futures p) in
    Some (fut, mkPool (jobs_ p ++ [fut]) (stopping_ p) (awake p) (asleep p) (busy p) (exited p) (S (notifies p)) (phase p)
                 (futures p ++ [(job, None)])).

(** [cv_.notify_one()] of a client. *)
Definition notify_one (p : Pool) : Pool :=
  match asleep p with
  | O => mkPool (jobs_ p) (stopping_ p) (awake p) 0 (busy p) (exited p) (pred (notifies p)) (phase p) (futures p)
  | S n => mkPool (jobs_ p) (stopping_ p) (S (awake p)) n (busy p) (exited p) (pred (notifies p)) (phase p) (futures p)
  end.

(** The critical section of [shutdown]: [false] for a caller that finds the
    pool stopping and returns. *)
Definition shutdown_begin (p : Pool) : bool * Pool :=
  if stopping_ p then (false, p)
  else (true, mkPool (jobs_ p) true (awake p) (asleep p) (busy p) (exited p) (notifies p) Stopping (futures p)).

Definition notify_all (p : Pool) : Pool :=
  mkPool (jobs_ p) (stopping_ p) (awake p + asleep p) 0 (busy p) (exited p) (notifies p) Joining (futures p).

(** A worker, awake and holding the mutex: sleep, leave, or take a job. *)
Definition worker_turn (p : Pool) : Pool :=
  let awake' := pred (awake p) in
  match jobs_ p with
  | [] =>
    if stopping_ p
    then mkPool [] true awake' (asleep p) (busy p) (S (exited p)) (notifies p) (phase p) (futures p)
    else mkPool [] false awake' (S (asleep p)) (busy p) (exited p) (notifies p) (phase p) (futures p)
  | j :: js => mkPool js (stopping_ p) awake' (asleep p) (busy p ++ [j]) (exited p) (notifies p) (phase p) (futures p)
  end.

(** [job()]: the [packaged_task] stores the outcome of [run_job]. *)
Definition complete (j : nat) (fs : list (T * option Outcome)) : list (T * option Outcome) :=
  alter (fun x => (x.1, Some (run_job x.1))) j fs.

Definition worker_finish (j : nat) (rest : list nat) (p : Pool) : Pool :=
  mkPool (jobs_ p) (stopping_ p) (S (awake p)) (asleep p) rest (exited p) (notifies p) (phase p) (complete j (futures p)).

Definition wake_up (p : Pool) : Pool :=
  mkPool (jobs_ p) (stopping_ p) (S (awake p)) (pred (asleep p)) (busy p) (exited p) (notifies p) (phase p) (futures p).

Definition joined (p : Pool) : Pool :=
  mkPool (jobs_ p) (stopping_ p) (awake p) (asleep p) (busy p) (exited p) (notifies p) Returned (futures p).

(** Steps of the workers. *)
Inductive worker_step : Pool -> Pool -> Prop :=
| w_turn p : (0 < awake p)%nat -> worker_step p (worker_turn p)
| w_finish p j l1 l2 : busy p = l1 ++ j :: l2 -> worker_step p (worker_finish j (l1 ++ l2) p).

(** [workers]: how many threads [join] waits for. *)
Inductive step (workers : nat) : Pool -> Pool -> Prop :=
| s_worker p p' : worker_step p p' -> step workers p p'
| s_spurious p : (0 < asleep p)%nat -> step workers p (wake_up p)
| s_submit p job fut p' : submit job p = Some (fut, p') -> step workers p p'
| s_notify p : (0 < notifies p)%nat -> step workers p (notify_one p)
| s_shutdown p p' : shutdown_begin p = (true, p') -> step workers p p'
| s_notify_all p : phase p = Stopping -> step workers p (notify_all p)
| s_join p : phase p = Joining -> exited p = workers -> step workers p (joined p).

(** ** The invariant *)

(** No worker sleeps through work: while one is asleep there are workers awake
    or notifications to come for every queued job; the jobs queued and running
    are those whose future is empty, each once. *)
Record Inv (workers : nat) (p : Pool) : Prop := {
  inv_workers : (awake p + asleep p + length (busy p) + exited p = workers)%nat;
  inv_awake : (0 < asleep p -> length (jobs_ p) <= awake p + notifies p)%nat;
  inv_open : stopping_ p = match phase p with Open => false | _ => true end;
  inv_joining : phase p = Joining \/ phase p = Returned -> asleep p = 0%nat;
  inv_exited : (0 < exited p)%nat -> stopping_ p = true /\ jobs_ p = [];
  inv_returned : phase p = Returned -> exited p = workers;
  inv_unique : NoDup (busy p ++ jobs_ p);
  inv_futures j : j ∈ busy p ++ jobs_ p <-> exists job, futures p !! j = Some (job, None);
  inv_values j job o : futures p !! j = Some (job, Some o) -> o = run_job job;
}.

Lemma Pool_init workers : Inv workers (make_pool workers).
Proof.
  split; cbn; try lia; try done.
  - constructor.
  - intros j. split; [by intros []%not_elem_of_nil|by intros []].
Qed.

Lemma complete_lookup j fs i :
  complete j fs !! i = if decide (i = j) then (fun x => (x.1, Some (run_job x.1))) <$> fs !! i else fs !! i.
Proof. unfold complete. rewrite list_lookup_alter. repeat case_decide; subst; done. Qed.

Lemma Pool_turn workers p : (0 < awake p)%nat -> Inv workers p -> Inv workers (worker_turn p).
Proof.
  intros Ha [H1 H2 H3 H4 H5 H6 H7 H8 H9]. unfold worker_turn. destruct (jobs_ p) as [|j js] eqn:Ej.
  - destruct (stopping_ p) eqn:Es; split; cbn; try done; try lia.
    + intros Hp. specialize (H6 Hp). lia.
    + by intros [Hp|Hp]; rewrite Hp in H3.
  - split; cbn; try done.
    + rewrite length_app. cbn. lia.
    + intros Hs. specialize (H2 Hs). cbn in H2. lia.
    + intros He. by destruct (H5 He).
    + by rewrite <- app_assoc.
    + intros i. by rewrite <- app_assoc.
Qed.

Lemma Pool_finish workers p j l1 l2 :
  busy p = l1 ++ j :: l2 -> Inv workers p -> Inv workers (worker_finish j (l1 ++ l2) p).
Proof.
  intros Eb [H1 H2 H3 H4 H5 H6 H7 H8 H9]. rewrite Eb in *.
  assert (l1 ++ j :: l2 ++ jobs_ p ≡ₚ j :: (l1 ++ l2) ++ jobs_ p) as Hperm.
  { rewrite <- app_assoc. symmetry. apply Permutation_middle. }
  replace ((l1 ++ j :: l2) ++ jobs_ p) with (l1 ++ j :: l2 ++ jobs_ p) in * by (by rewrite <- app_assoc).
  rewrite Hperm in H7. apply NoDup_cons in H7 as [Hj H7].
  split; cbn; try done.
  - rewrite length_app in *. cbn in *. lia.
  - intros Hs. specialize (H2 Hs). lia.
  - intros i. rewrite complete_lookup. destruct (decide (i = j)) as [->|Hn].
    + split; [done|]. intros [job Hf]. by destruct (futures p !! j).
    + rewrite <- H8. rewrite Hperm. rewrite elem_of_cons. naive_solver.
  - intros i job o. rewrite complete_lookup. destruct (decide (i = j)) as [->|Hn]; [|apply H9].
    destruct (futures p !! j) as [[job' o']|]; cbn; [|done]. by intros [= -> <-].
Qed.

Lemma Pool_step workers p p' : step workers p p' -> Inv workers p -> Inv workers p'.
Proof.
  intros Hs. destruct Hs as [p p' Hw|p Ha|p job fut p' Es|p Hn|p p' Es|p Hp|p Hp He]; intros I.
  - destruct Hw; [by apply Pool_turn|by eapply Pool_finish].
  - destruct I. split; cbn; try done; try lia. intros Hp. rewrite inv_joining0 in Ha by done. lia.
  - unfold submit in Es. destruct (stopping_ p) eqn:E; [done|]. injection Es as <- <-. destruct I as [H1 H2 H3 H4 H5 H6 H7 H8 H9].
    assert (length (futures p) ∉ busy p ++ jobs_ p) as Hni.
    { rewrite H8. intros [job' Hl]. apply lookup_lt_Some in Hl. lia. }
    split; cbn; try done; try lia.
    + intros Hs. specialize (H2 Hs). rewrite length_app. cbn. lia.
    + congruence.
    + intros He. destruct (H5 He). congruence.
    + rewrite app_assoc. apply NoDup_app. split; [done|]. split; [|apply NoDup_singleton].
      intros x Hx ->%list_elem_of_singleton. done.
    + intros j. rewrite app_assoc, elem_of_app, list_elem_of_singleton, H8. split.
      * intros [[job' Hl]| ->]; [exists job'; by apply lookup_app_l_Some|exists job]. by rewrite lookup_app_r, Nat.sub_diag by lia.
      * intros [job' [Hl|[Hge Hl]]%lookup_app_Some]; [eauto|]. right. apply list_lookup_singleton_Some in Hl as [? _]. lia.
    + intros j job' o [Hl|[_ Hl]]%lookup_app_Some; [eauto|]. by apply list_lookup_singleton_Some in Hl as [_ [= _ ?]].
  - unfold notify_one. destruct I. destruct (asleep p) as [|n] eqn:Ea; split; cbn; try done; try lia.
    intros Hp. specialize (inv_joining0 Hp). lia.
  - unfold shutdown_begin in Es. destruct (stopping_ p) eqn:E; [done|]. injection Es as <-. destruct I.
    split; cbn; try done; try lia.
    + by intros [].
    + intros He. by destruct (inv_exited0 He).
  - destruct I. split; cbn; try done; try lia; rewrite ?Hp in *; try done.
  - destruct I. split; cbn; try done; try lia. by rewrite inv_open0, Hp.
Qed.

Lemma Pool_steps workers p : rtc (step workers) (make_pool workers) p -> Inv workers p.
Proof.
  intros Hs. assert (forall a b, rtc (step workers) a b -> Inv workers a -> Inv workers b) as Hr by (induction 1; eauto using Pool_step).
  eapply Hr, Pool_init. done.
Qed.

(** What the workers have left to do once the pool is stopping. *)
Definition work_left (p : Pool) : nat := 3 * length (jobs_ p) + 2 * length (busy p) + awake p.

(** The pool drains, given at least one worker.  While jobs are queued some worker is awake or running,
    or a notification is on its way; once [shutdown] has notified, workers that
    have not left can always go on, each of their steps leaves less to do, and
    joining ends; and when [shutdown] has returned every future holds what its
    own job returned or threw. *)
Theorem tour_pool_drains workers p :
  (0 < workers)%nat -> rtc (step workers) (make_pool workers) p ->
  (jobs_ p <> [] -> (0 < awake p)%nat \/ busy p <> [] \/ (0 < notifies p)%nat) /\
  (phase p = Joining ->
    (exited p = workers \/ exists p', worker_step p p') /\
    forall p', worker_step p p' -> (work_left p' < work_left p)%nat) /\
  (phase p = Returned -> forall j job o, futures p !! j = Some (job, o) -> o = Some (run_job job)).
Proof.
  intros Hw [H1 H2 H3 H4 H5 H6 H7 H8 H9]%Pool_steps. split; [|split].
  - intros Hj. destruct (jobs_ p) as [|x js] eqn:Ej; [done|]. destruct (busy p) as [|b bs]; [|by right; left].
    destruct (decide (0 < exited p)%nat) as [He|He]; [by destruct (H5 He)|].
    destruct (decide (0 < asleep p)%nat) as [Hs|Hs]; [specialize (H2 Hs)|]; cbn in *; lia.
  - intros Hp. rewrite Hp in H3. specialize (H4 (or_introl Hp)). split.
    + destruct (decide (0 < awake p)%nat); [right; eexists; by apply w_turn|].
      destruct (busy p) as [|j l] eqn:Eb; [left; cbn in H1; lia|]. right. eexists. by apply (w_finish p j [] l).
    + intros p' Hs. unfold work_left. inversion Hs as [? Ha|? j l1 l2 Eb]; subst.
      * unfold worker_turn. rewrite H3. destruct (jobs_ p); cbn; rewrite ?length_app; cbn; lia.
      * cbn. rewrite Eb, !length_app. cbn. lia.
  - intros Hp j job o Hf. assert (busy p ++ jobs_ p = []) as Hnil.
    { specialize (H6 Hp). specialize (H4 (or_intror Hp)). destruct (busy p); [|cbn in H1; lia].
      apply H5. lia. }
    destruct o as [o|]; [f_equal; eauto|]. assert (j ∈ busy p ++ jobs_ p) as Hin by (apply H8; eauto).
    rewrite Hnil in Hin. by apply not_elem_of_nil in Hin.
Qed.

End Pool.
End TourPool.
